(* ===== verification/_CoqProject ===== *)
-Q . S2P
Prelude.v
Utf8.v
Timer.v
LabGob.v
LabRpc.v
LabRpcInv.v
RandString.v
Gob.v
GobWire.v
Persister.v
Raft.v
Vote.v
Entry.v
Replication.v
Cluster.v
RaftNet.v
RaftNetInv.v
RaftNetSim.v
ClusterInv.v
Election.v
ElectionNet.v
Steady.v
RaftProps.v
ClusterProps.v
Tester.v
NetProps.v
TesterProps.v
TesterRun.v
MrUtil.v
MrApps.v
MrJson.v
MrGroup.v
MrFiles.v
MrTiming.v
MrWorker.v
MrJob.v
MrActions.v
MrMaster.v
MrMasterInv.v
MrSystem.v
MrSystemInv.v
MrFine.v
MrFineInv.v
MrMain.v
MrProps.v
MrFineProps.v
MrMainProps.v
