(* ===== verification/Prelude.v ===== *)
(** * MIT 6.824 labs: verification library

    The repository holds two systems in Go: MapReduce
    ([lab1_mapreduce]) and Raft ([lab2_raft]).  This library models both
    from their source and proves what makes them correct, and where they are
    not, computes executions that show it.

    ** The programs

    Raft.  A peer ([raft/raft.go]) keeps a term, a vote, a log, commit and
    apply indices, and for every peer a next and a match index, all under one
    mutex.  [vote.go] has the RequestVote handler and the campaign of a
    candidate, [entry.go] the AppendEntries handler and the leader's
    heartbeats, which carry the log.  Term, vote and log go to a [Persister]
    ([persister.go]) through [labgob].  [Make] starts the goroutines that
    campaign, send heartbeats and apply committed commands; peers call each
    other over [labrpc]; the tester ([config.go]) crashes and restarts them.

    MapReduce.  A master ([mr/master.go]) hands file names to workers
    ([mr/worker.go]) as tasks, first the input files, then one glob pattern
    per reduce task, puts the tasks of silent workers in error and hands them
    out again.  A worker maps a file into one JSON file per reduce task, or
    merges the files of one reduce task, sorts, groups and reduces them.
    [main/mrsequential.go] does the same in one process; [mrapps] are the
    applications.

    ** Files

    - [Prelude]: Go slices indexed by integers; outcomes of a step (disabled,
      panic, done) and their monad; shared lemmas and tactics.
    - [Utf8]: decoding of UTF-8 as Go does it.
    - [Timer]: Go timers as [util.go] uses them; the timing constants.
    - [LabGob]: [labgob.go], the checks around [encoding/gob].
    - [LabRpc]: [labrpc.go], all goroutines of all calls as a step function of
      events.  [LabRpcInv]: its invariants.
    - [RandString]: [randstring] and [makeSeed] of [config.go], with base64.
    - [Gob], [GobWire]: what persistence needs of an encoder, as a class, and
      the gob wire format as an instance.
    - [Persister]: [persister.go].
    - [Raft]: the record [Raft], [GetState], [Start], [Kill], [persist],
      [readPersist], [Make], [changeRole], the body of the apply loop.
    - [Vote]: [RequestVote]; [startElection], split at its calls into
      [election_begin], [election_reply] and [election_end].
    - [Entry]: [AppendEntries], [getAppendLogs], [commitLog];
      [SendHeartbeat], split into [heartbeat_args] and [heartbeat_reply].
    - [Replication]: rounds of heartbeats between a leader and a follower.
    - [Cluster]: the goroutines of all peers, the messages in flight, crashes
      and restarts, as a step function of events.  It is the abstract network
      most Raft theorems are about.
    - [RaftNet]: the system as the tester runs it: Raft instances that call
      each other through [LabRpc], are disconnected, killed and replaced.
      [RaftNetInv]: its invariant.  [RaftNetSim]: the simulation by [Cluster].
    - [ClusterInv]: invariants of all executions of [Cluster].  [Election]:
      votes, ballots and leadership.  [ElectionNet]: the same over [RaftNet].
      [Steady]: executions in which one leader reigns.
    - [RaftProps], [ClusterProps]: the Raft theorems and their instances.
    - [Tester]: [config.go], the tester's record, operations and checks.
    - [NetProps], [TesterProps]: the theorems about [labgob], [labrpc], Raft
      over [labrpc] and the tester, and their instances.  [TesterRun]: that
      the tester's operations return.
    - [MrUtil]: [mr/util.go], [mr/rpc.go], key/value pairs, sorting.
    - [MrApps]: [mrapps], with [strings.FieldsFunc].
    - [MrJson]: the intermediate files, as a class and a format.
    - [MrGroup]: the grouping loop and what it computes.
    - [MrFiles]: file names, glob patterns, the shared directory.
    - [MrTiming]: [mrapps/mtiming.go] and [rtiming.go], with [fmt.Sscanf].
    - [MrWorker]: [doMap], [doReduce] and the task loop, in a monad of the
      directory, the reports to the master, panics and exits.
    - [MrJob]: [mrsequential], and jobs with crashing and repeated tasks.
    - [MrActions]: the tasks as trees of system calls.
    - [MrMaster]: the handlers of the master and its goroutines as a step
      function of events.  [MrMasterInv]: its invariants.
    - [MrSystem]: master, worker processes and the directory as one system,
      with calls that time out and workers that die.  [MrSystemInv]: what
      finished tasks have left in the directory.
    - [MrFine]: the same system with tasks that run one system call at a time.
      [MrFineInv]: its invariant.
    - [MrMain]: the programs in [main], plugins, the methods the master serves.
    - [MrProps], [MrFineProps], [MrMainProps]: the MapReduce theorems and
      their instances.

    ** Conventions

    Go's [int] is [Z]; terms and indices grow by one per event, so overflow
    of 64 bits is out of reach and not modelled, while [uint32] task IDs and
    the counters of [labrpc] wrap around ([uint32], [int32], [int64]).  An
    index or slice expression out of range is [None] and means that the Go program panics.  A random draw is an argument.  A
    timer has no clock: its expiry is an event that may happen whenever the
    timer is armed, so everything proved holds for all timings.  Loops with
    an index use the number of iterations as fuel ([commit_loop]) or fuel
    that is proved to suffice ([reduce_all_spec], [runes_loop_concat]; one
    more than the number of types for [checkType], [check_type_visits]).  In
    [LabRpc], [RaftNet] and [Tester] a step that cannot be taken now is
    [Disabled] and a panic or fatal error [Panic].
    Standard library code whose result is not determined (sorting with equal
    keys, map iteration order) or whose tables are data (Unicode letters) is
    a class or a parameter with the documented contract and an instance.

    The mutex of a peer decides what interleaves.  [startElection] and
    [SendHeartbeat] hold it during their calls, so they are sequences of
    steps during which the peer's other critical sections wait; [Start] takes
    it twice.  The master has no lock around its tasks: a handler that loads a
    task and stores it is two steps, and so is what the sweep does with a
    silent task before it stores it; [GetTask] also blocks on a channel and
    reads the phase in a step of its own.

    ** What the theorems show

    Handlers ([RaftProps]): what [RequestVote] and [startElection] do for all
    states and replies; that [AppendEntries] and [commitLog] follow the rules
    their comments quote, [AppendEntries] unless an entry is sent that the log
    already holds, [commitLog] unless a majority reaches an entry of an earlier
    term; that a restart restores term, vote and log; that heartbeat rounds
    replicate the leader's log as long as its [nextIndex] is the length of the
    follower's log or past its own ([replication_converges]).

    All executions ([ClusterProps]): no peer votes for two others in a term,
    and, the vote for itself counted, none votes twice unless it crashes while
    it leads or campaigns or is a leader demoted by its own timer
    ([vote_once]; [votes_for_itself_and_another] shows the exceptions); every
    election won has a recorded majority; the saved term never falls, nor does
    a term in memory outside elections; a crash outside an election recovers
    term, vote and log; only the apply loop can panic; a mutex held during
    calls is always released; commands are applied with consecutive indices.  Election safety holds of the executions that
    avoid three events, and for two of them there is an execution in which it
    fails: a leader that crashes forgets its vote, and a candidate that has
    learnt of a higher term can still win and lead that term.  While one
    leader reigns, from a state in which all logs are prefixes of its log and
    without new elections, restarts or lost replies to an append, the applied
    commands agree, committed entries are on a majority and nothing panics
    ([reign_agreement]).

    Executions that go wrong: a retransmitted batch is appended twice, after
    which peers apply different commands at the same index, a committed entry
    is lost, and the apply loop of a peer panics; a deposed leader finishes
    its round of heartbeats with the new term.

    Network ([NetProps]).  A call returns unless its handler blocks on a live
    server; its handler runs at most once, and exactly once if it returns
    true; nothing computed after a server was deleted is handed out; a call
    over a reliable, connected end does not fail, one over a disabled end
    never reaches a handler.  [checkType] terminates on recursive types and
    complains about exactly the lower-case fields it can reach; the types Raft
    sends have none.  Every execution of Raft over [labrpc], killed instances
    running on included, is simulated by one of [Cluster]
    ([raft_refines_cluster]), so what holds of all executions of [Cluster]
    holds there: no server votes for two others in a term
    ([vote_once_over_labrpc]), and, in clean executions, at most one server
    leads a term ([election_safety_over_labrpc]).

    Tester ([TesterProps], [TesterRun]).  Its operations all return exactly if
    no two names are drawn from the same 15 bytes.  The ends between two servers are enabled exactly
    if both are connected; the check of applied commands accepts exactly the
    sequences in which servers agree and apply in order, so it finds the
    diverging execution of [ClusterProps]; [checkOneLeader] returns the leader
    of the largest term and never finds two of one term in a clean execution
    over [labrpc]; what [one] returns was accepted by a connected leader and
    has been applied by enough servers.  A
    check looks at one server after the other while the system goes on.

    MapReduce ([MrProps], [MrFineProps], [MrMainProps]): whatever workers do, every input file and every
    reduce index belongs to exactly one task; if the scheduler's sleep is
    long enough, reducing starts after all files are mapped; the output of a
    job with crashing and repeated tasks has exactly the lines of the
    sequential program; and in every execution of master and workers
    together in which these sleeps are long enough, once [Done] returns true,
    the output files hold these lines
    ([job_correct], with tasks in one piece).  One system call at a time the job is
    correct if no file is read while it is being written and the scheduler's
    sleeps are long enough ([job_correct_in_pieces]), so the programs print
    the same lines ([programs_agree]); a task whose worker is silent is handed
    out again ([silent_task_retried]); word count counts words; [nparallel] counts the
    workers that run at the same time.  Executions that go wrong:
    a panic in the application is reported as success, an undecodable file is
    dropped with all later ones, the ID of a live worker is handed out again,
    the report of a finished task is overwritten by the sweep,
    an input file is handed out as a reduce task, a reduce task reads a file
    that a slow worker has just truncated, and its words are lost.

    ** Not modelled

    Clocks and durations beyond the order of events; data races on replies
    that arrive after a time-out; [isTasksDone] meeting tasks at different
    moments (it visits them in one step); the time at which a handler reads the
    clock (the [BeatTime] of a task is the time of its [Store], and a
    heartbeat's is also set at once); [encoding/gob] beyond the parts that
    [GobWire] writes out; log messages and printing, and the goroutine of
    [Make] that only prints; reading a file in several pieces, and writes that
    fail half-way other than by the death of the process; the tests. *)

From stdpp Require Export base list list_numbers option strings numbers gmap sorting.
From Stdlib Require Export ZArith Lia.

#[global] Open Scope Z_scope.

(** ** Go slices indexed by [int]

    Go's [int] is modelled by [Z].  An index or slice expression that would
    make the Go program panic is [None]; the handlers live in stdpp's option
    monad ([x ← e; k]), so [None] propagates exactly as a run-time panic. *)

(** [len(l)] *)
Definition zlen {A} (l : list A) : Z := Z.of_nat (length l).

(** [l[i]] *)
Definition zidx {A} (l : list A) (i : Z) : option A :=
  if 0 <=? i then l !! Z.to_nat i else None.

(** [l[i] = x] *)
Definition zset {A} (l : list A) (i : Z) (x : A) : option (list A) :=
  if (0 <=? i) && (i <? zlen l) then Some (<[Z.to_nat i := x]> l) else None.

(** [l[:i]] (used below the length only, so the capacity plays no part) *)
Definition ztake {A} (l : list A) (i : Z) : option (list A) :=
  if (0 <=? i) && (i <=? zlen l) then Some (take (Z.to_nat i) l) else None.

(** [l[i:]] *)
Definition zdrop {A} (l : list A) (i : Z) : option (list A) :=
  if (0 <=? i) && (i <=? zlen l) then Some (drop (Z.to_nat i) l) else None.

(** [make([]int, n)] *)
Definition zmake (n : nat) : list Z := replicate n 0.

Declare Scope go_scope.
Delimit Scope go_scope with go.
Notation "a >? b" := (Z.ltb b a) : go_scope.
Notation "a !=? b" := (negb (Z.eqb a b)) (at level 70) : go_scope.

(** ** Outcomes of a step *)

(** [Disabled]: the event cannot happen now (for instance the mutex is
    held); [Panic]: it happens and the Go program panics or leaves through
    [log.Fatal]. *)
Inductive Outcome (A : Type) :=
  | Disabled
  | Panic
  | Ok (a : A).
Arguments Disabled {A}.
Arguments Panic {A}.
Arguments Ok {A} a.

#[export] Instance Outcome_ret : MRet Outcome := fun A => Ok.
#[export] Instance Outcome_bind : MBind Outcome := fun A B k o =>
  match o with Disabled => Disabled | Panic => Panic | Ok a => k a end.

Definition enabled {A} (o : option A) : Outcome A :=
  match o with Some a => Ok a | None => Disabled end.
Definition run {A} (o : option A) : Outcome A :=
  match o with Some a => Ok a | None => Panic end.
Definition guard_step (b : bool) : Outcome unit := if b then Ok tt else Disabled.

(** ** Tactics *)

Create HintDb go.
Create Rewrite HintDb go.

(** Turn boolean comparisons in the context into propositions. *)
Ltac bool_to_prop :=
  repeat match goal with
  | H : (_ && _)%bool = true |- _ => apply andb_true_iff in H; destruct H
  | H : (_ || _)%bool = false |- _ => apply orb_false_iff in H; destruct H
  | H : (_ || _)%bool = true |- _ => apply orb_true_iff in H
  | H : (_ && _)%bool = false |- _ => apply andb_false_iff in H
  | H : negb _ = true |- _ => apply negb_true_iff in H
  | H : negb _ = false |- _ => apply negb_false_iff in H
  | H : (_ <? _) = true |- _ => apply Z.ltb_lt in H
  | H : (_ <? _) = false |- _ => apply Z.ltb_ge in H
  | H : (_ <=? _) = true |- _ => apply Z.leb_le in H
  | H : (_ <=? _) = false |- _ => apply Z.leb_gt in H
  | H : (_ =? _) = true |- _ => apply Z.eqb_eq in H
  | H : (_ =? _) = false |- _ => apply Z.eqb_neq in H
  | H : bool_decide _ = true |- _ => apply bool_decide_eq_true in H
  | H : bool_decide _ = false |- _ => apply bool_decide_eq_false in H
  end.

(** Case analysis on every [if]/[match] scrutinee of a hypothesis. *)
Ltac split_match_in H :=
  repeat match type of H with
  | context [match ?x with _ => _ end] =>
      let E := fresh "E" in destruct x eqn:E; simplify_eq/=
  end.

Ltac split_match :=
  repeat match goal with
  | |- context [match ?x with _ => _ end] =>
      let E := fresh "E" in destruct x eqn:E; simplify_eq/=
  end.

(** Take apart steps that succeeded. *)
Lemma bind_Ok {A B} (o : Outcome A) (f : A -> Outcome B) b :
  (o ≫= f) = Ok b -> exists a, o = Ok a /\ f a = Ok b.
Proof. destruct o; naive_solver. Qed.

Lemma enabled_Ok {A} (o : option A) a : enabled o = Ok a -> o = Some a.
Proof. destruct o; naive_solver. Qed.

Lemma run_Ok {A} (o : option A) a : run o = Ok a -> o = Some a.
Proof. destruct o; naive_solver. Qed.

Lemma guard_Ok b u : guard_step b = Ok u -> b = true.
Proof. by destruct b. Qed.

Ltac outcome_inv :=
  repeat match goal with
  | H : (_ ≫= _) = Ok _ |- _ =>
      let a := fresh "x" in let E := fresh "E" in
      apply bind_Ok in H; destruct H as (a & E & H)
  | H : enabled _ = Ok _ |- _ => apply enabled_Ok in H
  | H : run _ = Ok _ |- _ => apply run_Ok in H
  | H : guard_step _ = Ok _ |- _ => apply guard_Ok in H
  | H : Panic = Ok _ |- _ => discriminate H
  | H : Disabled = Ok _ |- _ => discriminate H
  | H : Ok _ = Ok _ |- _ => injection H; clear H; intros; subst
  | H : match ?x with _ => _ end = Ok _ |- _ =>
      let E := fresh "E" in destruct x eqn:E; cbn beta iota in H; try discriminate H
  end.

(** ** Lists *)

Section slices.
Context {A : Type}.
Implicit Types l : list A.

Lemma zlen_nil : zlen (@nil A) = 0.
Proof. done. Qed.

Lemma zlen_cons x l : zlen (x :: l) = zlen l + 1.
Proof. unfold zlen. simpl. lia. Qed.

Lemma zlen_nonneg l : 0 <= zlen l.
Proof. unfold zlen. lia. Qed.

Lemma zlen_app l k : zlen (l ++ k) = zlen l + zlen k.
Proof. unfold zlen. rewrite length_app. lia. Qed.

Lemma zlen_take l i : zlen (take i l) = Z.min (Z.of_nat i) (zlen l).
Proof. unfold zlen. rewrite length_take. lia. Qed.

Lemma zlen_insert l i x : zlen (<[i := x]> l) = zlen l.
Proof. unfold zlen. by rewrite length_insert. Qed.

Lemma zidx_Some l i x :
  zidx l i = Some x <-> 0 <= i < zlen l /\ l !! Z.to_nat i = Some x.
Proof.
  unfold zidx, zlen. destruct (Z.leb_spec 0 i); split.
  - intros Hx. pose proof (lookup_lt_Some _ _ _ Hx). split; [lia|done].
  - naive_solver.
  - done.
  - intros [? ?]. lia.
Qed.

Lemma zidx_is_Some l i : is_Some (zidx l i) <-> 0 <= i < zlen l.
Proof.
  split.
  - intros [x Hx]. apply zidx_Some in Hx. tauto.
  - intros Hi. destruct (lookup_lt_is_Some_2 l (Z.to_nat i)) as [x Hx].
    { unfold zlen in Hi. lia. }
    exists x. apply zidx_Some. done.
Qed.

Lemma zidx_None l i : zidx l i = None <-> ~ 0 <= i < zlen l.
Proof. rewrite <-zidx_is_Some. apply eq_None_not_Some. Qed.

Lemma zidx_app_l l k i : i < zlen l -> zidx (l ++ k) i = zidx l i.
Proof.
  intros Hi. unfold zidx. destruct (Z.leb_spec 0 i); [|done].
  apply lookup_app_l. unfold zlen in Hi. lia.
Qed.

Lemma zidx_take l i j : 0 <= i < j -> zidx (take (Z.to_nat j) l) i = zidx l i.
Proof.
  intros Hi. unfold zidx. destruct (Z.leb_spec 0 i); [|done].
  apply lookup_take_lt. lia.
Qed.

Lemma zset_Some l i x l' :
  zset l i x = Some l' <-> 0 <= i < zlen l /\ l' = <[Z.to_nat i := x]> l.
Proof.
  unfold zset. destruct (Z.leb_spec 0 i), (Z.ltb_spec i (zlen l)); simpl;
    split; intros; destruct_and?; simplify_eq; try lia; split; (lia || done).
Qed.

Lemma zset_is_Some l i x : 0 <= i < zlen l -> is_Some (zset l i x).
Proof. intros Hi. eexists. by apply zset_Some. Qed.

Lemma ztake_Some l i l' :
  ztake l i = Some l' <-> 0 <= i <= zlen l /\ l' = take (Z.to_nat i) l.
Proof.
  unfold ztake. destruct (Z.leb_spec 0 i), (Z.leb_spec i (zlen l)); simpl;
    split; intros; destruct_and?; simplify_eq; try lia; split; (lia || done).
Qed.

Lemma zdrop_Some l i l' :
  zdrop l i = Some l' <-> 0 <= i <= zlen l /\ l' = drop (Z.to_nat i) l.
Proof.
  unfold zdrop. destruct (Z.leb_spec 0 i), (Z.leb_spec i (zlen l)); simpl;
    split; intros; destruct_and?; simplify_eq; try lia; split; (lia || done).
Qed.

Lemma last_zidx l x : last l = Some x <-> zidx l (zlen l - 1) = Some x.
Proof.
  rewrite last_lookup, zidx_Some. unfold zlen.
  replace (Z.to_nat (Z.of_nat (length l) - 1)) with (pred (length l)) by lia.
  split; [|tauto]. intros Hx. pose proof (lookup_lt_Some _ _ _ Hx).
  split; [lia|done].
Qed.
End slices.

#[export] Hint Rewrite @zlen_nil @zlen_cons @zlen_app @zlen_take @zlen_insert : go.
#[export] Hint Resolve zlen_nonneg : go.

(** ** Quorums: two duplicate-free majorities of [0..n-1] share a member. *)

Lemma majorities_intersect (n : nat) (V W : list nat) :
  NoDup V -> NoDup W ->
  (forall v, v ∈ V -> (v < n)%nat) -> (forall v, v ∈ W -> (v < n)%nat) ->
  (n < 2 * length V)%nat -> (n < 2 * length W)%nat ->
  exists v, v ∈ V /\ v ∈ W.
Proof.
  intros HV HW HVn HWn HlV HlW.
  destruct (decide (Exists (fun v => v ∈ W) V)) as [He|He].
  { apply Exists_exists in He. naive_solver. }
  exfalso.
  assert (HVW : NoDup (V ++ W)).
  { apply NoDup_app. split_and!; [done| |done].
    intros v Hv Hw. apply He, Exists_exists. eauto. }
  assert (Hle : (length (V ++ W) <= length (seq 0 n))%nat).
  { apply submseteq_length, NoDup_submseteq; [done|].
    intros v [Hv|Hv]%elem_of_app; apply elem_of_seq; naive_solver lia. }
  rewrite length_app, length_seq in Hle. lia.
Qed.
