(* ===== verification/Utf8.v ===== *)
(** * UTF-8

    Go's [utf8.DecodeRuneInString] and the [range] loop over a string, which
    [mrapps/wc.go] uses through [strings.FieldsFunc] and [labgob/labgob.go] to
    look at the first rune of a field name. *)

From S2P Require Import Prelude.

(** [utf8.DecodeRuneInString]: a rune and its width; an invalid sequence is
    [RuneError] of width 1. *)
Definition RuneError : Z := 0xFFFD.

Definition between (lo hi b : Z) : bool := (lo <=? b) && (b <=? hi).

Definition cont (b : Z) : Z := Z.land b 0x3F.

(** The legal range of the second byte after a given lead byte. *)
Definition second_ok (b0 b1 : Z) : bool :=
  if b0 =? 0xE0 then between 0xA0 0xBF b1
  else if b0 =? 0xED then between 0x80 0x9F b1
  else if b0 =? 0xF0 then between 0x90 0xBF b1
  else if b0 =? 0xF4 then between 0x80 0x8F b1
  else between 0x80 0xBF b1.

Definition decode_rune (l : list Z) : Z * nat :=
  match l with
  | [] => (RuneError, 0%nat)
  | b0 :: l =>
      if b0 <? 0x80 then (b0, 1%nat)
      else match l with
      | b1 :: l =>
          if negb (between 0xC2 0xF4 b0 && second_ok b0 b1) then (RuneError, 1%nat)
          else if b0 <? 0xE0 then (Z.lor (Z.shiftl (Z.land b0 0x1F) 6) (cont b1), 2%nat)
          else match l with
          | b2 :: l =>
              if negb (between 0x80 0xBF b2) then (RuneError, 1%nat)
              else if b0 <? 0xF0 then
                (Z.lor (Z.lor (Z.shiftl (Z.land b0 0x0F) 12) (Z.shiftl (cont b1) 6)) (cont b2), 3%nat)
              else match l with
              | b3 :: _ =>
                  if negb (between 0x80 0xBF b3) then (RuneError, 1%nat)
                  else (Z.lor (Z.lor (Z.shiftl (Z.land b0 0x07) 18) (Z.shiftl (cont b1) 12))
                          (Z.lor (Z.shiftl (cont b2) 6) (cont b3)), 4%nat)
              | [] => (RuneError, 1%nat)
              end
          | [] => (RuneError, 1%nat)
          end
      | [] => (RuneError, 1%nat)
      end
  end.

(** [for i, r := range s]: the runes of a string, each with its bytes.  A
    rune takes at least one byte, so the length of the string is fuel enough. *)
Fixpoint runes_loop (fuel : nat) (s : list Ascii.ascii) : list (Z * list Ascii.ascii) :=
  match fuel, s with
  | S fuel, _ :: _ =>
      let '(r, w) := decode_rune (map (fun c => Z.of_N (Ascii.N_of_ascii c)) s) in
      (r, take w s) :: runes_loop fuel (drop w s)
  | _, _ => []
  end.

Definition runes (s : string) : list (Z * list Ascii.ascii) :=
  let l := String.list_ascii_of_string s in runes_loop (length l) l.

Lemma decode_rune_width b l : (1 <= (decode_rune (b :: l)).2)%nat.
Proof. unfold decode_rune. repeat (case_match; simplify_eq/=; try lia). Qed.

(** No byte is lost: the pieces of the loop make up the string. *)
Lemma runes_loop_concat fuel s :
  (length s <= fuel)%nat -> concat (snd <$> runes_loop fuel s) = s.
Proof.
  revert s. induction fuel as [|fuel IH]; intros [|c s] Hf; try done; simpl in Hf; [lia|].
  cbn [runes_loop]. pose proof (decode_rune_width (Z.of_N (Ascii.N_of_ascii c))
    (map (fun c => Z.of_N (Ascii.N_of_ascii c)) s)) as Hw.
  cbn [map]. destruct (decode_rune _) as [r w]. simpl in Hw. cbn [fmap list_fmap concat snd].
  rewrite IH; [apply take_drop|]. rewrite length_drop. simpl. lia.
Qed.

Lemma runes_concat s : concat (snd <$> runes s) = String.list_ascii_of_string s.
Proof. apply runes_loop_concat. done. Qed.
