(* ===== verification/Timer.v ===== *)
(** * Election timer

    [lab2_raft/raft/util.go] ([randTimeout], [resetTimer]) on a model of
    Go's one-shot [time.Timer], and the time constants of [raft.go].
    Durations are [time.Duration], nanosecond counts. *)

From S2P Require Import Prelude.

(** ** Constants of raft.go *)

Definition Millisecond : Z := 1000000.
Definition ElectionTimeout : Z := Millisecond * 500.
Definition RPCTimeout : Z := Millisecond * 200.
Definition HeartbeatInterval : Z := Millisecond * 50.

(** ** [time.Timer]

    [active]: the timer runs and will send on its channel when it expires;
    [chan]: the one-element channel [C] holds an undelivered expiry;
    [dur]: the duration of the last [Reset]. *)
Record Timer := mkTimer { active : bool; chan : bool; dur : Z }.

Definition NewTimer (d : Z) : Timer := mkTimer true false d.

(** [timer.Stop()]: whether the call stopped a running timer. *)
Definition Stop (t : Timer) : bool * Timer :=
  (active t, mkTimer false (chan t) (dur t)).

(** [timer.Reset(d)]: whether the timer was running. *)
Definition Reset (t : Timer) (d : Z) : bool * Timer :=
  (active t, mkTimer true (chan t) d).

(** The runtime: a running timer expires, its send filling the channel. *)
Definition expire (t : Timer) : option Timer :=
  if active t then Some (mkTimer false true (dur t)) else None.

(** [<-timer.C] of a full channel. *)
Definition receive (t : Timer) : option Timer :=
  if chan t then Some (mkTimer (active t) false (dur t)) else None.

(** ** util.go

    [r] is the value drawn by [rand.Int63()].  [Z.rem] is Go's [%]. *)

Definition randTimeout (t r : Z) : Z := t + Z.rem r t.

Definition resetTimer (timer : Timer) (t r : Z) : bool * Timer :=
  let '(stopped, timer) := Stop timer in
  let timer :=
    if negb stopped then default timer (receive timer) else timer in
  Reset timer (randTimeout t r).

(** ** Properties *)

(** One-shot timers: running and expired exclude each other. *)
Definition timer_ok (t : Timer) : Prop := ~ (active t = true /\ chan t = true).

(** Whenever [rand.Int63] returns a value of its documented range, the drawn
    timeout lies in [[t, 2t)]. *)
Lemma randTimeout_bounds (t r : Z) : 0 < t -> 0 <= r -> t <= randTimeout t r < 2 * t.
Proof.
  intros Ht Hr. unfold randTimeout. pose proof (Z.rem_bound_pos r t Hr Ht). lia.
Qed.

(** What the election timer is for: resetting leaves the timer running with
    no stale expiry queued, whatever it was doing before. *)
Lemma resetTimer_spec (timer : Timer) (t r : Z) :
  timer_ok timer ->
  (resetTimer timer t r).2 = mkTimer true false (randTimeout t r).
Proof.
  destruct timer as [[] [] d]; unfold timer_ok; simpl; [|done..].
  intros H. exfalso. by apply H.
Qed.

Lemma resetTimer_ok (timer : Timer) (t r : Z) :
  timer_ok timer -> timer_ok (resetTimer timer t r).2.
Proof. intros H. rewrite resetTimer_spec by done. intros [_ ?]. done. Qed.

Lemma resetTimer_active (timer : Timer) (t r : Z) :
  active (resetTimer timer t r).2 = true.
Proof. by destruct timer as [[] [] d]. Qed.

Lemma expire_ok (t t' : Timer) : expire t = Some t' -> timer_ok t'.
Proof. unfold expire, timer_ok. destruct (active t); intros [= <-] [? ?]; done. Qed.

Lemma receive_ok (t t' : Timer) : receive t = Some t' -> timer_ok t'.
Proof. unfold receive, timer_ok. destruct (chan t); intros [= <-] [? ?]; done. Qed.

#[export] Hint Resolve resetTimer_ok expire_ok receive_ok : go.

Arguments resetTimer : simpl never.

(** Goals [timer_ok ... -> timer_ok (resetTimer ...).2], resets nested. *)
Ltac timer_solve := intros; repeat first [assumption | simpl; apply resetTimer_ok].
