(* ===== verification/LabGob.v ===== *)
(** * The checks of labgob

    [labgob/labgob.go] wraps [encoding/gob] and complains about two mistakes:
    a struct field that gob would not send because its name is lower-case
    ([checkType]), and a variable that already holds a value when something
    is decoded into it ([checkDefault]).

    The types of a program are a table; a [reflect.Type] is an index into it,
    so that types may be recursive.  The package's variables are the record
    [LabGob]; what the package prints is its last field.  Each call is one
    step: [mu] protects every access to the variables. *)

From S2P Require Import Prelude Utf8.

(** ** Results *)

(** [OutOfFuel] is not a behaviour of the program: [check_type_visits] shows
    that it does not occur when the fuel exceeds the number of types. *)
Inductive Result (A : Type) :=
  | OutOfFuel
  | Panicked
  | Done (a : A).
Arguments OutOfFuel {A}.
Arguments Panicked {A}.
Arguments Done {A} a.

#[export] Instance Result_ret : MRet Result := fun A => Done.
#[export] Instance Result_bind : MBind Result := fun A B k r =>
  match r with OutOfFuel => OutOfFuel | Panicked => Panicked | Done a => k a end.

(** ** Types *)

(** [reflect.Kind] of the types without components that [checkDefault1]
    compares with their zero value. *)
Inductive BasicKind :=
  | Bool | Int | Int8 | Int16 | Int32 | Int64
  | Uint | Uint8 | Uint16 | Uint32 | Uint64 | Uintptr
  | Float32 | Float64 | String.

(** [reflect.StructField]; [f_Anonymous] is set for an embedded field. *)
Record StructField := mkField { f_Name : string; f_Type : nat; f_Anonymous : bool }.

Inductive RType :=
  | TBasic (k : BasicKind) (name : string)
  | TStruct (name : string) (fields : list StructField)
  | TSlice (elem : nat)
  | TArray (len : nat) (elem : nat)
  | TPtr (elem : nat)
  | TMap (key elem : nat)
  | TOther (name : string).  (** interfaces, channels, functions, complex numbers *)

(** [t.Name()]: empty for a type that has no name. *)
Definition Name (ty : RType) : string :=
  match ty with
  | TBasic _ name | TStruct name _ | TOther name => name
  | _ => ""
  end.

(** [unicode.IsUpper]: Latin-1 by its table of properties, beyond it by the
    table of upper-case ranges, which is data. *)
Class UpperTable := upper_ranges : Z -> bool.

Definition IsUpper `{UpperTable} (r : Z) : bool :=
  if r <=? 0xFF then
    between 65 90 r || between 0xC0 0xD6 r || between 0xD8 0xDE r
  else upper_ranges r.

(** [utf8.DecodeRuneInString]: the first rune of a string. *)
Definition first_rune (s : string) : Z :=
  (decode_rune (map (fun c => Z.of_N (Ascii.N_of_ascii c)) (String.list_ascii_of_string s))).1.

(** A field is exported, for gob and [reflect], if its name starts with an
    upper-case letter. *)
Definition exported `{UpperTable} (f : StructField) : bool := IsUpper (first_rune (f_Name f)).

(** ** The package's variables *)

Inductive Warning :=
  | LowerCase (field type : string)
  | NonDefault (what : string).

Record LabGob := mkLabGob {
  checked : gset nat;
  errorCount : Z;
  printed : list Warning;
}.

(** [checked] starts as [nil] and is made on first use; both read as empty. *)
Definition labgob_init : LabGob := mkLabGob ∅ 0 [].

Definition mark (t : nat) (s : LabGob) : LabGob :=
  mkLabGob ({[t]} ∪ checked s) (errorCount s) (printed s).
Definition report (w : Warning) (s : LabGob) : LabGob :=
  mkLabGob (checked s) (errorCount s + 1) (printed s ++ [w]).

(** ** checkType *)

Section CheckType.
Context `{UpperTable}.
Variable types : list RType.

(** The loop over the fields of a struct; [check] is the recursive call. *)
Fixpoint check_fields (check : nat -> LabGob -> Result LabGob) (tname : string)
    (fs : list StructField) (s : LabGob) : Result LabGob :=
  match fs with
  | [] => Done s
  | f :: fs =>
      let s := if exported f then s else report (LowerCase (f_Name f) tname) s in
      s ← check (f_Type f) s;
      check_fields check tname fs s
  end.

(** A [nil] type (an index outside the table) panics at [t.Kind()]. *)
Fixpoint checkType (fuel : nat) (t : nat) (s : LabGob) : Result LabGob :=
  match fuel with
  | O => OutOfFuel
  | S fuel =>
      match types !! t with
      | None => Panicked
      | Some ty =>
          if bool_decide (t ∈ checked s) then Done s
          else
            let s := mark t s in
            match ty with
            | TStruct name fields => check_fields (checkType fuel) name fields s
            | TSlice elem | TArray _ elem | TPtr elem => checkType fuel elem s
            | TMap key elem => s ← checkType fuel elem s; checkType fuel key s
            | _ => Done s
            end
      end
  end.

(** The types [checkType] goes on to from a type. *)
Definition succs (ty : RType) : list nat :=
  match ty with
  | TStruct _ fields => f_Type <$> fields
  | TSlice elem | TArray _ elem | TPtr elem => [elem]
  | TMap key elem => [elem; key]
  | _ => []
  end.

(** What it has to say about the fields of one type. *)
Definition lower_fields (tname : string) (fs : list StructField) : list Warning :=
  (fun f => LowerCase (f_Name f) tname) <$> filter (fun f => exported f = false) fs.

Definition complaints_of (t : nat) : list Warning :=
  match types !! t with
  | Some (TStruct name fields) => lower_fields name fields
  | _ => []
  end.

Definition complaints (X : gset nat) : list Warning := elements X ≫= complaints_of.

(** [u] is reached from [t] through types that are not in [C]. *)
Inductive reaches (C : gset nat) : nat -> nat -> Prop :=
  | reaches_refl t : t ∉ C -> reaches C t t
  | reaches_step t u v ty :
      reaches C t u -> types !! u = Some ty -> v ∈ succs ty -> v ∉ C -> reaches C t v.

Definition types_ok : Prop :=
  forall t ty u, types !! t = Some ty -> u ∈ succs ty -> is_Some (types !! u).

Definition types_okb : bool :=
  forallb (fun ty => forallb (fun u => Nat.ltb u (length types)) (succs ty)) types.

Lemma types_okb_spec : types_okb = true -> types_ok.
Proof.
  unfold types_okb. rewrite forallb_forall. intros Hall t ty u Ht Hu. apply lookup_lt_is_Some.
  assert (Hin : In ty types) by (apply list_elem_of_In; by eapply list_elem_of_lookup_2).
  specialize (Hall ty Hin). rewrite forallb_forall in Hall.
  apply Nat.ltb_lt, Hall. by apply list_elem_of_In.
Qed.

Definition unchecked (s : LabGob) : nat :=
  size (list_to_set (C := gset nat) (seq 0 (length types)) ∖ checked s).

(** ** What a traversal does *)

(** From [s] to [s'], all of [roots] and what can be reached from them have
    been visited; [own] is reported besides the fields of the new types. *)
Record visited (own : list Warning) (roots : list nat) (s s' : LabGob) : Prop := {
  v_grow : checked s ⊆ checked s';
  v_roots u : u ∈ roots -> u ∈ checked s';
  v_sound u : u ∈ checked s' -> u ∉ checked s ->
    exists r, r ∈ roots /\ reaches (checked s) r u;
  v_closed u ty v : u ∈ checked s' -> u ∉ checked s ->
    types !! u = Some ty -> v ∈ succs ty -> v ∈ checked s';
  v_printed : printed s' ≡ₚ printed s ++ own ++ complaints (checked s' ∖ checked s);
  v_count : errorCount s' - errorCount s = zlen (printed s') - zlen (printed s);
}.

Lemma complaints_union X Y :
  X ## Y -> complaints (X ∪ Y) ≡ₚ complaints X ++ complaints Y.
Proof.
  intros HXY. unfold complaints. rewrite <-bind_app.
  by rewrite (elements_disj_union X Y HXY).
Qed.

Lemma complaints_split (A B C : gset nat) :
  A ⊆ B -> B ⊆ C -> complaints (C ∖ A) ≡ₚ complaints (B ∖ A) ++ complaints (C ∖ B).
Proof.
  intros HAB HBC. rewrite <-complaints_union by set_solver.
  replace (C ∖ A) with (B ∖ A ∪ C ∖ B); [done|].
  apply set_eq. intros x. destruct (decide (x ∈ B)); set_solver.
Qed.

Lemma complaints_singleton t : complaints {[t]} = complaints_of t.
Proof. unfold complaints. rewrite elements_singleton. simpl. by rewrite app_nil_r. Qed.

Lemma reaches_mono C C' t u : C ⊆ C' -> reaches C' t u -> reaches C t u.
Proof. intros HC. induction 1; econstructor; eauto; set_solver. Qed.

Lemma reaches_from C t r ty u :
  t ∉ C -> types !! t = Some ty -> r ∈ succs ty -> reaches C r u -> reaches C t u.
Proof.
  intros Ht Hty Hr. induction 1 as [v Hv|v w x ty' Hvw IH Hw Hx HxC].
  - eapply reaches_step; eauto using reaches_refl.
  - eapply reaches_step; eauto.
Qed.

Lemma visited_nil s : visited [] [] s s.
Proof.
  split; try set_solver; [|lia].
  replace (checked s ∖ checked s) with (∅ : gset nat) by set_solver.
  unfold complaints. rewrite elements_empty. simpl. by rewrite !app_nil_r.
Qed.

Lemma visited_checked t s : t ∈ checked s -> visited [] [t] s s.
Proof.
  intros Ht. destruct (visited_nil s) as [H1 H2 H3 H4 H5 H6]. split; try done; set_solver.
Qed.

Lemma visited_app own own' rs rs' s s1 s2 :
  visited own rs s s1 -> visited own' rs' s1 s2 ->
  visited (own ++ own') (rs ++ rs') s s2.
Proof.
  intros [G1 R1 S1 C1 P1 N1] [G2 R2 S2 C2 P2 N2]. split.
  - set_solver.
  - set_solver.
  - intros u Hu Hn. destruct (decide (u ∈ checked s1)) as [H1|H1].
    + destruct (S1 u H1 Hn) as (r & Hr & Hru). exists r. set_solver.
    + destruct (S2 u Hu H1) as (r & Hr & Hru). exists r.
      split; [set_solver|eauto using reaches_mono].
  - intros u ty v Hu Hn Hty Hv. destruct (decide (u ∈ checked s1)) as [H1|H1]; [|eauto].
    apply G2. eauto.
  - rewrite P2, P1, (complaints_split (checked s) (checked s1) (checked s2)) by done.
    rewrite <-!(assoc_L (++)). apply Permutation_app_head, Permutation_app_head.
    rewrite !(assoc_L (++)). apply Permutation_app_tail, Permutation_app_comm.
  - lia.
Qed.

Lemma visited_report w rs s s' :
  visited [] rs (report w s) s' -> visited [w] rs s s'.
Proof.
  intros [G R S C P N]. simpl in *. split; try done.
  - rewrite P. by rewrite <-(assoc_L (++)).
  - rewrite zlen_app in N. change (zlen [w]) with 1 in N. lia.
Qed.

(** Visiting the successors of a new type completes the visit of it. *)
Lemma visited_node t ty s s' :
  t ∉ checked s -> types !! t = Some ty ->
  visited (complaints_of t) (succs ty) (mark t s) s' -> visited [] [t] s s'.
Proof.
  intros Ht Hty [G R S C P N]. simpl in *. split.
  - set_solver.
  - set_solver.
  - intros u Hu Hn. exists t. split; [set_solver|].
    destruct (decide (u = t)) as [->|Hut]; [by constructor|].
    destruct (S u Hu) as (r & Hr & Hru); [set_solver|].
    eapply reaches_from; eauto. eapply reaches_mono; [|done]. set_solver.
  - intros u ty' v Hu Hn Hty' Hv. destruct (decide (u = t)) as [->|Hut].
    + simplify_eq. eauto.
    + eapply C; eauto. set_solver.
  - rewrite P, (complaints_split (checked s) ({[t]} ∪ checked s) (checked s')) by set_solver.
    replace (({[t]} ∪ checked s) ∖ checked s) with ({[t]} : gset nat) by set_solver.
    by rewrite complaints_singleton.
  - done.
Qed.

Lemma unchecked_mono s s' : checked s ⊆ checked s' -> (unchecked s' <= unchecked s)%nat.
Proof. intros Hs. unfold unchecked. apply subseteq_size. set_solver. Qed.

Lemma unchecked_mark t s :
  is_Some (types !! t) -> t ∉ checked s -> (unchecked (mark t s) < unchecked s)%nat.
Proof.
  intros [ty Hty] Ht. apply lookup_lt_Some in Hty. unfold unchecked. apply subset_size.
  split; [simpl; set_solver|]. intros Hs. specialize (Hs t). simpl in Hs.
  rewrite !elem_of_difference, elem_of_list_to_set, elem_of_seq in Hs. set_solver by lia.
Qed.

(** The loop over the fields of a struct, if the recursive calls behave. *)
Lemma check_fields_visits check tname fs s :
  (forall f s0, f ∈ fs -> checked s ⊆ checked s0 ->
     exists s', check (f_Type f) s0 = Done s' /\ visited [] [f_Type f] s0 s') ->
  exists s', check_fields check tname fs s = Done s' /\
             visited (lower_fields tname fs) (f_Type <$> fs) s s'.
Proof.
  revert s. induction fs as [|f fs IH]; intros s Hc; [eexists; split; [done|apply visited_nil]|].
  cbn [check_fields].
  set (s0 := if exported f then s else report (LowerCase (f_Name f) tname) s).
  assert (Hs0 : checked s0 = checked s) by (unfold s0; by destruct (exported f)).
  destruct (Hc f s0) as (s1 & -> & V1); [set_solver|by rewrite Hs0|].
  destruct (IH s1) as (s2 & E2 & V2).
  { intros g s' Hg Hs'. apply Hc; [set_solver|]. destruct V1. set_solver. }
  exists s2. split; [exact E2|].
  assert (V0 : visited (lower_fields tname [f]) [f_Type f] s s1).
  { unfold s0 in V1. unfold lower_fields. rewrite filter_cons, filter_nil.
    destruct (exported f) eqn:Ef; [by rewrite decide_False by done|].
    rewrite decide_True by done. by apply visited_report. }
  pose proof (visited_app _ _ _ _ _ _ _ V0 V2) as V. simpl in V.
  replace (lower_fields tname (f :: fs)) with
    (lower_fields tname [f] ++ lower_fields tname fs); [done|].
  unfold lower_fields. rewrite <-fmap_app, <-filter_app. done.
Qed.

Hypothesis Hok : types_ok.

(** Enough fuel: more than the number of types not yet checked. *)
Lemma check_type_visits fuel t s :
  is_Some (types !! t) -> (unchecked s < fuel)%nat ->
  exists s', checkType fuel t s = Done s' /\ visited [] [t] s s'.
Proof.
  revert t s. induction fuel as [|fuel IH]; intros t s Ht Hf; [lia|].
  destruct Ht as [ty Hty]. cbn [checkType]. rewrite Hty.
  case_bool_decide as Hc; [eauto using visited_checked|].
  assert (IH' : forall u s0, u ∈ succs ty -> checked (mark t s) ⊆ checked s0 ->
    exists s', checkType fuel u s0 = Done s' /\ visited [] [u] s0 s').
  { intros u s0 Hu Hs0. apply IH; [by eapply Hok|].
    pose proof (unchecked_mark t s) as Hm. pose proof (unchecked_mono _ _ Hs0).
    specialize (Hm ltac:(by eexists) Hc). lia. }
  assert (Hown : forall own, complaints_of t = own ->
    forall s', visited own (succs ty) (mark t s) s' -> visited [] [t] s s').
  { intros own <- s' V. by eapply visited_node. }
  unfold complaints_of in Hown. rewrite Hty in Hown. clear Hf.
  destruct ty as [k name|name fields|elem|len elem|elem|key elem|name]; simpl in *.
  - eexists. split; [done|]. eapply Hown; [done|apply visited_nil].
  - destruct (check_fields_visits (checkType fuel) name fields (mark t s)) as (s' & -> & V).
    { intros f s0 Hf Hs0. apply IH'; [|done]. by apply list_elem_of_fmap_2. }
    eauto.
  - destruct (IH' elem (mark t s)) as (s' & -> & V); [set_solver|done|]. eauto.
  - destruct (IH' elem (mark t s)) as (s' & -> & V); [set_solver|done|]. eauto.
  - destruct (IH' elem (mark t s)) as (s' & -> & V); [set_solver|done|]. eauto.
  - destruct (IH' elem (mark t s)) as (s1 & -> & V1); [set_solver|done|].
    destruct (IH' key s1) as (s2 & E2 & V2); [set_solver|by destruct V1|].
    exists s2. split; [exact E2|]. eapply Hown; [done|].
    exact (visited_app _ _ _ _ _ _ _ V1 V2).
  - eexists. split; [done|]. eapply Hown; [done|apply visited_nil].
Qed.

(** More fuel changes nothing. *)
Lemma check_fields_impl check check' tname fs s s' :
  (forall u s s', check u s = Done s' -> check' u s = Done s') ->
  check_fields check tname fs s = Done s' -> check_fields check' tname fs s = Done s'.
Proof.
  intros Hc. revert s. induction fs as [|f fs IH]; intros s; cbn [check_fields]; [done|].
  destruct (check _ _) as [| |s1] eqn:E; cbn; try done.
  rewrite (Hc _ _ _ E). apply IH.
Qed.

Lemma check_type_fuel fuel fuel' t s s' :
  (fuel <= fuel')%nat -> checkType fuel t s = Done s' -> checkType fuel' t s = Done s'.
Proof.
  revert fuel' t s s'. induction fuel as [|fuel IH]; intros [|fuel'] t s s' Hf; try done; [lia|].
  cbn [checkType]. assert (IH' := fun t s s' => IH fuel' t s s' ltac:(lia)).
  destruct (types !! t) as [ty|]; [|done]. case_bool_decide; [done|].
  destruct ty; try done; try apply IH'.
  - by apply check_fields_impl.
  - destruct (checkType fuel elem _) as [| |s1] eqn:E; cbn; try done.
    rewrite (IH' _ _ _ E). apply IH'.
Qed.

(** A visit of [t] from [s] marks what can be reached and nothing else. *)
Lemma visited_reaches own t s s' u :
  visited own [t] s s' -> u ∈ checked s' <-> u ∈ checked s \/ reaches (checked s) t u.
Proof.
  intros [G R S C P N]. split.
  - intros Hu. destruct (decide (u ∈ checked s)) as [|Hn]; [by left|right].
    destruct (S u Hu Hn) as (r & Hr & Hru). apply list_elem_of_singleton in Hr. by subst.
  - intros [Hu|Hu]; [set_solver|]. induction Hu as [v Hv|v w x ty Hvw IH Hw Hx HxC]; [set_solver|].
    eapply C; eauto. clear -Hvw. by inversion Hvw.
Qed.
End CheckType.

(** ** Values *)

(** A float of [w] bits is its bit pattern. *)
Inductive BasicVal :=
  | BBool (b : bool)
  | BInt (z : Z)
  | BFloat (w : Z) (bits : Z)
  | BString (s : string).

(** [reflect.DeepEqual] with the zero value: for floats it is [==], so both
    zeros are equal to zero. *)
Definition is_default (b : BasicVal) : bool :=
  match b with
  | BBool b => negb b
  | BInt z => z =? 0
  | BFloat w bits => (bits =? 0) || (bits =? 2 ^ (w - 1))
  | BString s => bool_decide (s = "")
  end.

(** A value as the tree of what its pointers and fields lead to;
    [checkDefault1] looks three levels deep only, so a cyclic structure is
    its unfolding to that depth. *)
Inductive GoValue :=
  | VBasic (t : nat) (tname : string) (b : BasicVal)
  | VStruct (t : nat) (fields : list (StructField * GoValue))
  | VPtr (t : nat) (target : option GoValue)
  | VOther (t : nat).

(** [reflect.TypeOf] *)
Definition TypeOf (v : GoValue) : nat :=
  match v with VBasic t _ _ | VStruct t _ | VPtr t _ | VOther t => t end.

(** How [reflect] marks values obtained through unexported fields:
    [Interface] panics on them.  Through an embedded field the mark does not
    stick to the fields of the embedded struct. *)
Inductive ReadOnly := RONone | ROEmbed | ROSticky.

Definition field_ro `{UpperTable} (ro : ReadOnly) (f : StructField) : ReadOnly :=
  if exported f then match ro with ROSticky => ROSticky | _ => RONone end
  else match ro with
       | ROSticky => ROSticky
       | _ => if f_Anonymous f then ROEmbed else ROSticky
       end.

Definition is_ro (ro : ReadOnly) : bool := match ro with RONone => false | _ => true end.

(** [name + "." + name1], or [name1] at the top. *)
Definition join_name (name name1 : string) : string :=
  if bool_decide (name = "") then name1 else String.append name (String.append "." name1).

(** ** checkDefault *)

Section CheckDefault.
Context `{UpperTable}.

(** The body of the basic case: [what] is printed for the first error only. *)
Definition check_basic (ro : ReadOnly) (tname name : string) (b : BasicVal) (s : LabGob) : Result LabGob :=
  if is_ro ro then Panicked
  else if is_default b then Done s
  else
    let what := if bool_decide (name = "") then tname else name in
    let out := if errorCount s <? 1 then printed s ++ [NonDefault what] else printed s in
    Done (mkLabGob (checked s) (errorCount s + 1) out).

Fixpoint checkDefault1 (value : GoValue) (ro : ReadOnly) (depth : Z) (name : string)
    (s : LabGob) : Result LabGob :=
  if 3 <? depth then Done s
  else match value with
  | VStruct _ fields =>
      (fix loop (fs : list (StructField * GoValue)) (s : LabGob) : Result LabGob :=
         match fs with
         | [] => Done s
         | (f, vv) :: fs =>
             s ← checkDefault1 vv (field_ro ro f) (depth + 1) (join_name name (f_Name f)) s;
             loop fs s
         end) fields s
  | VPtr _ None => Done s
  | VPtr _ (Some v) => checkDefault1 v ro (depth + 1) name s
  | VBasic _ tname b => check_basic ro tname name b s
  | VOther _ => Done s
  end.

Definition checkDefault (value : option GoValue) (s : LabGob) : Result LabGob :=
  match value with
  | None => Done s
  | Some v => checkDefault1 v RONone 1 "" s
  end.

(** *** The leaves it looks at *)

(** A basic value with its name and whether it is behind an unexported field. *)
Record Leaf := mkLeaf { l_ro : bool; l_what : string; l_val : BasicVal }.

(** The basic values within [d] levels of a value, in the order of the fields. *)
Fixpoint leaves (d : nat) (ro : ReadOnly) (name : string) (value : GoValue) : list Leaf :=
  match d with
  | O => []
  | S d =>
      match value with
      | VBasic _ tname b => [mkLeaf (is_ro ro) (if bool_decide (name = "") then tname else name) b]
      | VStruct _ fields =>
          fields ≫= fun '(f, vv) => leaves d (field_ro ro f) (join_name name (f_Name f)) vv
      | VPtr _ (Some v) => leaves d ro name v
      | _ => []
      end
  end.

Definition non_default (l : Leaf) : bool := negb (is_default (l_val l)).

(** Reporting a list of leaves. *)
Definition report_leaves (ls : list Leaf) (s : LabGob) : Result LabGob :=
  if existsb l_ro ls then Panicked
  else
    let bad := List.filter non_default ls in
    Done (mkLabGob (checked s) (errorCount s + zlen bad)
            (if errorCount s <? 1
             then printed s ++ match bad with [] => [] | l :: _ => [NonDefault (l_what l)] end
             else printed s)).

Lemma report_leaves_nil s : report_leaves [] s = Done s.
Proof.
  unfold report_leaves. destruct s as [c e p]. cbn. rewrite Z.add_0_r, app_nil_r.
  by destruct (e <? 1).
Qed.

Lemma report_leaves_app ls ls' s :
  0 <= errorCount s ->
  report_leaves (ls ++ ls') s = (s ← report_leaves ls s; report_leaves ls' s).
Proof.
  intros He. unfold report_leaves. rewrite existsb_app, List.filter_app.
  destruct (existsb l_ro ls); [done|]. cbn.
  destruct (existsb l_ro ls'); [done|]. f_equal. rewrite zlen_app.
  pose proof (zlen_nonneg (List.filter non_default ls)).
  destruct (List.filter non_default ls) as [|l bad] eqn:E; cbn [app].
  - rewrite app_nil_r. change (zlen []) with 0. f_equal; [lia|].
    by replace (errorCount s + 0 <? 1) with (errorCount s <? 1) by (f_equal; lia); destruct (_ <? _).
  - rewrite zlen_cons in *. pose proof (zlen_nonneg bad). f_equal; [lia|].
    replace (errorCount s + (zlen bad + 1) <? 1) with false by (symmetry; apply Z.ltb_ge; lia). done.
Qed.

Lemma report_leaves_count ls s s' :
  0 <= errorCount s -> report_leaves ls s = Done s' -> 0 <= errorCount s'.
Proof.
  unfold report_leaves. destruct (existsb _ _); [done|]. intros He [= <-]. cbn.
  pose proof (zlen_nonneg (List.filter non_default ls)). lia.
Qed.

(** [checkDefault1] reports the leaves within the remaining levels. *)
Lemma check_default1_leaves d depth value ro name s :
  depth = 4 - Z.of_nat d -> 0 <= errorCount s ->
  checkDefault1 value ro depth name s = report_leaves (leaves d ro name value) s.
Proof.
  revert depth value ro name s. induction d as [|d IH]; intros depth value ro name s -> He.
  { destruct value; simpl; by rewrite report_leaves_nil. }
  assert (Hd : (3 <? 4 - Z.of_nat (S d)) = false) by (apply Z.ltb_ge; lia).
  assert (Hd' : 4 - Z.of_nat (S d) + 1 = 4 - Z.of_nat d) by lia.
  destruct value as [t tname b|t fields|t [v|]|t]; cbn [checkDefault1 leaves];
    rewrite Hd, ?report_leaves_nil; try done.
  - unfold check_basic, report_leaves. cbn [existsb l_ro]. rewrite orb_false_r.
    destruct (is_ro ro); [done|]. cbn [List.filter]. unfold non_default. cbn [l_val].
    destruct (is_default b); cbn.
    + destruct s as [c e p]. cbn. rewrite Z.add_0_r, app_nil_r. by destruct (e <? 1).
    + by destruct (errorCount s <? 1).
  - revert s He. induction fields as [|[f vv] fs IHf]; intros s He;
      [symmetry; apply report_leaves_nil|].
    cbn [mbind list_bind] in *. rewrite report_leaves_app by done. rewrite Hd', IH by done.
    destruct (report_leaves _ s) as [| |s'] eqn:E; cbn; try done.
    rewrite <-Hd'. apply IHf. by eapply report_leaves_count.
  - rewrite Hd'. by apply IH.
Qed.

Lemma check_default_leaves v s :
  0 <= errorCount s -> checkDefault (Some v) s = report_leaves (leaves 3 RONone "" v) s.
Proof. intros He. by apply check_default1_leaves. Qed.
End CheckDefault.

(** ** Encoders and decoders *)

(** [gob]'s own encoders, decoders and registry are parameters. *)
Section Wrappers.
Context `{UpperTable}.
Variable types : list RType.
Context {Enc Dec Reg Err : Type}.
Variable gob_Encode : Enc -> option GoValue -> Enc * option Err.
Variable gob_Decode : Dec -> option GoValue -> Dec * option GoValue * option Err.
Variable gob_Register : option string -> option GoValue -> Reg -> Result Reg.

(** The fuel exceeds the number of types, so [checkType] never runs out. *)
Definition checkValue (value : option GoValue) (s : LabGob) : Result LabGob :=
  match value with
  | None => Panicked  (* reflect.TypeOf(nil) is nil *)
  | Some v => checkType types (S (length types)) (TypeOf v) s
  end.

Definition Encode (enc : Enc) (e : option GoValue) (s : LabGob)
    : Result (LabGob * (Enc * option Err)) :=
  s ← checkValue e s;
  Done (s, gob_Encode enc e).

Definition EncodeValue (enc : Enc) (value : GoValue) (s : LabGob)
    : Result (LabGob * (Enc * option Err)) :=
  s ← checkValue (Some value) s;
  Done (s, gob_Encode enc (Some value)).

Definition Decode (dec : Dec) (e : option GoValue) (s : LabGob)
    : Result (LabGob * (Dec * option GoValue * option Err)) :=
  s ← checkValue e s;
  s ← checkDefault e s;
  Done (s, gob_Decode dec e).

Definition Register (value : option GoValue) (rg : Reg) (s : LabGob) : Result (LabGob * Reg) :=
  s ← checkValue value s;
  rg ← gob_Register None value rg;
  Done (s, rg).

Definition RegisterName (name : string) (value : option GoValue) (rg : Reg) (s : LabGob)
    : Result (LabGob * Reg) :=
  s ← checkValue value s;
  rg ← gob_Register (Some name) value rg;
  Done (s, rg).

Lemma unchecked_le s : (unchecked types s <= length types)%nat.
Proof.
  unfold unchecked. transitivity (size (list_to_set (C := gset nat) (seq 0 (length types)))).
  - apply subseteq_size. set_solver.
  - rewrite size_list_to_set, length_seq; [done|]. apply NoDup_ListNoDup, seq_NoDup.
Qed.

Lemma check_value_visits v s :
  types_ok types -> is_Some (types !! TypeOf v) ->
  exists s', checkValue (Some v) s = Done s' /\ visited types [] [TypeOf v] s s'.
Proof.
  intros Hok Ht. apply check_type_visits; [done|done|]. pose proof (unchecked_le s). lia.
Qed.
End Wrappers.
