(* ===== verification/LabRpc.v ===== *)
(** * The RPC network of the labs

    [labrpc/labrpc.go]: a simulated network that loses requests and replies,
    delays them and disconnects hosts.  A [ClientEnd] sends encoded requests
    to one goroutine of the [Network], which starts a goroutine
    [processReq] per request; that one starts another one for the handler.

    A call is the record [Call]: its request, the position of its
    [processReq] ([c_pc]) and of the goroutine of its handler ([c_handler]).
    One step of one goroutine, between two points where it takes or releases
    [rn.mu] or [rs.mu], waits, or touches a channel, is one event; random
    draws are arguments of the event, and a timer fires by an event of its
    own.  Channels are unbuffered, so sending a reply is receiving it.

    Servers are compared as pointers: they live in a heap and are referred to
    by their index.  The objects behind the services are a state ['W] on
    which methods act; a method may block ([Disabled]) or panic.  [execs] and
    [added] are history variables: the handlers executed and the servers
    added so far. *)

From S2P Require Import Prelude.

(** ** Names *)

(** The comparable values used as names of ends and servers ([interface{}]). *)
Inductive Key := KInt (z : Z) | KStr (s : string).

#[export] Instance Key_eq_dec : EqDecision Key.
Proof. solve_decision. Defined.
#[export] Program Instance Key_countable : Countable Key :=
  inj_countable' (fun k => match k with KInt z => inl z | KStr s => inr s end)
    (fun x => match x with inl z => KInt z | inr s => KStr s end) _.
Next Obligation. by intros []. Qed.

(** [int32] and [int64] with the wrap-around of [atomic.AddInt32/64]. *)
Definition int32 (z : Z) : Z := (z + 2 ^ 31) mod 2 ^ 32 - 2 ^ 31.
Definition int64 (z : Z) : Z := (z + 2 ^ 63) mod 2 ^ 64 - 2 ^ 63.

(** ** Values on the wire *)

(** What calls rely on of [labgob]: a type is a number, [zero] what
    [reflect.New] allocates, [decode] reads into a variable and says whether
    it succeeded; reading an encoding into a zero variable of its type gives
    the value back. *)
Class RpcCodec (Val : Type) := {
  typeof : Val -> nat;
  zero : nat -> Val;
  rpc_encode : Val -> list Z;
  rpc_decode : list Z -> Val -> Val * bool;
  rpc_decode_encode v : rpc_decode (rpc_encode v) (zero (typeof v)) = (v, true);
}.

Record reqMsg := mkReq {
  endname : Key; svcMeth : string; argsType : nat; args : list Z }.

Record replyMsg := mkRep { ok : bool; reply : list Z }.

Definition failed : replyMsg := mkRep false [].

(** ** Services and servers *)

(** The kind and element type of a parameter of a method. *)
Record InType := mkIn { in_ptr : bool; in_elem : nat }.

(** [reflect.Method]; [m_Func] gets the receiver, the arguments, the zero
    reply and a random draw. *)
Record Method {Val R W : Type} := mkMethod {
  m_Name : string; m_PkgPath : string; m_In : list InType; m_NumOut : nat;
  m_Func : R -> Val -> Val -> Z -> W -> Outcome (W * Val) }.
Arguments Method : clear implicits.
Arguments mkMethod {Val R W}.

(** The receiver object of a service: its type's name and methods. *)
Record Rcvr {Val R W : Type} := mkRcvr {
  rc_ref : R; rc_type : string; rc_methods : list (Method Val R W) }.
Arguments Rcvr : clear implicits.
Arguments mkRcvr {Val R W}.

Record Service {Val R W : Type} := mkService {
  s_name : string; s_rcvr : R; s_methods : gmap string (Method Val R W) }.
Arguments Service : clear implicits.
Arguments mkService {Val R W}.

Record Server {Val R W : Type} := mkServer {
  s_services : gmap string (Service Val R W); s_count : Z }.
Arguments Server : clear implicits.
Arguments mkServer {Val R W}.

(** ** The network *)

Record ClientEnd := mkEnd { ce_endname : Key }.

(** [n_loop] says whether the goroutine of [MakeNetwork] is running, [n_done]
    whether [done] is closed.  A missing key reads as the zero value. *)
Record Network := mkNetwork {
  n_reliable : bool; n_longDelays : bool; n_longReordering : bool;
  n_ends : gmap Key ClientEnd;
  n_enabled : gmap Key bool;
  n_servers : gmap Key (option nat);
  n_connections : gmap Key (option Key);
  n_loop : bool; n_done : bool;
  n_count : Z; n_bytes : Z;
}.

Definition MakeNetwork : Network :=
  mkNetwork true false false ∅ ∅ ∅ ∅ true false 0 0.

Definition Cleanup (rn : Network) : Outcome Network :=
  if n_done rn then Panic  (* close of a closed channel *)
  else Ok (mkNetwork (n_reliable rn) (n_longDelays rn) (n_longReordering rn) (n_ends rn)
             (n_enabled rn) (n_servers rn) (n_connections rn) (n_loop rn) true
             (n_count rn) (n_bytes rn)).

Definition Reliable (yes : bool) (rn : Network) : Network :=
  mkNetwork yes (n_longDelays rn) (n_longReordering rn) (n_ends rn) (n_enabled rn)
    (n_servers rn) (n_connections rn) (n_loop rn) (n_done rn) (n_count rn) (n_bytes rn).

Definition LongReordering (yes : bool) (rn : Network) : Network :=
  mkNetwork (n_reliable rn) (n_longDelays rn) yes (n_ends rn) (n_enabled rn)
    (n_servers rn) (n_connections rn) (n_loop rn) (n_done rn) (n_count rn) (n_bytes rn).

Definition LongDelays (yes : bool) (rn : Network) : Network :=
  mkNetwork (n_reliable rn) yes (n_longReordering rn) (n_ends rn) (n_enabled rn)
    (n_servers rn) (n_connections rn) (n_loop rn) (n_done rn) (n_count rn) (n_bytes rn).

Definition set_n_enabled (m : gmap Key bool) (rn : Network) : Network :=
  mkNetwork (n_reliable rn) (n_longDelays rn) (n_longReordering rn) (n_ends rn) m
    (n_servers rn) (n_connections rn) (n_loop rn) (n_done rn) (n_count rn) (n_bytes rn).

Definition set_n_servers (m : gmap Key (option nat)) (rn : Network) : Network :=
  mkNetwork (n_reliable rn) (n_longDelays rn) (n_longReordering rn) (n_ends rn) (n_enabled rn)
    m (n_connections rn) (n_loop rn) (n_done rn) (n_count rn) (n_bytes rn).

Definition set_n_connections (m : gmap Key (option Key)) (rn : Network) : Network :=
  mkNetwork (n_reliable rn) (n_longDelays rn) (n_longReordering rn) (n_ends rn) (n_enabled rn)
    (n_servers rn) m (n_loop rn) (n_done rn) (n_count rn) (n_bytes rn).

Definition set_n_ends (m : gmap Key ClientEnd) (rn : Network) : Network :=
  mkNetwork (n_reliable rn) (n_longDelays rn) (n_longReordering rn) m (n_enabled rn)
    (n_servers rn) (n_connections rn) (n_loop rn) (n_done rn) (n_count rn) (n_bytes rn).

Definition set_n_loop (b : bool) (rn : Network) : Network :=
  mkNetwork (n_reliable rn) (n_longDelays rn) (n_longReordering rn) (n_ends rn) (n_enabled rn)
    (n_servers rn) (n_connections rn) b (n_done rn) (n_count rn) (n_bytes rn).

(** [atomic.AddInt32(&rn.count, 1)] and [atomic.AddInt64(&rn.bytes, len)]. *)
Definition add_count (rn : Network) : Network :=
  mkNetwork (n_reliable rn) (n_longDelays rn) (n_longReordering rn) (n_ends rn) (n_enabled rn)
    (n_servers rn) (n_connections rn) (n_loop rn) (n_done rn) (int32 (n_count rn + 1)) (n_bytes rn).
Definition add_bytes (n : Z) (rn : Network) : Network :=
  mkNetwork (n_reliable rn) (n_longDelays rn) (n_longReordering rn) (n_ends rn) (n_enabled rn)
    (n_servers rn) (n_connections rn) (n_loop rn) (n_done rn) (n_count rn) (int64 (n_bytes rn + n)).

(** A second end of the same name ends the program. *)
Definition MakeEnd (e : Key) (rn : Network) : Outcome (Network * ClientEnd) :=
  match n_ends rn !! e with
  | Some _ => Panic
  | None =>
      let c := mkEnd e in
      Ok (set_n_connections (<[e := None]> (n_connections rn))
            (set_n_enabled (<[e := false]> (n_enabled rn))
              (set_n_ends (<[e := c]> (n_ends rn)) rn)), c)
  end.

Definition AddServer (sn : Key) (rs : nat) (rn : Network) : Network :=
  set_n_servers (<[sn := Some rs]> (n_servers rn)) rn.

Definition DeleteServer (sn : Key) (rn : Network) : Network :=
  set_n_servers (<[sn := None]> (n_servers rn)) rn.

Definition Connect (e sn : Key) (rn : Network) : Network :=
  set_n_connections (<[e := Some sn]> (n_connections rn)) rn.

Definition Enable (e : Key) (b : bool) (rn : Network) : Network :=
  set_n_enabled (<[e := b]> (n_enabled rn)) rn.

Definition GetTotalCount (rn : Network) : Z := n_count rn.
Definition GetTotalBytes (rn : Network) : Z := n_bytes rn.

(** What a [processReq] has read about its end. *)
Record Info := mkInfo {
  i_enabled : bool; i_servername : option Key; i_server : option nat;
  i_reliable : bool; i_longreordering : bool }.

Definition readEndnameInfo (e : Key) (rn : Network) : Info :=
  let servername := mjoin (n_connections rn !! e) in
  mkInfo (default false (n_enabled rn !! e)) servername
    (sn ← servername; mjoin (n_servers rn !! sn))
    (n_reliable rn) (n_longReordering rn).

Definition isServerDead (e : Key) (sn : Key) (server : nat) (rn : Network) : bool :=
  negb (default false (n_enabled rn !! e))
  || negb (bool_decide (mjoin (n_servers rn !! sn) = Some server)).

(** ** strings.LastIndex *)

Fixpoint last_index_from (c : Ascii.ascii) (i : Z) (found : Z) (l : list Ascii.ascii) : Z :=
  match l with
  | [] => found
  | a :: l => last_index_from c (i + 1) (if bool_decide (a = c) then i else found) l
  end.

(** The index of the last occurrence of a character, or -1. *)
Definition LastIndex (l : list Ascii.ascii) (c : Ascii.ascii) : Z := last_index_from c 0 (-1) l.

Definition dot_char : Ascii.ascii := Ascii.ascii_of_nat 46.

(** [svcMeth[:dot]] and [svcMeth[dot+1:]]; out of range without a dot. *)
Definition split_svcMeth (s : string) : option (string * string) :=
  let l := String.list_ascii_of_string s in
  let dot := LastIndex l dot_char in
  serviceName ← ztake l dot;
  methodName ← zdrop l (dot + 1);
  Some (String.string_of_list_ascii serviceName, String.string_of_list_ascii methodName).

(** ** Calls *)

(** The servername, server, and flags a [processReq] goes on with. *)
Record Target := mkTarget {
  t_name : Key; t_server : nat; t_reliable : bool; t_longreordering : bool }.

(** Where the [processReq] of a call is.  A sleep or a timer is recorded with
    its milliseconds. *)
Inductive Pc {Val : Type} :=
  | Sending                                (** [Call] wants to send the request *)
  | Received                               (** [processReq] has been started *)
  | Accepted (ms : Z) (t : Target)         (** end, server and flags were read; asleep *)
  | Waiting (t : Target)                   (** in the loop that waits for the handler *)
  | LoopDone (t : Target) (r : option replyMsg)  (** after the loop; [None]: [replyOK] is false *)
  | Delayed (ms : Z) (r : replyMsg)        (** a reply held back by [longReordering] *)
  | Expiring (ms : Z)                      (** no server: a failure after a while *)
  | Returned (res : option Val).           (** [Call] returned; [None]: false *)
Arguments Pc : clear implicits.
Arguments Sending {Val}.
Arguments Received {Val}.
Arguments Accepted {Val} ms t.
Arguments Waiting {Val} t.
Arguments LoopDone {Val} t r.
Arguments Delayed {Val} ms r.
Arguments Expiring {Val} ms.
Arguments Returned {Val} res.

(** Where the goroutine of the handler is. *)
Inductive Handler {Val R W : Type} :=
  | HNone
  | HSpawned (t : Target)                  (** about to call [server.dispatch] *)
  | HRunning (t : Target) (svc : Service Val R W) (m : Method Val R W)
  | HReturned (r : replyMsg)               (** sending to [ech] *)
  | HGone.
Arguments Handler : clear implicits.
Arguments HNone {Val R W}.
Arguments HSpawned {Val R W} t.
Arguments HRunning {Val R W} t svc m.
Arguments HReturned {Val R W} r.
Arguments HGone {Val R W}.

(** [c_var] is the reply variable of the caller. *)
Record Call {Val R W : Type} := mkCall {
  c_req : reqMsg; c_var : Val; c_pc : Pc Val; c_handler : Handler Val R W }.
Arguments Call : clear implicits.
Arguments mkCall {Val R W}.

(** An execution of a handler: the call, the server, the decoded argument,
    the encoded reply, and whether the server was registered then. *)
Record Exec {Val : Type} := mkExec {
  x_call : nat; x_server : nat; x_args : Val; x_reply : list Z; x_live : bool }.
Arguments Exec : clear implicits.
Arguments mkExec {Val}.

Record Rpc {Val R W : Type} := mkRpc {
  net : Network;
  heap : list (Server Val R W);
  calls : list (Call Val R W);
  world : W;
  execs : list (Exec Val);
  added : list nat;
}.
Arguments Rpc : clear implicits.
Arguments mkRpc {Val R W}.

Section LabRpc.
Context {Val R W : Type} `{!RpcCodec Val}.
Local Notation Method := (Method Val R W).
Local Notation Service := (Service Val R W).
Local Notation Server := (Server Val R W).
Local Notation Call := (Call Val R W).
Local Notation Handler := (Handler Val R W).
Local Notation Rpc := (Rpc Val R W).

(** *** Services *)

(** [mtype.In(2)] is looked at only if there are three parameters. *)
Definition is_handler (m : Method) : bool :=
  negb (negb (bool_decide (m_PkgPath m = ""))
        || negb (bool_decide (length (m_In m) = 3%nat))
        || negb (match m_In m !! 2%nat with Some t => in_ptr t | None => false end)
        || negb (bool_decide (m_NumOut m = 0%nat))).

Definition MakeService (rcvr : Rcvr Val R W) : Service :=
  mkService (rc_type rcvr) (rc_ref rcvr)
    (fold_left (fun ms m => if is_handler m then <[m_Name m := m]> ms else ms)
       (rc_methods rcvr) ∅).

Definition MakeServer : Server := mkServer ∅ 0.

Definition AddService (svc : Service) (rs : Server) : Server :=
  mkServer (<[s_name svc := svc]> (s_services rs)) (s_count rs).

(** The part of [Server.dispatch] and [Service.dispatch] before the handler
    runs: count, split the name, look up service and method; [Panic] for a
    name without a dot, an unknown service and an unknown method. *)
Definition dispatch (req : reqMsg) (rs : Server) : Outcome (Server * (Service * Method)) :=
  let rs := mkServer (s_services rs) (s_count rs + 1) in
  '(serviceName, methodName) ← run (split_svcMeth (svcMeth req));
  service ← run (s_services rs !! serviceName);
  method ← run (s_methods service !! methodName);
  Ok (rs, (service, method)).

(** The rest of [Service.dispatch]: decode the argument, errors ignored, call
    the method, encode the reply. *)
Definition handle (req : reqMsg) (svc : Service) (m : Method) (rnd : Z) (w : W)
    : Outcome (W * Val * replyMsg) :=
  let '(a, _) := rpc_decode (args req) (zero (argsType req)) in
  replyType ← run (m_In m !! 2%nat);
  '(w, replyv) ← m_Func m (s_rcvr svc) a (zero (in_elem replyType)) rnd w;
  Ok (w, a, mkRep true (rpc_encode replyv)).

Definition ServerGetCount (rs : Server) : Z := s_count rs.

(** A [nil] server is dereferenced. *)
Definition GetCount (sn : Key) (st : Rpc) : Outcome Z :=
  rs ← run (mjoin (n_servers (net st) !! sn));
  srv ← run (heap st !! rs);
  Ok (ServerGetCount srv).

(** *** State updates *)

Definition set_net (rn : Network) (st : Rpc) : Rpc :=
  mkRpc rn (heap st) (calls st) (world st) (execs st) (added st).
Definition set_heap (h : list Server) (st : Rpc) : Rpc :=
  mkRpc (net st) h (calls st) (world st) (execs st) (added st).
Definition set_call (k : nat) (c : Call) (st : Rpc) : Rpc :=
  mkRpc (net st) (heap st) (<[k := c]> (calls st)) (world st) (execs st) (added st).
Definition set_world (w : W) (st : Rpc) : Rpc :=
  mkRpc (net st) (heap st) (calls st) w (execs st) (added st).
Definition log_exec (x : Exec Val) (st : Rpc) : Rpc :=
  mkRpc (net st) (heap st) (calls st) (world st) (execs st ++ [x]) (added st).
Definition log_added (rs : nat) (st : Rpc) : Rpc :=
  mkRpc (net st) (heap st) (calls st) (world st) (execs st) (rs :: added st).
Definition push_call (c : Call) (st : Rpc) : Rpc :=
  mkRpc (net st) (heap st) (calls st ++ [c]) (world st) (execs st) (added st).

Definition set_pc (pc : Pc Val) (c : Call) : Call := mkCall (c_req c) (c_var c) pc (c_handler c).
Definition set_handler (h : Handler) (c : Call) : Call := mkCall (c_req c) (c_var c) (c_pc c) h.

(** *** The client *)

(** [Call] up to its [select]: encode the argument and make the request. *)
Definition start_call (e : ClientEnd) (meth : string) (a var : Val) : Call :=
  mkCall (mkReq (ce_endname e) meth (typeof a) (rpc_encode a)) var Sending HNone.

(** [Call] after [<-req.replyCh]; a reply that does not decode is fatal. *)
Definition receive_reply (r : replyMsg) (c : Call) : Outcome (Pc Val) :=
  if ok r then
    let '(v, good) := rpc_decode (reply r) (c_var c) in
    if (good : bool) then Ok (Returned (Some v)) else Panic
  else Ok (Returned None).

(** *** processReq *)

(** Its first action and the branch on it. *)
Definition read_info (rnd : Z) (rn : Network) (c : Call) : Pc Val :=
  let i := readEndnameInfo (endname (c_req c)) rn in
  match i_enabled i, i_servername i, i_server i with
  | true, Some servername, Some server =>
      Accepted (if i_reliable i then 0 else rnd mod 27)
        (mkTarget servername server (i_reliable i) (i_longreordering i))
  | _, _, _ =>
      Expiring (if n_longDelays rn then rnd mod 7000 else rnd mod 100)
  end.

(** After the short delay: drop the request or start the handler. *)
Definition start_handler (rnd : Z) (t : Target) (c : Call) : Outcome Call :=
  if negb (t_reliable t) && (rnd mod 1000 <? 100) then
    pc ← receive_reply failed c;
    Ok (set_pc pc c)
  else Ok (set_handler (HSpawned t) (set_pc (Waiting t) c)).

(** After the loop: the last look at the server, and the reply.  [rnd1],
    [rnd2] are the draws for dropping and delaying, [rnd3] and [rnd4] those
    for the length of the delay. *)
Definition finish (rnd1 rnd2 rnd3 rnd4 : Z) (t : Target) (r : option replyMsg) (c : Call) (rn : Network)
    : Outcome (Network * Pc Val) :=
  let serverDead := isServerDead (endname (c_req c)) (t_name t) (t_server t) rn in
  match r with
  | None => pc ← receive_reply failed c; Ok (rn, pc)
  | Some r =>
      if serverDead then pc ← receive_reply failed c; Ok (rn, pc)
      else if negb (t_reliable t) && (rnd1 mod 1000 <? 100) then
        pc ← receive_reply failed c; Ok (rn, pc)
      else if t_longreordering t && (rnd2 mod 900 <? 600) then
        Ok (rn, Delayed (200 + rnd4 mod (1 + rnd3 mod 2000)) r)
      else
        pc ← receive_reply r c;
        Ok (add_bytes (zlen (reply r)) rn, pc)
  end.

(** *** Events *)

Inductive RpcEvent :=
  (* the goroutines of call [k] *)
  | RSend (k : nat)                     (** the network's goroutine takes the request *)
  | RCancel (k : nat)                   (** [<-e.done] in [Call] *)
  | RRead (k : nat) (rnd : Z)           (** [readEndnameInfo] *)
  | RStart (k : nat) (rnd : Z)          (** drop the request or start the handler *)
  | RDispatch (k : nat)                 (** the handler's goroutine up to the method *)
  | RHandle (k : nat) (rnd : Z)         (** the method runs *)
  | RReply (k : nat)                    (** [reply = <-ech] *)
  | RTick (k : nat)                     (** 100 ms have passed in the loop *)
  | RDrain (k : nat)                    (** the goroutine that drains [ech] *)
  | RFinish (k : nat) (rnd1 rnd2 rnd3 rnd4 : Z)
  | RTimer (k : nat)                    (** [time.AfterFunc] *)
  | RLoopExit                           (** the network's goroutine sees [done] *)
  (* the users of the network *)
  | RCall (e : ClientEnd) (meth : string) (a var : Val)
  | RWorld (w : W)                      (** the objects change by themselves *)
  | RCleanup
  | RReliable (yes : bool) | RLongReordering (yes : bool) | RLongDelays (yes : bool)
  | RMakeEnd (e : Key) | RMakeServer (svcs : list Service)
  | RAddServer (sn : Key) (rs : nat) | RDeleteServer (sn : Key)
  | RConnect (e sn : Key) | REnable (e : Key) (b : bool).

Definition step_send (k : nat) (st : Rpc) : Outcome Rpc :=
  c ← enabled (calls st !! k);
  match c_pc c with
  | Sending =>
      _ ← guard_step (n_loop (net st));
      Ok (set_call k (set_pc Received c)
            (set_net (add_bytes (zlen (args (c_req c))) (add_count (net st))) st))
  | _ => Disabled
  end.

Definition step_cancel (k : nat) (st : Rpc) : Outcome Rpc :=
  c ← enabled (calls st !! k);
  match c_pc c with
  | Sending =>
      _ ← guard_step (n_done (net st));
      Ok (set_call k (set_pc (Returned None) c) st)
  | _ => Disabled
  end.

Definition step_read (k : nat) (rnd : Z) (st : Rpc) : Outcome Rpc :=
  c ← enabled (calls st !! k);
  match c_pc c with
  | Received => Ok (set_call k (set_pc (read_info rnd (net st) c) c) st)
  | _ => Disabled
  end.

Definition step_start (k : nat) (rnd : Z) (st : Rpc) : Outcome Rpc :=
  c ← enabled (calls st !! k);
  match c_pc c with
  | Accepted _ t => c' ← start_handler rnd t c; Ok (set_call k c' st)
  | _ => Disabled
  end.

Definition step_dispatch (k : nat) (st : Rpc) : Outcome Rpc :=
  c ← enabled (calls st !! k);
  match c_handler c with
  | HSpawned t =>
      rs ← run (heap st !! t_server t);
      '(rs, (svc, m)) ← dispatch (c_req c) rs;
      Ok (set_call k (set_handler (HRunning t svc m) c)
            (set_heap (<[t_server t := rs]> (heap st)) st))
  | _ => Disabled
  end.

Definition step_handle (k : nat) (rnd : Z) (st : Rpc) : Outcome Rpc :=
  c ← enabled (calls st !! k);
  match c_handler c with
  | HRunning t svc m =>
      '(w, a, r) ← handle (c_req c) svc m rnd (world st);
      let live := bool_decide (mjoin (n_servers (net st) !! t_name t) = Some (t_server t)) in
      Ok (set_call k (set_handler (HReturned r) c)
            (log_exec (mkExec k (t_server t) a (reply r) live) (set_world w st)))
  | _ => Disabled
  end.

Definition step_reply (k : nat) (st : Rpc) : Outcome Rpc :=
  c ← enabled (calls st !! k);
  match c_pc c, c_handler c with
  | Waiting t, HReturned r =>
      Ok (set_call k (set_handler HGone (set_pc (LoopDone t (Some r)) c)) st)
  | _, _ => Disabled
  end.

(** The loop goes on unless the server is dead. *)
Definition step_tick (k : nat) (st : Rpc) : Outcome Rpc :=
  c ← enabled (calls st !! k);
  match c_pc c with
  | Waiting t =>
      if isServerDead (endname (c_req c)) (t_name t) (t_server t) (net st)
      then Ok (set_call k (set_pc (LoopDone t None) c) st)
      else Ok st
  | _ => Disabled
  end.

(** Once the loop has given up, nobody but the drain receives from [ech]. *)
Definition step_drain (k : nat) (st : Rpc) : Outcome Rpc :=
  c ← enabled (calls st !! k);
  match c_pc c, c_handler c with
  | Waiting _, _ => Disabled
  | _, HReturned _ => Ok (set_call k (set_handler HGone c) st)
  | _, _ => Disabled
  end.

Definition step_finish (k : nat) (rnd1 rnd2 rnd3 rnd4 : Z) (st : Rpc) : Outcome Rpc :=
  c ← enabled (calls st !! k);
  match c_pc c with
  | LoopDone t r =>
      '(rn, pc) ← finish rnd1 rnd2 rnd3 rnd4 t r c (net st);
      Ok (set_call k (set_pc pc c) (set_net rn st))
  | _ => Disabled
  end.

Definition step_timer (k : nat) (st : Rpc) : Outcome Rpc :=
  c ← enabled (calls st !! k);
  match c_pc c with
  | Delayed _ r =>
      pc ← receive_reply r c;
      Ok (set_call k (set_pc pc c) (set_net (add_bytes (zlen (reply r)) (net st)) st))
  | Expiring _ =>
      pc ← receive_reply failed c;
      Ok (set_call k (set_pc pc c) st)
  | _ => Disabled
  end.

Definition rstep (ev : RpcEvent) (st : Rpc) : Outcome Rpc :=
  match ev with
  | RSend k => step_send k st
  | RCancel k => step_cancel k st
  | RRead k rnd => step_read k rnd st
  | RStart k rnd => step_start k rnd st
  | RDispatch k => step_dispatch k st
  | RHandle k rnd => step_handle k rnd st
  | RReply k => step_reply k st
  | RTick k => step_tick k st
  | RDrain k => step_drain k st
  | RFinish k rnd1 rnd2 rnd3 rnd4 => step_finish k rnd1 rnd2 rnd3 rnd4 st
  | RTimer k => step_timer k st
  | RLoopExit => _ ← guard_step (n_done (net st)); Ok (set_net (set_n_loop false (net st)) st)
  | RCall e meth a var => Ok (push_call (start_call e meth a var) st)
  | RWorld w => Ok (set_world w st)
  | RCleanup => rn ← Cleanup (net st); Ok (set_net rn st)
  | RReliable yes => Ok (set_net (Reliable yes (net st)) st)
  | RLongReordering yes => Ok (set_net (LongReordering yes (net st)) st)
  | RLongDelays yes => Ok (set_net (LongDelays yes (net st)) st)
  | RMakeEnd e => '(rn, _) ← MakeEnd e (net st); Ok (set_net rn st)
  | RMakeServer svcs =>
      Ok (set_heap (heap st ++ [fold_left (fun rs svc => AddService svc rs) svcs MakeServer]) st)
  | RAddServer sn rs =>
      _ ← guard_step (bool_decide (rs < length (heap st))%nat);
      Ok (log_added rs (set_net (AddServer sn rs (net st)) st))
  | RDeleteServer sn => Ok (set_net (DeleteServer sn (net st)) st)
  | RConnect e sn => Ok (set_net (Connect e sn (net st)) st)
  | REnable e b => Ok (set_net (Enable e b (net st)) st)
  end.

Definition rinit (w : W) : Rpc := mkRpc MakeNetwork [] [] w [] [].

Fixpoint rexec (evs : list RpcEvent) (st : Rpc) : Outcome Rpc :=
  match evs with
  | [] => Ok st
  | ev :: evs => st ← rstep ev st; rexec evs st
  end.

Inductive rreachable : Rpc -> Prop :=
  | rreach_init w : rreachable (rinit w)
  | rreach_step st ev st' : rreachable st -> rstep ev st = Ok st' -> rreachable st'.
End LabRpc.

Arguments RpcEvent : clear implicits.
