(* ===== verification/LabRpcInv.v ===== *)
(** * Invariants of the RPC network

    [call_step] lists what can happen to one call; [rstep_calls] says that
    every step of the network is one of these, a new call, or leaves the
    calls alone.  On top of it: every handler runs at most once per call and
    a successful call hands out the reply of that run ([call_inv]); a reply of
    a server that was deleted before its handler ran is never handed out
    ([live_inv]); every call can complete ([call_progress]). *)

From S2P Require Import Prelude LabRpc.

Section LabRpcInv.
Context {Val R W : Type} `{!RpcCodec Val}.
Local Notation Call := (Call Val R W).
Local Notation Rpc := (Rpc Val R W).
Local Notation RpcEvent := (RpcEvent Val R W).
Implicit Types (st : Rpc) (c : Call).

(** ** What can happen to a call *)

Inductive call_step (k : nat) (rn : Network) (hp : list (Server Val R W)) : Call -> Call -> list (Exec Val) -> Prop :=
  | cs_send c : c_pc c = Sending -> call_step k rn hp c (set_pc Received c) []
  | cs_cancel c : c_pc c = Sending -> n_done rn = true ->
      call_step k rn hp c (set_pc (Returned None) c) []
  | cs_read c rnd : c_pc c = Received -> call_step k rn hp c (set_pc (read_info rnd rn c) c) []
  | cs_drop c ms t : c_pc c = Accepted ms t -> t_reliable t = false ->
      call_step k rn hp c (set_pc (Returned None) c) []
  | cs_spawn c ms t : c_pc c = Accepted ms t ->
      call_step k rn hp c (set_handler (HSpawned t) (set_pc (Waiting t) c)) []
  | cs_dispatch c t rs rs' svc m : c_handler c = HSpawned t -> hp !! t_server t = Some rs ->
      dispatch (c_req c) rs = Ok (rs', (svc, m)) ->
      call_step k rn hp c (set_handler (HRunning t svc m) c) []
  | cs_handle c t svc m rnd w w' a r : c_handler c = HRunning t svc m ->
      handle (c_req c) svc m rnd w = Ok (w', a, r) ->
      call_step k rn hp c (set_handler (HReturned r) c)
        [mkExec k (t_server t) a (reply r)
           (bool_decide (mjoin (n_servers rn !! t_name t) = Some (t_server t)))]
  | cs_reply c t r : c_pc c = Waiting t -> c_handler c = HReturned r ->
      call_step k rn hp c (set_handler HGone (set_pc (LoopDone t (Some r)) c)) []
  | cs_dead c t : c_pc c = Waiting t ->
      isServerDead (endname (c_req c)) (t_name t) (t_server t) rn = true ->
      call_step k rn hp c (set_pc (LoopDone t None) c) []
  | cs_drain c r : (forall t, c_pc c <> Waiting t) -> c_handler c = HReturned r ->
      call_step k rn hp c (set_handler HGone c) []
  | cs_fail c t r : c_pc c = LoopDone t r ->
      r = None \/ isServerDead (endname (c_req c)) (t_name t) (t_server t) rn = true
        \/ t_reliable t = false ->
      call_step k rn hp c (set_pc (Returned None) c) []
  | cs_delay c t r ms : c_pc c = LoopDone t (Some r) ->
      isServerDead (endname (c_req c)) (t_name t) (t_server t) rn = false ->
      call_step k rn hp c (set_pc (Delayed ms r) c) []
  | cs_deliver c t r pc : c_pc c = LoopDone t (Some r) ->
      isServerDead (endname (c_req c)) (t_name t) (t_server t) rn = false ->
      receive_reply r c = Ok pc -> call_step k rn hp c (set_pc pc c) []
  | cs_timer c ms r pc : c_pc c = Delayed ms r ->
      receive_reply r c = Ok pc -> call_step k rn hp c (set_pc pc c) []
  | cs_expire c ms : c_pc c = Expiring ms -> call_step k rn hp c (set_pc (Returned None) c) [].

(** The events of the goroutines of call [k]. *)
Definition own (k : nat) (ev : RpcEvent) : bool :=
  match ev with
  | RSend j | RCancel j | RRead j _ | RStart j _ | RDispatch j | RHandle j _ | RReply j
  | RTick j | RDrain j | RFinish j _ _ _ _ | RTimer j => bool_decide (j = k)
  | _ => false
  end.

(** The loop of call [k] finds its server alive and goes on. *)
Definition tick_alive (k : nat) (ev : RpcEvent) (st : Rpc) : Prop :=
  ev = RTick k /\ forall c t, calls st !! k = Some c -> c_pc c = Waiting t ->
    isServerDead (endname (c_req c)) (t_name t) (t_server t) (net st) = false.

Inductive calls_step (ev : RpcEvent) (st st' : Rpc) : Prop :=
  | cst_same : calls st' = calls st -> execs st' = execs st ->
      (forall k, own k ev = true -> tick_alive k ev st /\ st' = st) -> calls_step ev st st'
  | cst_new e meth a var :
      calls st' = calls st ++ [start_call e meth a var] -> execs st' = execs st ->
      ev = RCall e meth a var -> calls_step ev st st'
  | cst_call k c c' xs :
      calls st !! k = Some c -> calls st' = <[k := c']> (calls st) ->
      execs st' = execs st ++ xs -> n_servers (net st') = n_servers (net st) ->
      added st' = added st -> own k ev = true ->
      call_step k (net st) (heap st) c c' xs -> calls_step ev st st'.

Lemma receive_failed c pc : receive_reply failed c = Ok pc -> pc = Returned None.
Proof. by intros [= <-]. Qed.

Lemma own_self (k : nat) : bool_decide (k = k) = true.
Proof. by apply bool_decide_eq_true. Qed.

Lemma rstep_calls ev st st' : rstep ev st = Ok st' -> calls_step ev st st'.
Proof.
  intros H.
  destruct ev; cbn [rstep] in H;
    unfold step_send, step_cancel, step_read, step_start, step_dispatch, step_handle,
      step_reply, step_tick, step_drain, step_finish, step_timer, start_handler, finish,
      MakeEnd, Cleanup in H;
    outcome_inv; simplify_eq/=;
    first [ by constructor | by eapply cst_new
          | apply cst_same; [done|done|]; intros j Hj; simpl in Hj; bool_to_prop; subst;
              split; [|done]; split; [done|]; intros ? ? ? ?; congruence
          | eapply cst_call with (xs := []);
              [eassumption|reflexivity|symmetry; apply app_nil_r|reflexivity|reflexivity|apply own_self|]
          | eapply cst_call;
              [eassumption|reflexivity|reflexivity|reflexivity|reflexivity|apply own_self|] ].
  all: repeat match goal with
       | H : receive_reply failed _ = Ok _ |- _ => apply receive_failed in H as ->
       end.
  all: bool_to_prop; try (by econstructor; eauto).
  all: eapply cs_drain; [congruence|eassumption].
Qed.

(** Induction over executions by what happens to one call. *)
Lemma insert_call_lookup (l : list Call) k c' j d :
  <[k := c']> l !! j = Some d ->
  (j = k /\ d = c' /\ is_Some (l !! k)) \/ (j <> k /\ l !! j = Some d).
Proof.
  intros Hj. apply list_lookup_insert_Some in Hj as [(-> & -> & Hk)|[Hne Hj]].
  - left. split_and!; [done|done|by apply lookup_lt_is_Some].
  - right. naive_solver.
Qed.

(** ** A handler runs at most once per call *)

(** The executions of call [k]. *)
Definition runs (k : nat) (xs : list (Exec Val)) : list (Exec Val) :=
  filter (fun x => x_call x = k) xs.

(** [x] is the execution that reply [r] of request [req] comes from. *)
Definition reply_of (req : reqMsg) (t : Target) (r : replyMsg) (x : Exec Val) : Prop :=
  ok r = true /\ reply r = x_reply x /\ x_server x = t_server t /\
  x_args x = (rpc_decode (args req) (zero (argsType req))).1.

(** The executions of a call, by the states of its two goroutines. *)
Definition call_ok (c : Call) (xs : list (Exec Val)) : Prop :=
  match c_pc c with
  | Sending | Received | Accepted _ _ | Expiring _ => c_handler c = HNone /\ xs = []
  | Waiting t =>
      match c_handler c with
      | HSpawned t' | HRunning t' _ _ => t' = t /\ xs = []
      | HReturned r => exists x, xs = [x] /\ reply_of (c_req c) t r x
      | _ => False
      end
  | LoopDone t (Some r) => c_handler c = HGone /\ exists x, xs = [x] /\ reply_of (c_req c) t r x
  | Delayed _ r => c_handler c = HGone /\ exists t x, xs = [x] /\ reply_of (c_req c) t r x
  | Returned (Some v) =>
      c_handler c = HGone /\
      exists t r x, xs = [x] /\ reply_of (c_req c) t r x /\ rpc_decode (reply r) (c_var c) = (v, true)
  | LoopDone _ None | Returned None =>
      match c_handler c with
      | HNone | HSpawned _ | HRunning _ _ _ => xs = []
      | HReturned _ | HGone => exists x, xs = [x]
      end
  end.

Definition call_inv (st : Rpc) : Prop :=
  (forall k c, calls st !! k = Some c -> call_ok c (runs k (execs st))) /\
  (forall x, x ∈ execs st -> (x_call x < length (calls st))%nat).

Lemma runs_app k xs ys : runs k (xs ++ ys) = runs k xs ++ runs k ys.
Proof. apply filter_app. Qed.

Lemma runs_fresh k xs : (forall x, x ∈ xs -> (x_call x < k)%nat) -> runs k xs = [].
Proof.
  intros Hx. apply elem_of_nil_inv. intros x Hin. apply list_elem_of_filter in Hin as [Hk Hin].
  specialize (Hx x Hin). lia.
Qed.

Lemma runs_all k xs : (forall x, x ∈ xs -> x_call x = k) -> runs k xs = xs.
Proof.
  induction xs as [|x xs IH]; intros Hx; [done|].
  unfold runs. rewrite filter_cons_True by (apply Hx; set_solver). f_equal. apply IH. set_solver.
Qed.

Lemma runs_fresh_ne k xs : (forall x, x ∈ xs -> x_call x <> k) -> runs k xs = [].
Proof.
  intros Hx. apply elem_of_nil_inv. intros x Hin. apply list_elem_of_filter in Hin as [Hk Hin].
  by destruct (Hx x Hin).
Qed.

(** The executions a step adds belong to its call. *)
Lemma call_step_runs k rn hp c c' xs x : call_step k rn hp c c' xs -> x ∈ xs -> x_call x = k.
Proof. destruct 1; set_solver. Qed.

Lemma call_step_runs_ne k j rn hp c c' xs : call_step k rn hp c c' xs -> j <> k -> runs j xs = [].
Proof.
  intros Hcs Hne. apply elem_of_nil_inv. intros x Hin.
  apply list_elem_of_filter in Hin as [Hxj Hin].
  by rewrite (call_step_runs _ _ _ _ _ _ _ Hcs Hin) in Hxj.
Qed.

Lemma receive_reply_ok r c pc :
  receive_reply r c = Ok pc ->
  (ok r = false /\ pc = Returned None) \/
  exists v, ok r = true /\ rpc_decode (reply r) (c_var c) = (v, true) /\ pc = Returned (Some v).
Proof.
  unfold receive_reply. destruct (ok r); [|naive_solver].
  destruct (rpc_decode _ _) as [v []] eqn:E; naive_solver.
Qed.

Lemma handle_ok req (svc : Service Val R W) m rnd w w' a r :
  handle req svc m rnd w = Ok (w', a, r) ->
  ok r = true /\ a = (rpc_decode (args req) (zero (argsType req))).1.
Proof. unfold handle. intros Hh. destruct (rpc_decode _ _). outcome_inv. by simplify_eq/=. Qed.

Lemma read_info_cases rnd rn c :
  (exists ms t, read_info rnd rn c = Accepted ms t) \/ (exists ms, read_info rnd rn c = Expiring ms).
Proof. unfold read_info. repeat case_match; eauto. Qed.

Lemma call_step_ok k rn hp c c' xs ys :
  call_step k rn hp c c' xs -> call_ok c ys -> call_ok c' (ys ++ xs).
Proof.
  destruct 1; destruct c as [req var pc0 h]; simpl in *; subst; unfold call_ok; simpl;
    rewrite ?app_nil_r; try naive_solver.
  - intros [-> ->]. by destruct (read_info_cases rnd rn (mkCall req var Received HNone))
      as [(ms & t & ->)|(ms & ->)].
  - destruct pc0 as [| | | |? [?|]| | |[?|]]; naive_solver.
  - apply handle_ok in H0 as [Hr Ha]. unfold reply_of.
    destruct pc0 as [| | | |? [?|]| | |[?|]]; naive_solver.
  - destruct h; naive_solver.
  - destruct pc0 as [| | | |? [?|]| | |[?|]]; naive_solver.
  - destruct r, h; naive_solver.
  - intros [-> (x & -> & Hx)]. apply receive_reply_ok in H1 as [[Hr ->]|(v & Hr & Hv & ->)].
    + destruct Hx. congruence.
    + naive_solver.
  - intros [-> (t & x & -> & Hx)]. apply receive_reply_ok in H0 as [[Hr ->]|(v & Hr & Hv & ->)].
    + destruct Hx. congruence.
    + naive_solver.
Qed.


Lemma call_inv_reachable st : rreachable st -> call_inv st.
Proof.
  induction 1 as [w|st ev st' _ [IHc IHx] Hs]; [by split; intros; set_solver|].
  destruct (rstep_calls _ _ _ Hs) as [Hc Hx _|e meth a var Hc Hx _|k c c' xs Hk Hc Hx _ _ _ Hcs];
    unfold call_inv; rewrite Hc, Hx.
  - done.
  - split.
    + intros k c Hk. apply lookup_app_Some in Hk as [Hk|[Hl Hk]]; [by apply IHc|].
      apply list_lookup_singleton_Some in Hk as [Hk <-].
      split; [done|]. apply runs_fresh. intros x Hin. specialize (IHx x Hin). lia.
    + intros x Hin. rewrite length_app. specialize (IHx x Hin). lia.
  - split.
    + intros j d Hj. rewrite runs_app.
      apply insert_call_lookup in Hj as [(-> & -> & _)|[Hne Hj]].
      * replace (runs k xs) with xs; [by eapply call_step_ok; eauto|].
        symmetry. apply runs_all. eauto using call_step_runs.
      * rewrite (call_step_runs_ne _ _ _ _ _ _ _ Hcs Hne), app_nil_r. by apply IHc.
    + intros x [Hin|Hin]%elem_of_app; rewrite length_insert; [by apply IHx|].
      rewrite (call_step_runs _ _ _ _ _ _ _ Hcs Hin). by eapply lookup_lt_Some.
Qed.

(** Only a handler adds to the executions. *)
Lemma rstep_execs ev st st' :
  rstep ev st = Ok st' -> (forall k rnd, ev <> RHandle k rnd) -> execs st' = execs st.
Proof.
  intros H Hne.
  destruct ev; cbn [rstep] in H;
    unfold step_send, step_cancel, step_read, step_start, step_dispatch,
      step_reply, step_tick, step_drain, step_finish, step_timer, start_handler, finish,
      MakeEnd, Cleanup in H;
    outcome_inv; simplify_eq/=; done || by destruct (Hne k rnd).
Qed.

Lemma call_ok_once c xs : call_ok c xs -> (length xs <= 1)%nat.
Proof.
  unfold call_ok. intros Hok.
  destruct (c_pc c) as [| | |t|t [r|]| | |[v|]], (c_handler c);
    repeat match goal with
    | H : _ /\ _ |- _ => destruct H
    | H : exists _, _ |- _ => destruct H
    end; subst; simpl; done || lia.
Qed.

(** While the handler runs there is no execution. *)
Lemma call_ok_running c xs t svc m : call_ok c xs -> c_handler c = HRunning t svc m -> xs = [].
Proof.
  unfold call_ok. intros Hok Hh. rewrite Hh in Hok.
  destruct (c_pc c) as [| | | |? [?|]| | |[?|]]; naive_solver.
Qed.

(** ** Replies of deleted servers *)

(** A server is registered under a name. *)
Definition registered (sn : Key) (rs : nat) (rn : Network) : Prop :=
  mjoin (n_servers rn !! sn) = Some rs.

(** Every [Server] is added to the network at most once, as the tester does
    it: a server that comes back is a new one. *)
Definition tidy (ev : RpcEvent) (st : Rpc) : bool :=
  match ev with RAddServer _ rs => bool_decide (rs ∉ added st) | _ => true end.

Inductive tidy_reachable : Rpc -> Prop :=
  | tidy_init w : tidy_reachable (rinit w)
  | tidy_step st ev st' :
      tidy_reachable st -> tidy ev st = true -> rstep ev st = Ok st' -> tidy_reachable st'.

Lemma tidy_rreachable st : tidy_reachable st -> rreachable st.
Proof. induction 1; eauto using rreach_init, rreach_step. Qed.

Lemma rstep_servers ev st st' :
  rstep ev st = Ok st' ->
  n_servers (net st') =
    match ev with
    | RAddServer sn rs => <[sn := Some rs]> (n_servers (net st))
    | RDeleteServer sn => <[sn := None]> (n_servers (net st))
    | _ => n_servers (net st)
    end /\
  added st' = match ev with RAddServer _ rs => rs :: added st | _ => added st end.
Proof.
  intros H.
  destruct ev; cbn [rstep] in H;
    unfold step_send, step_cancel, step_read, step_start, step_dispatch, step_handle,
      step_reply, step_tick, step_drain, step_finish, step_timer, start_handler, finish,
      MakeEnd, Cleanup in H;
    outcome_inv; simplify_eq/=; done.
Qed.

(** Added servers are in the heap, which only grows. *)
Lemma rstep_heap ev st st' : rstep ev st = Ok st' -> (length (heap st) <= length (heap st'))%nat.
Proof.
  intros H.
  destruct ev; cbn [rstep] in H;
    unfold step_send, step_cancel, step_read, step_start, step_dispatch, step_handle,
      step_reply, step_tick, step_drain, step_finish, step_timer, start_handler, finish,
      MakeEnd, Cleanup in H;
    outcome_inv; simplify_eq/=; rewrite ?length_insert, ?length_app; simpl; lia.
Qed.

Lemma added_heap st rs : rreachable st -> rs ∈ added st -> (rs < length (heap st))%nat.
Proof.
  induction 1 as [w|st ev st' _ IH Hs]; [by intros ?%elem_of_nil|].
  pose proof (rstep_heap _ _ _ Hs) as Hle. destruct (rstep_servers _ _ _ Hs) as [_ ->].
  intros Hin. assert (rs ∈ added st \/ exists sn, ev = RAddServer sn rs) as [Hi|[sn ->]].
  { destruct ev; eauto. apply elem_of_cons in Hin as [-> |?]; eauto. }
  - specialize (IH Hi). lia.
  - cbn [rstep] in Hs. outcome_inv. bool_to_prop. lia.
Qed.

(** The servers a call has to do with. *)
Definition target (c : Call) (t : Target) : Prop :=
  c_pc c = Waiting t \/ (exists ms, c_pc c = Accepted ms t) \/ (exists r, c_pc c = LoopDone t r)
  \/ c_handler c = HSpawned t \/ (exists svc m, c_handler c = HRunning t svc m).

(** A run on a server that was not registered is not answered: the server
    does not come back, and the last look at it is still to come. *)
Definition live_ok (rn : Network) (c : Call) (xs : list (Exec Val)) : Prop :=
  match c_pc c with
  | Waiting t | LoopDone t (Some _) =>
      forall x, x ∈ xs -> x_live x = false -> ~ registered (t_name t) (t_server t) rn
  | Delayed _ _ | Returned (Some _) => forall x, x ∈ xs -> x_live x = true
  | _ => True
  end.

Record live_inv (st : Rpc) : Prop := {
  li_added sn rs : registered sn rs (net st) -> rs ∈ added st;
  li_target k c t : calls st !! k = Some c -> target c t -> t_server t ∈ added st;
  li_live k c : calls st !! k = Some c -> live_ok (net st) c (runs k (execs st));
}.

Lemma registered_insert sn rs sn' o rn :
  registered sn rs (set_n_servers (<[sn' := o]> (n_servers rn)) rn) ->
  o = Some rs \/ registered sn rs rn.
Proof.
  unfold registered. simpl. destruct (decide (sn = sn')) as [->|Hne].
  - rewrite lookup_insert_eq. naive_solver.
  - rewrite lookup_insert_ne by done. naive_solver.
Qed.

(** A server that is gone stays gone. *)
Lemma unregistered_stable ev st st' sn rs :
  tidy ev st = true -> rstep ev st = Ok st' -> rs ∈ added st ->
  registered sn rs (net st') -> registered sn rs (net st).
Proof.
  intros Ht Hs Hin Hr. destruct (rstep_servers _ _ _ Hs) as [Hn _].
  unfold registered in *. rewrite Hn in Hr.
  destruct ev; try done; apply (registered_insert _ _ _ _ (net st)) in Hr as [[= ->]|Hr]; try done.
  simpl in Ht. by apply bool_decide_eq_true in Ht.
Qed.

Lemma live_ok_stable st ev st' c xs :
  tidy ev st = true -> rstep ev st = Ok st' ->
  (forall t, target c t -> t_server t ∈ added st) ->
  live_ok (net st) c xs -> live_ok (net st') c xs.
Proof.
  intros Ht Hs Hin. unfold live_ok, target in *.
  destruct (c_pc c) as [| | |t|t [r|]| | |]; try done;
    intros Hl x Hx Hxl Hr; (eapply Hl; [done..|]);
    (eapply unregistered_stable; [done|done| |done]); apply Hin; naive_solver.
Qed.

(** The server of [t] answers: it is registered. *)
Lemma alive_registered e t rn :
  isServerDead e (t_name t) (t_server t) rn = false -> registered (t_name t) (t_server t) rn.
Proof. unfold isServerDead, registered. intros Hd. bool_to_prop. done. Qed.

Lemma read_info_target rnd rn c ms t :
  read_info rnd rn c = Accepted ms t -> registered (t_name t) (t_server t) rn.
Proof.
  unfold read_info, readEndnameInfo, registered. simpl.
  destruct (default _ _); [|done].
  destruct (mjoin (n_connections rn !! _)) as [sn|]; [|done]. simpl.
  destruct (mjoin (n_servers rn !! sn)) as [rs|] eqn:E; [|done]. intros [= _ <-]. done.
Qed.

(** The targets of a call after a step. *)
Lemma call_step_target k rn hp c c' xs t :
  call_step k rn hp c c' xs -> target c' t -> target c t \/ registered (t_name t) (t_server t) rn.
Proof.
  unfold target. destruct 1; simpl; intros Ht; try naive_solver.
  - destruct Ht as [Ht|[[ms Ht]|[[r Ht]|Ht]]]; [| |..|naive_solver].
    + destruct (read_info_cases rnd rn c) as [(ms & t' & E)|(ms & E)]; congruence.
    + right. eauto using read_info_target.
    + destruct (read_info_cases rnd rn c) as [(ms & t' & E)|(ms & E)]; congruence.
  - apply receive_reply_ok in H1 as [[_ ->]|(v & _ & _ & ->)]; naive_solver.
  - apply receive_reply_ok in H0 as [[_ ->]|(v & _ & _ & ->)]; naive_solver.
Qed.

Lemma call_step_live k rn hp c c' xs ys :
  call_step k rn hp c c' xs -> call_ok c ys -> live_ok rn c ys -> live_ok rn c' (ys ++ xs).
Proof.
  destruct 1; destruct c as [req var pc0 h]; simpl in *; subst; unfold call_ok, live_ok; simpl;
    rewrite ?app_nil_r; try naive_solver.
  - by destruct (read_info_cases rnd rn (mkCall req var Received h)) as [(ms & t & ->)|(ms & ->)].
  - intros [-> ->]. set_solver.
  - destruct pc0 as [| | | |? [?|]| | |[?|]]; try naive_solver.
    intros [-> ->] _ x Hx Hl. apply list_elem_of_singleton in Hx as ->. simpl in Hl.
    by apply bool_decide_eq_false in Hl.
  - intros _ Hl x Hx. destruct (x_live x) eqn:E; [done|].
    by apply alive_registered, (Hl x Hx E) in H0.
  - intros _ Hl. apply alive_registered in H0.
    assert (forall x, x ∈ ys -> x_live x = true).
    { intros x Hx. destruct (x_live x) eqn:E; [done|]. by apply (Hl x Hx E) in H0. }
    apply receive_reply_ok in H1 as [[_ ->]|(v & _ & _ & ->)]; naive_solver.
  - intros _ Hl. apply receive_reply_ok in H0 as [[_ ->]|(v & _ & _ & ->)]; naive_solver.
Qed.

Lemma live_inv_reachable st : tidy_reachable st -> live_inv st.
Proof.
  induction 1 as [w|st ev st' Hr [IHa IHt IHl] Ht Hs].
  { split; [|done|done]. unfold registered. simpl. intros sn rs. by rewrite lookup_empty. }
  assert (Hn : forall sn rs, registered sn rs (net st') -> rs ∈ added st').
  { intros sn rs Hreg. destruct (rstep_servers _ _ _ Hs) as [Hn Ha].
    unfold registered in Hreg. rewrite Hn in Hreg. rewrite Ha.
    destruct ev; try (by eapply IHa);
      apply (registered_insert _ _ _ _ (net st)) in Hreg as [[= ->]|Hreg]; set_solver. }
  assert (Hsub : added st ⊆ added st').
  { destruct (rstep_servers _ _ _ Hs) as [_ ->]. destruct ev; set_solver. }
  destruct (call_inv_reachable st) as [Hok _]; [by apply tidy_rreachable|].
  assert (Hst : forall k c, calls st !! k = Some c -> live_ok (net st') c (runs k (execs st))).
  { intros k c Hk. eapply live_ok_stable; eauto. }
  destruct (rstep_calls _ _ _ Hs) as [Hc Hx _|e meth a var Hc Hx _|k c c' xs Hk Hc Hx Hsv Ha _ Hcs];
    split; try done; rewrite Hc.
  - intros k c t Hk Htg. apply Hsub. eauto.
  - rewrite Hx. eauto.
  - intros k c t Hk Htg. apply lookup_app_Some in Hk as [Hk|[_ Hk]]; [apply Hsub; eauto|].
    apply list_lookup_singleton_Some in Hk as [_ <-]. unfold target in Htg. naive_solver.
  - intros k c Hk. rewrite Hx. apply lookup_app_Some in Hk as [Hk|[_ Hk]]; [eauto|].
    by apply list_lookup_singleton_Some in Hk as [_ <-].
  - intros j d t Hj Htg. rewrite Ha. apply insert_call_lookup in Hj as [(-> & -> & _)|[_ Hj]]; [|eauto].
    destruct (call_step_target _ _ _ _ _ _ _ Hcs Htg); eauto.
  - intros j d Hj. rewrite Hx, runs_app.
    assert (Hlive : forall d ys, live_ok (net st) d ys -> live_ok (net st') d ys)
      by (intros d' ys; unfold live_ok, registered; by rewrite Hsv).
    apply Hlive. apply insert_call_lookup in Hj as [(-> & -> & _)|[Hne Hj]].
    + rewrite (runs_all k xs) by eauto using call_step_runs. eapply call_step_live; eauto.
    + rewrite (call_step_runs_ne _ _ _ _ _ _ _ Hcs Hne), app_nil_r. eauto.
Qed.

(** ** Calls complete *)

(** Every event of a call but a tick of its loop takes it closer to its end. *)
Definition measure (c : Call) : nat :=
  (match c_pc c with
   | Sending => 6 | Received => 5 | Accepted _ _ => 4 | Waiting _ => 3
   | LoopDone _ _ => 2 | Delayed _ _ | Expiring _ => 1 | Returned _ => 0
   end +
   match c_handler c with
   | HNone => 4 | HSpawned _ => 3 | HRunning _ _ _ => 2 | HReturned _ => 1 | HGone => 0
   end)%nat.

Lemma call_step_measure k rn hp c c' xs ys :
  call_step k rn hp c c' xs -> call_ok c ys -> (measure c' < measure c)%nat.
Proof.
  unfold call_ok. destruct 1; destruct c as [req var pc0 h]; simpl in *; subst; unfold measure; simpl; try lia.
  - destruct (read_info_cases rnd rn (mkCall req var Received h)) as [(ms & t & ->)|(ms & ->)]; lia.
  - intros [-> _]. lia.
  - apply receive_reply_ok in H1 as [[_ ->]|(v & _ & _ & ->)]; lia.
  - apply receive_reply_ok in H0 as [[_ ->]|(v & _ & _ & ->)]; lia.
Qed.

Lemma measure_bound c : (measure c <= 10)%nat.
Proof. unfold measure. destruct (c_pc c), (c_handler c); lia. Qed.

Definition returned (c : Call) : Prop := exists res, c_pc c = Returned res.

(** The handler of [c] blocks with draw [rnd], and its server is alive. *)
Definition handler_blocks (rnd : Z) (st : Rpc) (c : Call) : Prop :=
  exists t svc m, c_pc c = Waiting t /\ c_handler c = HRunning t svc m /\
    handle (c_req c) svc m rnd (world st) = Disabled /\
    isServerDead (endname (c_req c)) (t_name t) (t_server t) (net st) = false.

(** The goroutine of the network stops only after [Cleanup]. *)
Lemma loop_done st : rreachable st -> n_loop (net st) = false -> n_done (net st) = true.
Proof.
  induction 1 as [w|st ev st' _ IH Hs]; [done|].
  destruct ev; cbn [rstep] in Hs;
    unfold step_send, step_cancel, step_read, step_start, step_dispatch, step_handle,
      step_reply, step_tick, step_drain, step_finish, step_timer, start_handler, finish,
      MakeEnd, Cleanup in Hs;
    outcome_inv; simplify_eq/=; auto.
Qed.

(** An event of call [k] is a step of call [k]. *)
Lemma own_step k ev st st' c :
  own k ev = true -> rstep ev st = Ok st' -> calls st !! k = Some c -> ~ tick_alive k ev st ->
  exists c' xs, calls st' !! k = Some c' /\ call_step k (net st) (heap st) c c' xs.
Proof.
  intros Ho Hs Hk Hne.
  destruct (rstep_calls _ _ _ Hs) as [_ _ Hst|e meth a var _ _ ->|j d d' xs Hj Hc _ _ _ Hj' Hcs].
  - by apply Hst in Ho as [? _].
  - done.
  - assert (j = k) as ->.
    { destruct ev; simpl in *; bool_to_prop; congruence. }
    rewrite Hk in Hj. simplify_eq. exists d', xs. split; [|done]. rewrite Hc.
    apply list_lookup_insert_eq. by eapply lookup_lt_Some.
Qed.

(** The next event of a call that has not returned. *)
Definition next_event (rnd : Z) (st : Rpc) (k : nat) (c : Call) : RpcEvent :=
  match c_pc c with
  | Sending => if n_loop (net st) then RSend k else RCancel k
  | Received => RRead k rnd
  | Accepted _ _ => RStart k rnd
  | Waiting t =>
      if isServerDead (endname (c_req c)) (t_name t) (t_server t) (net st) then RTick k
      else match c_handler c with
           | HSpawned _ => RDispatch k
           | HRunning _ _ _ => RHandle k rnd
           | _ => RReply k
           end
  | LoopDone _ _ => RFinish k rnd rnd rnd rnd
  | _ => RTimer k
  end.

Lemma next_event_own rnd st k c : own k (next_event rnd st k c) = true.
Proof. unfold next_event. repeat case_match; apply own_self. Qed.

Lemma dispatch_not_disabled req (rs : Server Val R W) : dispatch req rs <> Disabled.
Proof.
  unfold dispatch. destruct (split_svcMeth _) as [[sn mn]|]; [|done]. simpl.
  destruct (s_services rs !! sn) as [svc|]; [|done]. simpl. by destruct (s_methods svc !! mn).
Qed.

Lemma receive_not_disabled r c : receive_reply r c <> Disabled.
Proof. unfold receive_reply. repeat case_match; done. Qed.

Lemma bind_not_disabled {A B} (o : Outcome A) (f : A -> Outcome B) :
  o <> Disabled -> (forall a, f a <> Disabled) -> (o ≫= f) <> Disabled.
Proof. destruct o; naive_solver. Qed.

Lemma finish_not_disabled r1 r2 r3 r4 t r c rn : finish r1 r2 r3 r4 t r c rn <> Disabled.
Proof.
  unfold finish. repeat case_match; try done; by apply bind_not_disabled; [apply receive_not_disabled|].
Qed.

Lemma next_event_enabled rnd st k c xs :
  calls st !! k = Some c -> call_ok c xs -> (n_loop (net st) = false -> n_done (net st) = true) ->
  ~ returned c -> ~ handler_blocks rnd st c -> rstep (next_event rnd st k c) st <> Disabled.
Proof.
  intros Hk Hok Hl Hret Hb. unfold next_event, call_ok in *.
  destruct (c_pc c) as [| |ms t|t|t r|ms r|ms|res] eqn:Hpc; cbn [rstep].
  - destruct (n_loop (net st)) eqn:E; cbn [rstep]; unfold step_send, step_cancel;
      rewrite Hk; simpl; rewrite Hpc; simpl; [by rewrite E|by rewrite Hl].
  - unfold step_read. rewrite Hk. simpl. by rewrite Hpc.
  - unfold step_start, start_handler. rewrite Hk. simpl. rewrite Hpc. by case_match.
  - destruct (isServerDead _ _ _ _) eqn:Hd; cbn [rstep].
    { unfold step_tick. rewrite Hk. simpl. rewrite Hpc. by rewrite Hd. }
    destruct (c_handler c) as [|t'|t' svc m|r|] eqn:Hh; try done.
    + unfold rstep, step_dispatch. rewrite Hk. simpl. rewrite Hh.
      destruct (heap st !! _) as [rs|]; [|done]. simpl.
      apply bind_not_disabled; [apply dispatch_not_disabled|]. by intros [? [? ?]].
    + unfold rstep, step_handle. rewrite Hk. simpl. rewrite Hh. destruct Hok as [-> _].
      apply bind_not_disabled; [|by intros [[? ?] ?]].
      intros Hdis. apply Hb. exists t, svc, m. done.
    + unfold rstep, step_reply. rewrite Hk. simpl. by rewrite Hpc, Hh.
  - unfold step_finish. rewrite Hk. simpl. rewrite Hpc.
    apply bind_not_disabled; [apply finish_not_disabled|by intros [? ?]].
  - unfold step_timer. rewrite Hk. simpl. rewrite Hpc.
    by apply bind_not_disabled; [apply receive_not_disabled|].
  - unfold step_timer. rewrite Hk. simpl. by rewrite Hpc.
  - exfalso. apply Hret. by exists res.
Qed.

Lemma next_event_moves rnd st k c :
  calls st !! k = Some c -> ~ tick_alive k (next_event rnd st k c) st.
Proof.
  intros Hk [He Ht]. unfold next_event in He.
  destruct (c_pc c) as [| |ms t|t|t r|ms r|ms|res] eqn:Hpc; try done.
  - by destruct (n_loop (net st)).
  - rewrite (Ht c t Hk Hpc) in He. by destruct (c_handler c).
Qed.

Lemma returned_or c : returned c \/ ~ returned c.
Proof.
  unfold returned. destruct (c_pc c); [right; intros [? ?]; congruence ..|left; eauto].
Qed.

Lemma blocks_or rnd st c xs : call_ok c xs -> handler_blocks rnd st c \/ ~ handler_blocks rnd st c.
Proof.
  unfold handler_blocks, call_ok. intros Hok.
  destruct (c_pc c) as [| |ms t|t|t r|ms r|ms|res];
    try (right; intros (? & ? & ? & ? & _); congruence).
  destruct (c_handler c) as [|t'|t' svc m|r|]; try (right; intros (? & ? & ? & _ & ? & _); congruence).
  destruct Hok as [-> _].
  destruct (isServerDead (endname (c_req c)) (t_name t) (t_server t) (net st)) eqn:Hd;
    [right; intros (? & ? & ? & ? & ? & _ & ?); congruence|].
  destruct (handle (c_req c) svc m rnd (world st)) eqn:E;
    [left; eauto 10|right; intros (? & ? & ? & ? & ? & ? & _); congruence ..].
Qed.

(** What is left of an execution in which call [k] does not get on. *)
Inductive call_end (rnd : Z) (k : nat) (st : Rpc) : Prop :=
  | ce_returned c : calls st !! k = Some c -> returned c -> call_end rnd k st
  | ce_blocks c : calls st !! k = Some c -> handler_blocks rnd st c -> call_end rnd k st
  | ce_fatal ev : own k ev = true -> rstep ev st = Panic -> call_end rnd k st.

Lemma call_completes_aux n rnd st k c :
  rreachable st -> calls st !! k = Some c -> (measure c <= n)%nat ->
  exists evs st', Forall (fun ev => own k ev = true) evs /\ (length evs <= n)%nat /\
    rexec evs st = Ok st' /\ call_end rnd k st'.
Proof.
  revert st c. induction n as [n IH] using lt_wf_ind. intros st c Hr Hk Hm.
  destruct (call_inv_reachable st Hr) as [Hok _]. specialize (Hok k c Hk).
  destruct (returned_or c) as [Hret|Hret].
  { exists [], st. split_and!; [constructor|simpl; lia|done|]. by eapply ce_returned. }
  destruct (blocks_or rnd st c _ Hok) as [Hb|Hb].
  { exists [], st. split_and!; [constructor|simpl; lia|done|]. by eapply ce_blocks. }
  pose proof (next_event_enabled rnd st k c _ Hk Hok (loop_done st Hr) Hret Hb) as Hen.
  destruct (rstep (next_event rnd st k c) st) as [| |st1] eqn:Hs; [done| |].
  { exists [], st. split_and!; [constructor|simpl; lia|done|].
    eapply ce_fatal; [apply next_event_own|done]. }
  destruct (own_step k _ _ _ c (next_event_own rnd st k c) Hs Hk (next_event_moves rnd st k c Hk))
    as (c1 & xs & Hk1 & Hcs).
  pose proof (call_step_measure _ _ _ _ _ _ _ Hcs Hok) as Hlt.
  destruct (IH (pred n) ltac:(lia) st1 c1) as (evs & st' & Ho & Hle & He & Hend);
    [by eapply rreach_step|done|lia|].
  exists (next_event rnd st k c :: evs), st'. split_and!.
  - constructor; [apply next_event_own|done].
  - simpl. lia.
  - simpl. by rewrite Hs.
  - done.
Qed.

(** ** A reliable network *)

(** The events that leave the configuration of the network alone. *)
Definition undisturbed (ev : RpcEvent) : bool :=
  match ev with
  | RCleanup | RReliable _ | RMakeEnd _ | RAddServer _ _ | RDeleteServer _
  | RConnect _ _ | REnable _ _ => false
  | _ => true
  end.

(** End [e] is enabled and connected to server [rs], registered as [sn]. *)
Record connected (e sn : Key) (rs : nat) (rn : Network) : Prop := {
  cn_reliable : n_reliable rn = true;
  cn_open : n_done rn = false;
  cn_enabled : n_enabled rn !! e = Some true;
  cn_connection : n_connections rn !! e = Some (Some sn);
  cn_server : n_servers rn !! sn = Some (Some rs);
}.

Lemma undisturbed_connected ev st st' e sn rs :
  undisturbed ev = true -> rstep ev st = Ok st' ->
  connected e sn rs (net st) -> connected e sn rs (net st').
Proof.
  intros Hq Hs [H1 H2 H3 H4 H5].
  destruct ev; try done; cbn [rstep] in Hs;
    unfold step_send, step_cancel, step_read, step_start, step_dispatch, step_handle,
      step_reply, step_tick, step_drain, step_finish, step_timer, start_handler, finish in Hs;
    outcome_inv; simplify_eq/=; by split.
Qed.

(** A call over such an end does not fail. *)
Definition reliable_ok (sn : Key) (rs : nat) (c : Call) : Prop :=
  match c_pc c with
  | Sending | Received | Delayed _ _ | Returned (Some _) => True
  | Accepted _ t | Waiting t | LoopDone t (Some _) =>
      t_name t = sn /\ t_server t = rs /\ t_reliable t = true
  | LoopDone _ None | Expiring _ | Returned None => False
  end.

Lemma connected_alive e sn rs rn t :
  connected e sn rs rn -> t_name t = sn -> t_server t = rs ->
  isServerDead e (t_name t) (t_server t) rn = false.
Proof.
  intros [_ _ He _ Hs] -> ->. unfold isServerDead. rewrite He, Hs. simpl.
  by rewrite bool_decide_eq_true_2.
Qed.

Lemma connected_read e sn rs rn rnd c :
  connected e sn rs rn -> endname (c_req c) = e ->
  read_info rnd rn c = Accepted 0 (mkTarget sn rs true (n_longReordering rn)).
Proof.
  intros [Hr _ He Hc Hs] Hn. unfold read_info, readEndnameInfo. rewrite Hn, He, Hc. simpl.
  by rewrite Hs, Hr.
Qed.

(** A step does not change the request nor the caller's variable. *)
Lemma call_step_req k rn hp c c' xs :
  call_step k rn hp c c' xs -> c_req c' = c_req c /\ c_var c' = c_var c.
Proof. by destruct 1. Qed.

Lemma reliable_call_step k rn hp c c' xs ys sn rs :
  call_step k rn hp c c' xs -> connected (endname (c_req c)) sn rs rn -> call_ok c ys ->
  reliable_ok sn rs c -> reliable_ok sn rs c'.
Proof.
  intros Hcs Hcn. assert (Hal := fun t => connected_alive _ sn rs rn t Hcn).
  assert (Hrd := fun rnd => connected_read _ sn rs rn rnd c Hcn eq_refl).
  assert (Ho := cn_open _ _ _ _ Hcn).
  destruct Hcs; destruct c as [req var pc0 h]; simpl in *; subst; unfold reliable_ok, call_ok; simpl;
    intros Hok Hrel; try naive_solver.
  - congruence.
  - by rewrite Hrd.
  - destruct Hrel as (? & ? & ?). congruence.
  - destruct Hrel as (? & ? & ?). rewrite Hal in *; congruence.
  - destruct r; [|done]. destruct Hrel as (? & ? & ?), H0 as [?|[?|?]]; [done| |congruence].
    rewrite Hal in *; congruence.
  - destruct Hok as (-> & x & -> & [Hr _]).
    apply receive_reply_ok in H1 as [[? ->]|(v & _ & _ & ->)]; [congruence|done].
  - destruct Hok as (-> & t & x & -> & [Hr _]).
    apply receive_reply_ok in H0 as [[? ->]|(v & _ & _ & ->)]; [congruence|done].
Qed.

Lemma reliable_exec evs st st' sn rs k c :
  forallb undisturbed evs = true -> rreachable st -> rexec evs st = Ok st' ->
  calls st !! k = Some c -> connected (endname (c_req c)) sn rs (net st) ->
  reliable_ok sn rs c ->
  exists c', calls st' !! k = Some c' /\ c_req c' = c_req c /\ c_var c' = c_var c /\
             reliable_ok sn rs c'.
Proof.
  revert st c. induction evs as [|ev evs IH]; intros st c Hq Hr He Hk Hcn Hok.
  { injection He as <-. by exists c. }
  simpl in Hq, He. bool_to_prop. apply bind_Ok in He as (st1 & Hs & He).
  assert (exists c1, calls st1 !! k = Some c1 /\ c_req c1 = c_req c /\ c_var c1 = c_var c /\
                     reliable_ok sn rs c1) as (c1 & Hk1 & Hreq & Hvar & Hok1).
  { destruct (call_inv_reachable st Hr) as [Hinv _]. specialize (Hinv k c Hk).
    destruct (rstep_calls _ _ _ Hs) as [Hc _ _|en meth a var Hc _ _|j d d' xs Hj Hc _ _ _ _ Hcs];
      rewrite Hc.
    - by exists c.
    - exists c. split; [|done]. by apply lookup_app_l_Some.
    - destruct (decide (j = k)) as [->|Hne].
      2: { exists c. split; [|done]. by rewrite list_lookup_insert_ne. }
      simplify_eq. exists d'. split; [by apply list_lookup_insert_eq; eapply lookup_lt_Some|].
      destruct (call_step_req _ _ _ _ _ _ Hcs). eauto using reliable_call_step. }
  destruct (IH st1 c1) as (c' & Hk' & Hreq' & Hvar' & Hok'); try done.
  - by eapply rreach_step.
  - rewrite Hreq. by eapply undisturbed_connected.
  - exists c'. split_and!; [done|congruence|congruence|done].
Qed.

(** ** Statistics *)

Definition is_send (ev : RpcEvent) : bool := match ev with RSend _ => true | _ => false end.

(** The requests the network has taken in an execution. *)
Definition sends (evs : list RpcEvent) : Z := zlen (List.filter is_send evs).

Lemma int32_add a b : int32 (int32 a + b) = int32 (a + b).
Proof.
  unfold int32. f_equal.
  replace ((a + 2 ^ 31) mod 2 ^ 32 - 2 ^ 31 + b + 2 ^ 31) with ((a + 2 ^ 31) mod 2 ^ 32 + b) by ring.
  rewrite Zplus_mod_idemp_l. f_equal. ring.
Qed.

Lemma int32_idem a : int32 (int32 a) = int32 a.
Proof. pose proof (int32_add a 0) as H. by rewrite !Z.add_0_r in H. Qed.

Lemma int32_id a : - 2 ^ 31 <= a < 2 ^ 31 -> int32 a = a.
Proof. intros Ha. unfold int32. rewrite Z.mod_small; lia. Qed.

Lemma rstep_count ev st st' :
  rstep ev st = Ok st' ->
  n_count (net st') = if is_send ev then int32 (n_count (net st) + 1) else n_count (net st).
Proof.
  intros H.
  destruct ev; cbn [rstep] in H;
    unfold step_send, step_cancel, step_read, step_start, step_dispatch, step_handle,
      step_reply, step_tick, step_drain, step_finish, step_timer, start_handler, finish,
      MakeEnd, Cleanup in H;
    outcome_inv; simplify_eq/=; done.
Qed.

Lemma rexec_count evs st st' :
  rexec evs st = Ok st' -> int32 (n_count (net st)) = n_count (net st) ->
  n_count (net st') = int32 (n_count (net st) + sends evs).
Proof.
  revert st. induction evs as [|ev evs IH]; intros st He Hn.
  { injection He as <-. change (sends []) with 0. by rewrite Z.add_0_r. }
  simpl in He. apply bind_Ok in He as (st1 & Hs & He). apply rstep_count in Hs as Hc.
  unfold sends in *. cbn [List.filter]. rewrite (IH _ He).
  - rewrite Hc. destruct (is_send ev); [|done].
    rewrite int32_add, zlen_cons. f_equal. lia.
  - rewrite Hc. destruct (is_send ev); [|done].
    apply int32_idem.
Qed.
End LabRpcInv.
