(* ===== verification/RandString.v ===== *)
(** * Random names ([randstring] and [makeSeed] of [lab2_raft/raft/config.go])

    The tester names the ends of a server with the first [n] characters of
    [2n] random bytes in base64.  The bytes are an argument; the encoding is
    [base64.URLEncoding] with its padding.  Two names of 20 characters are
    equal exactly if the first 15 of their 40 bytes are. *)

From S2P Require Import Prelude LabRpc.

(** ** base64.URLEncoding *)

Definition encodeURL : string := "ABCDEFGHIJKLMNOPQRSTUVWXYZabcdefghijklmnopqrstuvwxyz0123456789-_".

(** [enc.encode[x]] *)
Definition encode_char (x : Z) : Ascii.ascii := default Ascii.zero (String.list_ascii_of_string encodeURL !! Z.to_nat x).
Definition StdPadding : Ascii.ascii := Ascii.Ascii true false true true true true false false.

(** Six bits of [val], from bit [k] on. *)
Definition sextet (val k : Z) : Ascii.ascii := encode_char (Z.land (Z.shiftr val k) 0x3f).

(** Three bytes in one number. *)
Definition join3 (a b c : Z) : Z := Z.lor (Z.lor (Z.shiftl a 16) (Z.shiftl b 8)) c.

(** [Encode]: full groups of three bytes, then the rest with padding. *)
Fixpoint Encode_chars (src : list Z) : list Ascii.ascii :=
  match src with
  | a :: b :: c :: src =>
      let val := join3 a b c in
      sextet val 18 :: sextet val 12 :: sextet val 6 :: sextet val 0 :: Encode_chars src
  | [a; b] =>
      let val := join3 a b 0 in [sextet val 18; sextet val 12; sextet val 6; StdPadding]
  | [a] =>
      let val := join3 a 0 0 in [sextet val 18; sextet val 12; StdPadding; StdPadding]
  | [] => []
  end.

Definition EncodeToString (src : list Z) : string := String.string_of_list_ascii (Encode_chars src).

(** ** The source *)

(** [b] is what [crand.Read] puts into the [2n] bytes. *)
Definition randstring (n : nat) (b : list Z) : string := String.substring 0 n (EncodeToString b).

(** [crand_Int max] is a number below [max]. *)
Definition makeSeed (crand_Int : Z -> Z) : Z :=
  let max := int64 (Z.shiftl 1 62) in int64 (crand_Int max).

(** ** The encoding *)

Definition byte_ok (b : Z) : Prop := 0 <= b < 256.

Lemma encode_char_inj x y : 0 <= x < 64 -> 0 <= y < 64 -> encode_char x = encode_char y -> x = y.
Proof.
  intros Hx Hy. unfold encode_char.
  assert (Hlen : length (String.list_ascii_of_string encodeURL) = 64%nat) by done.
  assert (Hnd : NoDup (String.list_ascii_of_string encodeURL)) by (apply (bool_decide_unpack _); by vm_compute).
  destruct (lookup_lt_is_Some_2 (String.list_ascii_of_string encodeURL) (Z.to_nat x)) as [c Hc]; [lia|].
  destruct (lookup_lt_is_Some_2 (String.list_ascii_of_string encodeURL) (Z.to_nat y)) as [d Hd]; [lia|].
  rewrite Hc, Hd. simpl. intros <-. pose proof (NoDup_lookup _ _ _ _ Hnd Hc Hd). lia.
Qed.

(** Bits that do not overlap add up. *)
Lemma lor_shift a b k : 0 <= k -> 0 <= b < 2 ^ k -> Z.lor (Z.shiftl a k) b = a * 2 ^ k + b.
Proof.
  intros Hk Hb. rewrite <-Z.shiftl_mul_pow2 by done. rewrite <-Z.add_lor_land.
  replace (Z.land (Z.shiftl a k) b) with 0; [lia|]. symmetry. apply Z.bits_inj'. intros i Hi.
  rewrite Z.land_spec, Z.bits_0. destruct (Z.lt_ge_cases i k) as [Hlt|Hge].
  - by rewrite Z.shiftl_spec_low.
  - apply andb_false_iff. right. rewrite Z.testbit_eqb by done. apply Z.eqb_neq.
    rewrite Z.div_small; [done|]. split; [lia|]. eapply Z.lt_le_trans; [apply Hb|]. apply Z.pow_le_mono_r; lia.
Qed.

Lemma join3_sum a b c : byte_ok b -> byte_ok c -> join3 a b c = a * 65536 + b * 256 + c.
Proof.
  unfold byte_ok, join3. intros Hb Hc. rewrite <-Z.lor_assoc, (lor_shift b c 8) by lia.
  rewrite (lor_shift a _ 16) by lia. lia.
Qed.

Lemma sextet_val val k : 0 <= k -> Z.land (Z.shiftr val k) 0x3f = (val / 2 ^ k) mod 64.
Proof. intros Hk. rewrite Z.shiftr_div_pow2 by done. apply (Z.land_ones _ 6). lia. Qed.

Lemma sextet_inj val val' k : 0 <= k -> sextet val k = sextet val' k -> (val / 2 ^ k) mod 64 = (val' / 2 ^ k) mod 64.
Proof.
  intros Hk He. unfold sextet in He. rewrite !sextet_val in He by done.
  apply encode_char_inj in He; [done|apply Z.mod_pos_bound; lia..].
Qed.

(** Four characters determine the three bytes. *)
Lemma group_inj a b c a' b' c' :
  byte_ok a -> byte_ok b -> byte_ok c -> byte_ok a' -> byte_ok b' -> byte_ok c' ->
  (forall k, k = 18 \/ k = 12 \/ k = 6 \/ k = 0 -> sextet (join3 a b c) k = sextet (join3 a' b' c') k) ->
  a = a' /\ b = b' /\ c = c'.
Proof.
  intros Ha Hb Hc Ha' Hb' Hc' Hk. rewrite !join3_sum in Hk by done. unfold byte_ok in *.
  pose proof (sextet_inj _ _ 18 ltac:(lia) (Hk 18 ltac:(auto))) as H18.
  pose proof (sextet_inj _ _ 12 ltac:(lia) (Hk 12 ltac:(auto))) as H12.
  pose proof (sextet_inj _ _ 6 ltac:(lia) (Hk 6 ltac:(auto))) as H6.
  pose proof (sextet_inj _ _ 0 ltac:(lia) (Hk 0 ltac:(auto))) as H0. clear Hk.
  change (2 ^ 18) with 262144 in H18. change (2 ^ 12) with 4096 in H12. change (2 ^ 6) with 64 in H6.
  change (2 ^ 0) with 1 in H0. assert (Heq : a * 65536 + b * 256 + c = a' * 65536 + b' * 256 + c').
  { assert (Hv : 0 <= a * 65536 + b * 256 + c < 16777216) by lia.
    assert (Hv' : 0 <= a' * 65536 + b' * 256 + c' < 16777216) by lia. revert Hv Hv' H18 H12 H6 H0.
    generalize (a * 65536 + b * 256 + c), (a' * 65536 + b' * 256 + c'). clear. intros v v' Hv Hv' H18 H12 H6 H0.
    Z.div_mod_to_equations. lia. }
  lia.
Qed.

(** The first [4k] characters are those of the first [3k] bytes, and determine them. *)
Lemma Encode_take k : forall src, (3 * k <= length src)%nat -> take (4 * k) (Encode_chars src) = Encode_chars (take (3 * k) src).
Proof.
  induction k as [|k IH]; intros src Hl; [done|].
  destruct src as [|a [|b [|c src]]]; simpl in Hl; try lia.
  replace (4 * S k)%nat with (S (S (S (S (4 * k))))) by lia. replace (3 * S k)%nat with (S (S (S (3 * k)))) by lia.
  cbn [Encode_chars firstn]. by rewrite IH by lia.
Qed.

Lemma Encode_length k : forall src, length src = (3 * k)%nat -> length (Encode_chars src) = (4 * k)%nat.
Proof.
  induction k as [|k IH]; intros src Hl; [by destruct src|].
  destruct src as [|a [|b [|c src]]]; simpl in Hl; try lia. cbn [Encode_chars length]. rewrite IH by lia. lia.
Qed.

Lemma Encode_inj k : forall src src',
  length src = (3 * k)%nat -> length src' = (3 * k)%nat -> Forall byte_ok src -> Forall byte_ok src' ->
  Encode_chars src = Encode_chars src' -> src = src'.
Proof.
  induction k as [|k IH]; intros src src' Hl Hl' Hb Hb' He; [by destruct src, src'|].
  destruct src as [|a [|b [|c src]]], src' as [|a' [|b' [|c' src']]]; simpl in Hl, Hl'; try lia.
  cbn [Encode_chars] in He. injection He as H18 H12 H6 H0 He.
  inversion Hb as [|? ? Ha Hb1]; subst. inversion Hb1 as [|? ? Hbb Hb2]; subst. inversion Hb2 as [|? ? Hc Hb3]; subst.
  inversion Hb' as [|? ? Ha' Hb1']; subst. inversion Hb1' as [|? ? Hbb' Hb2']; subst. inversion Hb2' as [|? ? Hc' Hb3']; subst.
  destruct (group_inj a b c a' b' c') as (-> & -> & ->); try done.
  - by intros ? [-> |[-> |[-> | ->]]].
  - by rewrite (IH src src') by (done || lia).
Qed.

(** ** Names *)

Lemma substring_take n : forall l,
  String.substring 0 n (String.string_of_list_ascii l) = String.string_of_list_ascii (take n l).
Proof. induction n as [|n IH]; intros [|c l]; [done..|]. simpl. by rewrite IH. Qed.

Lemma string_of_list_inj l l' : String.string_of_list_ascii l = String.string_of_list_ascii l' -> l = l'.
Proof. intros He. rewrite <-(String.list_ascii_of_string_of_list_ascii l), He. apply String.list_ascii_of_string_of_list_ascii. Qed.

(** A name of [4k] characters, from enough bytes: its length, and which draws give the same name. *)
Lemma randstring_eq k b b' :
  (3 * k <= length b)%nat -> (3 * k <= length b')%nat -> Forall byte_ok b -> Forall byte_ok b' ->
  randstring (4 * k) b = randstring (4 * k) b' <-> take (3 * k) b = take (3 * k) b'.
Proof.
  intros Hl Hl' Hb Hb'. unfold randstring, EncodeToString. rewrite !substring_take, !Encode_take by done. split.
  - intros He%string_of_list_inj. eapply (Encode_inj k); [..|exact He]; try (by apply Forall_take); rewrite length_take; lia.
  - by intros ->.
Qed.

Lemma randstring_length k b :
  (3 * k <= length b)%nat -> String.length (randstring (4 * k) b) = (4 * k)%nat.
Proof.
  intros Hl. unfold randstring, EncodeToString. rewrite substring_take, Encode_take by done.
  assert (Hlen : forall l, String.length (String.string_of_list_ascii l) = length l).
  { induction l as [|c l IH]; [done|]. simpl. by rewrite IH. }
  rewrite Hlen. apply Encode_length. rewrite length_take. lia.
Qed.

Lemma makeSeed_range crand_Int :
  (forall max, 0 < max -> 0 <= crand_Int max < max) -> 0 <= makeSeed crand_Int < 2 ^ 62.
Proof.
  intros Hc. unfold makeSeed. change (int64 (Z.shiftl 1 62)) with (2 ^ 62). specialize (Hc (2 ^ 62) ltac:(lia)).
  unfold int64. rewrite Z.mod_small; lia.
Qed.

Lemma encode_hello : randstring 8 [104; 101; 108; 108; 111; 255; 1; 2; 3; 4; 5; 6; 7; 8; 9; 10] = "aGVsbG__".
Proof. reflexivity. Qed.
