(* ===== verification/Gob.v ===== *)
(** * Log entries and their serialisation

    [LogEntry] of [lab2_raft/raft/entry.go], and what [raft.go] relies on of
    [labgob] (a wrapper of [encoding/gob]): encoders append a self-delimiting
    encoding to a buffer and decoders read it back.

    The interface is the class [GobCodec]; everything else is proved against
    it.  [Wire] implements it with gob's documented wire format (variable
    length unsigned integers, zig-zag signed integers, delta-coded struct
    fields with zero fields omitted, named interface values).  The type
    descriptors that a gob stream sends ahead of the first value of a type do
    not depend on the value and are left out. *)

From S2P Require Import Prelude.

(** The dynamic values a service stores in [Command interface{}]: nothing, an
    [int] or a [string]. *)
Inductive iface :=
  | INil
  | IInt (z : Z)
  | IString (s : list Z).

#[export] Instance iface_eq_dec : EqDecision iface.
Proof. solve_decision. Defined.

Record LogEntry := mkEntry { e_Term : Z; e_Index : Z; e_Command : iface }.

#[export] Instance LogEntry_eq_dec : EqDecision LogEntry.
Proof. solve_decision. Defined.

(** ** The interface *)

Class GobCodec := {
  encode_int : Z -> list Z;
  encode_log : list LogEntry -> list Z;
  decode_int : list Z -> option (Z * list Z);
  decode_log : list Z -> option (list LogEntry * list Z);
  (** [Decode] reads back what [Encode] wrote and leaves the rest. *)
  decode_encode_int z r : decode_int (encode_int z ++ r) = Some (z, r);
  decode_encode_log l r : decode_log (encode_log l ++ r) = Some (l, r);
  (** [Decode] at the end of the input is an error ([io.EOF]). *)
  decode_int_eof : decode_int [] = None;
}.

Lemma encode_int_nonempty `{GobCodec} z : encode_int z <> [].
Proof.
  intros Hz. pose proof (decode_encode_int z []) as Hd.
  rewrite Hz in Hd. simpl in Hd. rewrite decode_int_eof in Hd. done.
Qed.
