(* ===== verification/GobWire.v ===== *)
(** * Gob wire format

    The encoding of [encoding/gob] that [labgob] produces for the values Raft
    persists ([int] and [[]LogEntry]), as an instance of [GobCodec]:
    - an unsigned integer below 128 is one byte, a larger one its byte count,
      negated, followed by its big-endian bytes;
    - a signed integer is shifted left, complemented if negative, the sign in
      the low bit;
    - a top-level value is a byte count, a type id, a zero byte and the value;
    - a struct is a list of fields, each preceded by the distance to the
      previous field number, zero fields left out, closed by a zero;
    - a non-nil interface value is the name of its dynamic type, the type's
      id, a byte count, a zero byte and the value.
    A Go [int] has at most eight bytes; for the unbounded integers of the
    model a longer one is announced by the byte 128, which gob never uses,
    and its byte count in unary. *)

From S2P Require Import Prelude Gob.

Module Wire.

(** ** Integers *)

Fixpoint le_bytes (fuel : nat) (n : Z) : list Z :=
  match fuel with
  | O => []
  | S fuel => if n =? 0 then [] else n mod 256 :: le_bytes fuel (n / 256)
  end.

Definition le_value (l : list Z) : Z := foldr (fun b acc => b + 256 * acc) 0 l.

Definition be_bytes (n : Z) : list Z := reverse (le_bytes (S (Z.to_nat (Z.log2 n))) n).

Definition be_value (l : list Z) : Z := le_value (reverse l).

Definition put_uint (n : Z) : list Z :=
  if n <? 128 then [n] else
  let bs := be_bytes n in
  if zlen bs <=? 8 then (256 - zlen bs) :: bs
  else 128 :: replicate (length bs) 1 ++ 0 :: bs.

Definition get_n (k : nat) (bs : list Z) : option (list Z * list Z) :=
  if decide (k <= length bs)%nat then Some (take k bs, drop k bs) else None.

Fixpoint get_unary (bs : list Z) : option (nat * list Z) :=
  match bs with
  | [] => None
  | b :: r => if b =? 0 then Some (O, r) else '(k, r) ← get_unary r; Some (S k, r)
  end.

Definition get_uint (bs : list Z) : option (Z * list Z) :=
  match bs with
  | [] => None
  | b :: r =>
      if b <? 128 then Some (b, r) else
      '(k, r) ← (if b =? 128 then get_unary r else Some (Z.to_nat (256 - b), r));
      '(v, r) ← get_n k r; Some (be_value v, r)
  end.

Definition zigzag (z : Z) : Z := if z <? 0 then -2 * z - 1 else 2 * z.
Definition unzigzag (u : Z) : Z := if Z.odd u then - (u / 2) - 1 else u / 2.

Definition put_int (z : Z) : list Z := put_uint (zigzag z).
Definition get_int (bs : list Z) : option (Z * list Z) :=
  '(u, r) ← get_uint bs; Some (unzigzag u, r).

(** ** Interface values, structs, slices *)

(** ["int"] and ["string"] in ASCII; 2 and 6 are gob's ids of these types. *)
Definition name_int : list Z := [105; 110; 116].
Definition name_string : list Z := [115; 116; 114; 105; 110; 103].
Definition id_int : Z := 2.
Definition id_string : Z := 6.
(** The first id gob hands out to a user type. *)
Definition id_log : Z := 65.

Definition put_bytes (s : list Z) : list Z := put_uint (zlen s) ++ s.
Definition get_bytes (bs : list Z) : option (list Z * list Z) :=
  '(n, r) ← get_uint bs; get_n (Z.to_nat n) r.

Definition put_iface (c : iface) : list Z :=
  match c with
  | INil => put_bytes []
  | IInt z => put_bytes name_int ++ put_int id_int ++ put_bytes (0 :: put_int z)
  | IString s => put_bytes name_string ++ put_int id_string ++ put_bytes (0 :: put_bytes s)
  end.

Definition get_iface (bs : list Z) : option (iface * list Z) :=
  '(name, r) ← get_bytes bs;
  if decide (name = []) then Some (INil, r) else
  '(_, r) ← get_int r;
  '(body, r) ← get_bytes r;
  if decide (name = name_int) then '(z, _) ← get_int (tail body); Some (IInt z, r)
  else if decide (name = name_string) then '(s, _) ← get_bytes (tail body); Some (IString s, r)
  else None.

Definition put_field (prev field : Z) (skip : bool) (v : list Z) : list Z :=
  if skip then [] else put_uint (field - prev) ++ v.

Definition put_entry (e : LogEntry) : list Z :=
  let t0 := e_Term e =? 0 in
  let i0 := e_Index e =? 0 in
  let prev2 := if t0 then 0 else 1 in
  let prev3 := if i0 then prev2 else 2 in
  put_field 0 1 t0 (put_int (e_Term e)) ++
  put_field prev2 2 i0 (put_int (e_Index e)) ++
  put_field prev3 3 (bool_decide (e_Command e = INil)) (put_iface (e_Command e)) ++ [0].

Fixpoint get_fields (fuel : nat) (prev : Z) (e : LogEntry) (bs : list Z)
    : option (LogEntry * list Z) :=
  match fuel with
  | O => None
  | S fuel =>
      '(delta, r) ← get_uint bs;
      if delta =? 0 then Some (e, r) else
      let f := prev + delta in
      if f =? 1 then
        '(t, r) ← get_int r; get_fields fuel f (mkEntry t (e_Index e) (e_Command e)) r
      else if f =? 2 then
        '(i, r) ← get_int r; get_fields fuel f (mkEntry (e_Term e) i (e_Command e)) r
      else if f =? 3 then
        '(c, r) ← get_iface r; get_fields fuel f (mkEntry (e_Term e) (e_Index e) c) r
      else None
  end.

(** Three fields and the terminator: fuel 4. *)
Definition get_entry (bs : list Z) : option (LogEntry * list Z) :=
  get_fields 4 0 (mkEntry 0 0 INil) bs.

Fixpoint get_entries (n : nat) (bs : list Z) : option (list LogEntry * list Z) :=
  match n with
  | O => Some ([], bs)
  | S n => '(e, r) ← get_entry bs; '(l, r) ← get_entries n r; Some (e :: l, r)
  end.

Definition put_entries (l : list LogEntry) : list Z :=
  put_uint (zlen l) ++ concat (map put_entry l).

(** ** Messages *)

Definition put_message (id : Z) (v : list Z) : list Z := put_bytes (put_int id ++ 0 :: v).

Definition get_message (id : Z) (bs : list Z) : option (list Z * list Z) :=
  '(body, r) ← get_bytes bs;
  '(id', body) ← get_int body;
  if id' =? id then Some (tail body, r) else None.

Definition wire_encode_int (z : Z) : list Z := put_message id_int (put_int z).
Definition wire_decode_int (bs : list Z) : option (Z * list Z) :=
  '(body, r) ← get_message id_int bs; '(z, _) ← get_int body; Some (z, r).

Definition wire_encode_log (l : list LogEntry) : list Z := put_message id_log (put_entries l).
Definition wire_decode_log (bs : list Z) : option (list LogEntry * list Z) :=
  '(body, r) ← get_message id_log bs;
  '(n, body) ← get_uint body;
  '(l, _) ← get_entries (Z.to_nat n) body; Some (l, r).

(** ** Round trips *)

Lemma le_value_bytes fuel n : 0 <= n < 256 ^ Z.of_nat fuel -> le_value (le_bytes fuel n) = n.
Proof.
  revert n. induction fuel as [|fuel IH]; intros n Hn.
  { change (Z.of_nat 0) with 0 in Hn. rewrite Z.pow_0_r in Hn. simpl. lia. }
  rewrite Nat2Z.inj_succ, Z.pow_succ_r in Hn by lia. simpl.
  destruct (Z.eqb_spec n 0) as [->|Hn0]; [done|]. simpl.
  change (foldr _ 0 (le_bytes fuel (n / 256))) with (le_value (le_bytes fuel (n / 256))).
  rewrite IH; [pose proof (Z.div_mod n 256); lia|].
  split; [apply Z.div_pos; lia|]. apply Z.div_lt_upper_bound; lia.
Qed.

Lemma be_value_bytes n : 0 <= n -> be_value (be_bytes n) = n.
Proof.
  intros Hn. unfold be_value, be_bytes. rewrite reverse_involutive.
  apply le_value_bytes. split; [done|].
  destruct (decide (n = 0)) as [->|Hn0]; [done|].
  apply Z.lt_le_trans with (2 ^ (Z.succ (Z.log2 n))); [apply Z.log2_spec; lia|].
  pose proof (Z.log2_nonneg n). replace 256 with (2 ^ 8) by done.
  rewrite <-Z.pow_mul_r by lia. apply Z.pow_le_mono_r; lia.
Qed.

Lemma get_n_app k l r : length l = k -> get_n k (l ++ r) = Some (l, r).
Proof.
  intros Hk. unfold get_n. rewrite decide_True by (rewrite length_app; lia).
  rewrite take_app_length', drop_app_length' by done. done.
Qed.

Lemma get_unary_app k r : get_unary (replicate k 1 ++ 0 :: r) = Some (k, r).
Proof. induction k as [|k IH]; simpl; [done|]. by rewrite IH. Qed.

Lemma get_put_uint n r : 0 <= n -> get_uint (put_uint n ++ r) = Some (n, r).
Proof.
  intros Hn. unfold put_uint. destruct (Z.ltb_spec n 128) as [Hs|Hs].
  { simpl. destruct (Z.ltb_spec n 128); [done|lia]. }
  destruct (Z.leb_spec (zlen (be_bytes n)) 8) as [H8|H8].
  - assert (Hpos : 0 < zlen (be_bytes n)).
    { assert (be_bytes n <> []) as Hne; [|destruct (be_bytes n); [done|unfold zlen; simpl; lia]].
      intros He. pose proof (be_value_bytes n Hn) as Hv. rewrite He in Hv.
      assert (n = 0) by (rewrite <-Hv; done). lia. }
    unfold get_uint. simpl. destruct (Z.ltb_spec (256 - zlen (be_bytes n)) 128); [lia|].
    destruct (Z.eqb_spec (256 - zlen (be_bytes n)) 128); [lia|]. simpl.
    rewrite get_n_app by (unfold zlen; lia). simpl. by rewrite be_value_bytes.
  - unfold get_uint. cbn [app]. change (128 <? 128) with false. change (128 =? 128) with true.
    cbn match. rewrite <-(app_assoc (replicate _ _)), <-app_comm_cons, get_unary_app. simpl.
    rewrite get_n_app by done. simpl. by rewrite be_value_bytes.
Qed.

Lemma unzigzag_zigzag z : unzigzag (zigzag z) = z.
Proof.
  unfold unzigzag, zigzag. destruct (Z.ltb_spec z 0).
  - replace (-2 * z - 1) with (1 + 2 * (- z - 1)) by lia.
    rewrite Z.odd_add_mul_2, (Z.mul_comm 2), Z.div_add by lia. simpl Z.odd.
    change (1 / 2) with 0. cbn match. lia.
  - rewrite Z.odd_mul. simpl Z.odd. cbn match. rewrite (Z.mul_comm 2), Z.div_mul by lia. done.
Qed.

Lemma get_put_int z r : get_int (put_int z ++ r) = Some (z, r).
Proof.
  unfold get_int, put_int. rewrite get_put_uint.
  - simpl. by rewrite unzigzag_zigzag.
  - unfold zigzag. destruct (Z.ltb_spec z 0); lia.
Qed.

Lemma get_put_bytes s r : get_bytes (put_bytes s ++ r) = Some (s, r).
Proof.
  unfold get_bytes, put_bytes. rewrite <-app_assoc, get_put_uint by apply zlen_nonneg.
  simpl. apply get_n_app. unfold zlen. lia.
Qed.

Lemma get_put_bytes_nil s : get_bytes (put_bytes s) = Some (s, []).
Proof. rewrite <-(app_nil_r (put_bytes s)). apply get_put_bytes. Qed.

Lemma get_put_int_nil z : get_int (put_int z) = Some (z, []).
Proof. rewrite <-(app_nil_r (put_int z)). apply get_put_int. Qed.

Lemma get_put_iface c r : get_iface (put_iface c ++ r) = Some (c, r).
Proof.
  unfold get_iface, put_iface. destruct c as [|z|s].
  - by rewrite get_put_bytes.
  - rewrite <-!app_assoc, get_put_bytes. cbn [mbind option_bind].
    rewrite decide_False, get_put_int by done. cbn [mbind option_bind].
    rewrite get_put_bytes. cbn [mbind option_bind tail].
    rewrite decide_True, get_put_int_nil by done. done.
  - rewrite <-!app_assoc, get_put_bytes. cbn [mbind option_bind].
    rewrite decide_False, get_put_int by done. cbn [mbind option_bind].
    rewrite get_put_bytes. cbn [mbind option_bind tail].
    rewrite decide_False, decide_True, get_put_bytes_nil by done. done.
Qed.

Lemma get_put_entry e r : get_entry (put_entry e ++ r) = Some (e, r).
Proof.
  destruct e as [t i c]. unfold get_entry, put_entry, put_field. cbn [e_Term e_Index e_Command].
  destruct (Z.eqb_spec t 0) as [->|Ht], (Z.eqb_spec i 0) as [->|Hi],
    (bool_decide_reflect (c = INil)) as [->|Hc]; cbn [app];
    repeat first
      [ progress cbn [get_fields e_Term e_Index e_Command mbind option_bind]
      | rewrite <-!app_assoc | rewrite get_put_uint by lia
      | rewrite get_put_int | rewrite get_put_iface
      | progress simpl ]; done.
Qed.

Lemma get_put_entries l r :
  get_entries (length l) (concat (map put_entry l) ++ r) = Some (l, r).
Proof.
  induction l as [|e l IH]; [done|].
  cbn [map concat length get_entries]. rewrite <-app_assoc.
  rewrite get_put_entry. cbn [mbind option_bind]. rewrite IH. done.
Qed.

Lemma get_put_message id v r : get_message id (put_message id v ++ r) = Some (v, r).
Proof.
  unfold get_message, put_message. rewrite get_put_bytes. simpl.
  rewrite get_put_int. simpl. by rewrite Z.eqb_refl.
Qed.

#[export] Program Instance gob_wire : GobCodec := {|
  encode_int := wire_encode_int; encode_log := wire_encode_log;
  decode_int := wire_decode_int; decode_log := wire_decode_log |}.
Next Obligation.
  intros z r. unfold wire_decode_int, wire_encode_int. rewrite get_put_message. simpl.
  by rewrite get_put_int_nil.
Qed.
Next Obligation.
  intros l r. unfold wire_decode_log, wire_encode_log, put_entries.
  rewrite get_put_message. cbn [mbind option_bind].
  rewrite get_put_uint by apply zlen_nonneg. cbn [mbind option_bind].
  unfold zlen. rewrite Nat2Z.id, <-(app_nil_r (concat _)), get_put_entries. done.
Qed.
Next Obligation. done. Qed.

(** The examples of gob's documentation. *)
Example uint_7 : put_uint 7 = [7].
Proof. reflexivity. Qed.
Example uint_256 : put_uint 256 = [254; 1; 0].
Proof. reflexivity. Qed.
Example int_message_3 : wire_encode_int 3 = [3; 4; 0; 6].
Proof. reflexivity. Qed.

End Wire.
