(* ===== verification/Persister.v ===== *)
(** * Persister ([lab2_raft/raft/persister.go])

    The stable storage of a peer: every operation runs under the persister's
    own mutex, so each is one state transformer.  A [nil] slice and an empty
    one are not told apart by any reader ([readPersist] tests the length). *)

From S2P Require Import Prelude.

Record Persister := mkPersister { raftstate : list Z; snapshot : list Z }.

Definition MakePersister : Persister := mkPersister [] [].

Definition Copy (ps : Persister) : Persister :=
  let np := MakePersister in
  let np := mkPersister (raftstate ps) (snapshot np) in
  mkPersister (raftstate np) (snapshot ps).

Definition SaveRaftState (state : list Z) (ps : Persister) : Persister :=
  mkPersister state (snapshot ps).

Definition ReadRaftState (ps : Persister) : list Z := raftstate ps.

Definition RaftStateSize (ps : Persister) : Z := zlen (raftstate ps).

Definition SaveStateAndSnapshot (state snap : list Z) (ps : Persister) : Persister :=
  mkPersister state snap.

Definition ReadSnapshot (ps : Persister) : list Z := snapshot ps.

Definition SnapshotSize (ps : Persister) : Z := zlen (snapshot ps).

(** ** What the persister promises

    An abstract store of two cells, each write replacing its cell (or both,
    atomically) and leaving the other; [Copy] is a value copy, so a killed
    instance that keeps writing to the old object cannot reach the new one. *)

Inductive PersisterOp :=
  | OpSave (state : list Z)
  | OpSaveBoth (state snap : list Z)
  | OpCopy.

Definition persister_exec (ps : Persister) (o : PersisterOp) : Persister :=
  match o with
  | OpSave s => SaveRaftState s ps
  | OpSaveBoth s n => SaveStateAndSnapshot s n ps
  | OpCopy => Copy ps
  end.

(** The last value written to each cell by a history of operations. *)
Definition last_state (init : list Z) (ops : list PersisterOp) : list Z :=
  fold_left (fun s o => match o with OpSave x | OpSaveBoth x _ => x | OpCopy => s end) ops init.
Definition last_snapshot (init : list Z) (ops : list PersisterOp) : list Z :=
  fold_left (fun s o => match o with OpSaveBoth _ x => x | _ => s end) ops init.

Lemma persister_exec_cells ps ops :
  fold_left persister_exec ops ps =
  mkPersister (last_state (raftstate ps) ops) (last_snapshot (snapshot ps) ops).
Proof.
  revert ps. induction ops as [|o ops IH]; intros [s n]; [done|].
  simpl. rewrite IH. by destruct o.
Qed.
