(* ===== verification/Raft.v ===== *)
(** * A Raft peer ([lab2_raft/raft/raft.go])

    The [Raft] object, its persistence, [Start], [Make], [changeRole] and the
    body of the apply loop.  The mutex [rf.mu] has no field: every definition
    below is a critical section, and [Cluster] decides how critical sections
    of different goroutines and peers interleave.

    Conventions:
    - [None] is a run-time panic (index out of range);
    - [rnd] is the last value drawn from [rand.Int63()] by [resetTimer] in a
      critical section; a section that resets the timer several times only
      keeps the effect of the last draw;
    - [applyCh] records the messages sent on the channel, oldest first;
    - [peers] is the number of peers: the end points themselves are only used
      to send, which [Cluster] models. *)

From S2P Require Import Prelude Timer Gob Persister.

(** ** Data *)

Record ApplyMsg := mkApplyMsg {
  CommandValid : bool; Command : iface; CommandIndex : Z }.

Inductive Role := Follower | Candidate | Leader.

#[export] Instance Role_eq_dec : EqDecision Role.
Proof. solve_decision. Defined.

Record Raft := mkRaft {
  peers : nat;
  persister : Persister;
  me : Z;
  dead : Z;
  role : Role;
  applyCh : list ApplyMsg;
  electionTimer : Timer;
  (* persistent state on all servers *)
  term : Z;
  votedFor : Z;
  logEntries : list LogEntry;
  (* volatile state on all servers *)
  commitIndex : Z;
  lastApplied : Z;
  (* volatile state on leaders *)
  nextIndex : list Z;
  matchIndex : list Z;
}.

(** Field assignments [rf.f = x]. *)
Definition set_persister (x : Persister) (rf : Raft) : Raft :=
  mkRaft (peers rf) x (me rf) (dead rf) (role rf) (applyCh rf) (electionTimer rf)
    (term rf) (votedFor rf) (logEntries rf) (commitIndex rf) (lastApplied rf)
    (nextIndex rf) (matchIndex rf).
Definition set_dead (x : Z) (rf : Raft) : Raft :=
  mkRaft (peers rf) (persister rf) (me rf) x (role rf) (applyCh rf) (electionTimer rf)
    (term rf) (votedFor rf) (logEntries rf) (commitIndex rf) (lastApplied rf)
    (nextIndex rf) (matchIndex rf).
Definition set_role (x : Role) (rf : Raft) : Raft :=
  mkRaft (peers rf) (persister rf) (me rf) (dead rf) x (applyCh rf) (electionTimer rf)
    (term rf) (votedFor rf) (logEntries rf) (commitIndex rf) (lastApplied rf)
    (nextIndex rf) (matchIndex rf).
Definition set_applyCh (x : list ApplyMsg) (rf : Raft) : Raft :=
  mkRaft (peers rf) (persister rf) (me rf) (dead rf) (role rf) x (electionTimer rf)
    (term rf) (votedFor rf) (logEntries rf) (commitIndex rf) (lastApplied rf)
    (nextIndex rf) (matchIndex rf).
Definition set_electionTimer (x : Timer) (rf : Raft) : Raft :=
  mkRaft (peers rf) (persister rf) (me rf) (dead rf) (role rf) (applyCh rf) x
    (term rf) (votedFor rf) (logEntries rf) (commitIndex rf) (lastApplied rf)
    (nextIndex rf) (matchIndex rf).
Definition set_term (x : Z) (rf : Raft) : Raft :=
  mkRaft (peers rf) (persister rf) (me rf) (dead rf) (role rf) (applyCh rf) (electionTimer rf)
    x (votedFor rf) (logEntries rf) (commitIndex rf) (lastApplied rf)
    (nextIndex rf) (matchIndex rf).
Definition set_votedFor (x : Z) (rf : Raft) : Raft :=
  mkRaft (peers rf) (persister rf) (me rf) (dead rf) (role rf) (applyCh rf) (electionTimer rf)
    (term rf) x (logEntries rf) (commitIndex rf) (lastApplied rf)
    (nextIndex rf) (matchIndex rf).
Definition set_logEntries (x : list LogEntry) (rf : Raft) : Raft :=
  mkRaft (peers rf) (persister rf) (me rf) (dead rf) (role rf) (applyCh rf) (electionTimer rf)
    (term rf) (votedFor rf) x (commitIndex rf) (lastApplied rf)
    (nextIndex rf) (matchIndex rf).
Definition set_commitIndex (x : Z) (rf : Raft) : Raft :=
  mkRaft (peers rf) (persister rf) (me rf) (dead rf) (role rf) (applyCh rf) (electionTimer rf)
    (term rf) (votedFor rf) (logEntries rf) x (lastApplied rf)
    (nextIndex rf) (matchIndex rf).
Definition set_lastApplied (x : Z) (rf : Raft) : Raft :=
  mkRaft (peers rf) (persister rf) (me rf) (dead rf) (role rf) (applyCh rf) (electionTimer rf)
    (term rf) (votedFor rf) (logEntries rf) (commitIndex rf) x
    (nextIndex rf) (matchIndex rf).
Definition set_nextIndex (x : list Z) (rf : Raft) : Raft :=
  mkRaft (peers rf) (persister rf) (me rf) (dead rf) (role rf) (applyCh rf) (electionTimer rf)
    (term rf) (votedFor rf) (logEntries rf) (commitIndex rf) (lastApplied rf)
    x (matchIndex rf).
Definition set_matchIndex (x : list Z) (rf : Raft) : Raft :=
  mkRaft (peers rf) (persister rf) (me rf) (dead rf) (role rf) (applyCh rf) (electionTimer rf)
    (term rf) (votedFor rf) (logEntries rf) (commitIndex rf) (lastApplied rf)
    (nextIndex rf) x.

(** [resetTimer(rf.electionTimer, ElectionTimeout)] *)
Definition resetElectionTimer (rnd : Z) (rf : Raft) : Raft :=
  set_electionTimer (resetTimer (electionTimer rf) ElectionTimeout rnd).2 rf.

(** ** Operations *)

(** Current term and whether this server believes it is the leader. *)
Definition GetState (rf : Raft) : Z * bool :=
  (term rf, bool_decide (role rf = Leader)).

Definition Kill (rf : Raft) : Raft := set_dead 1 rf.
Definition killed (rf : Raft) : bool := dead rf =? 1.

(** (term, index) of the last log entry, (0, 0) for an empty log. *)
Definition lastLogTermIndex (rf : Raft) : Z * Z :=
  match last (logEntries rf) with
  | None => (0, 0)
  | Some lastEntry => (e_Term lastEntry, e_Index lastEntry)
  end.

(** Every caller passes one of the three roles, so the [default] branch that
    returns an error has no counterpart. *)
Definition changeRole (r : Role) (rnd : Z) (rf : Raft) : option Raft :=
  let rf := set_role r rf in
  let rf := resetElectionTimer rnd rf in
  match r with
  | Follower => Some rf
  | Candidate => Some (set_votedFor (me rf) (set_term (term rf + 1) rf))
  | Leader =>
      let rf := set_votedFor (-1) rf in
      let '(_, lastLogIndex) := lastLogTermIndex rf in
      let rf := set_nextIndex (replicate (peers rf) (lastLogIndex + 1)) rf in
      matchIndex' ← zset (zmake (peers rf)) (me rf) lastLogIndex;
      Some (set_matchIndex matchIndex' rf)
  end.

Section Persistence.
Context `{GobCodec}.

(** The bytes written by the three [Encode] calls. *)
Definition persist_data (rf : Raft) : list Z :=
  encode_int (term rf) ++ encode_int (votedFor rf) ++ encode_log (logEntries rf).

Definition persist (rf : Raft) : Raft :=
  set_persister (SaveRaftState (persist_data rf) (persister rf)) rf.

Definition readPersist (data : list Z) (rf : Raft) : Raft :=
  if zlen data <? 1 then rf else
  match
    ('(t, r) ← decode_int data;
     '(v, r) ← decode_int r;
     '(l, _) ← decode_log r;
     Some (t, v, l))
  with
  | None => rf
  | Some (t, v, l) => set_logEntries l (set_votedFor v (set_term t rf))
  end.

(** The critical section of [Start]; [tm] and [isLeader] are the results of
    the [GetState] call that precedes it in a critical section of its own. *)
Definition Start_locked (command : iface) (tm : Z) (isLeader : bool) (rf : Raft)
    : option (Raft * (Z * Z * bool)) :=
  let '(_, lastIndex) := lastLogTermIndex rf in
  if negb isLeader then Some (rf, (lastIndex, tm, isLeader)) else
  let index := lastIndex + 1 in
  let rf := set_logEntries (logEntries rf ++ [mkEntry (term rf) index command]) rf in
  matchIndex' ← zset (matchIndex rf) (me rf) index;
  let rf := set_matchIndex matchIndex' rf in
  Some (persist rf, (index, tm, isLeader)).

(** [Start] with nothing in between the two critical sections. *)
Definition Start (command : iface) (rf : Raft) : option (Raft * (Z * Z * bool)) :=
  let '(tm, isLeader) := GetState rf in Start_locked command tm isLeader rf.

(** [Make], up to the goroutines it starts (see [Cluster]). *)
Definition Make (n : nat) (me : Z) (ps : Persister) (rnd : Z) : Raft :=
  let rf := mkRaft n ps me 0 Follower [] (mkTimer false false 0)
              0 (-1) [] 0 0 [] [] in
  let rf := readPersist (ReadRaftState ps) rf in
  let rf :=
    if zlen (logEntries rf) =? 0
    then set_logEntries (logEntries rf ++ [mkEntry 0 0 INil]) rf else rf in
  let rf := readPersist (ReadRaftState ps) rf in
  let rf := set_nextIndex (zmake n) rf in
  let rf := set_matchIndex (zmake n) rf in
  set_electionTimer (NewTimer (randTimeout ElectionTimeout rnd)) rf.

End Persistence.

(** One iteration of the apply loop started by [Make]. *)
Definition applyLoop (rf : Raft) : option Raft :=
  if lastApplied rf <? commitIndex rf then
    let rf := set_lastApplied (lastApplied rf + 1) rf in
    e ← zidx (logEntries rf) (lastApplied rf);
    let msg := mkApplyMsg true (e_Command e) (lastApplied rf) in
    Some (set_applyCh (applyCh rf ++ [msg]) rf)
  else Some rf.

(** ** Lemmas *)

(** The part of the state that [persist] saves. *)
Definition pstate (rf : Raft) : Z * Z * list LogEntry := (term rf, votedFor rf, logEntries rf).

Lemma changeRole_Follower rnd rf :
  changeRole Follower rnd rf = Some (resetElectionTimer rnd (set_role Follower rf)).
Proof. done. Qed.

Lemma changeRole_Candidate rnd rf :
  changeRole Candidate rnd rf =
  Some (set_votedFor (me rf) (set_term (term rf + 1)
         (resetElectionTimer rnd (set_role Candidate rf)))).
Proof. done. Qed.

(** A peer whose own index is in range becomes leader without a panic, with
    the indices of Figure 2 reinitialised. *)
Lemma changeRole_Leader rnd rf :
  0 <= me rf < Z.of_nat (peers rf) ->
  changeRole Leader rnd rf =
  Some (set_matchIndex (<[Z.to_nat (me rf) := (lastLogTermIndex rf).2]> (zmake (peers rf)))
         (set_nextIndex (replicate (peers rf) ((lastLogTermIndex rf).2 + 1))
           (set_votedFor (-1) (resetElectionTimer rnd (set_role Leader rf))))).
Proof.
  intros Hme. unfold changeRole. cbn zeta.
  change (lastLogTermIndex (set_votedFor (-1) _)) with (lastLogTermIndex rf).
  destruct (lastLogTermIndex rf) as [t i]. simpl.
  assert (Hs : zset (zmake (peers rf)) (me rf) i = Some (<[Z.to_nat (me rf) := i]> (zmake (peers rf)))).
  { apply zset_Some. split; [|done]. unfold zmake, zlen. rewrite length_replicate. lia. }
  rewrite Hs. done.
Qed.

Lemma lastLogTermIndex_app rf e :
  lastLogTermIndex (set_logEntries (logEntries rf ++ [e]) rf) = (e_Term e, e_Index e).
Proof. unfold lastLogTermIndex. simpl. by rewrite last_snoc. Qed.

Section Persistence_lemmas.
Context `{GobCodec}.

Lemma persist_data_nonempty rf : 1 <= zlen (persist_data rf).
Proof.
  unfold persist_data. rewrite zlen_app. pose proof (encode_int_nonempty (term rf)) as Hne.
  destruct (encode_int (term rf)); [done|]. rewrite zlen_cons.
  pose proof (zlen_nonneg l). pose proof (zlen_nonneg (encode_int (votedFor rf) ++ encode_log (logEntries rf))).
  lia.
Qed.

Lemma readPersist_data rf rf0 :
  readPersist (persist_data rf) rf0 =
  set_logEntries (logEntries rf) (set_votedFor (votedFor rf) (set_term (term rf) rf0)).
Proof.
  unfold readPersist. pose proof (persist_data_nonempty rf).
  destruct (Z.ltb_spec (zlen (persist_data rf)) 1); [lia|].
  unfold persist_data. rewrite decode_encode_int. cbn [mbind option_bind].
  rewrite decode_encode_int. cbn [mbind option_bind].
  rewrite <-(app_nil_r (encode_log _)), decode_encode_log. done.
Qed.

Lemma readPersist_nil rf : readPersist [] rf = rf.
Proof. done. Qed.

Lemma Make_frame n i ps rnd :
  peers (Make n i ps rnd) = n /\ me (Make n i ps rnd) = i /\ persister (Make n i ps rnd) = ps /\
  role (Make n i ps rnd) = Follower /\ commitIndex (Make n i ps rnd) = 0 /\
  lastApplied (Make n i ps rnd) = 0 /\ applyCh (Make n i ps rnd) = [] /\
  nextIndex (Make n i ps rnd) = zmake n /\ matchIndex (Make n i ps rnd) = zmake n /\
  electionTimer (Make n i ps rnd) = NewTimer (randTimeout ElectionTimeout rnd).
Proof.
  assert (Hrp : forall data rf,
    peers (readPersist data rf) = peers rf /\ me (readPersist data rf) = me rf /\
    persister (readPersist data rf) = persister rf /\ role (readPersist data rf) = role rf /\
    commitIndex (readPersist data rf) = commitIndex rf /\
    lastApplied (readPersist data rf) = lastApplied rf /\
    applyCh (readPersist data rf) = applyCh rf).
  { intros data rf. unfold readPersist. destruct (zlen data <? 1); [done|].
    by destruct (_ : option _) as [[[? ?] ?]|]. }
  unfold Make. cbn zeta.
  set (rf0 := readPersist _ (mkRaft _ _ _ _ _ _ _ _ _ _ _ _ _ _)).
  destruct (Hrp (ReadRaftState ps) (mkRaft n ps i 0 Follower [] (mkTimer false false 0)
    0 (-1) [] 0 0 [] [])) as (H1&H2&H3&H4&H5&H6&H7).
  fold rf0 in H1, H2, H3, H4, H5, H6, H7.
  destruct (zlen (logEntries rf0) =? 0).
  - destruct (Hrp (ReadRaftState ps) (set_logEntries (logEntries rf0 ++ [mkEntry 0 0 INil]) rf0))
      as (G1&G2&G3&G4&G5&G6&G7).
    simpl in *. split_and!; congruence.
  - destruct (Hrp (ReadRaftState ps) rf0) as (G1&G2&G3&G4&G5&G6&G7).
    simpl in *. split_and!; congruence.
Qed.

(** Restarting from the bytes of a saved state restores it. *)
Lemma Make_pstate_saved n i rf ps rnd :
  ReadRaftState ps = persist_data rf -> pstate (Make n i ps rnd) = pstate rf.
Proof.
  intros Hps. unfold Make. cbn zeta. rewrite Hps, !readPersist_data. done.
Qed.

(** The first boot: term 0, no vote, and the placeholder entry at index 0. *)
Lemma Make_pstate_fresh n i ps rnd :
  ReadRaftState ps = [] -> pstate (Make n i ps rnd) = (0, -1, [mkEntry 0 0 INil]).
Proof. intros Hps. unfold Make. rewrite Hps. done. Qed.

End Persistence_lemmas.

(** ** Shape of a log

    Position 0 holds the placeholder; every later entry has an [Index] between
    1 and its position.  ([Index] and position differ once a retransmitted
    batch has been appended a second time.) *)
Definition log_shape (l : list LogEntry) : Prop :=
  l !! 0%nat = Some (mkEntry 0 0 INil) /\
  forall i e, (0 < i)%nat -> l !! i = Some e -> 1 <= e_Index e <= Z.of_nat i.

(** The stronger shape of a log without duplicates: [Index] is the position. *)
Definition log_exact (l : list LogEntry) : Prop :=
  l !! 0%nat = Some (mkEntry 0 0 INil) /\
  forall i e, l !! i = Some e -> e_Index e = Z.of_nat i.

Lemma log_exact_shape l : log_exact l -> log_shape l.
Proof. intros [H0 Hi]. split; [done|]. intros i e Hpos He. rewrite (Hi i e He). lia. Qed.

Lemma log_shape_init : log_shape [mkEntry 0 0 INil].
Proof. split; [done|]. intros [|[|i]] e ? He; simpl in *; [lia|done|done]. Qed.

Lemma log_shape_len l : log_shape l -> 1 <= zlen l.
Proof.
  intros [H0 _]. apply lookup_lt_Some in H0. unfold zlen. lia.
Qed.

Lemma log_shape_take l k : (0 < k)%nat -> log_shape l -> log_shape (take k l).
Proof.
  intros Hk [H0 Hi]. split; [by rewrite lookup_take_lt|].
  intros i e Hpos [He _]%lookup_take_Some. eauto.
Qed.

(** Appending entries keeps the shape when each lands at or beyond its index. *)
Lemma log_shape_app l es :
  log_shape l ->
  (forall j e, es !! j = Some e -> 1 <= e_Index e <= zlen l + Z.of_nat j) ->
  log_shape (l ++ es).
Proof.
  intros Hl Hes. pose proof (log_shape_len l Hl) as Hlen. destruct Hl as [H0 Hi].
  split; [rewrite lookup_app_l; [done|unfold zlen in Hlen; lia]|].
  intros i e Hpos [He|[Hge He]]%lookup_app_Some; [eauto|].
  specialize (Hes _ _ He). unfold zlen in *. lia.
Qed.

Lemma log_shape_last rf :
  log_shape (logEntries rf) -> 0 <= (lastLogTermIndex rf).2 <= zlen (logEntries rf) - 1.
Proof.
  intros Hs. pose proof (log_shape_len _ Hs) as Hlen. destruct Hs as [H0 Hi].
  unfold lastLogTermIndex. destruct (last (logEntries rf)) as [e|] eqn:He; simpl; [|lia].
  rewrite last_lookup in He. destruct (decide (length (logEntries rf) = 1%nat)) as [Hl|Hl].
  - rewrite Hl in He. simpl in He. rewrite H0 in He. simplify_eq/=. unfold zlen. lia.
  - unfold zlen in *. apply Hi in He; lia.
Qed.

Lemma log_exact_last rf :
  log_exact (logEntries rf) -> (lastLogTermIndex rf).2 = zlen (logEntries rf) - 1.
Proof.
  intros [H0 Hi]. unfold lastLogTermIndex, zlen.
  pose proof (lookup_lt_Some _ _ _ H0).
  destruct (last (logEntries rf)) as [e|] eqn:He; simpl.
  - rewrite last_lookup in He. rewrite (Hi _ _ He). lia.
  - apply last_None in He. rewrite He in H. simpl in H. lia.
Qed.

Lemma log_exact_app l es :
  log_exact l -> (forall j e, es !! j = Some e -> e_Index e = zlen l + Z.of_nat j) ->
  log_exact (l ++ es).
Proof.
  intros [H0 Hi] Hes. pose proof (lookup_lt_Some _ _ _ H0) as Hlt. split.
  - by rewrite lookup_app_l.
  - intros i e [He|[Hge He]]%lookup_app_Some; [eauto|].
    rewrite (Hes _ _ He). unfold zlen. lia.
Qed.

Lemma log_exact_take l k : (0 < k)%nat -> log_exact l -> log_exact (take k l).
Proof.
  intros Hk [H0 Hi]. split; [by rewrite lookup_take_lt|].
  intros i e [He _]%lookup_take_Some. eauto.
Qed.

Lemma log_shape_drop l k j e :
  log_shape l -> (0 < k)%nat -> drop k l !! j = Some e -> 1 <= e_Index e <= Z.of_nat k + Z.of_nat j.
Proof. intros [_ Hi] Hk He. rewrite lookup_drop in He. apply Hi in He; lia. Qed.

#[export] Hint Resolve log_shape_init log_shape_take log_shape_app : go.

(** ** Start and the apply loop *)

Section Start_lemmas.
Context `{GobCodec}.

Lemma Start_locked_leader command tm rf :
  0 <= me rf < zlen (matchIndex rf) ->
  Start_locked command tm true rf =
  let index := (lastLogTermIndex rf).2 + 1 in
  Some (persist
    (set_matchIndex (<[Z.to_nat (me rf) := index]> (matchIndex rf))
      (set_logEntries (logEntries rf ++ [mkEntry (term rf) index command]) rf)),
    (index, tm, true)).
Proof.
  intros Hme. unfold Start_locked. destruct (lastLogTermIndex rf) as [t i] eqn:E. simpl.
  destruct (zset (matchIndex rf) (me rf) (i + 1)) as [l|] eqn:Hz.
  - apply zset_Some in Hz as [_ ->]. done.
  - destruct (zset_is_Some (matchIndex rf) (me rf) (i + 1) Hme). congruence.
Qed.

Lemma Start_locked_follower command tm rf :
  Start_locked command tm false rf = Some (rf, ((lastLogTermIndex rf).2, tm, false)).
Proof. unfold Start_locked. by destruct (lastLogTermIndex rf). Qed.

End Start_lemmas.

(** The messages on [applyCh] carry the indices 1, 2, ... [lastApplied]. *)
Definition applied_in_order (rf : Raft) : Prop :=
  0 <= lastApplied rf /\
  CommandIndex <$> applyCh rf = seqZ 1 (lastApplied rf).

Lemma seqZ_snoc m n : 0 <= n -> seqZ m (n + 1) = seqZ m n ++ [m + n].
Proof. intros Hn. rewrite seqZ_app by lia. done. Qed.

Lemma applyLoop_in_order rf rf' :
  applyLoop rf = Some rf' -> applied_in_order rf -> applied_in_order rf'.
Proof.
  unfold applyLoop. intros Ha [Hp Hi]. destruct (_ <? _); [|by simplify_eq].
  simpl in Ha. destruct (zidx _ _) as [e|]; simplify_eq/=.
  split; simpl; [lia|]. rewrite fmap_app, Hi, seqZ_snoc by lia. simpl. f_equal. f_equal. lia.
Qed.
