(* ===== verification/Vote.v ===== *)
(** * Leader election ([lab2_raft/raft/vote.go])

    The [RequestVote] handler and [startElection].  [startElection] keeps the
    peer's mutex while one goroutine per other peer calls [RequestVote] with
    a 200 ms timeout; it is cut at its interaction points into
    [election_begin] (up to the calls), [election_reply] (the body of a
    goroutine whose call has returned) and [election_end] (after
    [wg.Wait()]).  [startElection] composes them for a given outcome of the
    calls; [Cluster] interleaves them with the other peers' steps. *)

From S2P Require Import Prelude Timer Gob Persister Raft.

(** ** Data *)

Record RequestVoteArgs := mkVoteArgs {
  va_Term : Z; va_CandidateId : Z; va_LastLogIndex : Z; va_LastLogTerm : Z }.

Record RequestVoteReply := mkVoteReply { vr_Term : Z; vr_VoteGranted : bool }.

#[export] Instance RequestVoteArgs_eq_dec : EqDecision RequestVoteArgs.
Proof. solve_decision. Defined.

Section Vote.
Context `{GobCodec}.

(** ** The RPC handler *)

(** The two tests of the election restriction, line by line. *)
Definition candidate_log_old (args : RequestVoteArgs) (rf : Raft) : bool :=
  let '(lastLogTerm, lastLogIndex) := lastLogTermIndex rf in
  (va_LastLogTerm args <? lastLogTerm) ||
  ((va_LastLogTerm args =? lastLogTerm) && (va_LastLogIndex args <? lastLogIndex)).

(** The handler resets the timer before it takes the mutex; here both are one
    step, which only matters for when the timer may expire. *)
Definition RequestVote (args : RequestVoteArgs) (rnd : Z) (rf : Raft)
    : option (Raft * RequestVoteReply) :=
  let rf := resetElectionTimer rnd rf in
  let replyTerm := term rf in
  rf ← (if va_Term args >? term rf then
          rf ← changeRole Follower rnd rf;
          Some (set_votedFor (-1) (set_term (va_Term args) rf))
        else Some rf)%go;
  '(rf, granted) ←
    (if va_Term args <? term rf then Some (rf, false)
     else if candidate_log_old args rf then Some (rf, false)
     else if bool_decide (role rf = Leader) then Some (rf, false)
     else if (votedFor rf =? -1) || (votedFor rf =? va_CandidateId args) then
       let rf := set_term (va_Term args) rf in
       let rf := set_votedFor (va_CandidateId args) rf in
       rf ← changeRole Follower rnd rf;
       Some (rf, true)
     else Some (rf, false));
  Some (persist rf, mkVoteReply replyTerm granted).

(** ** The candidate *)

(** Up to the calls.  [None] as arguments: this peer is the leader and
    [startElection] has returned false. *)
Definition election_begin (rnd : Z) (rf : Raft) : option (Raft * option RequestVoteArgs) :=
  let rf := resetElectionTimer rnd rf in
  if bool_decide (role rf = Leader) then Some (persist rf, None) else
  rf ← changeRole Candidate rnd rf;
  let '(lastLogTerm, lastLogIndex) := lastLogTermIndex rf in
  Some (rf, Some (mkVoteArgs (term rf) (me rf) lastLogIndex lastLogTerm)).

(** A call has returned [ok] with [reply]: update the peer and the count. *)
Definition election_reply (args : RequestVoteArgs) (reply : RequestVoteReply) (rnd : Z)
    (rf : Raft) (voteCount : Z) : option (Raft * Z) :=
  rf ← (if vr_Term reply >? va_Term args
        then changeRole Follower rnd (set_term (vr_Term reply) rf)
        else Some rf)%go;
  Some (rf, if vr_VoteGranted reply then voteCount + 1 else voteCount).

(** After [wg.Wait()]. *)
Definition election_end (voteCount : Z) (rnd : Z) (rf : Raft) : option (Raft * bool) :=
  if (voteCount >? Z.of_nat (peers rf) / 2)%go then
    rf ← changeRole Leader rnd rf;
    Some (persist rf, true)
  else Some (persist rf, false).

(** The goroutines' effects in the order in which the calls return; a call
    that fails or times out has none. *)
Fixpoint election_replies (args : RequestVoteArgs) (replies : list (option RequestVoteReply))
    (rnd : Z) (rf : Raft) (voteCount : Z) : option (Raft * Z) :=
  match replies with
  | [] => Some (rf, voteCount)
  | None :: replies => election_replies args replies rnd rf voteCount
  | Some reply :: replies =>
      '(rf, voteCount) ← election_reply args reply rnd rf voteCount;
      election_replies args replies rnd rf voteCount
  end.

Definition startElection (replies : list (option RequestVoteReply)) (rnd : Z) (rf : Raft)
    : option (Raft * bool) :=
  '(rf, oargs) ← election_begin rnd rf;
  match oargs with
  | None => Some (rf, false)
  | Some args =>
      '(rf, voteCount) ← election_replies args replies rnd rf 1;
      election_end voteCount rnd rf
  end.

End Vote.

(** ** Lemmas *)

(** [s] agrees with [r] on everything but role, timer, term, vote and storage. *)
Definition same_log (r s : Raft) : Prop :=
  peers s = peers r /\ me s = me r /\ applyCh s = applyCh r /\ logEntries s = logEntries r /\
  commitIndex s = commitIndex r /\ lastApplied s = lastApplied r /\
  nextIndex s = nextIndex r /\ matchIndex s = matchIndex r.

#[export] Instance same_log_refl : Reflexive same_log.
Proof. intros r. by repeat split. Qed.

#[export] Instance same_log_trans : Transitive same_log.
Proof.
  intros r s t (?&?&?&?&?&?&?&?) (?&?&?&?&?&?&?&?). unfold same_log. split_and!; congruence.
Qed.

Section Vote_lemmas.
Context `{GobCodec}.

(** When a vote is granted, stated on the state before the request. *)
Definition grants (args : RequestVoteArgs) (rf : Raft) : bool :=
  negb (candidate_log_old args rf) &&
  ((term rf <? va_Term args) ||
   ((va_Term args =? term rf) && negb (bool_decide (role rf = Leader)) &&
    ((votedFor rf =? -1) || (votedFor rf =? va_CandidateId args)))).

(** The state [RequestVote] leaves, branch by branch. *)
Definition vote_term (args : RequestVoteArgs) (rf : Raft) : Z := Z.max (term rf) (va_Term args).
Definition vote_votedFor (args : RequestVoteArgs) (rf : Raft) : Z :=
  if grants args rf then va_CandidateId args
  else if term rf <? va_Term args then -1 else votedFor rf.
Definition vote_role (args : RequestVoteArgs) (rf : Raft) : Role :=
  if grants args rf || (term rf <? va_Term args) then Follower else role rf.

Lemma RequestVote_closed args rnd rf :
  exists t, (timer_ok (electionTimer rf) -> timer_ok t) /\
  RequestVote args rnd rf =
  Some (persist (set_electionTimer t
         (set_role (vote_role args rf) (set_votedFor (vote_votedFor args rf)
           (set_term (vote_term args rf) rf)))),
        mkVoteReply (term rf) (grants args rf)).
Proof.
  destruct rf as [n ps m d r ch tm tr vf log ci la ni mi].
  unfold RequestVote, vote_term, vote_votedFor, vote_role, grants, persist, candidate_log_old,
    lastLogTermIndex, persist_data. simpl.
  destruct (Z.ltb_spec tr (va_Term args)) as [Hlt|Hge]; simpl.
  - rewrite Z.max_r by lia. rewrite Z.ltb_irrefl.
    destruct (last log) as [e|]; simpl.
    + destruct ((va_LastLogTerm args <? e_Term e) || _); simpl; eexists; (split; [|reflexivity]); timer_solve.
    + destruct ((va_LastLogTerm args <? 0) || _); simpl; eexists; (split; [|reflexivity]); timer_solve.
  - rewrite Z.max_l by lia. destruct (Z.ltb_spec (va_Term args) tr) as [Hlt|Hge']; simpl.
    + replace (va_Term args =? tr) with false by (symmetry; apply Z.eqb_neq; lia).
      rewrite andb_false_r. simpl. eexists. split; [|reflexivity]; timer_solve.
    + assert (va_Term args = tr) as -> by lia. rewrite Z.eqb_refl.
      destruct (last log) as [e|]; simpl;
        (destruct (_ || _)%bool; simpl; [eexists; split; [|reflexivity]; timer_solve|]);
        (destruct (bool_decide (r = Leader)); simpl; [eexists; split; [|reflexivity]; timer_solve|]);
        (destruct ((vf =? -1) || (vf =? va_CandidateId args)); simpl; eexists;
          (split; [|reflexivity]); timer_solve).
Qed.

(** [RequestVote] never panics, and this is all it does. *)
Lemma RequestVote_spec args rnd rf :
  exists rf', RequestVote args rnd rf = Some (rf', mkVoteReply (term rf) (grants args rf)) /\
    same_log rf rf' /\ term rf' = vote_term args rf /\ votedFor rf' = vote_votedFor args rf /\
    role rf' = vote_role args rf /\ raftstate (persister rf') = persist_data rf' /\
    (timer_ok (electionTimer rf) -> timer_ok (electionTimer rf')).
Proof.
  destruct (RequestVote_closed args rnd rf) as (t & Ht & ->).
  eexists. split; [reflexivity|]. unfold same_log, persist. simpl. split_and!; auto.
Qed.

(** ** The candidate *)

Lemma election_begin_leader rnd rf :
  role rf = Leader ->
  election_begin rnd rf = Some (persist (resetElectionTimer rnd rf), None).
Proof. intros Hr. unfold election_begin. simpl. by rewrite bool_decide_true. Qed.

Lemma election_begin_candidate rnd rf :
  role rf <> Leader ->
  exists rf', election_begin rnd rf =
    Some (rf', Some (mkVoteArgs (term rf + 1) (me rf)
                       (lastLogTermIndex rf).2 (lastLogTermIndex rf).1)) /\
    same_log rf rf' /\ term rf' = term rf + 1 /\ votedFor rf' = me rf /\ role rf' = Candidate /\
    persister rf' = persister rf /\
    (timer_ok (electionTimer rf) -> timer_ok (electionTimer rf')).
Proof.
  intros Hr. unfold election_begin. simpl. rewrite bool_decide_false by done.
  unfold lastLogTermIndex. simpl.
  destruct (last (logEntries rf)) as [e|]; simpl; eexists; (split; [reflexivity|]);
    unfold same_log; simpl; split_and!; auto; timer_solve.
Qed.

Lemma election_reply_spec args reply rnd rf c :
  exists rf', election_reply args reply rnd rf c =
    Some (rf', if vr_VoteGranted reply then c + 1 else c) /\
    same_log rf rf' /\ votedFor rf' = votedFor rf /\ persister rf' = persister rf /\
    (timer_ok (electionTimer rf) -> timer_ok (electionTimer rf')) /\
    ((vr_Term reply <= va_Term args /\ rf' = rf) \/
     (va_Term args < vr_Term reply /\ term rf' = vr_Term reply /\ role rf' = Follower)).
Proof.
  unfold election_reply. destruct (Z.ltb_spec (va_Term args) (vr_Term reply)); simpl.
  - eexists. split; [reflexivity|]. unfold same_log. simpl. split_and!; auto; timer_solve.
  - eexists. split; [reflexivity|]. split_and!; auto. reflexivity.
Qed.

Lemma election_end_spec c rnd rf :
  0 <= me rf < Z.of_nat (peers rf) ->
  exists rf', election_end c rnd rf = Some (rf', bool_decide (Z.of_nat (peers rf) / 2 < c)) /\
    term rf' = term rf /\ logEntries rf' = logEntries rf /\ peers rf' = peers rf /\ me rf' = me rf /\
    commitIndex rf' = commitIndex rf /\ lastApplied rf' = lastApplied rf /\
    applyCh rf' = applyCh rf /\
    raftstate (persister rf') = persist_data rf' /\
    (timer_ok (electionTimer rf) -> timer_ok (electionTimer rf')) /\
    if bool_decide (Z.of_nat (peers rf) / 2 < c)
    then role rf' = Leader /\ votedFor rf' = -1 /\
         nextIndex rf' = replicate (peers rf) ((lastLogTermIndex rf).2 + 1) /\
         matchIndex rf' = <[Z.to_nat (me rf) := (lastLogTermIndex rf).2]> (zmake (peers rf))
    else role rf' = role rf /\ votedFor rf' = votedFor rf /\
         nextIndex rf' = nextIndex rf /\ matchIndex rf' = matchIndex rf.
Proof.
  intros Hme. unfold election_end. destruct (Z.ltb_spec (Z.of_nat (peers rf) / 2) c).
  - rewrite bool_decide_true, changeRole_Leader by done. cbn [mbind option_bind].
    eexists. split; [reflexivity|]. simpl. split_and!; auto; timer_solve.
  - rewrite bool_decide_false by lia. eexists. split; [reflexivity|]. simpl. split_and!; auto.
Qed.

End Vote_lemmas.

(** ** A whole election *)

(** How many calls returned a granted vote. *)
Fixpoint votes_for (replies : list (option RequestVoteReply)) : Z :=
  match replies with
  | [] => 0
  | r :: replies =>
      (match r with Some x => if vr_VoteGranted x then 1 else 0 | None => 0 end) + votes_for replies
  end.

Lemma votes_for_cons r replies :
  votes_for (r :: replies) =
  (match r with Some x => if vr_VoteGranted x then 1 else 0 | None => 0 end) + votes_for replies.
Proof. done. Qed.

(** No reply shows a term above [t]. *)
Definition no_higher_term (t : Z) (replies : list (option RequestVoteReply)) : Prop :=
  Forall (fun r => match r with Some x => vr_Term x <= t | None => True end) replies.

Section Election_lemmas.
Context `{GobCodec}.

Lemma election_replies_spec args replies rnd rf c :
  va_Term args <= term rf ->
  exists rf', election_replies args replies rnd rf c = Some (rf', c + votes_for replies) /\
    same_log rf rf' /\ persister rf' = persister rf /\ va_Term args <= term rf' /\
    (role rf <> Leader -> role rf' <> Leader) /\
    (no_higher_term (va_Term args) replies -> rf' = rf) /\
    (rf' = rf \/ role rf' = Follower /\ exists r, Some r ∈ replies /\ va_Term args < vr_Term r /\ term rf' = vr_Term r) /\
    (~ no_higher_term (va_Term args) replies -> role rf' = Follower /\ va_Term args < term rf').
Proof.
  revert rf c. induction replies as [|[r|] replies IH]; intros rf c Ht; cbn [election_replies].
  - exists rf. change (votes_for []) with 0. rewrite Z.add_0_r. split_and!; try done; [by left|].
    intros []. constructor.
  - destruct (election_reply_spec args r rnd rf c) as (rf1 & -> & Hsl & _ & Hps & _ & Hor).
    cbn [mbind option_bind].
    destruct (IH rf1 (if vr_VoteGranted r then c + 1 else c)) as (rf' & -> & Hsl' & Hps' & Ht' & Hro & Hno & Hlast & Hhi).
    { destruct Hor as [[? ->]|(? & -> & _)]; lia. }
    exists rf'. rewrite votes_for_cons. split_and!; [| |congruence|done| | | |].
    + do 2 f_equal. destruct (vr_VoteGranted r); lia.
    + by transitivity rf1.
    + destruct Hor as [[_ ->]|(_ & _ & Hf)]; [done|]. intros _. apply Hro. by rewrite Hf.
    + intros [Hr Hrest]%Forall_cons_1. destruct Hor as [[_ ->]|(? & _)]; [auto|lia].
    + destruct Hlast as [->|(? & x & Hx & ?)]; [|right; split; [done|]; exists x; split; [by right|done]].
      destruct Hor as [[_ ->]|(? & ? & ?)]; [by left|]. right. split; [done|]. exists r. split; [by left|done].
    + intros Hn. destruct Hor as [[Hle ->]|(Hgt & Htm & Hf)].
      * apply Hhi. intros Hrest. apply Hn. by constructor.
      * destruct Hlast as [->|(? & x & _ & ? & ->)]; split; try done; lia.
  - destruct (IH rf c Ht) as (rf' & -> & ? & ? & ? & ? & Hno & Hlast & Hhi). exists rf'. rewrite votes_for_cons, Z.add_0_l.
    split_and!; try done.
    + intros [_ ?]%Forall_cons_1. auto.
    + destruct Hlast as [->|(? & x & Hx & ?)]; [by left|]. right. split; [done|]. exists x. split; [by right|done].
    + intros Hn. apply Hhi. intros Hrest. apply Hn. by constructor.
Qed.

End Election_lemmas.
