(* ===== verification/Entry.v ===== *)
(** * Log replication ([lab2_raft/raft/entry.go])

    The [AppendEntries] handler, and the leader's side: [getAppendLogs],
    [commitLog] and [SendHeartbeat].  [SendHeartbeat] keeps the mutex while
    its call is under way; it is cut at the call into [heartbeat_args] and
    [heartbeat_reply].  A call that fails or times out leaves [reply] at its
    zero value. *)

From S2P Require Import Prelude Timer Gob Persister Raft.

Record AppendEntriesArgs := mkAppendArgs {
  aa_Term : Z; aa_LeaderId : Z; aa_PrevLogIndex : Z; aa_PervLogTerm : Z;
  aa_Entries : list LogEntry; aa_LeaderCommit : Z }.

Record AppendEntriesReply := mkAppendReply {
  ar_Term : Z; ar_Success : bool; ar_NextIndex : Z }.

(** [AppendEntriesReply{}] *)
Definition zero_reply : AppendEntriesReply := mkAppendReply 0 false 0.

(** ** The leader *)

Definition getAppendLogs (server : Z) (rf : Raft) : option (Z * Z * list LogEntry) :=
  nextIdx ← zidx (nextIndex rf) server;
  let '(lastLogTerm, lastLogIndex) := lastLogTermIndex rf in
  if lastLogIndex <? nextIdx then Some (lastLogIndex, lastLogTerm, []) else
  res ← zdrop (logEntries rf) nextIdx;
  if zlen res =? 0 then Some (lastLogIndex, lastLogTerm, []) else
  let prevLogIndex := nextIdx - 1 in
  prev ← zidx (logEntries rf) prevLogIndex;
  Some (prevLogIndex, e_Term prev, res).

(** The inner loop of [commitLog]: [agreeCount] runs over the peers' match
    indices and stops with [true] once it exceeds half of them. *)
Fixpoint majority_loop (i half : Z) (agreeCount : Z) (ms : list Z) : bool :=
  match ms with
  | [] => false
  | m :: ms =>
      if i <=? m then
        let agreeCount := agreeCount + 1 in
        if half <? agreeCount then true else majority_loop i half agreeCount ms
      else majority_loop i half agreeCount ms
  end.

(** The outer loop, from [i] for [fuel] iterations. *)
Fixpoint commit_loop (fuel : nat) (i : Z) (rf : Raft) : Raft :=
  match fuel with
  | O => rf
  | S fuel =>
      let rf :=
        if majority_loop i (Z.of_nat (peers rf) / 2) 0 (matchIndex rf)
        then set_commitIndex i rf else rf in
      commit_loop fuel (i + 1) rf
  end.

(** [i] runs from [commitIndex + 1] to [len(logEntries) - 1]: the iterations
    are counted by the difference. *)
Definition commitLog (rf : Raft) : Raft :=
  commit_loop (Z.to_nat (zlen (logEntries rf) - 1 - commitIndex rf)) (commitIndex rf + 1) rf.

Section Entry.
Context `{GobCodec}.

(** Up to the call.  [None] as arguments: the target is this peer. *)
Definition heartbeat_args (server : Z) (rnd : Z) (rf : Raft)
    : option (Raft * option AppendEntriesArgs) :=
  if me rf =? server then Some (persist (resetElectionTimer rnd rf), None) else
  '(prevLogIndex, prevLogTerm, logs) ← getAppendLogs server rf;
  Some (rf, Some (mkAppendArgs (term rf) (me rf) prevLogIndex prevLogTerm logs (commitIndex rf))).

(** [nextIndex[server] = next; matchIndex[server] = next - 1] *)
Definition set_progress (server next : Z) (rf : Raft) : option Raft :=
  nextIndex' ← zset (nextIndex rf) server next;
  matchIndex' ← zset (matchIndex rf) server (next - 1);
  Some (set_matchIndex matchIndex' (set_nextIndex nextIndex' rf)).

(** After the call. *)
Definition heartbeat_reply (server : Z) (args : AppendEntriesArgs) (reply : AppendEntriesReply)
    (rnd : Z) (rf : Raft) : option Raft :=
  if term rf <? ar_Term reply then
    rf ← changeRole Follower rnd (set_term (ar_Term reply) rf);
    Some (persist rf)
  else
    rf ← (if ar_NextIndex reply =? -1 then
            next ← zidx (nextIndex rf) server; set_progress server (next - 1) rf
          else Some rf);
    rf ← (if (ar_NextIndex reply !=? 0) && (ar_NextIndex reply !=? -1)
          then set_progress server (ar_NextIndex reply) rf
          else Some rf)%go;
    let rf :=
      match aa_Entries args with
      | e :: _ => if ar_Success reply && (e_Term e =? term rf) then commitLog rf else rf
      | [] => rf
      end in
    Some (persist rf).

(** The whole of [SendHeartbeat] for a given outcome of its call. *)
Definition SendHeartbeat (server : Z) (call : AppendEntriesArgs -> option AppendEntriesReply)
    (rnd : Z) (rf : Raft) : option Raft :=
  '(rf, oargs) ← heartbeat_args server rnd rf;
  match oargs with
  | None => Some rf
  | Some args => heartbeat_reply server args (default zero_reply (call args)) rnd rf
  end.

(** ** The follower *)

(** The loop over [args.Entries]: the index of the first entry that conflicts
    with the log.  The outer option is a panic. *)
Fixpoint find_conflict (log es : list LogEntry) : option (option Z) :=
  match es with
  | [] => Some None
  | entry :: es =>
      if e_Index entry <? zlen log then
        old ← zidx log (e_Index entry);
        if e_Term old =? e_Term entry then find_conflict log es
        else Some (Some (e_Index entry))
      else find_conflict log es
  end.

(** Whether the entry at [PrevLogIndex] is there with another term. *)
Definition prev_mismatch (args : AppendEntriesArgs) (rf : Raft) : option bool :=
  if (0 <? aa_PrevLogIndex args) && (aa_PrevLogIndex args <=? zlen (logEntries rf) - 1) then
    old ← zidx (logEntries rf) (aa_PrevLogIndex args);
    Some (negb (e_Term old =? aa_PervLogTerm args))
  else Some false.

(** [commitIndex = min(leaderCommit, last index)], if that advances it. *)
Definition follower_commit (leaderCommit lastIndex : Z) (rf : Raft) : Raft :=
  if commitIndex rf <? leaderCommit then
    set_commitIndex (if lastIndex <? leaderCommit then lastIndex else leaderCommit) rf
  else rf.

(** The handler between [resetTimer] and the deferred [persist]. *)
Definition AppendEntries_body (args : AppendEntriesArgs) (rnd : Z) (rf : Raft)
    : option (Raft * AppendEntriesReply) :=
  if (aa_Term args >? term rf)%go then
    rf ← changeRole Follower rnd (set_term (aa_Term args) rf);
    Some (rf, mkAppendReply (term rf) false 0)
  else if aa_Term args <? term rf then
    Some (rf, mkAppendReply (term rf) false 0)
  else
  mismatch ← prev_mismatch args rf;
  if (mismatch : bool) then
    log ← ztake (logEntries rf) (aa_PrevLogIndex args);
    Some (set_logEntries log rf, mkAppendReply 0 false (aa_PrevLogIndex args))
  else
  conflict ← find_conflict (logEntries rf) (aa_Entries args);
  match conflict with
  | Some i =>
      log ← ztake (logEntries rf) i;
      Some (set_logEntries log rf, mkAppendReply 0 false i)
  | None =>
      if (aa_PrevLogIndex args >? zlen (logEntries rf) - 1)%go then
        Some (rf, mkAppendReply 0 false (zlen (logEntries rf)))
      else
        let rf := set_logEntries (logEntries rf ++ aa_Entries args) rf in
        let lastIndex := zlen (logEntries rf) - 1 in
        Some (follower_commit (aa_LeaderCommit args) lastIndex rf,
              mkAppendReply 0 true (lastIndex + 1))
  end.

Definition AppendEntries (args : AppendEntriesArgs) (rnd : Z) (rf : Raft)
    : option (Raft * AppendEntriesReply) :=
  '(rf, reply) ← AppendEntries_body args rnd (resetElectionTimer rnd rf);
  Some (persist rf, reply).

End Entry.

(** ** Counting agreement *)

(** How many peers are known to hold the entry at [i]. *)
Definition replicas (i : Z) (ms : list Z) : Z := zlen (filter (fun m => i <= m) ms).

Lemma replicas_cons i m ms :
  replicas i (m :: ms) = (if decide (i <= m) then 1 else 0) + replicas i ms.
Proof.
  unfold replicas. rewrite filter_cons.
  repeat case_decide; rewrite ?zlen_cons; lia || done.
Qed.

Lemma replicas_nonneg i ms : 0 <= replicas i ms.
Proof. apply zlen_nonneg. Qed.

Lemma replicas_mono i j ms : i <= j -> replicas j ms <= replicas i ms.
Proof.
  intros Hij. induction ms as [|m ms IH]; [done|]. rewrite !replicas_cons.
  destruct (decide (i <= m)), (decide (j <= m)); lia.
Qed.

(** The early exit of the inner loop does not change its verdict. *)
Lemma majority_loop_spec i half c ms :
  c <= half -> majority_loop i half c ms = bool_decide (half < c + replicas i ms).
Proof.
  revert c. induction ms as [|m ms IH]; intros c Hc; simpl.
  { rewrite bool_decide_false; [done|]. change (replicas i []) with 0. lia. }
  pose proof (replicas_nonneg i ms). rewrite replicas_cons.
  destruct (Z.leb_spec i m), (decide (i <= m)); try lia.
  - destruct (Z.ltb_spec half (c + 1)); [by rewrite bool_decide_true by lia|].
    rewrite IH by lia. apply bool_decide_ext. lia.
  - rewrite IH by lia. apply bool_decide_ext. lia.
Qed.

(** A majority of the peers is known to hold the entry at [i]. *)
Definition majority_at (i : Z) (rf : Raft) : Prop :=
  Z.of_nat (peers rf) / 2 < replicas i (matchIndex rf).

#[export] Instance majority_at_dec i rf : Decision (majority_at i rf).
Proof. unfold majority_at. apply _. Defined.

Lemma commit_loop_spec fuel i rf :
  exists c, commit_loop fuel i rf = set_commitIndex c rf /\
    (forall k, i <= k < i + Z.of_nat fuel -> majority_at k rf -> k <= c) /\
    (c = commitIndex rf \/ (i <= c < i + Z.of_nat fuel /\ majority_at c rf)).
Proof.
  revert i rf. induction fuel as [|fuel IH]; intros i rf; cbn [commit_loop].
  { exists (commitIndex rf). split_and!; [by destruct rf|lia|by left]. }
  rewrite majority_loop_spec by (apply Z.div_pos; lia).
  case_bool_decide as Hm.
  - destruct (IH (i + 1) (set_commitIndex i rf)) as (c & -> & Hle & Hor).
    exists c. split_and!; [done| |].
    + intros k Hk Hmk. destruct (decide (k = i)) as [->|Hki]; [destruct Hor as [->|?]; simpl; lia|].
      apply (Hle k); [lia|done].
    + right. destruct Hor as [->|[? ?]]; [|split; [lia|done]]. simpl. split; [lia|].
      unfold majority_at. lia.
  - destruct (IH (i + 1) rf) as (c & -> & Hle & Hor).
    exists c. split_and!; [done| |].
    + intros k Hk Hmk. destruct (decide (k = i)) as [->|Hki].
      * unfold majority_at in Hmk. lia.
      * apply (Hle k); [lia|done].
    + destruct Hor as [?|[? ?]]; [by left|right; split; [lia|done]].
Qed.

(** [commitLog] sets [commitIndex] to the largest index of the log, above the
    current one, that a majority holds, and changes nothing else. *)
Lemma commitLog_spec rf :
  exists c, commitLog rf = set_commitIndex c rf /\ commitIndex rf <= c /\
    (forall k, commitIndex rf < k < zlen (logEntries rf) -> majority_at k rf -> k <= c) /\
    (c = commitIndex rf \/ (commitIndex rf < c < zlen (logEntries rf) /\ majority_at c rf)).
Proof.
  destruct (commit_loop_spec (Z.to_nat (zlen (logEntries rf) - 1 - commitIndex rf))
              (commitIndex rf + 1) rf) as (c & Hc & Hle & Hor).
  exists c. split_and!; [done|lia| |].
  - intros k Hk Hm. apply Hle; [lia|done].
  - destruct Hor as [?|[? ?]]; [by left|right; split; [lia|done]].
Qed.

(** The comment's rule for the leader: N > commitIndex, a majority of
    [matchIndex] at N or beyond, and log[N].term = currentTerm. *)
Definition commit_rule (rf : Raft) (N : Z) : Prop :=
  commitIndex rf < N /\ majority_at N rf /\ exists e, zidx (logEntries rf) N = Some e /\ e_Term e = term rf.

(** ** What the leader sends *)

(** Well-formed arguments: a non-negative previous index, and entries that
    were at or before position [PrevLogIndex + 1 + j] in the sender's log. *)
Definition args_ok (args : AppendEntriesArgs) : Prop :=
  0 <= aa_PrevLogIndex args /\
  forall j e, aa_Entries args !! j = Some e ->
    1 <= e_Index e <= aa_PrevLogIndex args + 1 + Z.of_nat j.

Lemma getAppendLogs_spec server next rf :
  log_shape (logEntries rf) -> zidx (nextIndex rf) server = Some next -> 1 <= next ->
  exists prev t es, getAppendLogs server rf = Some (prev, t, es) /\
    0 <= prev <= zlen (logEntries rf) - 1 /\
    (forall j e, es !! j = Some e -> 1 <= e_Index e <= prev + 1 + Z.of_nat j) /\
    (((lastLogTermIndex rf).2 < next /\ es = [] /\ (prev, t) = ((lastLogTermIndex rf).2, (lastLogTermIndex rf).1)) \/
     (next <= (lastLogTermIndex rf).2 /\ prev = next - 1 /\ es = drop (Z.to_nat next) (logEntries rf) /\
      es <> [] /\ exists p, zidx (logEntries rf) prev = Some p /\ t = e_Term p)).
Proof.
  intros Hs Hn H1. pose proof (log_shape_last rf Hs) as Hlast.
  unfold getAppendLogs. rewrite Hn. cbn [mbind option_bind].
  destruct (lastLogTermIndex rf) as [lt li]. simpl in Hlast.
  destruct (Z.ltb_spec li next) as [Hlt|Hge].
  { exists li, lt, []. split_and!; [done|lia|lia| |by left]. intros j e. by rewrite lookup_nil. }
  assert (Hd : zdrop (logEntries rf) next = Some (drop (Z.to_nat next) (logEntries rf))).
  { apply zdrop_Some. split; [lia|done]. }
  rewrite Hd. cbn [mbind option_bind].
  assert (Hl : zlen (drop (Z.to_nat next) (logEntries rf)) = zlen (logEntries rf) - next).
  { unfold zlen in *. rewrite length_drop. lia. }
  rewrite Hl. destruct (Z.eqb_spec (zlen (logEntries rf) - next) 0); [lia|].
  destruct (proj2 (zidx_is_Some (logEntries rf) (next - 1)) ltac:(lia)) as [p Hp].
  rewrite Hp. cbn [mbind option_bind].
  exists (next - 1), (e_Term p), (drop (Z.to_nat next) (logEntries rf)).
  split_and!; [done|lia|lia| |].
  - intros j e He. apply log_shape_drop in He; [lia|done|lia].
  - right. split_and!; [done|done|done| |by eauto].
    intros He. rewrite He in Hl. unfold zlen in *. simpl in Hl. lia.
Qed.

(** ** What the follower does *)

Lemma find_conflict_total log es :
  (forall j e, es !! j = Some e -> 1 <= e_Index e) -> log <> [] ->
  (find_conflict log es = Some None /\
   forall j e old, es !! j = Some e -> zidx log (e_Index e) = Some old -> e_Term old = e_Term e) \/
  exists i j e old, find_conflict log es = Some (Some i) /\ es !! j = Some e /\ e_Index e = i /\
    1 <= i < zlen log /\ zidx log i = Some old /\ e_Term old <> e_Term e /\
    forall j' e' old', (j' < j)%nat -> es !! j' = Some e' -> zidx log (e_Index e') = Some old' ->
      e_Term old' = e_Term e'.
Proof.
  intros Hpos Hne. induction es as [|e es IH]; simpl.
  { left. split; [done|]. intros j e old. by rewrite lookup_nil. }
  assert (H1 : 1 <= e_Index e) by (apply (Hpos 0%nat); done).
  assert (Hpos' : forall j e, es !! j = Some e -> 1 <= e_Index e) by (intros j; apply (Hpos (S j))).
  destruct (IH Hpos') as [[-> Hno]|(i & j & e' & old & -> & Hj & Hi & Hr & Ho & Hd & Hbef)]; clear IH.
  - destruct (Z.ltb_spec (e_Index e) (zlen log)).
    + destruct (proj2 (zidx_is_Some log (e_Index e)) ltac:(lia)) as [old Ho]. rewrite Ho. simpl.
      destruct (Z.eqb_spec (e_Term old) (e_Term e)).
      * left. split; [done|]. intros [|j] e2 old2 He2 Ho2; simpl in He2; simplify_eq; eauto.
      * right. exists (e_Index e), 0%nat, e, old. split_and!; try done. intros; lia.
    + left. split; [done|]. intros [|j] e2 old2 He2 Ho2; simpl in He2; simplify_eq; eauto.
      apply zidx_Some in Ho2. lia.
  - destruct (Z.ltb_spec (e_Index e) (zlen log)).
    + destruct (proj2 (zidx_is_Some log (e_Index e)) ltac:(lia)) as [old0 Ho0]. rewrite Ho0. simpl.
      destruct (Z.eqb_spec (e_Term old0) (e_Term e)).
      * right. exists i, (S j), e', old. split_and!; try done; try lia.
        intros [|j'] e2 old2 ? He2 Ho2; simpl in He2; simplify_eq; [done|]. eapply Hbef; eauto. lia.
      * right. exists (e_Index e), 0%nat, e, old0. split_and!; try done. intros; lia.
    + right. exists i, (S j), e', old. split_and!; try done; try lia.
      intros [|j'] e2 old2 ? He2 Ho2; simpl in He2; simplify_eq.
      * apply zidx_Some in Ho2. lia.
      * eapply Hbef; eauto. lia.
Qed.

Section Entry_lemmas.
Context `{GobCodec}.

(** The fields [AppendEntries] never touches, and what it always saves. *)
Definition append_frame (rf rf' : Raft) : Prop :=
  peers rf' = peers rf /\ me rf' = me rf /\ applyCh rf' = applyCh rf /\
  votedFor rf' = votedFor rf /\ lastApplied rf' = lastApplied rf /\
  nextIndex rf' = nextIndex rf /\ matchIndex rf' = matchIndex rf /\
  raftstate (persister rf') = persist_data rf' /\
  (timer_ok (electionTimer rf) -> timer_ok (electionTimer rf')).

(** [commitIndex] after an accepted request. *)
Definition new_commit (leaderCommit lastIndex old : Z) : Z :=
  if old <? leaderCommit then Z.min leaderCommit lastIndex else old.

(** Why a request of the current term is refused, with the log that is left. *)
Inductive refusal (args : AppendEntriesArgs) (log : list LogEntry) : list LogEntry -> Prop :=
  | refuse_prev old :
      0 < aa_PrevLogIndex args -> zidx log (aa_PrevLogIndex args) = Some old ->
      e_Term old <> aa_PervLogTerm args ->
      refusal args log (take (Z.to_nat (aa_PrevLogIndex args)) log)
  | refuse_conflict j e old :
      aa_Entries args !! j = Some e -> zidx log (e_Index e) = Some old ->
      1 <= e_Index e -> e_Term old <> e_Term e ->
      refusal args log (take (Z.to_nat (e_Index e)) log)
  | refuse_missing :
      zlen log <= aa_PrevLogIndex args -> refusal args log log.

(** The entry before the new ones is there, with the leader's term; the
    placeholder at 0 is not compared. *)
Definition prev_matches (args : AppendEntriesArgs) (log : list LogEntry) : Prop :=
  aa_PrevLogIndex args < zlen log /\
  (0 < aa_PrevLogIndex args ->
   exists old, zidx log (aa_PrevLogIndex args) = Some old /\ e_Term old = aa_PervLogTerm args).

(** The outcomes of [AppendEntries]. *)
Inductive append_outcome (args : AppendEntriesArgs) (rf rf' : Raft) : AppendEntriesReply -> Prop :=
  | append_new_term :
      term rf < aa_Term args -> term rf' = aa_Term args -> role rf' = Follower ->
      logEntries rf' = logEntries rf -> commitIndex rf' = commitIndex rf ->
      append_outcome args rf rf' (mkAppendReply (aa_Term args) false 0)
  | append_old_term :
      aa_Term args < term rf -> pstate rf' = pstate rf -> role rf' = role rf ->
      commitIndex rf' = commitIndex rf ->
      append_outcome args rf rf' (mkAppendReply (term rf) false 0)
  | append_refused :
      aa_Term args = term rf -> term rf' = term rf -> role rf' = role rf ->
      commitIndex rf' = commitIndex rf -> refusal args (logEntries rf) (logEntries rf') ->
      append_outcome args rf rf' (mkAppendReply 0 false (zlen (logEntries rf')))
  | append_accepted :
      aa_Term args = term rf -> term rf' = term rf -> role rf' = role rf ->
      prev_matches args (logEntries rf) ->
      (forall j e old, aa_Entries args !! j = Some e ->
         zidx (logEntries rf) (e_Index e) = Some old -> e_Term old = e_Term e) ->
      logEntries rf' = logEntries rf ++ aa_Entries args ->
      commitIndex rf' = new_commit (aa_LeaderCommit args) (zlen (logEntries rf') - 1) (commitIndex rf) ->
      append_outcome args rf rf' (mkAppendReply 0 true (zlen (logEntries rf'))).

Lemma prev_mismatch_spec args rf :
  exists b, prev_mismatch args rf = Some b /\
    (b = true -> exists old, 0 < aa_PrevLogIndex args /\
       zidx (logEntries rf) (aa_PrevLogIndex args) = Some old /\ e_Term old <> aa_PervLogTerm args) /\
    (b = false -> aa_PrevLogIndex args < zlen (logEntries rf) -> prev_matches args (logEntries rf)).
Proof.
  unfold prev_mismatch, prev_matches. destruct (_ && _)%bool eqn:E; bool_to_prop.
  - destruct (proj2 (zidx_is_Some (logEntries rf) (aa_PrevLogIndex args)) ltac:(lia)) as [old Ho].
    rewrite Ho. simpl. eexists. split; [reflexivity|].
    destruct (Z.eqb_spec (e_Term old) (aa_PervLogTerm args)); simpl; split; intros; try done.
    + eauto.
    + eauto.
  - eexists. split; [reflexivity|]. split; [done|]. intros _ Hlt. split; [done|]. intros. lia.
Qed.

Lemma follower_commit_spec lc li rf :
  follower_commit lc li rf = set_commitIndex (new_commit lc li (commitIndex rf)) rf.
Proof.
  unfold follower_commit, new_commit. destruct rf as [? ? ? ? ? ? ? ? ? ? ci ? ? ?]. simpl.
  destruct (Z.ltb_spec ci lc); [|done]. destruct (Z.ltb_spec li lc); f_equal; lia.
Qed.

(** On a log of the right shape and well-formed arguments the handler never
    panics and ends in one of the four outcomes. *)
Lemma AppendEntries_spec args rnd rf :
  log_shape (logEntries rf) -> args_ok args ->
  exists rf' reply, AppendEntries args rnd rf = Some (rf', reply) /\
    append_frame rf rf' /\ append_outcome args rf rf' reply.
Proof.
  intros Hs [Hprev Hes]. pose proof (log_shape_len _ Hs) as Hlen.
  unfold AppendEntries, AppendEntries_body, append_frame.
  destruct (Z.ltb_spec (term (resetElectionTimer rnd rf)) (aa_Term args)) as [Hlt|Hge]; simpl in *.
  { do 2 eexists. split; [reflexivity|]. split; [split_and!; try done; timer_solve|]. by constructor. }
  destruct (Z.ltb_spec (aa_Term args) (term rf)) as [Hlt|Hge'].
  { do 2 eexists. split; [reflexivity|]. split; [split_and!; try done; timer_solve|]. by constructor. }
  assert (Heq : aa_Term args = term rf) by lia.
  destruct (prev_mismatch_spec args (resetElectionTimer rnd rf)) as (b & -> & Ht & Hf).
  cbn [mbind option_bind]. simpl in Ht, Hf. destruct b.
  { destruct (Ht eq_refl) as (old & Hpos & Ho & Hne). pose proof (proj1 (zidx_Some _ _ _) Ho) as [Hr _].
    rewrite (proj2 (ztake_Some _ _ _) (conj (ltac:(lia) : 0 <= aa_PrevLogIndex args <= zlen (logEntries rf)) eq_refl)).
    cbn [mbind option_bind]. do 2 eexists. split; [reflexivity|]. split; [split_and!; try done; timer_solve|].
    replace (aa_PrevLogIndex args) with (zlen (take (Z.to_nat (aa_PrevLogIndex args)) (logEntries rf))) at 2
      by (rewrite zlen_take; lia).
    apply append_refused; try done. by econstructor. }
  destruct (find_conflict_total (logEntries rf) (aa_Entries args)) as
    [[-> Hno]|(i & j & e & old & -> & Hj & <- & Hr & Ho & Hne & _)].
  { intros j e He. apply Hes in He. lia. }
  { intros Hnil. rewrite Hnil in Hlen. done. }
  - cbn [mbind option_bind]. destruct (Z.ltb_spec (zlen (logEntries rf) - 1) (aa_PrevLogIndex args)).
    { do 2 eexists. split; [reflexivity|]. split; [split_and!; try done; timer_solve|].
      apply (append_refused args rf (persist (resetElectionTimer rnd rf))); try done.
      apply refuse_missing. simpl. lia. }
    do 2 eexists. split; [reflexivity|]. rewrite follower_commit_spec. simpl.
    split; [split_and!; try done; timer_solve|].
    replace (zlen (logEntries rf ++ aa_Entries args) - 1 + 1)
      with (zlen (logEntries rf ++ aa_Entries args)) by lia.
    match goal with |- append_outcome _ _ ?rf' _ => apply (append_accepted args rf rf'); try done end.
    apply Hf; [done|lia].
  - cbn [mbind option_bind].
    rewrite (proj2 (ztake_Some _ _ _) (conj (ltac:(lia) : 0 <= e_Index e <= zlen (logEntries rf)) eq_refl)).
    cbn [mbind option_bind]. do 2 eexists. split; [reflexivity|]. split; [split_and!; try done; timer_solve|].
    replace (e_Index e) with (zlen (take (Z.to_nat (e_Index e)) (logEntries rf))) at 2
      by (rewrite zlen_take; lia).
    apply append_refused; try done. eapply refuse_conflict; try done. lia.
Qed.

(** Every outcome keeps the shape of the log. *)
Lemma append_outcome_shape args rf rf' reply :
  log_shape (logEntries rf) -> args_ok args -> append_outcome args rf rf' reply ->
  log_shape (logEntries rf').
Proof.
  intros Hs [Hprev Hes] [? ? ? -> ?|? Hp ? ?|? ? ? ? Hr|? ? ? [Hlt _] ? -> ?]; [done| | |].
  - unfold pstate in Hp. simplify_eq. congruence.
  - destruct Hr; [apply log_shape_take; [lia|done]..|done].
  - apply log_shape_app; [done|]. intros j e He. apply Hes in He. lia.
Qed.

(** ** The rules the comments quote *)

(** Whether an entry is already in a log, or conflicts with it (same index,
    another term). *)
Definition holds (log : list LogEntry) (e : LogEntry) : bool :=
  match zidx log (e_Index e) with Some old => e_Term old =? e_Term e | None => false end.
Definition conflicts (log : list LogEntry) (e : LogEntry) : bool :=
  match zidx log (e_Index e) with Some old => negb (e_Term old =? e_Term e) | None => false end.

(** Term, log, commit index and reply after a request, as the comments of
    [AppendEntries] say: refuse an old term; refuse if the log has no entry at
    [prevLogIndex] with [prevLogTerm]; delete a conflicting entry and all that
    follow it; append the entries not already in the log; and set
    [commitIndex] to min(leaderCommit, index of last new entry). *)
Definition append_rules (args : AppendEntriesArgs) (rf : Raft)
    : Z * list LogEntry * Z * AppendEntriesReply :=
  let log := logEntries rf in
  let refuse log := (term rf, log, commitIndex rf, mkAppendReply 0 false (zlen log)) in
  if term rf <? aa_Term args
  then (aa_Term args, log, commitIndex rf, mkAppendReply (aa_Term args) false 0)
  else if aa_Term args <? term rf
  then (term rf, log, commitIndex rf, mkAppendReply (term rf) false 0)
  else match zidx log (aa_PrevLogIndex args) with
  | None => refuse log
  | Some prev =>
      if (0 <? aa_PrevLogIndex args) && negb (e_Term prev =? aa_PervLogTerm args)
      then refuse (take (Z.to_nat (aa_PrevLogIndex args)) log)
      else match List.filter (conflicts log) (aa_Entries args) with
      | e :: _ => refuse (take (Z.to_nat (e_Index e)) log)
      | [] =>
          let log' := log ++ List.filter (fun e => negb (holds log e)) (aa_Entries args) in
          let last_new := aa_PrevLogIndex args + zlen (aa_Entries args) in
          (term rf, log',
           if commitIndex rf <? aa_LeaderCommit args then Z.min (aa_LeaderCommit args) last_new
           else commitIndex rf,
           mkAppendReply 0 true (zlen log'))
      end
  end.

(** The entries of a request are those after [PrevLogIndex]. *)
Definition consecutive (args : AppendEntriesArgs) : Prop :=
  0 <= aa_PrevLogIndex args /\
  forall j e, aa_Entries args !! j = Some e -> e_Index e = aa_PrevLogIndex args + 1 + Z.of_nat j.

Lemma consecutive_ok args : consecutive args -> args_ok args.
Proof. intros [? Hes]. split; [done|]. intros j e Hj. rewrite (Hes _ _ Hj). lia. Qed.

Lemma holds_conflicts log e :
  holds log e = false -> conflicts log e = false -> zidx log (e_Index e) = None.
Proof. unfold holds, conflicts. destruct (zidx _ _); [|done]. by destruct (_ =? _). Qed.

Lemma existsb_false {A} (f : A -> bool) l : existsb f l = false <-> forall x, x ∈ l -> f x = false.
Proof.
  induction l as [|x l IH]; simpl; [by split; [intros _ x Hx; apply not_elem_of_nil in Hx|]|].
  rewrite orb_false_iff, IH. split.
  - intros [? ?] y [->|?]%elem_of_cons; auto.
  - intros Hall. split; [apply Hall; by left|]. intros y Hy. apply Hall. by right.
Qed.

(** The loop over the entries stops at the first conflict. *)
Lemma find_conflict_first log es :
  (forall e, e ∈ es -> 0 <= e_Index e) ->
  find_conflict log es =
  Some (match List.filter (conflicts log) es with e :: _ => Some (e_Index e) | [] => None end).
Proof.
  induction es as [|e es IH]; intros Hpos; [done|]. cbn [find_conflict List.filter].
  assert (IH' := IH (fun x Hx => Hpos x (list_elem_of_further x e es Hx))). pose proof (Hpos e (list_elem_of_here e es)) as H0. clear IH.
  unfold conflicts at 1.
  destruct (Z.ltb_spec (e_Index e) (zlen log)) as [Hlt|Hge].
  - destruct (proj2 (zidx_is_Some log (e_Index e)) (conj H0 Hlt)) as [old ->]. cbn [mbind option_bind].
    destruct (e_Term old =? e_Term e); simpl; [|done]. exact IH'.
  - destruct (zidx log (e_Index e)) as [old|] eqn:Hz; [apply zidx_Some in Hz; lia|]. simpl. exact IH'.
Qed.

(** Entries that are neither held nor in conflict extend the log. *)
Lemma fresh_batch args log :
  consecutive args -> aa_PrevLogIndex args < zlen log ->
  existsb (holds log) (aa_Entries args) = false -> existsb (conflicts log) (aa_Entries args) = false ->
  List.filter (fun e => negb (holds log e)) (aa_Entries args) = aa_Entries args /\
  (aa_Entries args = [] \/ aa_PrevLogIndex args = zlen log - 1).
Proof.
  intros [Hp Hes] Hlt Hh Hc. rewrite existsb_false in Hh, Hc. split.
  - clear Hes Hc. induction (aa_Entries args) as [|e es IH]; [done|]. cbn [List.filter].
    rewrite Hh by (by left). cbn [negb]. f_equal. apply IH. intros x Hx. apply Hh. by right.
  - destruct (aa_Entries args) as [|e es]; [by left|right]. pose proof (Hes 0%nat e eq_refl) as He.
    destruct (zidx log (e_Index e)) as [old|] eqn:Hz.
    + rewrite holds_conflicts in Hz; [done|apply Hh; by left|apply Hc; by left].
    + apply zidx_None in Hz. lia.
Qed.

Lemma no_conflicts args log :
  consecutive args -> zlen log <= aa_PrevLogIndex args -> List.filter (conflicts log) (aa_Entries args) = [].
Proof.
  intros [_ Hes] Hlen. destruct (List.filter _ _) as [|e es] eqn:Hf; [done|].
  assert (Hin : In e (List.filter (conflicts log) (aa_Entries args))) by (rewrite Hf; by left).
  apply filter_In in Hin as [Hin Hc]. apply list_elem_of_In, list_elem_of_lookup_1 in Hin as [j Hj].
  pose proof (Hes _ _ Hj). unfold conflicts in Hc. destruct (zidx log (e_Index e)) as [old|] eqn:Hz; [|done].
  apply zidx_Some in Hz. lia.
Qed.

Lemma first_conflict args log e es :
  consecutive args -> List.filter (conflicts log) (aa_Entries args) = e :: es -> 1 <= e_Index e < zlen log.
Proof.
  intros [Hp Hes] Hf. assert (Hin : In e (List.filter (conflicts log) (aa_Entries args))) by (rewrite Hf; by left).
  apply filter_In in Hin as [Hin Hc]. apply list_elem_of_In, list_elem_of_lookup_1 in Hin as [j Hj].
  pose proof (Hes _ _ Hj). unfold conflicts in Hc. destruct (zidx log (e_Index e)) as [old|] eqn:Hz; [|done].
  apply zidx_Some in Hz. lia.
Qed.

Lemma filter_nil_existsb {A} (f : A -> bool) l : List.filter f l = [] -> existsb f l = false.
Proof. induction l as [|x l IH]; [done|]. simpl. by destruct (f x). Qed.

Definition fields (rf : Raft) (reply : AppendEntriesReply) : Z * list LogEntry * Z * AppendEntriesReply :=
  (term rf, logEntries rf, commitIndex rf, reply).

(** A request of the current term on a log that has an entry at [PrevLogIndex]. *)
Lemma append_body_current args rnd rf prev rf' reply :
  log_exact (logEntries rf) -> consecutive args -> aa_Term args = term rf ->
  zidx (logEntries rf) (aa_PrevLogIndex args) = Some prev ->
  existsb (conflicts (logEntries rf)) (aa_Entries args) = true \/
    existsb (holds (logEntries rf)) (aa_Entries args) = false ->
  (aa_Entries args = [] -> aa_LeaderCommit args <= aa_PrevLogIndex args) ->
  AppendEntries_body args rnd rf = Some (rf', reply) ->
  fields rf' reply = append_rules args rf /\ log_exact (logEntries rf').
Proof.
  intros He Hco Ht Hz Hheld Hcm Hap. pose proof (proj1 (zidx_Some _ _ _) Hz) as [Hr _].
  unfold AppendEntries_body, append_rules, prev_mismatch in *. rewrite Ht, Z.ltb_irrefl in *. rewrite Hz in *.
  rewrite (proj2 (Z.leb_le (aa_PrevLogIndex args) (zlen (logEntries rf) - 1))), andb_true_r in Hap by lia.
  assert (Hmis : (if 0 <? aa_PrevLogIndex args then old ← Some prev; Some (negb (e_Term old =? aa_PervLogTerm args))
                  else Some false) =
                 Some ((0 <? aa_PrevLogIndex args) && negb (e_Term prev =? aa_PervLogTerm args)))
    by (by destruct (0 <? aa_PrevLogIndex args)).
  rewrite Hmis in Hap. cbn [mbind option_bind] in Hap. clear Hmis.
  destruct (_ && _) eqn:Hm.
  { bool_to_prop. rewrite (proj2 (ztake_Some _ _ _) (conj (ltac:(lia) : 0 <= aa_PrevLogIndex args <= zlen (logEntries rf)) eq_refl)) in Hap.
    cbn [mbind option_bind] in Hap. injection Hap as <- <-. split; [|apply log_exact_take; [lia|done]].
    unfold fields. simpl. rewrite zlen_take. do 2 f_equal. lia. }
  rewrite find_conflict_first in Hap.
  2:{ intros e [j Hj]%list_elem_of_lookup_1. rewrite (proj2 Hco _ _ Hj). destruct Hco. lia. }
  cbn [mbind option_bind] in Hap. destruct (List.filter (conflicts _) _) as [|e es] eqn:Hf.
  - rewrite (proj2 (Z.ltb_ge (zlen (logEntries rf) - 1) (aa_PrevLogIndex args))) in Hap by lia.
    apply filter_nil_existsb in Hf. rewrite Hf in Hheld. destruct Hheld as [?|Hheld]; [done|].
    destruct (fresh_batch args (logEntries rf) Hco ltac:(lia) Hheld Hf) as [Hfresh Hor]. rewrite Hfresh.
    injection Hap as <- <-. rewrite follower_commit_spec. unfold fields. simpl. rewrite zlen_app. split.
    + unfold new_commit. replace (zlen (logEntries rf) + zlen (aa_Entries args) - 1 + 1) with
        (zlen (logEntries rf) + zlen (aa_Entries args)) by lia.
      assert (Heq : aa_LeaderCommit args `min` (zlen (logEntries rf) + zlen (aa_Entries args) - 1) =
                    aa_LeaderCommit args `min` (aa_PrevLogIndex args + zlen (aa_Entries args))); [|by rewrite Heq].
      destruct Hor as [Hnil|Hend]; [|lia]. specialize (Hcm Hnil). rewrite Hnil. unfold zlen at 2 3. simpl. lia.
    + destruct Hor as [->|Hend]; [by rewrite app_nil_r|]. apply log_exact_app; [done|].
      intros j e Hj. rewrite (proj2 Hco _ _ Hj). lia.
  - pose proof (first_conflict _ _ _ _ Hco Hf) as Hi.
    rewrite (proj2 (ztake_Some _ _ _) (conj (ltac:(lia) : 0 <= e_Index e <= zlen (logEntries rf)) eq_refl)) in Hap.
    cbn [mbind option_bind] in Hap. injection Hap as <- <-. split; [|apply log_exact_take; [lia|done]].
    unfold fields. simpl. rewrite zlen_take. do 2 f_equal. lia.
Qed.

Lemma append_body_rules args rnd rf rf' reply :
  log_exact (logEntries rf) -> consecutive args ->
  existsb (conflicts (logEntries rf)) (aa_Entries args) = true \/
    existsb (holds (logEntries rf)) (aa_Entries args) = false ->
  (aa_Entries args = [] -> aa_LeaderCommit args <= aa_PrevLogIndex args) ->
  AppendEntries_body args rnd rf = Some (rf', reply) ->
  fields rf' reply = append_rules args rf /\ log_exact (logEntries rf').
Proof.
  intros He Hco Hheld Hcm Hap. destruct (decide (aa_Term args = term rf)) as [Ht|Ht].
  - destruct (zidx (logEntries rf) (aa_PrevLogIndex args)) as [prev|] eqn:Hz;
      [by eapply append_body_current|]. apply zidx_None in Hz. destruct Hco as [Hp Hes].
    unfold AppendEntries_body, append_rules, prev_mismatch in *. rewrite Ht, Z.ltb_irrefl in *.
    rewrite (proj2 (zidx_None _ _)) by done.
    rewrite (proj2 (Z.leb_gt (aa_PrevLogIndex args) (zlen (logEntries rf) - 1))), andb_false_r in Hap by lia.
    cbn [mbind option_bind] in Hap. rewrite find_conflict_first in Hap.
    2:{ intros e [j Hj]%list_elem_of_lookup_1. rewrite (Hes _ _ Hj). lia. }
    rewrite no_conflicts in Hap; [|done|lia]. cbn [mbind option_bind] in Hap.
    rewrite (proj2 (Z.ltb_lt (zlen (logEntries rf) - 1) (aa_PrevLogIndex args))) in Hap by lia.
    by injection Hap as <- <-.
  - unfold AppendEntries_body, append_rules in *.
    destruct (Z.ltb_spec (term rf) (aa_Term args)); simpl in Hap; [by injection Hap as <- <-|].
    rewrite (proj2 (Z.ltb_lt (aa_Term args) (term rf))) in * by lia. by injection Hap as <- <-.
Qed.

Lemma AppendEntries_rules args rnd rf rf' reply :
  log_exact (logEntries rf) -> consecutive args ->
  existsb (conflicts (logEntries rf)) (aa_Entries args) = true \/
    existsb (holds (logEntries rf)) (aa_Entries args) = false ->
  (aa_Entries args = [] -> aa_LeaderCommit args <= aa_PrevLogIndex args) ->
  AppendEntries args rnd rf = Some (rf', reply) ->
  fields rf' reply = append_rules args rf /\ log_exact (logEntries rf').
Proof.
  intros He Hco Hheld Hcm Hap. unfold AppendEntries in Hap.
  destruct (AppendEntries_body _ _ _) as [[r rep]|] eqn:Hb; [|done]. injection Hap as <- <-.
  by eapply append_body_rules in Hb.
Qed.

(** ** After the call *)

Definition heartbeat_frame (rf rf' : Raft) : Prop :=
  peers rf' = peers rf /\ me rf' = me rf /\ applyCh rf' = applyCh rf /\
  votedFor rf' = votedFor rf /\ lastApplied rf' = lastApplied rf /\
  logEntries rf' = logEntries rf /\ raftstate (persister rf') = persist_data rf' /\
  (timer_ok (electionTimer rf) -> timer_ok (electionTimer rf')).

(** [nextIndex] and [matchIndex] after a reply that carries a position. *)
Definition progress (server next : Z) (rf rf' : Raft) : Prop :=
  nextIndex rf' = <[Z.to_nat server := next]> (nextIndex rf) /\
  matchIndex rf' = <[Z.to_nat server := next - 1]> (matchIndex rf).

Lemma set_progress_spec server next rf :
  0 <= server < zlen (nextIndex rf) -> 0 <= server < zlen (matchIndex rf) ->
  set_progress server next rf =
  Some (set_matchIndex (<[Z.to_nat server := next - 1]> (matchIndex rf))
          (set_nextIndex (<[Z.to_nat server := next]> (nextIndex rf)) rf)).
Proof.
  intros H1 H2. unfold set_progress.
  rewrite (proj2 (zset_Some _ _ _ _) (conj H1 eq_refl)). cbn [mbind option_bind].
  rewrite (proj2 (zset_Some _ _ _ _) (conj H2 eq_refl)). done.
Qed.

(** For replies a follower can send ([NextIndex >= 0]) the leader never
    panics: it steps down on a higher term, records the reported position,
    and commits only after a successful append that starts in its own term. *)
(** Equal but for the progress of the peers. *)
Definition only_progress (rf rf1 : Raft) : Prop :=
  peers rf1 = peers rf /\ me rf1 = me rf /\ applyCh rf1 = applyCh rf /\ votedFor rf1 = votedFor rf /\
  lastApplied rf1 = lastApplied rf /\ logEntries rf1 = logEntries rf /\ electionTimer rf1 = electionTimer rf /\
  term rf1 = term rf /\ role rf1 = role rf /\ commitIndex rf1 = commitIndex rf.

(** What a reply's [NextIndex] does to the progress of the server. *)
Definition noted (server next : Z) (rf rf1 : Raft) : Prop :=
  next = 0 /\ nextIndex rf1 = nextIndex rf /\ matchIndex rf1 = matchIndex rf \/
  1 <= next /\ progress server next rf rf1.

Lemma note_progress server next rf :
  0 <= server < zlen (nextIndex rf) -> 0 <= server < zlen (matchIndex rf) -> 0 <= next ->
  exists rf1, (if (next !=? 0) && (next !=? -1) then set_progress server next rf else Some rf)%go = Some rf1 /\
    only_progress rf rf1 /\ noted server next rf rf1.
Proof.
  intros Hn Hm Hr. unfold noted. destruct (Z.eqb_spec next (-1)); [lia|]. destruct (Z.eqb_spec next 0) as [->|Hne]; simpl.
  - exists rf. split; [done|]. split; [by unfold only_progress|by left].
  - eexists. split; [by apply set_progress_spec|]. split; [by unfold only_progress|right]. split; [lia|done].
Qed.

(** Saving after the progress has been noted, without and with a commit. *)
Lemma note_persist rf rf1 :
  only_progress rf rf1 ->
  heartbeat_frame rf (persist rf1) /\
  exists c, commitLog rf1 = set_commitIndex c rf1 /\ heartbeat_frame rf (persist (commitLog rf1)) /\
    commitIndex rf <= c /\ (c = commitIndex rf \/ c < zlen (logEntries rf) /\ majority_at c (commitLog rf1)).
Proof.
  intros (E1&E2&E3&E4&E5&E6&E7&E8&E9&E10). split.
  { unfold heartbeat_frame. simpl. rewrite E7. split_and!; done. }
  destruct (commitLog_spec rf1) as (c & -> & Hc & _ & Hor). rewrite E6, E10 in *. exists c.
  unfold heartbeat_frame. simpl. rewrite E7. split_and!; try done. destruct Hor as [?|[? ?]]; [by left|].
  right. split; [lia|done].
Qed.

Lemma heartbeat_reply_spec server args reply rnd rf :
  0 <= server < zlen (nextIndex rf) -> 0 <= server < zlen (matchIndex rf) ->
  0 <= ar_NextIndex reply ->
  exists rf', heartbeat_reply server args reply rnd rf = Some rf' /\ heartbeat_frame rf rf' /\
    ((term rf < ar_Term reply /\ term rf' = ar_Term reply /\ role rf' = Follower /\
      commitIndex rf' = commitIndex rf /\ nextIndex rf' = nextIndex rf /\ matchIndex rf' = matchIndex rf) \/
     (ar_Term reply <= term rf /\ term rf' = term rf /\ role rf' = role rf /\
      (ar_NextIndex reply = 0 /\ nextIndex rf' = nextIndex rf /\ matchIndex rf' = matchIndex rf \/
       1 <= ar_NextIndex reply /\ progress server (ar_NextIndex reply) rf rf') /\
      commitIndex rf <= commitIndex rf' /\
      (commitIndex rf' <> commitIndex rf ->
       ar_Success reply = true /\ commitIndex rf' < zlen (logEntries rf) /\ majority_at (commitIndex rf') rf' /\
       exists e es, aa_Entries args = e :: es /\ e_Term e = term rf))).
Proof.
  intros Hn Hm Hr. unfold heartbeat_reply.
  destruct (Z.ltb_spec (term rf) (ar_Term reply)) as [Hlt|Hge].
  { eexists. split; [reflexivity|]. unfold heartbeat_frame.
    split; [split_and!; try done; timer_solve|]. left. by split_and!. }
  destruct (Z.eqb_spec (ar_NextIndex reply) (-1)) as [|Hne]; [lia|]. cbn [mbind option_bind].
  destruct (note_progress server (ar_NextIndex reply) rf Hn Hm Hr) as (rf1 & H1 & Hop & Hnoted).
  rewrite (proj2 (Z.eqb_neq _ _) Hne) in H1. rewrite H1. cbn [mbind option_bind]. clear H1.
  destruct (note_persist rf rf1 Hop) as (Hkeep & c & Hcl & Hcommit & Hle & Hor).
  destruct Hop as (_&_&_&_&_&_&_&E8&E9&E10). unfold noted, progress in *.
  assert (Hquiet : exists rf', Some (persist rf1) = Some rf' /\ heartbeat_frame rf rf' /\
    term rf' = term rf /\ role rf' = role rf /\ commitIndex rf' = commitIndex rf /\
    nextIndex rf' = nextIndex rf1 /\ matchIndex rf' = matchIndex rf1) by (eexists; split_and!; done).
  destruct (aa_Entries args) as [|e es] eqn:Hents; [|destruct (ar_Success reply && (e_Term e =? term rf1)) eqn:Hcond; bool_to_prop].
  2:{ exists (persist (commitLog rf1)). split; [done|]. split; [done|]. right. rewrite Hcl in *. simpl.
      split_and!; try done. intros Hch. destruct Hor as [?|[? ?]]; [done|]. split_and!; [done|lia|done|].
      exists e, es. split; [done|]. congruence. }
  all: destruct Hquiet as (rf' & ? & Hf & ? & ? & Hc & Hni & Hmi); exists rf'; split; [done|]; split; [done|];
    right; rewrite Hni, Hmi, Hc; split_and!; try done; lia.
Qed.

End Entry_lemmas.
