(* ===== verification/Replication.v ===== *)
(** * Replication converges

    A leader and one follower of the same term exchange complete heartbeat
    rounds ([heartbeat_args], [AppendEntries], [heartbeat_reply]: no call
    lost or timed out).  Whatever its log was, after at most
    [len(follower log) + 1] rounds the follower holds the leader's log, and
    the leader's [nextIndex]/[matchIndex] say so.

    The logs are assumed free of duplicated batches ([log_exact]) and to obey
    Raft's log-matching property; [nextIndex] is as a fresh leader sets it,
    or what the follower's last reply reported. *)

From S2P Require Import Prelude Timer Gob Persister Raft Entry.

(** Entries of equal index and term in two logs have equal predecessors. *)
Definition log_match (l k : list LogEntry) : Prop :=
  forall i e f, l !! i = Some e -> k !! i = Some f -> e_Term e = e_Term f ->
    take (S i) l = take (S i) k.

Section Replication.
Context `{GobCodec}.
Variables (server rnd : Z).

(** One complete round trip of [SendHeartbeat(server)]. *)
Definition round (L F : Raft) : option (Raft * Raft) :=
  '(L, oargs) ← heartbeat_args server rnd L;
  match oargs with
  | None => Some (L, F)
  | Some args =>
      '(F, reply) ← AppendEntries args rnd F;
      L ← heartbeat_reply server args reply rnd L;
      Some (L, F)
  end.

Fixpoint rounds (k : nat) (L F : Raft) : option (Raft * Raft) :=
  match k with
  | O => Some (L, F)
  | S k => '(L, F) ← round L F; rounds k L F
  end.

(** The leader and the follower before a round. *)
Record synced (next : Z) (L F : Raft) : Prop := {
  sy_server : 0 <= server < zlen (nextIndex L) /\ 0 <= server < zlen (matchIndex L);
  sy_other : me L <> server;
  sy_term : term L = term F;
  sy_exact : log_exact (logEntries L) /\ log_exact (logEntries F);
  sy_match : log_match (logEntries L) (logEntries F);
  sy_next : zidx (nextIndex L) server = Some next;
  sy_range : next = zlen (logEntries F) \/ zlen (logEntries L) <= next;
}.

(** The follower holds the leader's log, and the leader knows. *)
Definition replicated (L F : Raft) : Prop :=
  logEntries L `prefix_of` logEntries F /\
  zidx (nextIndex L) server = Some (zlen (logEntries F)) /\
  zidx (matchIndex L) server = Some (zlen (logEntries F) - 1).

Definition still_to_do (next : Z) (L F : Raft) : nat :=
  length (logEntries F) + (if decide (next < zlen (logEntries L)) then 0 else 1).

Lemma log_exact_lens l : log_exact l -> 1 <= zlen l.
Proof. intros He. by apply log_shape_len, log_exact_shape. Qed.

Lemma log_match_take l k n : log_match l k -> log_match l (take n k).
Proof.
  intros Hm i e f He [Hf Hi]%lookup_take_Some Ht.
  rewrite take_take, Nat.min_l by lia. eauto.
Qed.

Lemma log_match_refl l : log_match l l.
Proof. intros i e f He Hf _. done. Qed.

Lemma zidx_prefix (l k : list LogEntry) i x y :
  zidx l i = Some x -> zidx k i = Some y -> l `prefix_of` k -> x = y.
Proof.
  intros [Hi Hx]%zidx_Some [_ Hy]%zidx_Some Hp.
  pose proof (prefix_lookup_Some _ _ _ _ Hx Hp). congruence.
Qed.

(** Equal terms at position [p] make the logs agree up to [p]; position 0 is
    the placeholder in both. *)
Lemma log_match_upto l k p :
  log_exact l -> log_exact k -> log_match l k -> 0 <= p < zlen l -> p < zlen k ->
  (0 < p -> exists e f, zidx l p = Some e /\ zidx k p = Some f /\ e_Term e = e_Term f) ->
  take (Z.to_nat (p + 1)) l = take (Z.to_nat (p + 1)) k.
Proof.
  intros [Hl0 _] [Hk0 _] Hm Hp Hpk Hterm. replace (Z.to_nat (p + 1)) with (S (Z.to_nat p)) by lia.
  destruct (decide (p = 0)) as [->|Hne]; [by eapply Hm|].
  destruct Hterm as (e & f & He & Hf & Ht); [lia|].
  apply zidx_Some in He as [_ He], Hf as [_ Hf]. by eapply Hm.
Qed.

(** What the leader sends in a synchronised state. *)
Lemma synced_args next L F :
  synced next L F ->
  exists prev t es,
    heartbeat_args server rnd L =
      Some (L, Some (mkAppendArgs (term L) (me L) prev t es (commitIndex L))) /\
    args_ok (mkAppendArgs (term L) (me L) prev t es (commitIndex L)) /\
    (exists p, zidx (logEntries L) prev = Some p /\ t = e_Term p) /\
    ((zlen (logEntries L) <= next /\ prev = zlen (logEntries L) - 1 /\ es = []) \/
     (next < zlen (logEntries L) /\ next = zlen (logEntries F) /\ prev = next - 1 /\
      es = drop (Z.to_nat next) (logEntries L))).
Proof.
  intros [Hsrv Hother Hterm [HL HF] Hm Hn Hr].
  pose proof (log_exact_lens _ HL). pose proof (log_exact_lens _ HF).
  pose proof (log_exact_last _ HL) as Hlast.
  destruct (getAppendLogs_spec server next L) as (prev & t & es & Hg & Hp & Hes & Hcase);
    [by apply log_exact_shape|done|lia|].
  exists prev, t, es. split_and!.
  - unfold heartbeat_args. destruct (Z.eqb_spec (me L) server); [done|]. rewrite Hg. done.
  - split; simpl; [lia|done].
  - destruct Hcase as [(? & -> & [= -> ->])|(_ & _ & _ & _ & p & ? & ?)]; [|by eauto].
    unfold lastLogTermIndex in *. destruct (last (logEntries L)) as [e|] eqn:He; simpl in *.
    + exists e. split; [|done]. rewrite Hlast. by apply last_zidx.
    + apply last_None in He. rewrite He in H0. done.
  - destruct Hcase as [(? & -> & [= -> ->])|(? & -> & -> & _)]; [left|right]; split_and!; try done; lia.
Qed.

(** The follower's answer, with its log and position afterwards. *)
Lemma synced_reply next L F prev t es F' reply :
  synced next L F ->
  let args := mkAppendArgs (term L) (me L) prev t es (commitIndex L) in
  (exists p, zidx (logEntries L) prev = Some p /\ t = e_Term p) ->
  ((zlen (logEntries L) <= next /\ prev = zlen (logEntries L) - 1 /\ es = []) \/
   (next < zlen (logEntries L) /\ next = zlen (logEntries F) /\ prev = next - 1 /\
    es = drop (Z.to_nat next) (logEntries L))) ->
  append_outcome args F F' reply ->
  ar_Term reply = 0 /\ ar_NextIndex reply = zlen (logEntries F') /\
  term F' = term F /\
  (logEntries L `prefix_of` logEntries F' /\
   (logEntries F' = logEntries F \/ logEntries F' = logEntries L) \/
   (zlen (logEntries F') < zlen (logEntries L) /\ ~ logEntries L `prefix_of` logEntries F /\
    exists k, (0 < k)%nat /\ logEntries F' = take k (logEntries F) /\
      (next < zlen (logEntries L) -> zlen (logEntries F') < zlen (logEntries F)))).
Proof.
  intros [Hsrv Hother Hterm [HL HF] Hm Hn Hr] args (p & Hp & ->) Hcase Hout.
  pose proof (log_exact_lens _ HL). pose proof (log_exact_lens _ HF).
  destruct Hout as [Hlt|Hlt|_ Ht _ _ Href|_ Ht _ Hprev _ Hlog _]; simpl in *; [lia..| |].
  - split_and!; [done..|]. right. destruct Href as [old Hpos Ho Hne|j e old He Ho Hi1 Hne|Hmiss]; simpl in *.
    + pose proof (zidx_prefix _ _ _ _ _ Hp Ho) as Hnp.
      apply zidx_Some in Ho as [Ho _]. apply zidx_Some in Hp as [Hp _]. rewrite zlen_take.
      split; [lia|]. split; [intros Hpre; destruct Hne; by rewrite (Hnp Hpre)|].
      exists (Z.to_nat prev). split_and!; [lia|done|]. lia.
    + exfalso. destruct Hcase as [(_ & _ & ->)|(? & Hnf & -> & ->)]; [by rewrite lookup_nil in He|].
      apply zidx_Some in Ho as [Ho _]. rewrite lookup_drop in He.
      destruct HL as [_ HLi]. rewrite (HLi _ _ He) in Ho. lia.
    + destruct Hcase as [(? & -> & ->)|(? & Hnf & -> & ->)]; [|lia]. split; [lia|].
      split; [intros Hpre%prefix_length; unfold zlen in *; lia|].
      exists (length (logEntries F)). rewrite firstn_all. unfold zlen in *. split_and!; [lia|done|lia].
  - split_and!; [done..|]. left. destruct Hprev as [Hlt Hmp]. simpl in *.
    assert (Htake : take (Z.to_nat (prev + 1)) (logEntries L) = take (Z.to_nat (prev + 1)) (logEntries F)).
    { apply zidx_Some in Hp as [Hp Hp']. apply log_match_upto; try done. intros Hpos.
      destruct (Hmp Hpos) as (old & Ho & Hot). exists p, old. split_and!; [by apply zidx_Some|done|done]. }
    rewrite Hlog. destruct Hcase as [(? & -> & ->)|(? & Hnf & -> & ->)].
    + rewrite app_nil_r. split; [|by left]. replace (zlen (logEntries L) - 1 + 1) with (zlen (logEntries L)) in Htake by lia.
      unfold zlen in Htake. rewrite Nat2Z.id, firstn_all in Htake. rewrite Htake.
      exists (drop (length (logEntries L)) (logEntries F)). by rewrite take_drop.
    + replace (next - 1 + 1) with next in Htake by lia. subst next. unfold zlen in *.
      rewrite Nat2Z.id in *. rewrite firstn_all in Htake.
      assert (Hall : logEntries F ++ drop (length (logEntries F)) (logEntries L) = logEntries L)
        by (rewrite <-Htake at 1; apply take_drop).
      rewrite Hall. split; [done|by right].
Qed.

Lemma synced_exact_after next L F F' :
  synced next L F ->
  (logEntries F' = logEntries F \/ logEntries F' = logEntries L \/
   exists k, (0 < k)%nat /\ logEntries F' = take k (logEntries F)) ->
  log_exact (logEntries F') /\ log_match (logEntries L) (logEntries F').
Proof.
  intros [_ _ _ [HL HF] Hm _ _] [->|[->|(k & Hk & ->)]]; [done| |].
  - split; [done|apply log_match_refl].
  - split; [by apply log_exact_take|by apply log_match_take].
Qed.

(** One round: the follower catches up, or less remains to be done; once it
    has caught up it stays so. *)
Lemma round_step next L F :
  0 <= term L -> synced next L F ->
  exists L' F', round L F = Some (L', F') /\
    logEntries L' = logEntries L /\ term L' = term L /\ role L' = role L /\
    synced (zlen (logEntries F')) L' F' /\
    zidx (matchIndex L') server = Some (zlen (logEntries F') - 1) /\
    (logEntries L `prefix_of` logEntries F' \/
     ~ logEntries L `prefix_of` logEntries F /\
     (still_to_do (zlen (logEntries F')) L' F' < still_to_do next L F)%nat).
Proof.
  intros Hpos Hs. pose proof Hs as [[Hsn Hsm] Hother Hterm [HL HF] Hm Hn Hr].
  destruct (synced_args next L F Hs) as (prev & t & es & Ha & Hok & Hp & Hcase).
  destruct (AppendEntries_spec (mkAppendArgs (term L) (me L) prev t es (commitIndex L)) rnd F)
    as (F' & reply & HF' & Hfr & Hout); [by apply log_exact_shape|done|].
  pose proof (append_outcome_shape _ _ _ _ (log_exact_shape _ HF) Hok Hout) as Hsh%log_shape_len.
  destruct (synced_reply next L F prev t es F' reply Hs Hp Hcase Hout) as (Hrt & Hrn & Htf & Hfin).
  destruct (heartbeat_reply_spec server (mkAppendArgs (term L) (me L) prev t es (commitIndex L))
              reply rnd L Hsn Hsm ltac:(lia)) as (L' & HL' & Hhf & Hres).
  destruct Hhf as (_ & Hme & _ & _ & _ & Hlog & _ & _).
  destruct Hres as [(? & _)|(_ & Ht' & Hr' & [(? & _)|(_ & Hni & Hmi)] & _)]; [lia|lia|].
  assert (Hz : forall (l : list Z) x, 0 <= server < zlen l -> zidx (<[Z.to_nat server := x]> l) server = Some x).
  { intros l x Hl. apply zidx_Some. rewrite zlen_insert. split; [done|].
    apply list_lookup_insert_eq. unfold zlen in Hl. lia. }
  assert (HF2 : log_exact (logEntries F') /\ log_match (logEntries L) (logEntries F')).
  { eapply synced_exact_after; [done|].
    destruct Hfin as [[_ [?|?]]|(_ & _ & k & ? & ? & _)]; eauto 6. }
  exists L', F'. unfold round. rewrite Ha. cbn [mbind option_bind]. rewrite HF'. cbn [mbind option_bind].
  rewrite HL'. do 4 (split; [done|]). split_and!.
  - destruct HF2.
    constructor; rewrite ?Hni, ?Hmi, ?Hrn, ?zlen_insert, ?Hz, ?Hlog, ?Hme; try done; [congruence|by left].
  - by rewrite Hmi, Hrn, Hz.
  - destruct Hfin as [[? _]|(Hlt & Hnp & k & Hk & Htk & Hdec)]; [by left|]. right. split; [done|].
    unfold still_to_do. rewrite Hlog, decide_True by lia.
    assert (Hle : (length (logEntries F') <= length (logEntries F))%nat) by (rewrite Htk, length_take; lia).
    destruct (decide (next < zlen (logEntries L))) as [Hd|]; [|lia].
    specialize (Hdec Hd). unfold zlen in Hdec. lia.
Qed.

(** Rounds after the follower has caught up. *)
Lemma rounds_stable k L F :
  0 <= term L -> synced (zlen (logEntries F)) L F -> replicated L F ->
  exists L' F', rounds k L F = Some (L', F') /\ logEntries L' = logEntries L /\
    term L' = term L /\ role L' = role L /\ replicated L' F'.
Proof.
  revert L F. induction k as [|k IH]; intros L F Hpos Hs Hrep; [by eauto 10|].
  destruct (round_step _ L F Hpos Hs) as (L1 & F1 & Hr & Hlog & Ht & Hro & Hs1 & Hmi & Hor).
  destruct Hor as [Hp|[Hn _]]; [|by destruct Hrep].
  destruct (IH L1 F1) as (L' & F' & Hrs & ? & ? & ? & ?); [lia|done| |].
  { split; [by rewrite Hlog|]. split; [apply Hs1|done]. }
  exists L', F'. simpl. rewrite Hr. cbn [mbind option_bind]. split_and!; try done; congruence.
Qed.

(** Enough rounds replicate the leader's log. *)
Lemma rounds_converge k next L F :
  0 <= term L -> synced next L F -> (still_to_do next L F <= k)%nat ->
  exists L' F', rounds k L F = Some (L', F') /\ logEntries L' = logEntries L /\
    term L' = term L /\ role L' = role L /\ replicated L' F'.
Proof.
  revert next L F. induction k as [|k IH]; intros next L F Hpos Hs Hk.
  { pose proof Hs as [_ _ _ [_ HF%log_exact_lens] _ _ _]. unfold still_to_do, zlen in *. lia. }
  destruct (round_step _ L F Hpos Hs) as (L1 & F1 & Hr & Hlog & Ht & Hro & Hs1 & Hmi & Hor).
  assert (Hrest : exists L' F', rounds k L1 F1 = Some (L', F') /\ logEntries L' = logEntries L1 /\
    term L' = term L1 /\ role L' = role L1 /\ replicated L' F').
  { destruct Hor as [Hp|[_ Hlt]].
    - apply rounds_stable; [lia|done|]. split; [by rewrite Hlog|]. split; [apply Hs1|done].
    - eapply IH; [lia|done|lia]. }
  destruct Hrest as (L' & F' & Hrs & ? & ? & ? & ?).
  exists L', F'. simpl. rewrite Hr. cbn [mbind option_bind]. split_and!; try done; congruence.
Qed.

End Replication.
