(* ===== verification/Cluster.v ===== *)
(** * A cluster of Raft peers

    The goroutines that [Make] starts on every peer, the RPCs between them
    over a network that may delay, reorder and lose messages
    ([lab2_raft/labrpc]), and the tester's crash and restart
    ([config.go], [crash1]/[start1]).

    A peer's mutex decides what interleaves.  A critical section without a
    call is one step.  [startElection] and [SendHeartbeat] keep the mutex
    while their calls are under way: the peer's [lock] field says so, and no
    other critical section of that peer runs until the last call has
    returned or timed out.  [Start] is two critical sections ([GetState],
    then the rest), and anything may happen in between.

    [local] is one step of one peer; [cstep] is one step of the cluster.
    Both are functions of an event that fixes every nondeterministic choice,
    so executions can be computed.  [granted] and [won] are history
    variables: the votes cast so far, the vote [startElection] casts for the
    candidate itself included (voter, term, candidate), and the elections won.

    The network here is abstract: a message is in flight until it is
    delivered, once, or lost.  [RaftNetSim] shows that peers calling each
    other through [labrpc] do nothing that is not possible here. *)

From S2P Require Import Prelude Timer Gob Persister Raft Vote Entry.

(** ** Messages *)

Inductive Payload :=
  | PVoteReq (args : RequestVoteArgs)
  | PVoteRep (reply : RequestVoteReply)
  | PAppReq (args : AppendEntriesArgs)
  | PAppRep (reply : AppendEntriesReply).

(** [m_id] stands for the reply channel of the calls of one [startElection]
    or [SendHeartbeat]. *)
Record Msg := mkMsg { m_id : nat; m_src : nat; m_dst : nat; m_body : Payload }.

(** ** Peers *)

(** What the holder of a peer's mutex waits for.
    [waiting] are the peers whose [RequestVote] call has not returned,
    [voters] those that granted their vote. *)
Inductive Op :=
  | OpElection (id : nat) (args : RequestVoteArgs) (voteCount : Z) (waiting voters : list nat)
  | OpHeartbeat (id : nat) (server : nat) (args : AppendEntriesArgs).

(** Where the election goroutine of [Make] is: waiting for the timer, after
    a failed or a won [startElection], or sending the first heartbeats. *)
Inductive ElectionPc :=
  | EIdle
  | EFailed
  | EWon
  | EBeats (todo : list nat).

Record Node := mkNode {
  raft : Raft;
  lock : option Op;
  egor : ElectionPc;
  (** servers the periodic heartbeat goroutine has still to serve *)
  hgor : list nat;
  (** [Start] calls between their two critical sections *)
  starts : list (iface * Z * bool);
}.

Definition set_raft (rf : Raft) (nd : Node) : Node :=
  mkNode rf (lock nd) (egor nd) (hgor nd) (starts nd).
Definition set_lock (l : option Op) (nd : Node) : Node :=
  mkNode (raft nd) l (egor nd) (hgor nd) (starts nd).
Definition set_egor (e : ElectionPc) (nd : Node) : Node :=
  mkNode (raft nd) (lock nd) e (hgor nd) (starts nd).
Definition set_hgor (h : list nat) (nd : Node) : Node :=
  mkNode (raft nd) (lock nd) (egor nd) h (starts nd).
Definition set_starts (s : list (iface * Z * bool)) (nd : Node) : Node :=
  mkNode (raft nd) (lock nd) (egor nd) (hgor nd) s.

Definition is_free (nd : Node) : bool := match lock nd with None => true | Some _ => false end.

(** ** Steps of one peer *)

Inductive LocalEvent :=
  | LTimer                        (** the election timer expires *)
  | LElection (rnd : Z)           (** its expiry is received: [startElection] *)
  | LElectionEnd (rnd : Z)        (** [wg.Wait()] returns *)
  | LElectionFailed (rnd : Z)     (** [changeRole(Follower)] after a failed election *)
  | LElectionWon                  (** [GetState] after a won election *)
  | LBeatTick                     (** the heartbeat interval has passed: [GetState] *)
  | LBeatE (rnd : Z)              (** next [SendHeartbeat] of the election goroutine *)
  | LBeatH (rnd : Z)              (** next [SendHeartbeat] of the heartbeat goroutine *)
  | LCallFail (server : nat) (rnd : Z)  (** a call returns false or times out *)
  | LDeliver (m : Msg) (rnd : Z)  (** a message arrives *)
  | LApply                        (** an iteration of the apply loop *)
  | LStartRead (cmd : iface)      (** [Start]: its [GetState] *)
  | LStart (k : nat)              (** [Start]: the rest of the k-th pending call *)
  | LCrash (rnd : Z).             (** [crash1] and [start1] *)

Record Effect := mkEffect {
  ef_node : Node; ef_send : list Msg;
  ef_granted : list (nat * Z * nat); ef_won : list (nat * Z * list nat) }.

Definition quiet (nd : Node) : Effect := mkEffect nd [] [] [].

(** The persister [crash1] and [start1] hand to the new instance. *)
Definition restart_persister (ps : Persister) : Persister :=
  let saved := Copy ps in
  let raftlog := ReadRaftState saved in
  let saved := SaveRaftState raftlog MakePersister in
  Copy saved.

Section Cluster.
Context `{GobCodec}.
Variable n : nat.

(** The other peers, in the order of [range rf.peers]. *)
Definition others (i : nat) : list nat := filter (fun j => j <> i) (seq 0 n).

Definition local_election (i id : nat) (rnd : Z) (nd : Node) : Outcome Effect :=
  _ ← guard_step (is_free nd);
  _ ← guard_step (match egor nd with EIdle => true | _ => false end);
  t ← enabled (receive (electionTimer (raft nd)));
  '(rf, oargs) ← run (election_begin rnd (set_electionTimer t (raft nd)));
  match oargs with
  | None => Ok (quiet (set_egor EFailed (set_raft rf nd)))
  | Some args =>
      Ok (mkEffect (set_lock (Some (OpElection id args 1 (others i) [])) (set_raft rf nd))
            (map (fun j => mkMsg id i j (PVoteReq args)) (others i))
            [(i, va_Term args, i)] [])
  end.

Definition local_election_end (i : nat) (rnd : Z) (nd : Node) : Outcome Effect :=
  match lock nd with
  | Some (OpElection _ _ voteCount [] voters) =>
      '(rf, succ) ← run (election_end voteCount rnd (raft nd));
      if (succ : bool) then
        Ok (mkEffect (set_egor EWon (set_lock None (set_raft rf nd))) [] []
              [(i, term rf, i :: voters)])
      else Ok (quiet (set_egor EFailed (set_lock None (set_raft rf nd))))
  | _ => Disabled
  end.

Definition local_election_failed (rnd : Z) (nd : Node) : Outcome Effect :=
  _ ← guard_step (is_free nd);
  match egor nd with
  | EFailed =>
      rf ← run (changeRole Follower rnd (raft nd));
      Ok (quiet (set_egor EIdle (set_raft rf nd)))
  | _ => Disabled
  end.

Definition local_election_won (nd : Node) : Outcome Effect :=
  _ ← guard_step (is_free nd);
  match egor nd with
  | EWon =>
      let '(_, isLeader) := GetState (raft nd) in
      Ok (quiet (set_egor (if isLeader then EBeats (seq 0 n) else EIdle) nd))
  | _ => Disabled
  end.

Definition local_beat_tick (nd : Node) : Outcome Effect :=
  _ ← guard_step (is_free nd);
  match hgor nd with
  | [] =>
      let '(_, isLeader) := GetState (raft nd) in
      Ok (quiet (set_hgor (if isLeader then seq 0 n else []) nd))
  | _ => Disabled
  end.

(** [SendHeartbeat(server)] up to its call. *)
Definition send_heartbeat (i id server : nat) (rnd : Z) (nd : Node) : Outcome Effect :=
  _ ← guard_step (is_free nd);
  '(rf, oargs) ← run (heartbeat_args (Z.of_nat server) rnd (raft nd));
  match oargs with
  | None => Ok (quiet (set_raft rf nd))
  | Some args =>
      Ok (mkEffect (set_lock (Some (OpHeartbeat id server args)) (set_raft rf nd))
            [mkMsg id i server (PAppReq args)] [] [])
  end.

Definition local_beat_e (i id : nat) (rnd : Z) (nd : Node) : Outcome Effect :=
  match egor nd with
  | EBeats [] => Ok (quiet (set_egor EIdle nd))
  | EBeats (server :: todo) => send_heartbeat i id server rnd (set_egor (EBeats todo) nd)
  | _ => Disabled
  end.

Definition local_beat_h (i id : nat) (rnd : Z) (nd : Node) : Outcome Effect :=
  match hgor nd with
  | server :: todo => send_heartbeat i id server rnd (set_hgor todo nd)
  | [] => Disabled
  end.

(** A goroutine of [startElection] whose call failed returns; a failed call
    of [SendHeartbeat] goes on with the zero reply. *)
Definition local_call_fail (server : nat) (rnd : Z) (nd : Node) : Outcome Effect :=
  match lock nd with
  | Some (OpElection id args voteCount waiting voters) =>
      _ ← guard_step (bool_decide (server ∈ waiting));
      Ok (quiet (set_lock (Some (OpElection id args voteCount
                                   (filter (fun j => j <> server) waiting) voters)) nd))
  | Some (OpHeartbeat id s args) =>
      _ ← guard_step (bool_decide (server = s));
      rf ← run (heartbeat_reply (Z.of_nat s) args zero_reply rnd (raft nd));
      Ok (quiet (set_lock None (set_raft rf nd)))
  | None => Disabled
  end.

(** A request waits for the mutex; a reply nobody waits for any more is lost. *)
Definition local_deliver (i : nat) (m : Msg) (rnd : Z) (nd : Node) : Outcome Effect :=
  match m_body m with
  | PVoteReq args =>
      _ ← guard_step (is_free nd);
      '(rf, reply) ← run (RequestVote args rnd (raft nd));
      Ok (mkEffect (set_raft rf nd) [mkMsg (m_id m) i (m_src m) (PVoteRep reply)]
            (if vr_VoteGranted reply
             then [(i, va_Term args, Z.to_nat (va_CandidateId args))] else []) [])
  | PAppReq args =>
      _ ← guard_step (is_free nd);
      '(rf, reply) ← run (AppendEntries args rnd (raft nd));
      Ok (mkEffect (set_raft rf nd) [mkMsg (m_id m) i (m_src m) (PAppRep reply)] [] [])
  | PVoteRep reply =>
      match lock nd with
      | Some (OpElection id args voteCount waiting voters) =>
          if bool_decide (id = m_id m /\ m_src m ∈ waiting) then
            '(rf, voteCount) ← run (election_reply args reply rnd (raft nd) voteCount);
            Ok (quiet (set_lock (Some (OpElection id args voteCount
                  (filter (fun j => j <> m_src m) waiting)
                  (if vr_VoteGranted reply then m_src m :: voters else voters)))
                (set_raft rf nd)))
          else Ok (quiet nd)
      | _ => Ok (quiet nd)
      end
  | PAppRep reply =>
      match lock nd with
      | Some (OpHeartbeat id server args) =>
          if bool_decide (id = m_id m) then
            rf ← run (heartbeat_reply (Z.of_nat server) args reply rnd (raft nd));
            Ok (quiet (set_lock None (set_raft rf nd)))
          else Ok (quiet nd)
      | _ => Ok (quiet nd)
      end
  end.

Definition fresh_node (rf : Raft) : Node := mkNode rf None EIdle [] [].

Definition local (i id : nat) (ev : LocalEvent) (nd : Node) : Outcome Effect :=
  match ev with
  | LTimer =>
      t ← enabled (expire (electionTimer (raft nd)));
      Ok (quiet (set_raft (set_electionTimer t (raft nd)) nd))
  | LElection rnd => local_election i id rnd nd
  | LElectionEnd rnd => local_election_end i rnd nd
  | LElectionFailed rnd => local_election_failed rnd nd
  | LElectionWon => local_election_won nd
  | LBeatTick => local_beat_tick nd
  | LBeatE rnd => local_beat_e i id rnd nd
  | LBeatH rnd => local_beat_h i id rnd nd
  | LCallFail server rnd => local_call_fail server rnd nd
  | LDeliver m rnd => local_deliver i m rnd nd
  | LApply =>
      _ ← guard_step (is_free nd);
      rf ← run (applyLoop (raft nd));
      Ok (quiet (set_raft rf nd))
  | LStartRead cmd =>
      _ ← guard_step (is_free nd);
      let '(tm, isLeader) := GetState (raft nd) in
      Ok (quiet (set_starts (starts nd ++ [(cmd, tm, isLeader)]) nd))
  | LStart k =>
      _ ← guard_step (is_free nd);
      '(cmd, tm, isLeader) ← enabled (starts nd !! k);
      '(rf, _) ← run (Start_locked cmd tm isLeader (raft nd));
      Ok (quiet (set_starts (delete k (starts nd)) (set_raft rf nd)))
  | LCrash rnd =>
      Ok (quiet (fresh_node
        (Make n (Z.of_nat i) (restart_persister (persister (raft nd))) rnd)))
  end.

(** ** The cluster *)

Record Cluster := mkCluster {
  nodes : list Node; net : list Msg; next_id : nat;
  granted : list (nat * Z * nat); won : list (nat * Z * list nat) }.

Inductive Event :=
  | EvLocal (i : nat) (ev : LocalEvent)  (** any local event but [LDeliver] *)
  | EvDeliver (k : nat) (rnd : Z)        (** the k-th message in flight arrives *)
  | EvDrop (k : nat).                    (** the k-th message in flight is lost *)

Definition is_deliver (ev : LocalEvent) : bool :=
  match ev with LDeliver _ _ => true | _ => false end.

Definition apply_effect (i : nat) (eff : Effect) (c : Cluster) : Cluster :=
  mkCluster (<[i := ef_node eff]> (nodes c)) (net c ++ ef_send eff) (S (next_id c))
    (granted c ++ ef_granted eff) (won c ++ ef_won eff).

Definition remove_msg (k : nat) (c : Cluster) : Cluster :=
  mkCluster (nodes c) (delete k (net c)) (next_id c) (granted c) (won c).

Definition cstep (ev : Event) (c : Cluster) : Outcome Cluster :=
  match ev with
  | EvLocal i lev =>
      _ ← guard_step (negb (is_deliver lev));
      nd ← enabled (nodes c !! i);
      eff ← local i (next_id c) lev nd;
      Ok (apply_effect i eff c)
  | EvDeliver k rnd =>
      m ← enabled (net c !! k);
      nd ← enabled (nodes c !! m_dst m);
      eff ← local (m_dst m) (next_id c) (LDeliver m rnd) nd;
      Ok (apply_effect (m_dst m) eff (remove_msg k c))
  | EvDrop k =>
      _ ← enabled (net c !! k);
      Ok (remove_msg k c)
  end.

(** [make_config]: [n] fresh peers; [rs] are the draws of their first timers. *)
Definition init (rs : nat -> Z) : Cluster :=
  mkCluster (map (fun i => fresh_node (Make n (Z.of_nat i) MakePersister (rs i))) (seq 0 n))
    [] 0 [] [].

Fixpoint exec (evs : list Event) (c : Cluster) : Outcome Cluster :=
  match evs with
  | [] => Ok c
  | ev :: evs => c ← cstep ev c; exec evs c
  end.

Inductive reachable : Cluster -> Prop :=
  | reach_init rs : reachable (init rs)
  | reach_step c ev c' : reachable c -> cstep ev c = Ok c' -> reachable c'.

(** The events that lose or misattribute leadership within a term:
    a leader whose own election timer fired is turned into a follower, a
    leader crashes (its saved [votedFor] is -1), or an election is won after
    a reply has raised the candidate's term above the one it campaigned for. *)
Definition clean_local (ev : LocalEvent) (nd : Node) : bool :=
  match ev with
  | LElectionFailed _ | LCrash _ => negb (bool_decide (role (raft nd) = Leader))
  | LElectionEnd _ =>
      match lock nd with
      | Some (OpElection _ args voteCount _ _) =>
          (voteCount <=? Z.of_nat n / 2) || (term (raft nd) =? va_Term args)
      | _ => true
      end
  | _ => true
  end.

Definition clean (ev : Event) (c : Cluster) : bool :=
  match ev with
  | EvLocal i lev => match nodes c !! i with Some nd => clean_local lev nd | None => true end
  | _ => true
  end.

Inductive clean_reachable : Cluster -> Prop :=
  | clean_init rs : clean_reachable (init rs)
  | clean_step c ev c' :
      clean_reachable c -> clean ev c = true -> cstep ev c = Ok c' -> clean_reachable c'.

(** The events in which a peer forgets the vote it cast for itself: a leader
    (its [votedFor] is -1) is turned into a follower of the same term by its
    own timer or by a crash, or a candidate crashes before [startElection] has
    saved its new term and vote. *)
Definition campaigning (nd : Node) : bool :=
  match lock nd with Some (OpElection _ _ _ _ _) => true | _ => false end.

Definition loyal_local (ev : LocalEvent) (nd : Node) : bool :=
  match ev with
  | LElectionFailed _ => negb (bool_decide (role (raft nd) = Leader))
  | LCrash _ => negb (bool_decide (role (raft nd) = Leader)) && negb (campaigning nd)
  | _ => true
  end.

Definition loyal (ev : Event) (c : Cluster) : bool :=
  match ev with
  | EvLocal i lev => match nodes c !! i with Some nd => loyal_local lev nd | None => true end
  | _ => true
  end.

Inductive loyal_reachable : Cluster -> Prop :=
  | loyal_init rs : loyal_reachable (init rs)
  | loyal_step c ev c' :
      loyal_reachable c -> loyal ev c = true -> cstep ev c = Ok c' -> loyal_reachable c'.

End Cluster.
