(* ===== verification/RaftNet.v ===== *)
(** * Raft peers over the RPC network

    The system the tester runs: Raft instances ([Cluster.Node]) that call each
    other through [labrpc] ([LabRpc]), and a tester that disconnects, kills and
    restarts them.  An instance that was killed keeps running: it is cut off
    by disabling its ends and by deleting its server, and a new instance with
    new ends and a new server takes its place.

    Instances are never removed; [cur] says which one the tester regards as
    server [i] ([cfg.rafts[i]], [None] between [crash1] and [start1]).  The
    steps of [crash1] and [start1] are separate events, since everything else
    goes on in between; the guard of [NSave] is what the preceding lines of
    [crash1] have established.  An instance makes a step with the functions
    of [Cluster]; a message it sends is a call on one of its ends, and the
    two handlers are the methods of the service that [start1] registers. *)

From S2P Require Import Prelude Utf8 LabGob Gob Persister Raft Vote Entry Cluster LabRpc.

(** ** Arguments and replies on the wire *)

Definition payload_type (p : Payload) : nat :=
  match p with PVoteReq _ => 0 | PVoteRep _ => 1 | PAppReq _ => 2 | PAppRep _ => 3 end.

(** The types of the messages as [labgob] checks them: indices into
    [raft_types], the table of all types the calls of Raft mention. *)
Definition int_type : nat := 0.
Definition bool_type : nat := 1.
Definition any_type : nat := 2.
Definition LogEntry_type : nat := 3.
Definition LogEntries_type : nat := 4.

Definition field (name : string) (t : nat) : StructField := mkField name t false.

Definition LogEntry_struct : RType :=
  TStruct "LogEntry" [field "Term" int_type; field "Index" int_type; field "Command" any_type].
Definition RequestVoteArgs_struct : RType :=
  TStruct "RequestVoteArgs" [field "Term" int_type; field "CandidateId" int_type;
    field "LastLogIndex" int_type; field "LastLogTerm" int_type].
Definition RequestVoteReply_struct : RType :=
  TStruct "RequestVoteReply" [field "Term" int_type; field "VoteGranted" bool_type].
Definition AppendEntriesArgs_struct : RType :=
  TStruct "AppendEntriesArgs" [field "Term" int_type; field "LeaderId" int_type;
    field "PrevLogIndex" int_type; field "PervLogTerm" int_type;
    field "Entries" LogEntries_type; field "LeaderCommit" int_type].
Definition AppendEntriesReply_struct : RType :=
  TStruct "AppendEntriesReply" [field "Term" int_type; field "Success" bool_type;
    field "NextIndex" int_type].

(** Arguments and replies are passed as pointers. *)
Definition raft_types : list RType :=
  [ TBasic Int "int"; TBasic Bool "bool"; TOther ""; LogEntry_struct; TSlice LogEntry_type;
    RequestVoteArgs_struct; RequestVoteReply_struct; AppendEntriesArgs_struct;
    AppendEntriesReply_struct; TPtr 5; TPtr 6; TPtr 7; TPtr 8 ].

(** What the calls of Raft rely on of [labgob]. *)
Class RaftCodec := {
  raft_codec :: RpcCodec Payload;
  raft_typeof p : typeof p = payload_type p;
}.

(** An instance: the fields one after the other. *)
Section GobRaft.
Context `{GobCodec}.

Definition zero_payload (t : nat) : Payload :=
  match t with
  | 0%nat => PVoteReq (mkVoteArgs 0 0 0 0)
  | 1%nat => PVoteRep (mkVoteReply 0 false)
  | 2%nat => PAppReq (mkAppendArgs 0 0 0 0 [] 0)
  | _ => PAppRep (mkAppendReply 0 false 0)
  end.

Definition encode_bool (b : bool) : list Z := encode_int (if b then 1 else 0).
Definition decode_bool (bs : list Z) : option (bool * list Z) :=
  '(z, bs) ← decode_int bs; Some (negb (z =? 0), bs).

Definition encode_payload (p : Payload) : list Z :=
  match p with
  | PVoteReq a => encode_int (va_Term a) ++ encode_int (va_CandidateId a) ++
                  encode_int (va_LastLogIndex a) ++ encode_int (va_LastLogTerm a)
  | PVoteRep r => encode_int (vr_Term r) ++ encode_bool (vr_VoteGranted r)
  | PAppReq a => encode_int (aa_Term a) ++ encode_int (aa_LeaderId a) ++
                 encode_int (aa_PrevLogIndex a) ++ encode_int (aa_PervLogTerm a) ++
                 encode_log (aa_Entries a) ++ encode_int (aa_LeaderCommit a)
  | PAppRep r => encode_int (ar_Term r) ++ encode_bool (ar_Success r) ++ encode_int (ar_NextIndex r)
  end.

Definition parse_payload (t : nat) (bs : list Z) : option Payload :=
  match t with
  | 0%nat =>
      '(a, bs) ← decode_int bs; '(b, bs) ← decode_int bs;
      '(c, bs) ← decode_int bs; '(d, _) ← decode_int bs;
      Some (PVoteReq (mkVoteArgs a b c d))
  | 1%nat => '(a, bs) ← decode_int bs; '(b, _) ← decode_bool bs; Some (PVoteRep (mkVoteReply a b))
  | 2%nat =>
      '(a, bs) ← decode_int bs; '(b, bs) ← decode_int bs;
      '(c, bs) ← decode_int bs; '(d, bs) ← decode_int bs;
      '(l, bs) ← decode_log bs; '(e, _) ← decode_int bs;
      Some (PAppReq (mkAppendArgs a b c d l e))
  | _ =>
      '(a, bs) ← decode_int bs; '(b, bs) ← decode_bool bs; '(c, _) ← decode_int bs;
      Some (PAppRep (mkAppendReply a b c))
  end.

Definition decode_payload (bs : list Z) (v : Payload) : Payload * bool :=
  match parse_payload (payload_type v) bs with Some p => (p, true) | None => (v, false) end.

Lemma decode_encode_bool b r : decode_bool (encode_bool b ++ r) = Some (b, r).
Proof. unfold decode_bool, encode_bool. rewrite decode_encode_int. simpl. by destruct b. Qed.

Lemma decode_encode_payload p :
  decode_payload (encode_payload p) (zero_payload (payload_type p)) = (p, true).
Proof.
  assert (Hlast : forall z, decode_int (encode_int z) = Some (z, [])).
  { intros z. rewrite <-(app_nil_r (encode_int z)). apply decode_encode_int. }
  assert (Hlast' : forall b, decode_bool (encode_bool b) = Some (b, [])).
  { intros b. rewrite <-(app_nil_r (encode_bool b)). apply decode_encode_bool. }
  unfold decode_payload. destruct p as [[]|[]|[]|[]]; cbn;
    repeat first [rewrite decode_encode_int | rewrite decode_encode_log
                 | rewrite decode_encode_bool | rewrite Hlast | rewrite Hlast'
                 | progress cbn ]; done.
Qed.

Definition gob_rpc_codec : RpcCodec Payload :=
  Build_RpcCodec _ payload_type zero_payload encode_payload decode_payload decode_encode_payload.
Definition gob_raft_codec : RaftCodec :=
  Build_RaftCodec gob_rpc_codec (fun p => eq_refl).
End GobRaft.

(** ** The world of the handlers *)

Record Inst := mkInst { in_owner : nat; in_node : Node; in_ends : list Key }.

Record World := mkWorld {
  insts : list Inst;
  cur : list (option nat);
  saved : list (option Persister);
  w_next : nat;
  w_granted : list (nat * Z * nat);
  w_won : list (nat * Z * list nat);
}.

Definition set_node (nd : Node) (it : Inst) : Inst := mkInst (in_owner it) nd (in_ends it).

Definition is_current (r i : nat) (w : World) : bool :=
  bool_decide (cur w !! i = Some (Some r)).

(** Instance [r] makes a step with effect [eff]; only the steps of current
    instances are recorded. *)
Definition step_inst (r : nat) (it : Inst) (eff : Effect) (w : World) : World :=
  let insts' := <[r := set_node (ef_node eff) it]> (insts w) in
  if is_current r (in_owner it) w
  then mkWorld insts' (cur w) (saved w) (S (w_next w))
         (w_granted w ++ ef_granted eff) (w_won w ++ ef_won eff)
  else mkWorld insts' (cur w) (saved w) (w_next w) (w_granted w) (w_won w).

(** ** The service [Raft] *)

Section Service.
Context `{GobCodec}.

(** The handlers as methods: the mutex must be free; reflection panics on an
    argument of another type. *)
Definition meth_RequestVote (r : nat) (a _ : Payload) (rnd : Z) (w : World)
    : Outcome (World * Payload) :=
  match a with
  | PVoteReq args =>
      it ← enabled (insts w !! r);
      let nd := in_node it in
      _ ← guard_step (is_free nd);
      '(rf, reply) ← run (RequestVote args rnd (raft nd));
      Ok (step_inst r it
            (mkEffect (set_raft rf nd) []
               (if vr_VoteGranted reply
                then [(in_owner it, va_Term args, Z.to_nat (va_CandidateId args))] else []) []) w,
          PVoteRep reply)
  | _ => Panic
  end.

Definition meth_AppendEntries (r : nat) (a _ : Payload) (rnd : Z) (w : World)
    : Outcome (World * Payload) :=
  match a with
  | PAppReq args =>
      it ← enabled (insts w !! r);
      let nd := in_node it in
      _ ← guard_step (is_free nd);
      '(rf, reply) ← run (AppendEntries args rnd (raft nd));
      Ok (step_inst r it (quiet (set_raft rf nd)) w, PAppRep reply)
  | _ => Panic
  end.

Definition no_handler (r : nat) (a v : Payload) (rnd : Z) (w : World)
    : Outcome (World * Payload) := Panic.

Definition raft_pkg : string := "raft".
Definition by_value : InType := mkIn false 0.
Definition by_ptr (t : nat) : InType := mkIn true t.

(** The methods of [*Raft], the receiver first.  Reflection leaves out the
    unexported ones, which [MakeService] would refuse as well. *)
Definition raft_methods : list (Method Payload nat World) :=
  [ mkMethod "AppendEntries" "" [by_ptr 4; by_ptr 2; by_ptr 3] 0 meth_AppendEntries;
    mkMethod "GetState" "" [by_ptr 4] 2 no_handler;
    mkMethod "Kill" "" [by_ptr 4] 0 no_handler;
    mkMethod "RequestVote" "" [by_ptr 4; by_ptr 0; by_ptr 1] 0 meth_RequestVote;
    mkMethod "SendHeartbeat" "" [by_ptr 4; by_value] 0 no_handler;
    mkMethod "Start" "" [by_ptr 4; by_value] 3 no_handler;
    mkMethod "changeRole" raft_pkg [by_ptr 4; by_value] 1 no_handler;
    mkMethod "commitLog" raft_pkg [by_ptr 4] 0 no_handler;
    mkMethod "getAppendLogs" raft_pkg [by_ptr 4; by_value] 3 no_handler;
    mkMethod "killed" raft_pkg [by_ptr 4] 1 no_handler;
    mkMethod "lastLogTermIndex" raft_pkg [by_ptr 4] 2 no_handler;
    mkMethod "persist" raft_pkg [by_ptr 4] 0 no_handler;
    mkMethod "readPersist" raft_pkg [by_ptr 4; by_value] 0 no_handler;
    mkMethod "sendAppendEntries" raft_pkg [by_ptr 4; by_value; by_ptr 2; by_ptr 3] 1 no_handler;
    mkMethod "sendAppendEntriesWithContext" raft_pkg
      [by_ptr 4; by_value; by_value; by_ptr 2; by_ptr 3] 1 no_handler;
    mkMethod "sendAppendEntriesWithTimeout" raft_pkg
      [by_ptr 4; by_value; by_value; by_ptr 2; by_ptr 3] 1 no_handler;
    mkMethod "sendRequestVote" raft_pkg [by_ptr 4; by_value; by_ptr 0; by_ptr 1] 1 no_handler;
    mkMethod "sendRequestVoteWithContext" raft_pkg
      [by_ptr 4; by_value; by_value; by_ptr 0; by_ptr 1] 1 no_handler;
    mkMethod "sendRequestVoteWithTimeout" raft_pkg
      [by_ptr 4; by_value; by_value; by_ptr 0; by_ptr 1] 1 no_handler;
    mkMethod "startElection" raft_pkg [by_ptr 4] 1 no_handler ].

Definition raft_rcvr (r : nat) : Rcvr Payload nat World := mkRcvr r "Raft" raft_methods.
Definition raft_service (r : nat) : Service Payload nat World := MakeService (raft_rcvr r).

End Service.

(** ** Calls *)

(** The first argument of [Call]. *)
Definition method_of (p : Payload) : string :=
  match p with
  | PVoteReq _ | PVoteRep _ => "Raft.RequestVote"
  | PAppReq _ | PAppRep _ => "Raft.AppendEntries"
  end.

(** The type of the reply variable. *)
Definition reply_type (p : Payload) : nat :=
  match p with PVoteReq _ | PVoteRep _ => 1 | PAppReq _ | PAppRep _ => 3 end.

Definition is_reply (p : Payload) : bool :=
  match p with PVoteRep _ | PAppRep _ => true | _ => false end.

(** What belongs to a call: the calling instance, the message of [Cluster]
    it carries, whether the caller was current then, and whether the caller
    has seen the result. *)
Record Meta := mkMeta { me_inst : nat; me_msg : Msg; me_fresh : bool; me_done : bool }.

Record RaftNet := mkRaftNet { rpc : Rpc Payload nat World; metas : list Meta }.

Inductive NEvent :=
  | NLocal (r : nat) (ev : LocalEvent)    (** a step of instance [r] *)
  | NResult (k : nat) (rnd : Z)           (** the caller of call [k] handles its reply *)
  | NRpc (ev : RpcEvent Payload nat World)  (** a step of the network *)
  | NEnable (i j : nat) (b : bool)        (** [Enable(cfg.endnames[i][j], b)] *)
  | NDelete (i : nat)                     (** [DeleteServer(i)] *)
  | NSave (i : nat)                       (** [crash1] copies the persister, drops the instance *)
  | NMake (i : nat) (names : list Key) (rnd : Z)  (** [start1] up to [Make] *)
  | NAdd (i : nat).                       (** [start1]: service, server, [AddServer] *)

Section RaftNet.
Context `{GobCodec} `{RaftCodec}.
Variable n : nat.

(** The events of the network's goroutines and of its settings. *)
Definition network_event (ev : RpcEvent Payload nat World) : bool :=
  match ev with
  | RSend _ | RCancel _ | RRead _ _ | RStart _ _ | RDispatch _ | RHandle _ _ | RReply _
  | RTick _ | RDrain _ | RFinish _ _ _ _ _ | RTimer _ | RLoopExit | RCleanup
  | RReliable _ | RLongReordering _ | RLongDelays _ => true
  | _ => false
  end.

(** [sendRequestVote] and [sendAppendEntries] of instance [r], [it]. *)
Definition send_call (r : nat) (it : Inst) (fresh : bool) (m : Msg) (s : RaftNet) : Outcome RaftNet :=
  e ← run (in_ends it !! m_dst m);
  st ← rstep (RCall (mkEnd e) (method_of (m_body m)) (m_body m) (zero (reply_type (m_body m)))) (rpc s);
  Ok (mkRaftNet st (metas s ++ [mkMeta r m fresh false])).

Fixpoint send_calls (r : nat) (it : Inst) (fresh : bool) (ms : list Msg) (s : RaftNet) : Outcome RaftNet :=
  match ms with
  | [] => Ok s
  | m :: ms => s ← send_call r it fresh m s; send_calls r it fresh ms s
  end.

Definition is_crash (ev : LocalEvent) : bool := match ev with LCrash _ => true | _ => false end.

Definition net_local (r : nat) (ev : LocalEvent) (s : RaftNet) : Outcome RaftNet :=
  let w := world (rpc s) in
  _ ← guard_step (negb (is_deliver ev) && negb (is_crash ev));
  it ← enabled (insts w !! r);
  eff ← local n (in_owner it) (w_next w) ev (in_node it);
  st ← rstep (RWorld (step_inst r it eff w)) (rpc s);
  send_calls r it (is_current r (in_owner it) w) (ef_send eff) (mkRaftNet st (metas s)).

(** The goroutine of the call takes up the reply, unless it has timed out,
    which [local_deliver] finds out from the pending operation. *)
Definition net_result (k : nat) (rnd : Z) (s : RaftNet) : Outcome RaftNet :=
  let w := world (rpc s) in
  c ← enabled (calls (rpc s) !! k);
  me ← enabled (metas s !! k);
  _ ← guard_step (negb (me_done me));
  match c_pc c with
  | Returned (Some v) =>
      _ ← guard_step (is_reply v);
      it ← enabled (insts w !! me_inst me);
      let m := me_msg me in
      eff ← local_deliver (in_owner it) (mkMsg (m_id m) (m_dst m) (m_src m) v) rnd (in_node it);
      st ← rstep (RWorld (step_inst (me_inst me) it eff w)) (rpc s);
      Ok (mkRaftNet st (<[k := mkMeta (me_inst me) m (me_fresh me) true]> (metas s)))
  | _ => Disabled
  end.

Definition net_enable (i j : nat) (b : bool) (s : RaftNet) : Outcome RaftNet :=
  let w := world (rpc s) in
  r ← enabled (mjoin (cur w !! i));
  it ← enabled (insts w !! r);
  e ← enabled (in_ends it !! j);
  st ← rstep (REnable e b) (rpc s);
  Ok (mkRaftNet st (metas s)).

Definition set_cur (i : nat) (o : option nat) (w : World) : World :=
  mkWorld (insts w) (<[i := o]> (cur w)) (saved w) (w_next w) (w_granted w) (w_won w).

(** The persister [crash1] leaves in [cfg.saved[i]]. *)
Definition crash_persister (ps : Persister) : Persister :=
  SaveRaftState (ReadRaftState (Copy ps)) MakePersister.

Definition ends_disabled (it : Inst) (rn : Network) : bool :=
  forallb (fun e => negb (default false (n_enabled rn !! e))) (in_ends it).

Definition net_save (i : nat) (s : RaftNet) : Outcome RaftNet :=
  let w := world (rpc s) in
  r ← enabled (mjoin (cur w !! i));
  it ← enabled (insts w !! r);
  _ ← guard_step (ends_disabled it (net (rpc s)));
  _ ← guard_step (bool_decide (mjoin (n_servers (net (rpc s)) !! KInt (Z.of_nat i)) = None));
  let ps := crash_persister (persister (raft (in_node it))) in
  st ← rstep (RWorld (mkWorld (insts w) (<[i := None]> (cur w)) (<[i := Some ps]> (saved w))
                        (w_next w) (w_granted w) (w_won w))) (rpc s);
  Ok (mkRaftNet st (metas s)).

(** [MakeEnd(endnames[i][j])] and [Connect(endnames[i][j], j)] for every [j]. *)
Fixpoint make_ends (j : nat) (names : list Key) : list (RpcEvent Payload nat World) :=
  match names with
  | [] => []
  | e :: names => RMakeEnd e :: RConnect e (KInt (Z.of_nat j)) :: make_ends (S j) names
  end.

(** The persister [start1] hands to [Make]. *)
Definition boot_persister (o : option Persister) : Persister :=
  match o with Some ps => Copy ps | None => MakePersister end.

Definition net_make (i : nat) (names : list Key) (rnd : Z) (s : RaftNet) : Outcome RaftNet :=
  let w := world (rpc s) in
  _ ← guard_step (bool_decide (cur w !! i = Some None));
  _ ← guard_step (bool_decide (length names = n));
  st ← rexec (make_ends 0 names) (rpc s);
  let ps := boot_persister (mjoin (saved w !! i)) in
  let it := mkInst i (fresh_node (Make n (Z.of_nat i) ps rnd)) names in
  st ← rstep (RWorld (mkWorld (insts w ++ [it]) (<[i := Some (length (insts w))]> (cur w))
                        (saved w) (S (w_next w)) (w_granted w) (w_won w))) st;
  Ok (mkRaftNet st (metas s)).

Definition net_add (i : nat) (s : RaftNet) : Outcome RaftNet :=
  r ← enabled (mjoin (cur (world (rpc s)) !! i));
  let srv := length (heap (rpc s)) in
  st ← rexec [RMakeServer [raft_service r]; RAddServer (KInt (Z.of_nat i)) srv] (rpc s);
  Ok (mkRaftNet st (metas s)).

Definition nstep (ev : NEvent) (s : RaftNet) : Outcome RaftNet :=
  match ev with
  | NLocal r ev => net_local r ev s
  | NResult k rnd => net_result k rnd s
  | NRpc ev =>
      _ ← guard_step (network_event ev);
      st ← rstep ev (rpc s);
      Ok (mkRaftNet st (metas s))
  | NEnable i j b => net_enable i j b s
  | NDelete i => st ← rstep (RDeleteServer (KInt (Z.of_nat i))) (rpc s); Ok (mkRaftNet st (metas s))
  | NSave i => net_save i s
  | NMake i names rnd => net_make i names rnd s
  | NAdd i => net_add i s
  end.

Definition ninit : RaftNet :=
  mkRaftNet (rinit (mkWorld [] (replicate n None) (replicate n None) 0 [] [])) [].

Fixpoint nexec (evs : list NEvent) (s : RaftNet) : Outcome RaftNet :=
  match evs with
  | [] => Ok s
  | ev :: evs => s ← nstep ev s; nexec evs s
  end.

Inductive nreachable : RaftNet -> Prop :=
  | nreach_init : nreachable ninit
  | nreach_step s ev s' : nreachable s -> nstep ev s = Ok s' -> nreachable s'.

(** [clean] for the instances the tester regards as the servers; killing a
    leader is the crash event it excludes. *)
Definition clean_net (ev : NEvent) (s : RaftNet) : bool :=
  let w := world (rpc s) in
  match ev with
  | NLocal r lev =>
      match insts w !! r with
      | Some it => negb (is_current r (in_owner it) w) || clean_local n lev (in_node it)
      | None => true
      end
  | NSave i =>
      match r ← mjoin (cur w !! i); insts w !! r with
      | Some it => negb (bool_decide (role (raft (in_node it)) = Leader))
      | None => true
      end
  | _ => true
  end.

Inductive nclean_steps : RaftNet -> RaftNet -> Prop :=
  | nclean_refl s : nclean_steps s s
  | nclean_step s ev s' s'' :
      nclean_steps s s' -> clean_net ev s' = true -> nstep ev s' = Ok s'' -> nclean_steps s s''.

Definition nclean_reachable (s : RaftNet) : Prop := nclean_steps ninit s.
End RaftNet.
