(* ===== verification/RaftNetInv.v ===== *)
(** * Invariants of Raft over the RPC network

    What ties calls, ends, servers and instances together ([wf]): a call goes
    to the server of the peer it is meant for, a registered server belongs to
    the current instance of its peer, and the ends of an instance that was
    replaced are disabled for good. *)

From S2P Require Import Prelude Gob Persister Raft Vote Entry Cluster LabRpc LabRpcInv RaftNet.

Section Inv.
Context `{GobCodec} `{RaftCodec}.
Variable n : nat.
Local Notation Server := (Server Payload nat World).
Local Notation Call := (Call Payload nat World).

(** The server object of instance [r]. *)
Definition raft_server (r : nat) (srv : Server) : Prop :=
  s_services srv = {["Raft" := raft_service r]}.

Definition body (me : Meta) : Payload := m_body (me_msg me).
Definition dst (me : Meta) : nat := m_dst (me_msg me).
Definition peer_name (i : nat) : Key := KInt (Z.of_nat i).

(** A call that was made by an instance no longer current gets nowhere. *)
Definition cut_off (c : Call) : Prop :=
  c_handler c = HNone /\
  match c_pc c with Sending | Received | Expiring _ | Returned None => True | _ => False end.

Record wf_call (w : World) (hp : list Server) (c : Call) (me : Meta) : Prop := {
  wc_inst : exists it e, insts w !! me_inst me = Some it /\
    in_ends it !! dst me = Some e /\ m_src (me_msg me) = in_owner it /\
    c_req c = mkReq e (method_of (body me)) (typeof (body me)) (rpc_encode (body me)) /\
    (me_fresh me = false -> is_current (me_inst me) (in_owner it) w = false);
  wc_req : is_reply (body me) = false;
  wc_var : c_var c = zero (reply_type (body me));
  wc_stale : me_fresh me = false -> cut_off c;
  wc_target t : target c t -> t_name t = peer_name (dst me) /\
    exists r it srv, hp !! t_server t = Some srv /\ raft_server r srv /\
      insts w !! r = Some it /\ in_owner it = dst me;
  wc_running t svc m : c_handler c = HRunning t svc m ->
    exists r srv, hp !! t_server t = Some srv /\ raft_server r srv /\ svc = raft_service r /\
      forall sn mn, split_svcMeth (method_of (body me)) = Some (sn, mn) -> s_methods svc !! mn = Some m;
}.

(** Instances, ends and servers. *)
Record wf_net (w : World) (rn : Network) (hp : list Server) : Prop := {
  wf_cur i r : cur w !! i = Some (Some r) ->
    exists it, insts w !! r = Some it /\ in_owner it = i;
  wf_ends r it j e : insts w !! r = Some it -> in_ends it !! j = Some e ->
    n_connections rn !! e = Some (Some (peer_name j)) /\ is_Some (n_ends rn !! e);
  wf_inj r r' it it' e : insts w !! r = Some it -> insts w !! r' = Some it' ->
    e ∈ in_ends it -> e ∈ in_ends it' -> r = r';
  wf_zombie r it e : insts w !! r = Some it -> is_current r (in_owner it) w = false ->
    e ∈ in_ends it -> n_enabled rn !! e <> Some true;
  wf_serv sn rs : registered sn rs rn ->
    exists i r srv, sn = peer_name i /\ hp !! rs = Some srv /\ raft_server r srv /\
      cur w !! i = Some (Some r);
}.

Record wf (s : RaftNet) : Prop := {
  wf_tidy : tidy_reachable (rpc s);
  wf_len : length (metas s) = length (calls (rpc s));
  wf_struct : wf_net (world (rpc s)) (net (rpc s)) (heap (rpc s));
  wf_calls k c me : calls (rpc s) !! k = Some c -> metas s !! k = Some me ->
    wf_call (world (rpc s)) (heap (rpc s)) c me;
}.

(** ** Growth *)

(** Instances keep their owner and their ends, and one that is not current
    does not become current again. *)
Definition world_le (w w' : World) : Prop :=
  forall r it, insts w !! r = Some it ->
  exists it', insts w' !! r = Some it' /\ in_owner it' = in_owner it /\ in_ends it' = in_ends it /\
    (is_current r (in_owner it) w = false -> is_current r (in_owner it) w' = false).

Definition heap_le (h h' : list Server) : Prop :=
  forall rs srv, h !! rs = Some srv ->
  exists srv', h' !! rs = Some srv' /\ s_services srv' = s_services srv.

#[export] Instance world_le_refl : Reflexive world_le.
Proof. intros w r it Hr. by exists it. Qed.

#[export] Instance heap_le_refl : Reflexive heap_le.
Proof. intros h rs srv Hr. by exists srv. Qed.

Lemma wf_call_mono w w' hp hp' c me :
  world_le w w' -> heap_le hp hp' -> wf_call w hp c me -> wf_call w' hp' c me.
Proof.
  intros Hw Hh [(it & e & Hi & He & Hsrc & Hreq & Hst) Hrep Hvar Hcut Htg Hrun]. split; try done.
  - destruct (Hw _ _ Hi) as (it' & Hi' & Ho & Hen & Hc). exists it', e.
    rewrite Ho, Hen. split_and!; auto.
  - intros t Ht. destruct (Htg t Ht) as (Hn & r & it' & srv & Hs & Hsr & Hr & Hown). split; [done|].
    destruct (Hw _ _ Hr) as (it'' & Hr' & Ho & _). destruct (Hh _ _ Hs) as (srv' & Hs' & E).
    exists r, it'', srv'. unfold raft_server. rewrite E, Ho. done.
  - intros t svc m Hm. destruct (Hrun t svc m Hm) as (r & srv & Hs & Hsr & Hsv & Hme).
    destruct (Hh _ _ Hs) as (srv' & Hs' & E). exists r, srv'. unfold raft_server. rewrite E. done.
Qed.

(** A step of an instance changes its node only. *)
Lemma insts_step_inst r it eff w :
  insts (step_inst r it eff w) = <[r := set_node (ef_node eff) it]> (insts w).
Proof. unfold step_inst. by destruct (is_current _ _ _). Qed.

Lemma cur_step_inst r it eff w : cur (step_inst r it eff w) = cur w.
Proof. unfold step_inst. by destruct (is_current _ _ _). Qed.

Lemma saved_step_inst r it eff w : saved (step_inst r it eff w) = saved w.
Proof. unfold step_inst. by destruct (is_current _ _ _). Qed.

Lemma is_current_cur r i w w' : cur w' = cur w -> is_current r i w' = is_current r i w.
Proof. unfold is_current. by intros ->. Qed.

Lemma step_inst_le r it eff w : insts w !! r = Some it -> world_le w (step_inst r it eff w).
Proof.
  intros Hr r' it' Hr'. rewrite insts_step_inst, (is_current_cur _ _ _ _ (cur_step_inst r it eff w)).
  destruct (decide (r = r')) as [->|Hne].
  - rewrite Hr in Hr'. injection Hr' as <-. exists (set_node (ef_node eff) it). split_and!; try done.
    apply list_lookup_insert_eq. by eapply lookup_lt_Some.
  - exists it'. by rewrite list_lookup_insert_ne.
Qed.

(** Instances after a step of one of them. *)
Lemma step_inst_lookup r it eff w r' it' :
  insts w !! r = Some it -> insts (step_inst r it eff w) !! r' = Some it' ->
  exists it0, insts w !! r' = Some it0 /\ in_owner it' = in_owner it0 /\ in_ends it' = in_ends it0.
Proof.
  intros Hr. rewrite insts_step_inst. intros Hr'.
  apply list_lookup_insert_Some in Hr' as [(-> & <- & _)|[_ Hr']]; eauto.
Qed.

(** [wf_net] depends on the world through owners, ends and current instances. *)
Lemma wf_net_step_inst w rn hp r it eff :
  wf_net w rn hp -> insts w !! r = Some it -> wf_net (step_inst r it eff w) rn hp.
Proof.
  intros [Hc He Hinj Hz Hsv] Hr.
  assert (Hlk := fun r' it' => step_inst_lookup r it eff w r' it' Hr).
  assert (Hcur := cur_step_inst r it eff w).
  split; simpl; rewrite ?Hcur; try done.
  - intros i r' Hi. destruct (Hc i r' Hi) as (it0 & Hr0 & Ho).
    destruct (step_inst_le r it eff w Hr _ _ Hr0) as (it1 & H1 & Ho1 & _). exists it1. by rewrite Ho1.
  - intros r' it' j e Hr' Hj. destruct (Hlk _ _ Hr') as (it0 & Hr0 & _ & Hen). rewrite Hen in Hj. eauto.
  - intros r1 r2 it1 it2 e H1 H2 E1 E2.
    destruct (Hlk _ _ H1) as (? & ? & _ & Hen1), (Hlk _ _ H2) as (? & ? & _ & Hen2).
    rewrite Hen1 in E1. rewrite Hen2 in E2. eauto.
  - intros r' it' e Hr' Hn Hin. destruct (Hlk _ _ Hr') as (it0 & Hr0 & Ho & Hen).
    rewrite Hen in Hin. rewrite Ho, (is_current_cur _ _ _ _ Hcur) in Hn. eauto.
Qed.

Lemma wf_net_frame w rn rn' hp hp' :
  wf_net w rn hp -> n_ends rn' = n_ends rn -> n_enabled rn' = n_enabled rn ->
  n_servers rn' = n_servers rn -> n_connections rn' = n_connections rn -> heap_le hp hp' ->
  wf_net w rn' hp'.
Proof.
  intros [Hc He Hinj Hz Hsv] E1 E2 E3 E4 Hh. split; try done.
  - by rewrite E1, E4.
  - by rewrite E2.
  - intros sn rs. unfold registered. rewrite E3. intros Hr.
    destruct (Hsv sn rs Hr) as (i & r & srv & ? & Hs & Hsr & ?).
    destruct (Hh _ _ Hs) as (srv' & Hs' & E). exists i, r, srv'. unfold raft_server. by rewrite E.
Qed.

Lemma wf_step_world s r it eff st' :
  wf s -> insts (world (rpc s)) !! r = Some it ->
  rstep (RWorld (step_inst r it eff (world (rpc s)))) (rpc s) = Ok st' ->
  wf (mkRaftNet st' (metas s)).
Proof.
  intros [Htd Hl Hst Hcl] Hr Hs.
  assert (Htd' : tidy_reachable st') by (eapply tidy_step; [exact Htd| |exact Hs]; done).
  injection Hs as <-. split; try done.
  - by apply wf_net_step_inst.
  - intros k c me Hk Hme. eapply wf_call_mono; [by apply step_inst_le|reflexivity|by eapply Hcl].
Qed.

(** ** Steps of the network *)

Lemma read_info_accepted rnd rn (c : Call) ms t :
  read_info rnd rn c = Accepted ms t ->
  n_enabled rn !! endname (c_req c) = Some true /\
  n_connections rn !! endname (c_req c) = Some (Some (t_name t)).
Proof.
  unfold read_info, readEndnameInfo. simpl.
  destruct (n_enabled rn !! _) as [[]|]; simpl; try done.
  destruct (n_connections rn !! _) as [[sn|]|]; simpl; try done.
  destruct (mjoin (n_servers rn !! sn)); [|done]. intros [= _ <-]. done.
Qed.

(** The targets of a call change only when its end is looked up. *)
Lemma call_step_target' k rn hp (c c' : Call) xs t :
  call_step k rn hp c c' xs -> target c' t ->
  target c t \/ exists rnd ms, c_pc c = Received /\ read_info rnd rn c = Accepted ms t.
Proof.
  unfold target. destruct 1; simpl; intros Ht; try naive_solver.
  - destruct (read_info_cases rnd rn c) as [(ms & t' & E)|(ms & E)]; rewrite E in Ht; [|naive_solver].
    destruct Ht as [?|[[? [= <- <-]]|[[? ?]|?]]]; naive_solver.
  - apply receive_reply_ok in H3 as [[_ ->]|(v & _ & _ & ->)]; naive_solver.
  - apply receive_reply_ok in H2 as [[_ ->]|(v & _ & _ & ->)]; naive_solver.
Qed.

Lemma cut_off_step k rn hp (c c' : Call) xs :
  call_step k rn hp c c' xs -> n_enabled rn !! endname (c_req c) <> Some true ->
  cut_off c -> cut_off c'.
Proof.
  intros Hcs Hen [Hh Hpc]. unfold cut_off.
  destruct Hcs; simpl in *; split; try congruence; try done;
    repeat match goal with
    | E : c_pc c = _ |- _ => rewrite E in Hpc
    end; try done.
  destruct (read_info_cases rnd rn c) as [(ms & t' & E)|(ms & ->)]; [|done].
  by apply read_info_accepted in E as [? _].
Qed.

Lemma wf_call_step w hp rn k (c c' : Call) xs me :
  wf_call w hp c me -> call_step k rn hp c c' xs ->
  n_connections rn !! endname (c_req c) = Some (Some (peer_name (dst me))) ->
  (me_fresh me = false -> n_enabled rn !! endname (c_req c) <> Some true) ->
  (forall rs, registered (peer_name (dst me)) rs rn ->
     exists r it srv, hp !! rs = Some srv /\ raft_server r srv /\
       insts w !! r = Some it /\ in_owner it = dst me) ->
  (forall t svc m, c_handler c' = HRunning t svc m -> c_handler c = HSpawned t ->
     exists r srv, hp !! t_server t = Some srv /\ raft_server r srv /\ svc = raft_service r /\
       forall sn mn, split_svcMeth (method_of (body me)) = Some (sn, mn) -> s_methods svc !! mn = Some m) ->
  wf_call w hp c' me.
Proof.
  intros [Hi Hrep Hvar Hcut Htg Hrun] Hcs Hcn Hst Hreg Hd.
  destruct (call_step_req _ _ _ _ _ _ Hcs) as [Er Ev]. split; rewrite ?Er, ?Ev; try done.
  - intros Hf. eapply cut_off_step; eauto.
  - intros t Ht. destruct (call_step_target' _ _ _ _ _ _ _ Hcs Ht) as [Ht'|(rnd & ms & Hpc & Hrd)]; [eauto|].
    pose proof (read_info_target _ _ _ _ _ Hrd) as Hrt. apply read_info_accepted in Hrd as [_ Hn].
    rewrite Hcn in Hn. injection Hn as Hn. rewrite <-Hn in *. eauto.
  - intros t svc m Hm. clear Hi Htg Hreg Hcut.
    destruct Hcs; simpl in *; try (by eapply Hrun); try (by eapply Hd); try done.
    injection Hm as -> -> ->. by eapply Hd.
Qed.

Lemma network_frame ev (st st' : Rpc Payload nat World) :
  network_event ev = true -> rstep ev st = Ok st' ->
  n_ends (net st') = n_ends (net st) /\ n_enabled (net st') = n_enabled (net st) /\
  n_servers (net st') = n_servers (net st) /\ n_connections (net st') = n_connections (net st) /\
  heap_le (heap st) (heap st') /\
  (world st' = world st \/ exists k rnd, ev = RHandle k rnd).
Proof.
  intros Hn Hs.
  destruct ev; try done; cbn [rstep] in Hs;
    unfold step_send, step_cancel, step_read, step_start, step_dispatch, step_handle,
      step_reply, step_tick, step_drain, step_finish, step_timer, start_handler, finish, Cleanup in Hs;
    outcome_inv; simplify_eq/=; split_and!; try done; eauto.
  (* dispatch counts a call of the server *)
  intros rs srv Hrs. unfold dispatch in *. outcome_inv. simplify_eq/=.
  destruct (decide (rs = t_server t)) as [->|Hne].
  - rewrite list_lookup_insert_eq by (by eapply lookup_lt_Some). simplify_eq. by eexists.
  - rewrite list_lookup_insert_ne by done. by eexists.
Qed.

(** ** Dispatch and handlers *)

Lemma dispatch_raft r req (srv srv' : Server) svc m :
  raft_server r srv -> dispatch req srv = Ok (srv', (svc, m)) ->
  svc = raft_service r /\
  forall sn mn, split_svcMeth (svcMeth req) = Some (sn, mn) -> s_methods svc !! mn = Some m.
Proof.
  unfold raft_server, dispatch. intros Hr Hd. outcome_inv. simplify_eq/=.
  rewrite Hr in *. match goal with E : {[_ := _]} !! _ = Some _ |- _ =>
    apply lookup_singleton_Some in E as [<- <-] end.
  split; [done|]. intros sn mn Hsp. by simplify_eq.
Qed.

(** The methods a service of Raft has. *)
Lemma raft_service_methods r :
  s_methods (raft_service r) =
  <["RequestVote" := mkMethod "RequestVote" "" [by_ptr 4; by_ptr 0; by_ptr 1] 0 meth_RequestVote]>
  {["AppendEntries" := mkMethod "AppendEntries" "" [by_ptr 4; by_ptr 2; by_ptr 3] 0 meth_AppendEntries]}.
Proof. reflexivity. Qed.

(** Running a handler is delivering the request to the instance. *)
Lemma handle_deliver r m (meth : Method Payload nat World) req rnd w w' a rep sn mn :
  req = mkReq (endname req) (method_of (m_body m)) (typeof (m_body m)) (rpc_encode (m_body m)) ->
  is_reply (m_body m) = false ->
  split_svcMeth (method_of (m_body m)) = Some (sn, mn) ->
  s_methods (raft_service r) !! mn = Some meth ->
  handle req (raft_service r) meth rnd w = Ok (w', a, rep) ->
  exists it eff v, insts w !! r = Some it /\
    local_deliver (in_owner it) m rnd (in_node it) = Ok eff /\
    ef_send eff = [mkMsg (m_id m) (in_owner it) (m_src m) v] /\
    is_reply v = true /\ payload_type v = reply_type (m_body m) /\
    w' = step_inst r it eff w /\ rep = mkRep true (rpc_encode v).
Proof.
  intros Hreq Hq Hsp Hm Hh. unfold handle in Hh. rewrite Hreq in Hh. simpl in Hh.
  rewrite rpc_decode_encode in Hh.
  rewrite raft_service_methods in Hm. unfold local_deliver.
  destruct (m_body m) as [args|?|args|?]; try done; injection Hsp as <- <-;
    [rewrite lookup_insert_eq in Hm
    |rewrite lookup_insert_ne, lookup_singleton_eq in Hm by done];
    injection Hm as <-; simpl in Hh; unfold meth_RequestVote, meth_AppendEntries in Hh;
    outcome_inv; simplify_eq/=;
    match goal with E : _ !! r = Some ?it |- _ => exists it end;
    match goal with E : is_free _ = true |- _ => rewrite E end;
    match goal with E : _ = Some (_, _) |- _ => rewrite E end; cbn;
    do 2 eexists; split_and!; try reflexivity; try done.
Qed.

Lemma raft_server_inj r r' srv : raft_server r srv -> raft_server r' srv -> r = r'.
Proof.
  unfold raft_server. intros -> Hs.
  assert (Hl : ({["Raft" := raft_service r]} : gmap string _) !! "Raft" = Some (raft_service r'))
    by (rewrite Hs; apply lookup_singleton_eq).
  rewrite lookup_singleton_eq in Hl. by injection Hl.
Qed.

Lemma wf_meta s k c : wf s -> calls (rpc s) !! k = Some c -> exists me, metas s !! k = Some me.
Proof.
  intros Hwf Hk. apply lookup_lt_is_Some. rewrite (wf_len s Hwf). by eapply lookup_lt_Some.
Qed.

(** What the execution of a handler is. *)
Record handled (k : nat) (rnd : Z) (s : RaftNet) (st' : Rpc Payload nat World)
    (c : Call) (me : Meta) (t : Target) (r : nat) (it : Inst) (eff : Effect) (v : Payload) : Prop := {
  hd_call : calls (rpc s) !! k = Some c;
  hd_meta : metas s !! k = Some me;
  hd_running : exists svc m, c_handler c = HRunning t svc m;
  hd_server : exists srv, heap (rpc s) !! t_server t = Some srv /\ raft_server r srv;
  hd_name : t_name t = peer_name (dst me);
  hd_inst : insts (world (rpc s)) !! r = Some it;
  hd_owner : in_owner it = dst me;
  hd_deliver : local_deliver (dst me) (me_msg me) rnd (in_node it) = Ok eff;
  hd_send : ef_send eff = [mkMsg (m_id (me_msg me)) (dst me) (m_src (me_msg me)) v];
  hd_reply : is_reply v = true;
  hd_type : payload_type v = reply_type (body me);
  hd_state : exists a, st' =
    set_call k (set_handler (HReturned (mkRep true (rpc_encode v))) c)
      (log_exec (mkExec k (t_server t) a (rpc_encode v)
                   (bool_decide (mjoin (n_servers (net (rpc s)) !! t_name t) = Some (t_server t))))
        (set_world (step_inst r it eff (world (rpc s))) (rpc s)));
}.

Lemma handle_step s k rnd st' :
  wf s -> step_handle k rnd (rpc s) = Ok st' ->
  exists c me t r it eff v, handled k rnd s st' c me t r it eff v.
Proof.
  intros Hwf Hs. unfold step_handle in Hs.
  apply bind_Ok in Hs as (c & Hk & Hs). apply enabled_Ok in Hk.
  destruct (c_handler c) as [|?|t svc m|?|] eqn:Hh; try done.
  apply bind_Ok in Hs as ([[w a] rep] & Hd & [= <-]).
  destruct (wf_meta s k c Hwf Hk) as [me Hme].
  destruct (wf_calls s Hwf k c me Hk Hme) as [(it0 & e & _ & _ & _ & Hreq & _) Hrep _ _ Htg Hrun].
  destruct (Htg t) as (Hn & r & it & srv & Hsrv & Hrs & Hr & Ho).
  { right. right. right. right. eauto. }
  destruct (Hrun t svc m Hh) as (r' & srv' & Hsrv' & Hrs' & -> & Hm).
  rewrite Hsrv in Hsrv'. injection Hsrv' as <-.
  rewrite (raft_server_inj _ _ _ Hrs' Hrs) in *. clear Hrs' r'.
  assert (exists sn mn, split_svcMeth (method_of (body me)) = Some (sn, mn)) as (sn & mn & Hsp).
  { destruct (body me); do 2 eexists; reflexivity. }
  destruct (handle_deliver r (me_msg me) m (c_req c) rnd (world (rpc s)) w a rep sn mn)
    as (it' & eff & v & Hr' & Hdl & Hsend & Hv & Hty & -> & ->); try done.
  { by rewrite Hreq. }
  { eauto. }
  rewrite Hr in Hr'. injection Hr' as <-. rewrite Ho in Hdl, Hsend.
  exists c, me, t, r, it, eff, v. split; eauto.
Qed.

Lemma wf_rpc s ev st' :
  wf s -> network_event ev = true -> rstep ev (rpc s) = Ok st' -> wf (mkRaftNet st' (metas s)).
Proof.
  intros Hwf Hn Hs. pose proof Hwf as [Htd Hl Hst Hcl].
  destruct (network_frame _ _ _ Hn Hs) as (E1 & E2 & E3 & E4 & Hh & Hw).
  assert (Htd' : tidy_reachable st').
  { eapply tidy_step; [exact Htd| |exact Hs]. by destruct ev. }
  assert (Hnet : world_le (world (rpc s)) (world st') /\
                 wf_net (world st') (net (rpc s)) (heap (rpc s))).
  { destruct Hw as [-> | (k & rnd & ->)]; [done|].
    destruct (handle_step s k rnd st' Hwf Hs) as (c & me & t & r & it & eff & v & Hd).
    destruct (hd_state _ _ _ _ _ _ _ _ _ _ _ Hd) as [a ->]. simpl. apply hd_inst in Hd.
    split; [by apply step_inst_le|by apply wf_net_step_inst]. }
  destruct Hnet as [Hle Hnet].
  destruct (rstep_calls _ _ _ Hs) as [Hc _ _|e meth a var _ _ ->|k c c' xs Hk Hc _ _ _ Hown Hcs].
  - split; simpl; rewrite ?Hc; [done|done|by eapply wf_net_frame|].
    intros j d me Hj Hme. eapply wf_call_mono; eauto.
  - done.
  - split; simpl; rewrite ?Hc, ?length_insert; [done|done|by eapply wf_net_frame|].
    intros j d me Hj Hme. eapply (wf_call_mono (world (rpc s)) _ (heap (rpc s))); [done|done|].
    apply insert_call_lookup in Hj as [(-> & -> & _)|[_ Hj]]; [|eauto].
    pose proof (Hcl k c me Hk Hme) as Hwc.
    destruct (wc_inst _ _ _ _ Hwc) as (it & e & Hi & He & Hsrc & Hreq & Hfr).
    eapply wf_call_step; [exact Hwc|exact Hcs|..]; rewrite ?Hreq; simpl.
    + exact (proj1 (wf_ends _ _ _ Hst _ _ _ _ Hi He)).
    + intros Hf. eapply wf_zombie; [exact Hst|exact Hi|auto|by eapply list_elem_of_lookup_2].
    + intros rs Hrs. destruct (wf_serv _ _ _ Hst _ _ Hrs) as (i & r & srv & Heq & Hsv & Hsr & Hcu).
      destruct (wf_cur _ _ _ Hst _ _ Hcu) as (it' & Hi' & Ho). exists r, it', srv.
      split_and!; [done|done|done|]. rewrite Ho. unfold peer_name in Heq. by simplify_eq/=; lia.
    + intros t svc m Hrun Hsp.
      destruct (wc_target _ _ _ _ Hwc t) as (_ & r & it' & srv & Hsv & Hsr & _ & _).
      { right. right. right. by left. }
      exists r, srv. split_and!; [done|done|..]; clear -Hcs Hrun Hsp Hsv Hsr Hreq;
        destruct Hcs; simpl in *; try congruence; simplify_eq/=;
        edestruct dispatch_raft as [-> Hm]; try done.
      rewrite Hreq in Hm. exact Hm.
Qed.

(** ** Steps of instances *)

(** Instances send requests, in their own name. *)
Lemma local_sends i id ev nd eff m :
  is_deliver ev = false -> local n i id ev nd = Ok eff -> m ∈ ef_send eff ->
  is_reply (m_body m) = false /\ m_src m = i.
Proof.
  intros Hd Hl. destruct ev; try done; cbn [local] in Hl;
    unfold local_election, local_election_end, local_election_failed, local_election_won,
      local_beat_tick, local_beat_e, local_beat_h, send_heartbeat, local_call_fail, quiet in Hl;
    outcome_inv; simplify_eq/=; try set_solver.
Qed.

(** An instance with its owner and its ends. *)
Definition inst_like (it : Inst) (r : nat) (w : World) : Prop :=
  exists it0, insts w !! r = Some it0 /\ in_owner it0 = in_owner it /\ in_ends it0 = in_ends it.

Lemma wf_send_call s r it fresh m s' :
  wf s -> inst_like it r (world (rpc s)) ->
  (fresh = false -> is_current r (in_owner it) (world (rpc s)) = false) ->
  is_reply (m_body m) = false -> m_src m = in_owner it ->
  send_call r it fresh m s = Ok s' -> wf s' /\ world (rpc s') = world (rpc s).
Proof.
  intros [Htd Hl Hst Hcl] (it0 & Hr & Ho & Hen) Hf Hq Hsrc Hs. unfold send_call in Hs.
  apply bind_Ok in Hs as (e & He & Hs). apply run_Ok in He.
  apply bind_Ok in Hs as (st & Hst' & [= <-]).
  assert (Htd' : tidy_reachable st) by (eapply tidy_step; [exact Htd| |exact Hst']; done).
  injection Hst' as <-. split; [|done]. split; simpl.
  - done.
  - rewrite !length_app. simpl. lia.
  - done.
  - intros k c me Hk Hme.
    apply lookup_app_Some in Hk as [Hk|[Hge Hk]].
    + rewrite lookup_app_l in Hme by (rewrite Hl; by eapply lookup_lt_Some). eauto.
    + rewrite lookup_app_r in Hme by (rewrite Hl; done). rewrite Hl in Hme.
      apply list_lookup_singleton_Some in Hk as [_ <-].
      apply list_lookup_singleton_Some in Hme as [_ <-].
      split; simpl; try done.
      * exists it0, e. rewrite Hen, Ho. split_and!; done.
      * intros t Ht. unfold target in Ht. simpl in Ht. naive_solver.
Qed.

Lemma wf_send_calls r it fresh ms s s' :
  wf s -> inst_like it r (world (rpc s)) ->
  (fresh = false -> is_current r (in_owner it) (world (rpc s)) = false) ->
  (forall m, m ∈ ms -> is_reply (m_body m) = false /\ m_src m = in_owner it) ->
  send_calls r it fresh ms s = Ok s' -> wf s' /\ world (rpc s') = world (rpc s).
Proof.
  revert s. induction ms as [|m ms IH]; intros s Hwf Hi Hf Hm Hs; [by injection Hs as <-|].
  cbn [send_calls] in Hs. apply bind_Ok in Hs as (s1 & H1 & Hs).
  destruct (Hm m) as [Hq Hsrc]; [set_solver|].
  destruct (wf_send_call s r it fresh m s1) as [Hwf1 Hw1]; try done.
  destruct (IH s1) as [Hwf' Hw']; rewrite ?Hw1; try done; [set_solver|].
  split; [done|by rewrite Hw'].
Qed.

Lemma wf_local s r ev s' : wf s -> net_local n r ev s = Ok s' -> wf s'.
Proof.
  intros Hwf Hs. unfold net_local in Hs. outcome_inv.
  match goal with E : insts _ !! r = Some ?it0 |- _ => rename it0 into it; rename E into Hr end.
  match goal with E : local _ _ _ _ _ = Ok ?e |- _ => rename e into eff; rename E into Hloc end.
  match goal with E : rstep _ _ = Ok ?e |- _ => rename e into st; rename E into Hst end.
  pose proof (wf_step_world _ _ _ _ _ Hwf Hr Hst) as Hwf1. injection Hst as <-.
  bool_to_prop. eapply (wf_send_calls r it) in Hs as [? _]; [done|exact Hwf1|..].
  - destruct (step_inst_le r it eff _ Hr r it Hr) as (it1 & Hit1 & Ho & He & _). by exists it1.
  - intros Hc. simpl. by rewrite (is_current_cur _ _ _ _ (cur_step_inst _ _ _ _)).
  - intros m Hm. by eapply local_sends.
Qed.

(** Whether the caller has seen the result does not matter for [wf]. *)
Lemma wf_done s k me :
  wf s -> metas s !! k = Some me ->
  wf (mkRaftNet (rpc s) (<[k := mkMeta (me_inst me) (me_msg me) (me_fresh me) true]> (metas s))).
Proof.
  intros [Htd Hl Hst Hcl] Hme. split; simpl; try done.
  - by rewrite length_insert.
  - intros j c me' Hj Hme'. apply list_lookup_insert_Some in Hme' as [(<- & <- & _)|[_ Hme']]; [|eauto].
    by destruct (Hcl k c me Hj Hme).
Qed.

Lemma wf_result s k rnd s' : wf s -> net_result k rnd s = Ok s' -> wf s'.
Proof.
  intros Hwf Hs. unfold net_result in Hs. outcome_inv.
  match goal with E : insts _ !! _ = Some ?it0 |- _ => rename E into Hr end.
  match goal with E : rstep _ _ = Ok _ |- _ => pose proof (wf_step_world _ _ _ _ _ Hwf Hr E) as Hwf1 end.
  match goal with E : metas s !! k = Some ?me |- _ => exact (wf_done _ k me Hwf1 E) end.
Qed.

(** ** Steps of the tester *)

Lemma mjoin_Some' {A} (o : option (option A)) x : mjoin o = Some x -> o = Some (Some x).
Proof. by destruct o as [[]|]; simpl; intros [= ->]. Qed.

Lemma wf_enable s i j b s' : wf s -> net_enable i j b s = Ok s' -> wf s'.
Proof.
  intros [Htd Hl [Hc He Hinj Hz Hsv] Hcl] Hs. unfold net_enable in Hs. outcome_inv.
  match goal with E : rstep (REnable ?e b) _ = Ok ?st |- _ => rename e into e0; rename E into Hst end.
  match goal with E : mjoin _ = Some ?r0 |- _ => rename r0 into r; rename E into Hr end.
  match goal with E : insts _ !! r = Some ?it0 |- _ => rename it0 into it; rename E into Hi end.
  assert (Hcu : cur (world (rpc s)) !! i = Some (Some r)) by (by apply mjoin_Some').
  split; simpl; try done.
  - eapply tidy_step; [exact Htd| |exact Hst]; done.
  - injection Hst as <-. by simpl.
  - injection Hst as <-. split; simpl; try done.
    intros r' it' e' Hr' Hn Hin. destruct (decide (e' = e0)) as [->|Hne].
    + exfalso. assert (r' = r) as ->.
      { eapply Hinj; eauto. by eapply list_elem_of_lookup_2. }
      destruct (Hc i r Hcu) as (it1 & Hi1 & Ho). simplify_eq. unfold is_current in Hn.
      by apply bool_decide_eq_false in Hn.
    + rewrite lookup_insert_ne by done. eauto.
  - injection Hst as <-. simpl. done.
Qed.

Lemma wf_delete s i st' :
  wf s -> rstep (RDeleteServer (peer_name i)) (rpc s) = Ok st' -> wf (mkRaftNet st' (metas s)).
Proof.
  intros [Htd Hl [Hc He Hinj Hz Hsv] Hcl] Hst.
  assert (tidy_reachable st') by (eapply tidy_step; [exact Htd| |exact Hst]; done).
  injection Hst as <-. split; simpl; try done. split; simpl; try done.
  intros sn rs Hr. apply registered_insert in Hr as [?|Hr]; [done|]. eauto.
Qed.

Lemma wf_save s i s' : wf s -> net_save i s = Ok s' -> wf s'.
Proof.
  intros [Htd Hl [Hc He Hinj Hz Hsv] Hcl] Hs. unfold net_save in Hs. outcome_inv.
  match goal with E : rstep _ _ = Ok ?st |- _ => rename E into Hst end.
  match goal with E : mjoin _ = Some ?r0 |- _ => rename r0 into r; rename E into Hr end.
  match goal with E : insts _ !! r = Some ?it0 |- _ => rename it0 into it; rename E into Hi end.
  match goal with E : ends_disabled _ _ = true |- _ => rename E into Hdis end.
  match goal with E : bool_decide _ = true |- _ => apply bool_decide_eq_true in E; rename E into Hun end.
  assert (Hcu : cur (world (rpc s)) !! i = Some (Some r)) by (by apply mjoin_Some').
  assert (Hcur' : forall i' r', <[i := None]> (cur (world (rpc s))) !! i' = Some (Some r') ->
                    i' <> i /\ cur (world (rpc s)) !! i' = Some (Some r')).
  { intros i' r' Hi'. apply list_lookup_insert_Some in Hi' as [(_ & ? & _)|[Hne Hi']]; [done|].
    naive_solver. }
  split; simpl; try done.
  - eapply tidy_step; [exact Htd| |exact Hst]; done.
  - injection Hst as <-. by simpl.
  - injection Hst as <-. split; simpl; try done.
    + intros i' r' [_ Hi']%Hcur'. eauto.
    + intros r' it' e Hr' Hn Hin. unfold is_current in Hn. apply bool_decide_eq_false in Hn.
      destruct (decide (r' = r)) as [->|Hne].
      * simplify_eq. unfold ends_disabled in Hdis. rewrite forallb_forall in Hdis.
        specialize (Hdis e ltac:(by apply list_elem_of_In)). by destruct (n_enabled _ !! e) as [[]|].
      * eapply Hz; eauto. apply bool_decide_eq_false. intros Hcr. apply Hn. simpl.
        rewrite list_lookup_insert_ne; [done|]. intros Heq. rewrite <-Heq in Hcr. congruence.
    + intros sn rs Hreg. destruct (Hsv _ _ Hreg) as (i' & r' & srv & -> & Hh & Hrs & Hcr).
      exists i', r', srv. split_and!; try done. rewrite list_lookup_insert_ne; [done|].
      intros <-. unfold registered in Hreg. unfold peer_name in Hreg. congruence.
  - injection Hst as <-. simpl. intros k c me Hk Hme. eapply wf_call_mono; [|reflexivity|eauto].
    intros r' it' Hr'. exists it'. split_and!; try done. unfold is_current.
    intros Hn%bool_decide_eq_false. apply bool_decide_eq_false. by intros [_ ?]%Hcur'.
Qed.

(** What making the ends of a new instance does. *)
Record ends_made (j : nat) (names : list Key) (st st' : Rpc Payload nat World) : Prop := {
  em_tidy : tidy_reachable st -> tidy_reachable st';
  em_rest : heap st' = heap st /\ calls st' = calls st /\ world st' = world st /\
    execs st' = execs st /\ n_servers (net st') = n_servers (net st);
  em_fresh e : e ∈ names -> n_ends (net st) !! e = None;
  em_old e : e ∉ names ->
    n_connections (net st') !! e = n_connections (net st) !! e /\
    n_enabled (net st') !! e = n_enabled (net st) !! e /\
    n_ends (net st') !! e = n_ends (net st) !! e;
  em_new x e : names !! x = Some e ->
    n_connections (net st') !! e = Some (Some (peer_name (j + x))) /\ is_Some (n_ends (net st') !! e);
}.

Lemma make_ends_made j names st st' :
  rexec (make_ends j names) st = Ok st' -> ends_made j names st st'.
Proof.
  revert j st. induction names as [|e names IH]; intros j st He.
  { injection He as <-. split; try done. set_solver. }
  cbn [make_ends rexec] in He. apply bind_Ok in He as (st1 & H1 & He).
  apply bind_Ok in He as (st2 & H2 & He). destruct (IH (S j) st2 He) as [It Ir If Io In].
  assert (Htd : tidy_reachable st -> tidy_reachable st2).
  { intros Ht. eapply tidy_step; [eapply tidy_step; [exact Ht| |exact H1]| |exact H2]; done. }
  cbn [rstep] in H1. unfold MakeEnd in H1. outcome_inv. simplify_eq/=.
  assert (Hne : e ∉ names).
  { intros Hin. specialize (If e Hin). by rewrite lookup_insert_eq in If. }
  split; try done.
  - auto.
  - intros e' [-> |Hin]%elem_of_cons; [done|]. specialize (If e' Hin).
    by apply lookup_insert_None in If as [? _].
  - intros e' Hin. destruct (Io e') as (-> & -> & ->); [set_solver|].
    rewrite !lookup_insert_ne by set_solver. done.
  - intros [|x] e' Hx; simpl in Hx.
    + injection Hx as <-. destruct (Io e Hne) as (-> & _ & ->). rewrite Nat.add_0_r.
      rewrite !lookup_insert_eq. by split.
    + replace (j + S x)%nat with (S j + x)%nat by lia. by apply In.
Qed.

Lemma wf_make s i names rnd s' : wf s -> net_make n i names rnd s = Ok s' -> wf s'.
Proof.
  intros [Htd Hl [Hc He Hinj Hz Hsv] Hcl] Hs. unfold net_make in Hs. outcome_inv.
  match goal with E : bool_decide (_ = Some None) = true |- _ =>
    apply bool_decide_eq_true in E; rename E into Hnone end.
  match goal with E : rexec _ _ = Ok ?st |- _ =>
    rename st into st1; destruct (make_ends_made _ _ _ _ E) as [Et Er Ef Eo En]; clear E end.
  match goal with E : rstep (RWorld ?w1) st1 = Ok ?st |- _ =>
    rename st into st2; set (w' := w1) in *; rename E into Hst end.
  destruct Er as (Eh & Ec & Ew & Ex & Es).
  assert (Hlt : forall r it, insts (world (rpc s)) !! r = Some it -> (r < length (insts (world (rpc s))))%nat)
    by (intros; by eapply lookup_lt_Some).
  assert (Hcc : forall r it, insts (world (rpc s)) !! r = Some it ->
    is_current r (in_owner it) w' = is_current r (in_owner it) (world (rpc s))).
  { intros r it Hr. unfold is_current, w'. simpl. apply bool_decide_ext.
    specialize (Hlt r it Hr). destruct (decide (in_owner it = i)) as [->|Hne].
    - rewrite list_lookup_insert_eq by (by eapply lookup_lt_Some). rewrite Hnone. naive_solver lia.
    - by rewrite list_lookup_insert_ne. }
  assert (Hold : forall r it e, insts (world (rpc s)) !! r = Some it -> e ∈ in_ends it -> e ∉ names).
  { intros r it e Hr [y Hy]%list_elem_of_lookup_1 Hin. destruct (He r it y e Hr Hy) as [_ [? Hs']].
    by rewrite (Ef e Hin) in Hs'. }
  assert (Hin : forall r it, insts w' !! r = Some it ->
    insts (world (rpc s)) !! r = Some it \/
    (r = length (insts (world (rpc s))) /\ in_owner it = i /\ in_ends it = names)).
  { intros r it Hr. unfold w' in Hr. simpl in Hr. apply lookup_app_Some in Hr as [Hr|[Hge Hr]]; [by left|].
    right. apply list_lookup_singleton_Some in Hr as [Hr <-]. split; [lia|done]. }
  split; simpl.
  - eapply tidy_step; [apply Et, Htd| |exact Hst]; done.
  - injection Hst as <-. simpl. by rewrite Ec.
  - injection Hst as <-. simpl. rewrite Eh. split.
    + unfold w'. simpl. intros i' r Hr.
      apply list_lookup_insert_Some in Hr as [(<- & [= <-] & _)|[_ Hr]].
      * eexists. split; [by apply list_lookup_middle|done].
      * destruct (Hc i' r Hr) as (it & Hit & Ho). exists it. split; [|done]. by apply lookup_app_l_Some.
    + intros r it j e Hr Hj. destruct (Hin r it Hr) as [Hr'|(_ & _ & Hen)].
      * destruct (Eo e) as (-> & _ & ->); [by eapply Hold; [exact Hr'|eapply list_elem_of_lookup_2]|]. eauto.
      * rewrite Hen in Hj. by apply (En j).
    + intros r r' it it' e Hr Hr' E1 E2.
      destruct (Hin r it Hr) as [Hr1|(-> & _ & Hen)], (Hin r' it' Hr') as [Hr1'|(-> & _ & Hen')].
      * eauto.
      * rewrite Hen' in E2. by destruct (Hold r it e Hr1 E1).
      * rewrite Hen in E1. by destruct (Hold r' it' e Hr1' E2).
      * done.
    + intros r it e Hr Hn Hine. destruct (Hin r it Hr) as [Hr'|(-> & Ho & _)].
      * rewrite (Hcc r it Hr') in Hn. destruct (Eo e) as (_ & -> & _); eauto.
      * exfalso. unfold is_current, w' in Hn. simpl in Hn. apply bool_decide_eq_false in Hn. apply Hn.
        rewrite Ho. apply list_lookup_insert_eq. by eapply lookup_lt_Some.
    + intros sn rs. unfold registered. rewrite Es. intros Hreg.
      destruct (Hsv sn rs Hreg) as (i' & r & srv & Hsn & Hhp & Hrs & Hcu). exists i', r, srv.
      split_and!; try done. unfold w'. simpl. rewrite list_lookup_insert_ne; [done|]. congruence.
  - injection Hst as <-. simpl. rewrite Ec, Eh. intros k c me Hk Hme.
    eapply wf_call_mono; [|reflexivity|by eapply Hcl].
    intros r it Hr. exists it. rewrite (Hcc r it Hr). split_and!; try done.
    unfold w'. simpl. by apply lookup_app_l_Some.
Qed.

Lemma wf_add s i s' : wf s -> net_add i s = Ok s' -> wf s'.
Proof.
  intros [Htd Hl [Hc He Hinj Hz Hsv] Hcl] Hs. unfold net_add in Hs.
  apply bind_Ok in Hs as (r & Hr & Hs). apply enabled_Ok, mjoin_Some' in Hr.
  apply bind_Ok in Hs as (st & Hex & [= <-]). cbn [rexec] in Hex.
  apply bind_Ok in Hex as (st1 & H1 & Hex). apply bind_Ok in Hex as (st2 & H2 & [= ->]).
  assert (Htd1 : tidy_reachable st1) by (eapply tidy_step; [exact Htd| |exact H1]; done).
  assert (Htd2 : tidy_reachable st).
  { eapply tidy_step; [exact Htd1| |exact H2]. injection H1 as <-. simpl. apply bool_decide_eq_true.
    intros Hin%(added_heap (rpc s)); [lia|by apply tidy_rreachable]. }
  injection H1 as <-. cbn [rstep] in H2. outcome_inv.
  assert (Hheap : heap_le (heap (rpc s))
    (heap (rpc s) ++ [fold_left (fun rs svc => AddService svc rs) [raft_service r] MakeServer])).
  { intros rs srv Hrs. exists srv. split; [by apply lookup_app_l_Some|done]. }
  split; simpl; try done.
  - split; simpl; try done. unfold registered. simpl. intros sn rs Hreg.
    destruct (decide (sn = peer_name i)) as [->|Hne].
    + rewrite lookup_insert_eq in Hreg. injection Hreg as <-. exists i, r.
      eexists. split_and!; [done|by apply list_lookup_middle|done|done].
    + rewrite lookup_insert_ne in Hreg by done.
      destruct (Hsv sn rs Hreg) as (i' & r' & srv & Hsn & Hhp & Hrs & Hcu).
      exists i', r', srv. split_and!; try done. by apply lookup_app_l_Some.
  - intros k c me Hk Hme. eapply wf_call_mono; [reflexivity|exact Hheap|by eapply Hcl].
Qed.

(** ** All executions *)

Lemma wf_step s ev s' : wf s -> nstep n ev s = Ok s' -> wf s'.
Proof.
  intros Hwf. destruct ev; cbn [nstep]; intros Hs.
  - by eapply wf_local.
  - by eapply wf_result.
  - outcome_inv. by eapply wf_rpc.
  - by eapply wf_enable.
  - outcome_inv. by eapply wf_delete.
  - by eapply wf_save.
  - by eapply wf_make.
  - by eapply wf_add.
Qed.

Lemma wf_init : wf (ninit n).
Proof.
  split; simpl; [constructor|done| |done]. split; simpl; try done.
  intros i r Hi. apply lookup_replicate in Hi as [? _]. done.
Qed.

Lemma wf_reachable s : nreachable n s -> wf s.
Proof. induction 1; eauto using wf_init, wf_step. Qed.
End Inv.
