(* ===== verification/RaftNetSim.v ===== *)
(** * Raft over the RPC network refines the cluster

    Every execution of [RaftNet] is an execution of [Cluster]: the current
    instances are the peers of the cluster, a call that has not been executed
    is its request in flight, and a call that has been executed on a live
    server and whose caller has not seen the result is its reply in flight
    ([sim]).  The cluster may have more messages in flight, which are never
    delivered: a lost request or reply needs no step.

    A handler that runs on an instance that was replaced has no counterpart;
    its reply cannot reach the caller ([live_inv]).  Restarting a peer
    is the crash event of the cluster, at the moment [Make] is called. *)

From S2P Require Import Prelude Gob Persister Raft Vote Entry Cluster LabRpc LabRpcInv RaftNet RaftNetInv.

(** ** Messages in a network that may hold more *)

Lemma submseteq_deliver {A} (m : A) L N :
  m :: L ⊆+ N -> exists i, N !! i = Some m /\ L ⊆+ delete i N.
Proof.
  intros Hs. assert (Hin : m ∈ N) by (eapply elem_of_submseteq; [|exact Hs]; set_solver).
  apply list_elem_of_lookup in Hin as [i Hi]. exists i. split; [done|].
  rewrite (delete_Permutation N i m Hi) in Hs. by apply (submseteq_app_inv_l L (delete i N) [m]) in Hs.
Qed.

Section Sim.
Context `{GobCodec} `{RaftCodec}.
Variable n : nat.
(** Whether only clean events are considered ([clean_net]). *)
Variable strict : bool.
Local Notation Call := (Call Payload nat World).

(** ** Messages in flight *)

(** The message a call stands for, given its executions. *)
Definition contrib (me : Meta) (var : Payload) (xs : list (Exec Payload)) : list Msg :=
  if me_fresh me then
    match xs with
    | [] => [me_msg me]
    | x :: _ =>
        if x_live x && negb (me_done me)
        then [mkMsg (m_id (me_msg me)) (m_dst (me_msg me)) (m_src (me_msg me))
                (rpc_decode (x_reply x) var).1]
        else []
    end
  else [].

Definition msgs (s : RaftNet) (k : nat) : list Msg :=
  match calls (rpc s) !! k, metas s !! k with
  | Some c, Some me => contrib me (c_var c) (runs k (execs (rpc s)))
  | _, _ => []
  end.

Definition inflight (s : RaftNet) : list Msg :=
  seq 0 (length (calls (rpc s))) ≫= msgs s.

(** ** The relation *)

Record world_sim (w : World) (c : Cluster) : Prop := {
  ws_len : length (cur w) = length (nodes c);
  ws_saved : length (saved w) = length (cur w);
  ws_cur i r it : cur w !! i = Some (Some r) -> insts w !! r = Some it ->
    nodes c !! i = Some (in_node it);
  ws_none i : cur w !! i = Some None ->
    exists nd, nodes c !! i = Some nd /\
      restart_persister (persister (raft nd)) = boot_persister (mjoin (saved w !! i)) /\
      (strict = true -> role (raft nd) <> Leader);
  ws_next : next_id c = w_next w;
  ws_granted : granted c = w_granted w;
  ws_won : won c = w_won w;
}.

Record sim (s : RaftNet) (c : Cluster) : Prop := {
  sim_world : world_sim (world (rpc s)) c;
  sim_net : inflight s ⊆+ Cluster.net c;
}.

(** ** The messages of one call *)

Lemma bind_seq_ext (f g : nat -> list Msg) a len :
  (forall k, (a <= k < a + len)%nat -> f k = g k) -> seq a len ≫= f = seq a len ≫= g.
Proof.
  revert a. induction len as [|len IH]; intros a Hfg; [done|]. simpl.
  rewrite (Hfg a) by lia. f_equal. apply IH. intros k Hk. apply Hfg. lia.
Qed.

Lemma inflight_split s k :
  (k < length (calls (rpc s)))%nat ->
  inflight s = (seq 0 k ≫= msgs s) ++ msgs s k ++
               (seq (S k) (length (calls (rpc s)) - S k) ≫= msgs s).
Proof.
  intros Hk. unfold inflight.
  replace (length (calls (rpc s))) with (k + S (length (calls (rpc s)) - S k))%nat at 1 by lia.
  rewrite seq_app, bind_app. done.
Qed.

(** Two states that differ in the messages of call [k]. *)
Lemma inflight_update s s' k :
  length (calls (rpc s')) = length (calls (rpc s)) -> (k < length (calls (rpc s)))%nat ->
  (forall j, j <> k -> msgs s' j = msgs s j) ->
  exists rest, inflight s ≡ₚ msgs s k ++ rest /\ inflight s' ≡ₚ msgs s' k ++ rest.
Proof.
  intros Hl Hk Hj.
  exists ((seq 0 k ≫= msgs s) ++ (seq (S k) (length (calls (rpc s)) - S k) ≫= msgs s)).
  rewrite (inflight_split s k Hk), (inflight_split s' k) by lia. rewrite Hl.
  rewrite (bind_seq_ext (msgs s') (msgs s) 0 k) by (intros; apply Hj; lia).
  rewrite (bind_seq_ext (msgs s') (msgs s) (S k)) by (intros; apply Hj; lia).
  split; apply Permutation_app_swap_app.
Qed.

Lemma inflight_same s s' :
  length (calls (rpc s')) = length (calls (rpc s)) ->
  (forall k, msgs s' k = msgs s k) -> inflight s' = inflight s.
Proof. intros Hl Hm. unfold inflight. rewrite Hl. apply bind_seq_ext. auto. Qed.

(** A new call. *)
Lemma inflight_push s c me st' :
  wf s -> rpc st' = push_call c (rpc s) -> metas st' = metas s ++ [me] ->
  inflight st' = inflight s ++ (if me_fresh me then [me_msg me] else []).
Proof.
  intros Hwf Hr Hm. unfold inflight. rewrite Hr. simpl. rewrite length_app. simpl.
  rewrite Nat.add_1_r, seq_S, bind_app. simpl. rewrite app_nil_r. f_equal.
  - apply bind_seq_ext. intros k Hk. unfold msgs. rewrite Hr, Hm. simpl.
    rewrite !lookup_app_l by (rewrite ?(wf_len s Hwf); lia). done.
  - unfold msgs. rewrite Hr, Hm. simpl.
    rewrite list_lookup_middle by done. rewrite list_lookup_middle by (by rewrite (wf_len s Hwf)).
    unfold contrib. rewrite runs_fresh; [by destruct (me_fresh me)|].
    destruct (call_inv_reachable (rpc s)) as [_ Hx]; [by apply tidy_rreachable, wf_tidy|done].
Qed.

(** ** Steps of instances *)

Lemma world_sim_current w rn hp c r it eff msgs' :
  wf_net w rn hp -> world_sim w c -> insts w !! r = Some it ->
  is_current r (in_owner it) w = true ->
  world_sim (step_inst r it eff w)
    (mkCluster (<[in_owner it := ef_node eff]> (nodes c)) msgs' (S (next_id c))
       (granted c ++ ef_granted eff) (won c ++ ef_won eff)).
Proof.
  intros Hwf [Hl Hsv Hc Hn Hx Hg Hw] Hr Hcur. pose proof Hcur as Hcu. unfold is_current in Hcu.
  apply bool_decide_eq_true in Hcu.
  split; rewrite ?cur_step_inst, ?saved_step_inst; simpl; rewrite ?length_insert; try done.
  - intros i r' it' Hi. rewrite insts_step_inst. intros Hr'.
    apply list_lookup_insert_Some in Hr' as [(<- & <- & _)|[Hne Hr']].
    + destruct (wf_cur _ _ _ Hwf _ _ Hi) as (it0 & Hr0 & Ho). simplify_eq. simpl.
      apply list_lookup_insert_eq. rewrite <-Hl. by eapply lookup_lt_Some.
    + rewrite list_lookup_insert_ne; [eauto|]. intros <-. congruence.
  - intros i Hi. destruct (Hn i Hi) as (nd & Hnd & Hp). exists nd. split; [|done].
    rewrite list_lookup_insert_ne; [done|]. intros <-. congruence.
  - unfold step_inst. rewrite Hcur. simpl. by rewrite Hx.
  - unfold step_inst. rewrite Hcur. simpl. by rewrite Hg.
  - unfold step_inst. rewrite Hcur. simpl. by rewrite Hw.
Qed.

Lemma world_sim_zombie w rn hp c r it eff :
  wf_net w rn hp -> world_sim w c -> insts w !! r = Some it ->
  is_current r (in_owner it) w = false -> world_sim (step_inst r it eff w) c.
Proof.
  intros Hwf [Hl Hsv Hc Hn Hx Hg Hw] Hr Hcur. pose proof Hcur as Hcu. unfold is_current in Hcu.
  apply bool_decide_eq_false in Hcu.
  split; rewrite ?cur_step_inst, ?saved_step_inst; simpl; try done;
    try (unfold step_inst; rewrite Hcur; done).
  intros i r' it' Hi. rewrite insts_step_inst. intros Hr'.
  apply list_lookup_insert_Some in Hr' as [(<- & <- & _)|[Hne Hr']]; [|eauto].
  destruct (wf_cur _ _ _ Hwf _ _ Hi) as (it0 & Hr0 & Ho). simplify_eq.
Qed.

(** Calls made by a step. *)
Lemma inflight_sends r it fresh ms s s' :
  wf s -> inst_like it r (world (rpc s)) ->
  (fresh = false -> is_current r (in_owner it) (world (rpc s)) = false) ->
  (forall m, m ∈ ms -> is_reply (m_body m) = false /\ m_src m = in_owner it) ->
  send_calls r it fresh ms s = Ok s' ->
  inflight s' = inflight s ++ (if fresh then ms else []).
Proof.
  revert s. induction ms as [|m ms IH]; intros s Hwf Hi Hf Hm Hs.
  { injection Hs as <-. destruct fresh; by rewrite app_nil_r. }
  cbn [send_calls] in Hs. apply bind_Ok in Hs as (s1 & H1 & Hs).
  destruct (Hm m) as [Hq Hsrc]; [set_solver|].
  destruct (wf_send_call s r it fresh m s1) as [Hwf1 Hw1]; try done.
  rewrite (IH s1); rewrite ?Hw1; try done; [|set_solver].
  unfold send_call in H1. outcome_inv.
  match goal with E : rstep _ _ = Ok _ |- _ => injection E as <- end.
  erewrite inflight_push; [|exact Hwf|reflexivity|reflexivity]. simpl. destruct fresh; simpl.
  - by rewrite <-app_assoc.
  - by rewrite !app_nil_r.
Qed.

(** A step of the cluster, clean if only such are considered, or none. *)
Definition maybe_step (c c' : Cluster) : Prop :=
  c' = c \/ exists ev, (strict = true -> clean n ev c = true) /\ cstep n ev c = Ok c'.

Lemma sim_local s c r ev s' :
  wf s -> sim s c -> (strict = true -> clean_net n (NLocal r ev) s = true) ->
  net_local n r ev s = Ok s' -> exists c', maybe_step c c' /\ sim s' c'.
Proof.
  intros Hwf [Hw Hnet] Hclean Hs. pose proof (wf_struct s Hwf) as Hst. unfold net_local in Hs. outcome_inv.
  match goal with E : insts _ !! r = Some ?it0 |- _ => rename it0 into it; rename E into Hr end.
  match goal with E : local _ _ _ _ _ = Ok ?e |- _ => rename e into eff; rename E into Hloc end.
  match goal with E : rstep _ _ = Ok ?e |- _ => rename e into st; rename E into Hrs end.
  bool_to_prop. match goal with E : is_deliver ev = false |- _ => rename E into Hnd end.
  pose proof (wf_step_world _ _ _ _ _ Hwf Hr Hrs) as Hwf1.
  assert (Hlike : inst_like it r (world st)).
  { injection Hrs as <-. destruct (step_inst_le r it eff _ Hr r it Hr) as (it1 & ? & ? & ? & _). by exists it1. }
  assert (Hcur : is_current r (in_owner it) (world st) = is_current r (in_owner it) (world (rpc s))).
  { injection Hrs as <-. apply is_current_cur, cur_step_inst. }
  assert (Hmsg : forall m, m ∈ ef_send eff -> is_reply (m_body m) = false /\ m_src m = in_owner it).
  { intros m Hm. by eapply local_sends. }
  assert (Hfl := inflight_sends _ _ _ _ _ _ Hwf1 Hlike (fun E => eq_trans Hcur E) Hmsg Hs).
  destruct (wf_send_calls _ _ _ _ _ _ Hwf1 Hlike (fun E => eq_trans Hcur E) Hmsg Hs) as [_ Hws].
  injection Hrs as <-. simpl in *. change (inflight (mkRaftNet _ (metas s))) with (inflight s) in Hfl.
  destruct (is_current r (in_owner it) (world (rpc s))) eqn:Hc.
  - exists (apply_effect (in_owner it) eff c). split.
    + right. exists (EvLocal (in_owner it) ev). cbn [cstep clean]. rewrite Hnd. simpl.
      simpl in Hclean. rewrite Hr, Hc in Hclean.
      unfold is_current in Hc. apply bool_decide_eq_true in Hc.
      rewrite (ws_cur _ _ Hw _ _ _ Hc Hr). simpl. by rewrite (ws_next _ _ Hw), Hloc.
    + split; [rewrite Hws; by eapply world_sim_current|].
      rewrite Hfl. simpl. by apply submseteq_app.
  - exists c. split; [by left|]. split; [rewrite Hws; by eapply world_sim_zombie|].
    by rewrite Hfl, app_nil_r.
Qed.

(** Delivering a message the cluster has in flight. *)
Lemma deliver_step c m rest nd eff rnd :
  m :: rest ⊆+ Cluster.net c -> nodes c !! m_dst m = Some nd ->
  local_deliver (m_dst m) m rnd nd = Ok eff ->
  exists msgs', maybe_step c
    (mkCluster (<[m_dst m := ef_node eff]> (nodes c)) msgs' (S (next_id c))
       (granted c ++ ef_granted eff) (won c ++ ef_won eff)) /\
    rest ++ ef_send eff ⊆+ msgs'.
Proof.
  intros Hs Hnd Hl. destruct (submseteq_deliver _ _ _ Hs) as (i & Hi & Hrest).
  exists (delete i (Cluster.net c) ++ ef_send eff). split; [|by apply submseteq_app].
  right. exists (EvDeliver i rnd). split; [done|]. cbn [cstep]. rewrite Hi. simpl. rewrite Hnd. simpl.
  by rewrite Hl.
Qed.

Lemma sim_result s c k rnd s' :
  wf s -> sim s c -> net_result k rnd s = Ok s' -> exists c', maybe_step c c' /\ sim s' c'.
Proof.
  intros Hwf [Hw Hnet] Hs. pose proof (wf_struct s Hwf) as Hst. unfold net_result in Hs.
  apply bind_Ok in Hs as (cl & Hk & Hs). apply enabled_Ok in Hk.
  apply bind_Ok in Hs as (me & Hme & Hs). apply enabled_Ok in Hme.
  apply bind_Ok in Hs as (u & Hnd & Hs). apply guard_Ok, negb_true_iff in Hnd.
  destruct (c_pc cl) as [| | | | | | |[v|]] eqn:Hpc; try done. outcome_inv.
  match goal with E : insts _ !! _ = Some ?it0 |- _ => rename it0 into it; rename E into Hr end.
  match goal with E : local_deliver _ _ _ _ = Ok ?e |- _ => rename e into eff; rename E into Hloc end.
  match goal with E : rstep _ _ = Ok ?e |- _ => injection E as <- end.
  pose proof (wf_calls s Hwf k cl me Hk Hme) as Hwc.
  destruct (wc_inst _ _ _ _ Hwc) as (it0 & e & Hi & _ & Hsrc & _ & Hfr). simplify_eq.
  destruct (call_inv_reachable (rpc s)) as [Hok _]; [by apply tidy_rreachable, wf_tidy|].
  specialize (Hok k cl Hk). unfold call_ok in Hok. rewrite Hpc in Hok.
  destruct Hok as (_ & t & r & y & Hruns & (_ & Hry & _) & Hdec).
  pose proof (li_live _ (live_inv_reachable _ (wf_tidy s Hwf)) k cl Hk) as Hlive.
  unfold live_ok in Hlive. rewrite Hpc in Hlive. specialize (Hlive y). rewrite Hruns in Hlive.
  set (s1 := mkRaftNet _ _).
  assert (Hm' : msgs s1 k = []).
  { unfold msgs, s1. simpl. rewrite Hk, list_lookup_insert_eq by (by eapply lookup_lt_Some).
    rewrite Hruns. unfold contrib. simpl. rewrite andb_false_r. by destruct (me_fresh me). }
  destruct (inflight_update s s1 k) as (rest & Hin & Hin'); [done|by eapply lookup_lt_Some| |].
  { intros j Hj. unfold msgs, s1. simpl. by rewrite list_lookup_insert_ne. }
  rewrite Hm' in Hin'. simpl in Hin'.
  destruct (is_current (me_inst me) (in_owner it) (world (rpc s))) eqn:Hc.
  - destruct (me_fresh me) eqn:Hfresh; [|discriminate (Hfr eq_refl)].
    assert (Hm : msgs s k = [mkMsg (m_id (me_msg me)) (m_dst (me_msg me)) (m_src (me_msg me)) v]).
    { unfold msgs. rewrite Hk, Hme, Hruns. unfold contrib.
      rewrite Hfresh, Hlive by set_solver. rewrite Hnd. simpl. by rewrite <-Hry, Hdec. }
    rewrite Hin, Hm in Hnet.
    pose proof Hc as Hcu. unfold is_current in Hcu. apply bool_decide_eq_true in Hcu.
    rewrite <-Hsrc in Hcu, Hloc.
    destruct (deliver_step c _ rest (in_node it) eff rnd Hnet) as (msgs' & Hstep & Hsub).
    { exact (ws_cur _ _ Hw _ _ _ Hcu Hr). }
    { exact Hloc. }
    simpl in Hstep. rewrite Hsrc in Hstep. eexists. split; [exact Hstep|]. split.
    + by eapply world_sim_current.
    + simpl. rewrite Hin'. etrans; [|exact Hsub]. apply submseteq_inserts_r. done.
  - exists c. split; [by left|]. split; [by eapply world_sim_zombie|].
    rewrite Hin'. rewrite Hin in Hnet. etrans; [|exact Hnet]. apply submseteq_inserts_l. done.
Qed.

(** ** Steps of the network *)

Lemma sim_handle s c k rnd st' :
  wf s -> sim s c -> step_handle k rnd (rpc s) = Ok st' ->
  exists c', maybe_step c c' /\ sim (mkRaftNet st' (metas s)) c'.
Proof.
  intros Hwf [Hw Hnet] Hs. pose proof (wf_struct s Hwf) as Hst.
  destruct (handle_step s k rnd st' Hwf Hs) as (cl & me & t & r & it & eff & v & Hd).
  destruct Hd as [Hk Hme (svc & m & Hrun) (srv & Hsrv & Hrs) Hname Hr Ho Hdl Hsend Hv Hty [a ->]].
  set (live := bool_decide _). set (s1 := mkRaftNet _ _).
  pose proof (wf_calls s Hwf k cl me Hk Hme) as Hwc.
  assert (Hfresh : me_fresh me = true).
  { destruct (me_fresh me) eqn:E; [done|]. destruct (wc_stale _ _ _ _ Hwc E) as [Hh _]. congruence. }
  destruct (call_inv_reachable (rpc s)) as [Hok _]; [by apply tidy_rreachable, wf_tidy|].
  pose proof (call_ok_running _ _ _ _ _ (Hok k cl Hk) Hrun) as Hruns.
  pose proof (lookup_lt_Some _ _ _ Hk) as Hlt.
  assert (Hm : msgs s k = [me_msg me]).
  { unfold msgs. rewrite Hk, Hme, Hruns. unfold contrib. by rewrite Hfresh. }
  assert (Hm' : msgs s1 k ⊆+ if live then ef_send eff else []).
  { unfold msgs, s1. simpl. rewrite list_lookup_insert_eq, Hme, runs_app, Hruns by done. simpl.
    rewrite (runs_all k [_]) by set_solver. unfold contrib. rewrite Hfresh. simpl.
    destruct live; [|done]. destruct (me_done me); simpl; [apply submseteq_nil_l|].
    rewrite (wc_var _ _ _ _ Hwc), <-Hty, <-raft_typeof, rpc_decode_encode, Hsend. done. }
  destruct (inflight_update s s1 k) as (rest & Hin & Hin').
  { unfold s1. simpl. by rewrite length_insert. }
  { done. }
  { intros j Hj. unfold msgs, s1. simpl. rewrite list_lookup_insert_ne by done.
    rewrite runs_app, (runs_fresh_ne j [_]) by (intros y ->%list_elem_of_singleton; simpl; done).
    by rewrite app_nil_r. }
  rewrite Hin, Hm in Hnet.
  destruct (is_current r (in_owner it) (world (rpc s))) eqn:Hc.
  - pose proof Hc as Hcu. unfold is_current in Hcu. apply bool_decide_eq_true in Hcu. rewrite Ho in Hcu.
    destruct (deliver_step c _ rest (in_node it) eff rnd Hnet) as (msgs' & Hstep & Hsub).
    { exact (ws_cur _ _ Hw _ _ _ Hcu Hr). }
    { exact Hdl. }
    eexists. split; [exact Hstep|]. split.
    + unfold s1. simpl. unfold dst in Ho. rewrite <-Ho. by eapply world_sim_current.
    + simpl. rewrite Hin'. etrans; [|exact Hsub]. rewrite (Permutation_app_comm rest).
      apply submseteq_app; [|done]. etrans; [exact Hm'|].
      destruct live; [done|apply submseteq_nil_l].
  - assert (Hdead : live = false).
    { apply bool_decide_eq_false. intros Hreg. rewrite Hname in Hreg.
      destruct (wf_serv _ _ _ Hst _ _ Hreg) as (i & r' & srv' & Hi & Hsrv' & Hrs' & Hcu).
      rewrite Hsrv in Hsrv'. injection Hsrv' as <-.
      rewrite (raft_server_inj _ _ _ Hrs' Hrs) in Hcu. unfold peer_name in Hi.
      apply bool_decide_eq_false in Hc. apply Hc. rewrite Ho. replace (dst me) with i; [done|].
      injection Hi. lia. }
    rewrite Hdead in Hm'. apply submseteq_nil_r in Hm'. rewrite Hm' in Hin'. simpl in Hin'.
    exists c. split; [by left|]. split; [by eapply world_sim_zombie|].
    rewrite Hin'. etrans; [|exact Hnet]. by apply submseteq_cons.
Qed.

Lemma sim_rpc s c ev st' :
  wf s -> sim s c -> network_event ev = true -> rstep ev (rpc s) = Ok st' ->
  exists c', maybe_step c c' /\ sim (mkRaftNet st' (metas s)) c'.
Proof.
  intros Hwf Hsim Hn Hs.
  assert ((exists k rnd, ev = RHandle k rnd) \/ forall k rnd, ev <> RHandle k rnd) as [(k & rnd & ->)|Hne].
  { destruct ev; eauto; by right. }
  { by eapply sim_handle. }
  destruct Hsim as [Hw Hnet]. exists c. split; [by left|].
  destruct (network_frame _ _ _ Hn Hs) as (_ & _ & _ & _ & _ & [Hwd|(k & rnd & ->)]); [|by destruct (Hne k rnd)].
  pose proof (rstep_execs _ _ _ Hs Hne) as Hx. split; simpl; [by rewrite Hwd|].
  erewrite inflight_same; [exact Hnet|..]; simpl;
    destruct (rstep_calls _ _ _ Hs) as [Hc _ _|e meth a var _ _ ->|k cl cl' xs Hk Hc _ _ _ _ Hcs]; try done.
  - by rewrite Hc.
  - by rewrite Hc, length_insert.
  - intros j. unfold msgs. simpl. by rewrite Hc, Hx.
  - intros j. unfold msgs. simpl. rewrite Hc, Hx. destruct (decide (j = k)) as [->|Hj].
    + rewrite Hk, list_lookup_insert_eq by (by eapply lookup_lt_Some).
      by destruct (call_step_req _ _ _ _ _ _ Hcs) as [_ ->].
    + by rewrite list_lookup_insert_ne.
Qed.

(** ** Steps of the tester *)

(** Steps that leave calls, executions and instances alone. *)
Lemma sim_frame s c st' :
  sim s c -> calls st' = calls (rpc s) -> execs st' = execs (rpc s) ->
  world st' = world (rpc s) -> sim (mkRaftNet st' (metas s)) c.
Proof.
  intros [Hw Hnet] Hc Hx Hwd. split; simpl; [by rewrite Hwd|].
  erewrite inflight_same; [exact Hnet|by simpl; rewrite Hc|].
  intros k. unfold msgs. simpl. by rewrite Hc, Hx.
Qed.

Lemma sim_save s c i s' :
  wf s -> sim s c -> (strict = true -> clean_net n (NSave i) s = true) ->
  net_save i s = Ok s' -> sim s' c.
Proof.
  intros Hwf [Hw Hnet] Hclean Hs. unfold net_save in Hs. outcome_inv.
  match goal with E : rstep _ _ = Ok _ |- _ => injection E as <- end.
  match goal with E : mjoin _ = Some ?r0 |- _ => rename r0 into r; apply mjoin_Some' in E; rename E into Hcu end.
  match goal with E : insts _ !! r = Some ?it0 |- _ => rename it0 into it; rename E into Hr end.
  destruct Hw as [Hl Hsv Hc Hn Hx Hg Hwn]. split; [|exact Hnet].
  split; simpl; rewrite ?length_insert; try done.
  - intros i' r' it' Hi. apply list_lookup_insert_Some in Hi as [(_ & ? & _)|[_ Hi]]; [done|eauto].
  - intros i' Hi. destruct (decide (i' = i)) as [->|Hne].
    + exists (in_node it). split_and!; [eauto| |].
      * by rewrite list_lookup_insert_eq by (rewrite Hsv; by eapply lookup_lt_Some).
      * intros E. specialize (Hclean E). simpl in Hclean. rewrite Hcu in Hclean. simpl in Hclean.
        rewrite Hr in Hclean. by apply negb_true_iff, bool_decide_eq_false in Hclean.
    + rewrite list_lookup_insert_ne by done. rewrite list_lookup_insert_ne in Hi by done. eauto.
Qed.

Lemma sim_make s c i names rnd s' :
  wf s -> sim s c -> net_make n i names rnd s = Ok s' -> exists c', maybe_step c c' /\ sim s' c'.
Proof.
  intros Hwf [Hw Hnet] Hs. pose proof (wf_struct s Hwf) as Hst. unfold net_make in Hs. outcome_inv.
  match goal with E : bool_decide (_ = Some None) = true |- _ =>
    apply bool_decide_eq_true in E; rename E into Hnone end.
  match goal with E : rexec _ _ = Ok ?st |- _ =>
    rename st into st1; destruct (make_ends_made _ _ _ _ E) as [_ (Eh & Ec & Ew & Ex & Es) _ _ _]; clear E end.
  match goal with E : rstep _ st1 = Ok _ |- _ => injection E as <- end.
  destruct Hw as [Hl Hsv Hc Hn Hx Hg Hwn]. destruct (Hn i Hnone) as (nd & Hnd & Hps & Hrole).
  exists (apply_effect i (Cluster.quiet (fresh_node
    (Make n (Z.of_nat i) (restart_persister (persister (raft nd))) rnd))) c). split.
  { right. exists (EvLocal i (LCrash rnd)). cbn [cstep clean]. simpl. rewrite Hnd. split; [|done].
    intros E%Hrole. by apply negb_true_iff, bool_decide_eq_false. }
  pose proof (lookup_lt_Some _ _ _ Hnone) as Hlt.
  split; simpl.
  - split; simpl; rewrite ?length_insert, ?app_nil_r; try done; [| |by rewrite Hx].
    + intros i' r it Hi Hr. apply list_lookup_insert_Some in Hi as [(<- & [= <-] & _)|[Hne Hi]].
      * rewrite list_lookup_middle in Hr by done. injection Hr as <-. simpl. rewrite Hps.
        apply list_lookup_insert_eq. lia.
      * rewrite list_lookup_insert_ne by done. destruct (wf_cur _ _ _ Hst _ _ Hi) as (it0 & Hr0 & _).
        rewrite lookup_app_l in Hr by (by eapply lookup_lt_Some). eauto.
    + intros i' Hi. apply list_lookup_insert_Some in Hi as [(_ & ? & _)|[Hne Hi]]; [done|].
      rewrite list_lookup_insert_ne by done. eauto.
  - rewrite app_nil_r. erewrite inflight_same; [exact Hnet|by simpl; rewrite Ec|].
    intros k. unfold msgs. simpl. by rewrite Ec, Ex.
Qed.

(** ** Refinement *)

Lemma sim_step s c ev s' :
  wf s -> sim s c -> (strict = true -> clean_net n ev s = true) -> nstep n ev s = Ok s' ->
  exists c', maybe_step c c' /\ sim s' c'.
Proof.
  intros Hwf Hsim Hclean. destruct ev; cbn [nstep]; intros Hs.
  - by eapply sim_local.
  - by eapply sim_result.
  - outcome_inv. by eapply sim_rpc.
  - exists c. split; [by left|]. unfold net_enable in Hs. outcome_inv.
    match goal with E : rstep _ _ = Ok _ |- _ => injection E as <- end. by apply sim_frame.
  - exists c. split; [by left|]. outcome_inv.
    match goal with E : rstep _ _ = Ok _ |- _ => injection E as <- end. by apply sim_frame.
  - exists c. split; [by left|by eapply sim_save].
  - by eapply sim_make.
  - exists c. split; [by left|]. unfold net_add in Hs. outcome_inv. cbn [rexec rstep] in *. outcome_inv.
    by apply sim_frame.
Qed.

Lemma restart_fresh i rnd :
  restart_persister (persister (Make n i MakePersister rnd)) = MakePersister.
Proof. done. Qed.

Lemma sim_init : sim (ninit n) (init n (fun _ => 0)).
Proof.
  split; [|done]. split; simpl; rewrite ?length_replicate, ?length_map, ?length_seq; try done.
  intros i Hi. apply lookup_replicate in Hi as [_ Hlt]. eexists. split_and!.
  - apply list_lookup_fmap_Some. exists i. split; [reflexivity|by apply lookup_seq].
  - rewrite lookup_replicate_2 by done. apply restart_fresh.
  - intros _. change (role (Make n (Z.of_nat i) MakePersister 0) <> Leader).
    destruct (Make_frame n (Z.of_nat i) MakePersister 0) as (_ & _ & _ & -> & _). done.
Qed.
End Sim.

Section Reachable.
Context `{GobCodec} `{RaftCodec}.
Variable n : nat.

(** Every execution over the RPC network is simulated by the cluster. *)
Lemma sim_reachable s : nreachable n s -> exists c, reachable n c /\ sim false s c.
Proof.
  induction 1 as [|s ev s' Hr (c & Hc & Hsim) Hs].
  { exists (init n (fun _ => 0)). split; [constructor|apply sim_init]. }
  destruct (sim_step n false s c ev s' (wf_reachable n s Hr) Hsim ltac:(done) Hs)
    as (c' & [-> |(ev' & _ & Hev)] & Hsim'); [by eauto|].
  exists c'. split; [by eapply reach_step|done].
Qed.

Lemma nclean_nreachable s s' : nclean_steps n s s' -> nreachable n s -> nreachable n s'.
Proof. induction 1 as [|s ev s' s'' _ IH _ Hs]; [done|]. intros Hr. eapply nreach_step; [by apply IH|exact Hs]. Qed.

(** Every clean one by a clean execution of the cluster. *)
Lemma clean_sim_reachable s : nclean_reachable n s -> exists c, clean_reachable n c /\ sim true s c.
Proof.
  intros Hs. assert (Hi : nreachable n (ninit n)) by constructor. unfold nclean_reachable in Hs.
  remember (ninit n) as s0 eqn:Es. induction Hs as [s0|s0 ev s s' Hr IH Hcl Hs]; subst s0.
  { exists (init n (fun _ => 0)). split; [constructor|apply sim_init]. }
  destruct IH as (c & Hc & Hsim); [done..|].
  destruct (sim_step n true s c ev s' (wf_reachable n s (nclean_nreachable _ _ Hr Hi)) Hsim (fun _ => Hcl) Hs)
    as (c' & [-> |(ev' & Hev & Hstep)] & Hsim'); [by eauto|].
  exists c'. split; [by eapply clean_step; eauto|done].
Qed.
End Reachable.
