(* ===== verification/ClusterInv.v ===== *)
(** * Invariants of every execution

    What holds of a cluster whatever the network, the timers and crashes do:
    no critical section panics (the apply loop is treated apart), storage
    agrees with memory whenever the mutex is free, logs keep their shape,
    commands are applied in order, and nobody votes twice in a term. *)

From S2P Require Import Prelude Timer Gob Persister Raft Vote Entry Cluster.

(** Projections of updated nodes and effects, without touching [Raft]. *)
Ltac node_simpl :=
  cbn [ef_node ef_send ef_granted ef_won quiet raft lock egor hgor starts
       set_raft set_lock set_egor set_hgor set_starts] in *.

Section Invariants.
Context `{GobCodec}.
Variable n : nat.

(** ** Saved state *)

(** The state a restart would recover from a persister. *)
Definition saved (ps : Persister) : Z * Z * list LogEntry := pstate (Make 0 0 ps 0).

Lemma readPersist_pstate data rf rf' :
  pstate rf = pstate rf' -> pstate (readPersist data rf) = pstate (readPersist data rf').
Proof.
  intros Hp. unfold readPersist. destruct (zlen data <? 1); [done|].
  by destruct (_ : option _) as [[[? ?] ?]|].
Qed.

(** Only the saved bytes matter to the state a restart recovers. *)
Lemma Make_pstate_indep m i ps rnd m' i' ps' rnd' :
  raftstate ps = raftstate ps' -> pstate (Make m i ps rnd) = pstate (Make m' i' ps' rnd').
Proof.
  intros Hps. unfold Make, ReadRaftState. cbn zeta. rewrite Hps.
  set (r1 := readPersist (raftstate ps') (mkRaft m ps i 0 Follower _ _ _ _ _ _ _ _ _)).
  set (r2 := readPersist (raftstate ps') (mkRaft m' ps' i' 0 Follower _ _ _ _ _ _ _ _ _)).
  assert (H12 : pstate r1 = pstate r2) by by apply readPersist_pstate.
  change (pstate (set_electionTimer _ (set_matchIndex _ (set_nextIndex _ ?x)))) with (pstate x).
  assert (Hl : logEntries r1 = logEntries r2) by (unfold pstate in H12; congruence).
  rewrite Hl. destruct (_ =? 0); apply readPersist_pstate; [|done].
  unfold pstate in *. simpl. congruence.
Qed.

Lemma Make_saved m i ps rnd : pstate (Make m i ps rnd) = saved ps.
Proof. by apply Make_pstate_indep. Qed.

Lemma saved_persist_data ps rf : raftstate ps = persist_data rf -> saved ps = pstate rf.
Proof. intros Hps. by apply Make_pstate_saved. Qed.

Lemma saved_raftstate ps ps' : raftstate ps = raftstate ps' -> saved ps = saved ps'.
Proof. intros Hr. by apply Make_pstate_indep. Qed.

Lemma saved_restart ps : saved (restart_persister ps) = saved ps.
Proof. by apply saved_raftstate. Qed.

Lemma saved_fresh : saved MakePersister = (0, -1, [mkEntry 0 0 INil]).
Proof. by apply Make_pstate_fresh. Qed.

(** ** One peer *)

(** Has been leader in this incarnation, or never sends heartbeats. *)
Definition may_beat (nd : Node) : Prop :=
  role (raft nd) = Leader \/ egor nd = EWon \/ (exists l, egor nd = EBeats l) \/ hgor nd <> [] \/
  (exists id s a, lock nd = Some (OpHeartbeat id s a)).

Record raft_ok (i : nat) (rf : Raft) : Prop := {
  ro_peers : peers rf = n;
  ro_me : me rf = Z.of_nat i;
  ro_in : (i < n)%nat;
  ro_log : log_shape (logEntries rf);
  ro_next : length (nextIndex rf) = n;
  ro_match : length (matchIndex rf) = n;
  ro_term : 0 <= term rf;
  ro_timer : timer_ok (electionTimer rf);
  ro_applied : applied_in_order rf;
}.

(** Heartbeats go to peers of the cluster. *)
Definition todo_ok (nd : Node) : Prop :=
  (forall l, egor nd = EBeats l -> Forall (fun s => s < n)%nat l) /\ Forall (fun s => s < n)%nat (hgor nd).

(** What the mutex protects is on stable storage whenever it is free, and
    during a heartbeat call; a running election has not saved its term yet. *)
Definition lock_ok (i : nat) (nd : Node) : Prop :=
  match lock nd with
  | None => saved (persister (raft nd)) = pstate (raft nd)
  | Some (OpHeartbeat _ s _) =>
      saved (persister (raft nd)) = pstate (raft nd) /\ (s < n)%nat
  | Some (OpElection _ args voteCount waiting voters) =>
      (saved (persister (raft nd))).2 = logEntries (raft nd) /\
      0 <= (saved (persister (raft nd))).1.1 /\
      va_Term args = (saved (persister (raft nd))).1.1 + 1 /\
      va_Term args <= term (raft nd) /\
      va_CandidateId args = Z.of_nat i /\
      role (raft nd) <> Leader /\
      NoDup (voters ++ waiting) /\
      (forall v, v ∈ voters ++ waiting -> (v < n)%nat /\ v <> i) /\
      voteCount = 1 + zlen voters
  end.

Record node_ok (i : nat) (nd : Node) : Prop := {
  no_raft : raft_ok i (raft nd);
  no_lock : lock_ok i nd;
  no_todo : todo_ok nd;
  no_next : may_beat nd -> Forall (fun x => 1 <= x) (nextIndex (raft nd));
}.

(** ** Messages *)

Definition body_ok (src : nat) (p : Payload) : Prop :=
  match p with
  | PVoteReq args => va_CandidateId args = Z.of_nat src
  | PVoteRep _ => True
  | PAppReq args => args_ok args
  | PAppRep reply => 0 <= ar_NextIndex reply
  end.

Definition msg_ok (m : Msg) : Prop :=
  (m_src m < n)%nat /\ (m_dst m < n)%nat /\ body_ok (m_src m) (m_body m).

Record cluster_ok (c : Cluster) : Prop := {
  co_len : length (nodes c) = n;
  co_nodes : forall i nd, nodes c !! i = Some nd -> node_ok i nd;
  co_net : forall m, m ∈ net c -> msg_ok m;
}.

(** ** Local steps preserve the invariant and never panic *)

(** What is proved of a local step: an allowed outcome, and a good effect. *)
Definition good (i : nat) (o : Outcome Effect) : Prop :=
  match o with
  | Disabled => True
  | Panic => False
  | Ok eff => node_ok i (ef_node eff) /\ Forall msg_ok (ef_send eff)
  end.

Lemma good_guard i b (k : Outcome Effect) :
  (b = true -> good i k) -> good i (_ ← guard_step b; k).
Proof. destruct b; simpl; auto. Qed.

Lemma good_enabled {A} i (o : option A) (k : A -> Outcome Effect) :
  (forall a, o = Some a -> good i (k a)) -> good i (a ← enabled o; k a).
Proof. destruct o; simpl; auto. Qed.

Lemma others_spec i j : j ∈ others n i <-> (j < n)%nat /\ j <> i.
Proof. unfold others. rewrite list_elem_of_filter, elem_of_seq. naive_solver lia. Qed.

Lemma others_NoDup i : NoDup (others n i).
Proof. apply NoDup_filter, NoDup_seq. Qed.

(** A peer's vote arrives: it leaves [waiting], and joins [voters] if granted. *)
Lemma move_voter (b : bool) (v : nat) vs w :
  NoDup (vs ++ w) -> v ∈ w ->
  NoDup ((if b then v :: vs else vs) ++ filter (fun j => j <> v) w) /\
  (forall u, u ∈ (if b then v :: vs else vs) ++ filter (fun j => j <> v) w -> u ∈ vs ++ w).
Proof.
  intros (Hvs & Hd & Hw)%NoDup_app Hv. split.
  - assert (Hbase : NoDup (vs ++ filter (fun j => j <> v) w)).
    { apply NoDup_app. split_and!; [done| |by apply NoDup_filter].
      intros u Hu [_ Hu']%list_elem_of_filter. by eapply Hd. }
    destruct b; [|done]. simpl. apply NoDup_cons. split; [|done].
    intros [Hu|[Hu _]%list_elem_of_filter]%elem_of_app; [by eapply Hd|done].
  - intros u. rewrite !elem_of_app. destruct b; rewrite ?elem_of_cons, list_elem_of_filter; naive_solver.
Qed.

(** Roles, terms, votes, timers and storage may change as [same_log] says. *)
Lemma raft_ok_same_log i rf rf' :
  raft_ok i rf -> same_log rf rf' -> 0 <= term rf' -> timer_ok (electionTimer rf') -> raft_ok i rf'.
Proof.
  intros [? ? ? ? ? ? ? ? [? ?]] (E1&E2&E3&E4&E5&E6&E7&E8) Ht Htm.
  constructor; try congruence; try done. unfold applied_in_order. by rewrite E3, E6.
Qed.

Lemma raft_ok_frame i rf rf' :
  raft_ok i rf ->
  peers rf' = peers rf -> me rf' = me rf -> applyCh rf' = applyCh rf -> lastApplied rf' = lastApplied rf ->
  length (nextIndex rf') = n -> length (matchIndex rf') = n ->
  log_shape (logEntries rf') -> 0 <= term rf' ->
  (timer_ok (electionTimer rf) -> timer_ok (electionTimer rf')) -> raft_ok i rf'.
Proof.
  intros [? ? ? ? ? ? ? ? [? ?]] E1 E2 E3 E4 ? ? ? ? ?.
  constructor; try congruence; auto. unfold applied_in_order. by rewrite E3, E4.
Qed.

Lemma is_free_lock nd : is_free nd = true -> lock nd = None.
Proof. unfold is_free. by destruct (lock nd). Qed.

(** A free peer's critical section that ends in [persist]. *)
Lemma node_ok_persisted i nd rf :
  node_ok i nd -> raft_ok i rf -> raftstate (persister rf) = persist_data rf ->
  nextIndex rf = nextIndex (raft nd) ->
  (role rf = Leader -> role (raft nd) = Leader) ->
  (lock nd = None \/ exists id s a, lock nd = Some (OpHeartbeat id s a)) ->
  node_ok i (set_lock None (set_raft rf nd)).
Proof.
  intros [_ _ Ht Hn] Hr Hp Hni Hro Hl. constructor; [done| |done|].
  - simpl. by apply saved_persist_data.
  - unfold may_beat in *. simpl. rewrite Hni. intros Hb. apply Hn. naive_solver.
Qed.

Lemma set_lock_None_id nd rf : lock nd = None -> set_lock None (set_raft rf nd) = set_raft rf nd.
Proof. destruct nd. simpl. by intros ->. Qed.

Lemma raft_ok_Make i ps rnd :
  (i < n)%nat -> log_shape (saved ps).2 -> 0 <= (saved ps).1.1 -> raft_ok i (Make n (Z.of_nat i) ps rnd).
Proof.
  intros Hi Hs Ht. pose proof (Make_saved n (Z.of_nat i) ps rnd) as Hm.
  destruct (Make_frame n (Z.of_nat i) ps rnd) as (E1&E2&E3&E4&E5&E6&E7&E8&E9&E10).
  rewrite <-Hm in Hs, Ht. constructor; try done.
  - rewrite E8. apply length_replicate.
  - rewrite E9. apply length_replicate.
  - rewrite E10. by intros [_ ?].
  - unfold applied_in_order. rewrite E6, E7. done.
Qed.

Lemma node_ok_fresh i ps rnd :
  (i < n)%nat -> log_shape (saved ps).2 -> 0 <= (saved ps).1.1 ->
  node_ok i (fresh_node (Make n (Z.of_nat i) ps rnd)).
Proof.
  intros Hi Hs Ht. destruct (Make_frame n (Z.of_nat i) ps rnd) as (_&_&E3&E4&_).
  constructor; [by apply raft_ok_Make| | |].
  - unfold lock_ok, fresh_node. cbn [lock raft]. rewrite E3. symmetry. apply Make_saved.
  - split; [done|constructor].
  - unfold may_beat, fresh_node. cbn [lock raft egor hgor]. rewrite E4. naive_solver.
Qed.

(** [raft_ok] in terms of bounds on Go indices. *)
Lemma raft_ok_me i rf : raft_ok i rf -> 0 <= me rf < Z.of_nat (peers rf).
Proof. intros [-> -> ? _ _ _ _ _ _]. lia. Qed.

Lemma raft_ok_idx i rf s :
  raft_ok i rf -> (s < n)%nat ->
  0 <= Z.of_nat s < zlen (nextIndex rf) /\ 0 <= Z.of_nat s < zlen (matchIndex rf).
Proof. intros [_ _ _ _ H1 H2 _ _ _] Hs. unfold zlen. rewrite H1, H2. lia. Qed.

Lemma good_timer i nd :
  node_ok i nd ->
  good i (t ← enabled (expire (electionTimer (raft nd)));
          Ok (quiet (set_raft (set_electionTimer t (raft nd)) nd))).
Proof.
  intros [[] Hl Ht Hn]. apply good_enabled. intros t Hx%expire_ok. split; [|constructor].
  constructor; [by constructor|done|done|done].
Qed.

Lemma good_election i id rnd nd : node_ok i nd -> good i (local_election n i id rnd nd).
Proof.
  intros Hok. pose proof Hok as [Hr Hl Ht Hn]. unfold local_election.
  apply good_guard. intros Hfree%is_free_lock. apply good_guard. intros He.
  apply good_enabled. intros t Hrc%receive_ok.
  set (rf := set_electionTimer t (raft nd)).
  assert (Hrf : raft_ok i rf) by (destruct Hr; by constructor).
  unfold lock_ok in Hl. rewrite Hfree in Hl.
  destruct (decide (role rf = Leader)) as [HL|HL].
  - rewrite election_begin_leader by done. simpl. split; [|constructor].
    constructor; [|by unfold lock_ok; simpl; rewrite Hfree; apply saved_persist_data| |].
    + destruct Hrf. constructor; try done. simpl. by apply resetTimer_ok.
    + split; [done|apply Ht].
    + intros _. apply Hn. by left.
  - destruct (election_begin_candidate rnd rf HL) as (rf' & -> & Hsl & Htm & Hv & Hro & Hps & Htim).
    simpl. assert (Hrf' : raft_ok i rf').
    { eapply raft_ok_same_log; [done|done| |by apply Htim, Hrf]. rewrite Htm. pose proof (ro_term _ _ Hrf). lia. }
    split.
    + constructor; [done| |done|].
      * unfold lock_ok. cbn [set_lock set_raft lock raft va_Term va_CandidateId]. rewrite Hps, Hro.
        change (persister rf) with (persister (raft nd)). rewrite Hl.
        destruct Hsl as (_ & Hme & _ & Hlog & _).
        split_and!; [by rewrite Hlog|apply Hr|done|by rewrite Htm|exact (ro_me _ _ Hrf)|done| | |done].
        -- apply others_NoDup.
        -- intros v Hv'. by apply others_spec.
      * destruct Hsl as (_ & _ & _ & _ & _ & _ & Hni & _).
        node_simpl. rewrite Hni. intros Hb. apply Hn.
        unfold may_beat in *. simpl in Hb. rewrite Hro in Hb. rewrite Hfree. naive_solver.
    + apply Forall_forall. intros m (j & <- & Hj%list_elem_of_In%others_spec)%list_elem_of_In%in_map_iff.
      split_and!; simpl; [apply Hrf|tauto|exact (ro_me _ _ Hrf)].
Qed.


Lemma good_election_end i rnd nd : node_ok i nd -> good i (local_election_end i rnd nd).
Proof.
  intros Hok. pose proof Hok as [Hr Hl Ht Hn]. unfold local_election_end.
  destruct (lock nd) as [[id args vc [|? ?] vs|? ? ?]|] eqn:Hlk; try done.
  destruct (election_end_spec vc rnd (raft nd) (raft_ok_me _ _ Hr))
    as (rf' & -> & Htm & Hlog & Hpe & Hme & Hci & Hla & Hch & Hps & Htim & Hcase). simpl.
  pose proof (log_shape_last _ (ro_log _ _ Hr)) as Hlast. pose proof (ro_peers _ _ Hr) as Hpn.
  assert (Hrf' : raft_ok i rf').
  { assert (Hlen : length (nextIndex rf') = n /\ length (matchIndex rf') = n).
    { destruct (bool_decide _); destruct Hcase as (_ & _ & -> & ->);
        rewrite ?length_insert, ?Hpn; unfold zmake; rewrite ?length_replicate; [done|].
      split; apply Hr. }
    destruct Hlen. eapply raft_ok_frame; try done; rewrite ?Hlog, ?Htm; try apply Hr. }
  assert (Hsv : saved (persister rf') = pstate rf') by by apply saved_persist_data.
  destruct (bool_decide _).
  - split; [|constructor]. destruct Hcase as (_ & _ & Hni & _).
    constructor; [done|done|split; [done|apply Ht]|].
    intros _. node_simpl. rewrite Hni.
    apply Forall_replicate. lia.
  - split; [|constructor]. destruct Hcase as (Hro & _ & Hni & _).
    constructor; [done|done|split; [done|apply Ht]|].
    node_simpl. rewrite Hni. intros Hb. apply Hn.
    unfold may_beat in *. node_simpl.
    rewrite Hro in Hb. naive_solver.
Qed.

Lemma good_election_failed i rnd nd : node_ok i nd -> good i (local_election_failed rnd nd).
Proof.
  intros [Hr Hl Ht Hn]. unfold local_election_failed.
  apply good_guard. intros Hfree%is_free_lock. destruct (egor nd) eqn:He; try done. simpl.
  split; [|constructor]. constructor.
  - destruct Hr. constructor; try done. simpl. by apply resetTimer_ok.
  - unfold lock_ok in *. simpl. rewrite Hfree in *. done.
  - split; [done|apply Ht].
  - intros Hb. apply Hn. unfold may_beat in *. simpl in Hb. naive_solver.
Qed.

Lemma Forall_seq_lt : Forall (fun s => s < n)%nat (seq 0 n).
Proof. apply Forall_forall. intros s Hs%elem_of_seq. lia. Qed.

Lemma good_election_won i nd : node_ok i nd -> good i (local_election_won n nd).
Proof.
  intros [Hr Hl Ht Hn]. unfold local_election_won, GetState.
  apply good_guard. intros Hfree%is_free_lock. destruct (egor nd) eqn:He; try done.
  split; [|constructor]. constructor; [done|done| |].
  - split; [|apply Ht]. simpl. intros l. destruct (bool_decide _); intros [= <-]. apply Forall_seq_lt.
  - intros _. apply Hn. unfold may_beat. naive_solver.
Qed.

Lemma good_beat_tick i nd : node_ok i nd -> good i (local_beat_tick n nd).
Proof.
  intros [Hr Hl Ht Hn]. unfold local_beat_tick, GetState.
  apply good_guard. intros Hfree%is_free_lock. destruct (hgor nd) eqn:He; try done.
  split; [|constructor]. constructor; [done|done| |].
  - split; [apply Ht|]. simpl. destruct (bool_decide _); [apply Forall_seq_lt|constructor].
  - intros Hb. apply Hn. unfold may_beat in *. simpl in Hb.
    destruct (bool_decide_reflect (role (raft nd) = Leader)); naive_solver.
Qed.

Lemma good_send i id s rnd nd :
  node_ok i nd -> (s < n)%nat -> Forall (fun x => 1 <= x) (nextIndex (raft nd)) ->
  good i (send_heartbeat i id s rnd nd).
Proof.
  intros Hok Hs Hnext. pose proof Hok as [Hr Hl Ht Hn]. unfold send_heartbeat.
  apply good_guard. intros Hfree%is_free_lock. unfold heartbeat_args.
  destruct (Z.eqb_spec (me (raft nd)) (Z.of_nat s)) as [Heq|Hne]; simpl.
  - split; [|constructor]. rewrite <-set_lock_None_id by done.
    apply node_ok_persisted; try done; [|by left].
    destruct Hr. constructor; try done. simpl. by apply resetTimer_ok.
  - destruct (raft_ok_idx i (raft nd) s Hr Hs) as [Hsn _].
    destruct (proj2 (zidx_is_Some (nextIndex (raft nd)) (Z.of_nat s)) Hsn) as [next Hx].
    assert (H1 : 1 <= next).
    { apply zidx_Some in Hx as [_ Hx]. by eapply (Forall_lookup_1 _ _ _ _ Hnext). }
    destruct (getAppendLogs_spec (Z.of_nat s) next (raft nd) (ro_log _ _ Hr) Hx H1)
      as (prev & t & es & -> & Hp & Hes & _). simpl.
    split.
    + constructor; [done| |done|done]. unfold lock_ok in *. simpl. rewrite Hfree in Hl. done.
    + repeat constructor; simpl; [apply Hr|done|lia| |]; by eapply Hes.
Qed.

Lemma good_beat_e i id rnd nd : node_ok i nd -> good i (local_beat_e i id rnd nd).
Proof.
  intros Hok. pose proof Hok as [Hr Hl Ht Hn]. unfold local_beat_e.
  destruct (egor nd) as [| | |[|s todo]] eqn:He; try done.
  - split; [|constructor]. constructor; [done|done|split; [done|apply Ht]|].
    intros Hb. apply Hn. unfold may_beat in *. simpl in Hb. naive_solver.
  - destruct Ht as [Ht1 Ht2]. specialize (Ht1 _ He). apply Forall_cons_1 in Ht1 as [Hs Ht1].
    apply good_send; [|done|apply Hn; unfold may_beat; naive_solver].
    constructor; [done|done| |].
    + split; [by intros l [= <-]|done].
    + intros _. apply Hn. unfold may_beat. naive_solver.
Qed.

Lemma good_beat_h i id rnd nd : node_ok i nd -> good i (local_beat_h i id rnd nd).
Proof.
  intros Hok. pose proof Hok as [Hr Hl Ht Hn]. unfold local_beat_h.
  destruct (hgor nd) as [|s todo] eqn:He; try done.
  assert (Hb : Forall (fun x => 1 <= x) (nextIndex (raft nd))) by (apply Hn; unfold may_beat; rewrite He; naive_solver).
  destruct Ht as [Ht1 Ht2]. rewrite He in Ht2. apply Forall_cons_1 in Ht2 as [Hs Ht2].
  apply good_send; [|done|done]. constructor; [done|done|by split|done].
Qed.

(** The end of a heartbeat, with whatever reply a follower can send. *)
Lemma good_heartbeat_reply i nd id s args reply rnd :
  node_ok i nd -> lock nd = Some (OpHeartbeat id s args) -> 0 <= ar_NextIndex reply ->
  good i (rf ← run (heartbeat_reply (Z.of_nat s) args reply rnd (raft nd));
          Ok (quiet (set_lock None (set_raft rf nd)))).
Proof.
  intros Hok Hlk Hnr. pose proof Hok as [Hr Hl Ht Hn].
  assert (Hnext : Forall (fun x => 1 <= x) (nextIndex (raft nd))).
  { apply Hn. unfold may_beat. naive_solver. }
  unfold lock_ok in Hl. rewrite Hlk in Hl. destruct Hl as [Hsv Hs].
  destruct (raft_ok_idx i (raft nd) s Hr Hs) as [Hsn Hsm].
  destruct (heartbeat_reply_spec (Z.of_nat s) args reply rnd (raft nd) Hsn Hsm Hnr)
    as (rf' & -> & (F1&F2&F3&F4&F5&F6&F7&F8) & Hres). simpl.
  assert (Hidx : Forall (fun x => 1 <= x) (nextIndex rf') /\ length (nextIndex rf') = n /\
                 length (matchIndex rf') = n).
  { destruct Hr. destruct Hres as [(_&_&_&_&->&->)|(_&_&_&[(_&->&->)|(H1&->&->)]&_)]; [done|done|].
    rewrite !length_insert. split_and!; [|done|done]. apply Forall_insert; [done|lia]. }
  destruct Hidx as (Hi1 & Hi2 & Hi3).
  assert (Hrf' : raft_ok i rf').
  { eapply raft_ok_frame; try done; rewrite ?F6; try apply Hr. pose proof (ro_term _ _ Hr).
    destruct Hres as [(?&->&_)|(_&->&_)]; lia. }
  split; [|constructor]. constructor; [done|by apply saved_persist_data|done|done].
Qed.

Lemma good_call_fail i s rnd nd : node_ok i nd -> good i (local_call_fail s rnd nd).
Proof.
  intros Hok. pose proof Hok as [Hr Hl Ht Hn]. unfold local_call_fail.
  destruct (lock nd) as [[id args vc w vs|id s' args]|] eqn:Hlk; [| |done].
  - apply good_guard. intros _. split; [|constructor].
    unfold lock_ok in Hl. rewrite Hlk in Hl. destruct Hl as (L1&L0&L2&L3&L4&L5&L6&L7&L8).
    constructor; [done| |done|].
    + unfold lock_ok. simpl. split_and!; try done.
      * apply NoDup_app in L6 as (? & Hd & ?). apply NoDup_app. split_and!; [done| |by apply NoDup_filter].
        intros v Hv [_ Hv']%list_elem_of_filter. by eapply Hd.
      * intros v [Hv|[_ Hv]%list_elem_of_filter]%elem_of_app; apply L7, elem_of_app; auto.
    + intros Hb. apply Hn. unfold may_beat in *. simpl in Hb. naive_solver.
  - apply good_guard. intros _. by eapply good_heartbeat_reply.
Qed.

Lemma good_vote_req i m args rnd nd :
  node_ok i nd -> msg_ok m -> m_dst m = i -> m_body m = PVoteReq args ->
  good i (local_deliver i m rnd nd).
Proof.
  intros Hok (Hsrc & Hdst & _) <- Hb. pose proof Hok as [Hr Hl Ht Hn]. unfold local_deliver. rewrite Hb.
  apply good_guard. intros Hfree%is_free_lock.
  destruct (RequestVote_spec args rnd (raft nd)) as (rf' & -> & Hsl & Htm & Hv & Hro & Hps & Htim).
  simpl. split; [|by repeat constructor].
  rewrite <-set_lock_None_id by done. apply node_ok_persisted; try done; try by left.
  - eapply raft_ok_same_log; [done|done| |by apply Htim, Hr]. rewrite Htm. unfold vote_term.
    pose proof (ro_term _ _ Hr). lia.
  - split_and?. destruct Hsl as (_&_&_&_&_&_&Hni&_). done.
  - rewrite Hro. unfold vote_role. by destruct (_ || _).
Qed.

Lemma good_app_req i m args rnd nd :
  node_ok i nd -> msg_ok m -> m_dst m = i -> m_body m = PAppReq args ->
  good i (local_deliver i m rnd nd).
Proof.
  intros Hok (Hsrc & Hdst & Hbody) <- Hb. pose proof Hok as [Hr Hl Ht Hn]. unfold local_deliver.
  rewrite Hb in *. apply good_guard. intros Hfree%is_free_lock.
  destruct (AppendEntries_spec args rnd (raft nd) (ro_log _ _ Hr) Hbody)
    as (rf' & reply & -> & (F1&F2&F3&F4&F5&F6&F7&F8&F9) & Hout).
  pose proof (append_outcome_shape _ _ _ _ (ro_log _ _ Hr) Hbody Hout) as Hsh.
  pose proof (ro_term _ _ Hr). simpl. split.
  - rewrite <-set_lock_None_id by done. apply node_ok_persisted; try done; try by left.
    + eapply raft_ok_frame; try done; rewrite ?F6, ?F7; try apply Hr.
      destruct Hout as [? -> ? ? ?|? Hp ? ?|? -> ? ? ?|? -> ? ? ? ? ?]; try lia.
      unfold pstate in Hp. simplify_eq. congruence.
    + destruct Hout as [? ? -> ? ?|? ? -> ?|? ? -> ? ?|? ? -> ? ? ? ?]; done.
  - repeat constructor; simpl; [done|done|]. destruct Hout; simpl; try lia; apply zlen_nonneg.
Qed.

Lemma good_vote_rep i m reply rnd nd :
  node_ok i nd -> m_body m = PVoteRep reply -> good i (local_deliver i m rnd nd).
Proof.
  intros Hok Hb. pose proof Hok as [Hr Hl Ht Hn]. unfold local_deliver. rewrite Hb.
  destruct (lock nd) as [[id args vc w vs|? ? ?]|] eqn:Hlk; try by (split; [done|constructor]).
  case_bool_decide as Hcond; [|by (split; [done|constructor])]. destruct Hcond as [-> Hw].
  unfold lock_ok in Hl. rewrite Hlk in Hl. destruct Hl as (L1&L0&L2&L3&L4&L5&L6&L7&L8).
  destruct (election_reply_spec args reply rnd (raft nd) vc) as (rf' & -> & Hsl & Hv & Hps & Htim & Hor).
  assert (Htm : va_Term args <= term rf') by (destruct Hor as [[? ->]|(? & -> & ?)]; lia).
  assert (Hro : role rf' <> Leader) by (destruct Hor as [[? ->]|(? & ? & ->)]; done).
  simpl. split; [|constructor]. constructor; [| |done|].
  - node_simpl. eapply raft_ok_same_log; [done|done|lia|by apply Htim, Hr].
  - unfold lock_ok. node_simpl. rewrite Hps.
    assert (Hsplit : NoDup ((if vr_VoteGranted reply then m_src m :: vs else vs) ++ filter (fun j => j <> m_src m) w) /\
      (forall v, v ∈ (if vr_VoteGranted reply then m_src m :: vs else vs) ++ filter (fun j => j <> m_src m) w ->
         v ∈ vs ++ w)).
    { by apply move_voter. }
    destruct Hsplit as [Hnd Hsub]. destruct Hsl as (_&_&_&Hlog&_).
    split_and!; try done; [by rewrite Hlog|by eauto|].
    destruct (vr_VoteGranted reply); rewrite ?zlen_cons; lia.
  - node_simpl. destruct Hsl as (_&_&_&_&_&_&->&_). intros Hb'. apply Hn.
    unfold may_beat in *. node_simpl. naive_solver.
Qed.

Lemma good_app_rep i m reply rnd nd :
  node_ok i nd -> msg_ok m -> m_body m = PAppRep reply -> good i (local_deliver i m rnd nd).
Proof.
  intros Hok (_ & _ & Hbody) Hb. unfold local_deliver. rewrite Hb in *.
  destruct (lock nd) as [[? ? ? ? ?|id s args]|] eqn:Hlk; try by (split; [done|constructor]).
  case_bool_decide; [|by (split; [done|constructor])]. by eapply good_heartbeat_reply.
Qed.

Lemma good_deliver i m rnd nd :
  node_ok i nd -> msg_ok m -> m_dst m = i -> good i (local_deliver i m rnd nd).
Proof.
  intros Hok Hm Hi. destruct (m_body m) eqn:Hb.
  - by eapply good_vote_req.
  - by eapply good_vote_rep.
  - by eapply good_app_req.
  - by eapply good_app_rep.
Qed.

Lemma good_start i id k nd : node_ok i nd -> good i (local n i id (LStart k) nd).
Proof.
  intros Hok. pose proof Hok as [Hr Hl Ht Hn]. simpl.
  apply good_guard. intros Hfree%is_free_lock. apply good_enabled. intros [[cmd tm] isl] _.
  destruct isl.
  - rewrite Start_locked_leader.
    2:{ destruct (raft_ok_idx i _ i Hr (ro_in _ _ Hr)). rewrite (ro_me _ _ Hr). done. }
    cbn zeta. cbn [mbind Outcome_bind run good]. split; [|constructor]. node_simpl.
    constructor; [| |done|done].
    + pose proof (log_shape_last _ (ro_log _ _ Hr)). destruct Hr.
      constructor; try done; simpl; [|by rewrite length_insert].
      apply log_shape_app; [done|]. intros [|j] e He; simplify_eq/=. lia.
    + unfold lock_ok. node_simpl. rewrite Hfree. by apply saved_persist_data.
  - rewrite Start_locked_follower. split; [|constructor]. by constructor.
Qed.

Lemma good_start_read i id cmd nd : node_ok i nd -> good i (local n i id (LStartRead cmd) nd).
Proof.
  intros [Hr Hl Ht Hn]. simpl. apply good_guard. intros _. split; [|constructor]. by constructor.
Qed.

Lemma good_crash i id rnd nd : node_ok i nd -> good i (local n i id (LCrash rnd) nd).
Proof.
  intros [Hr Hl Ht Hn]. split; [|constructor]. apply node_ok_fresh; [apply Hr|..]; rewrite saved_restart.
  - unfold lock_ok in Hl. destruct (lock nd) as [[? ? ? ? ?|? ? ?]|].
    + destruct Hl as (-> & _). apply Hr.
    + destruct Hl as (-> & _). apply Hr.
    + rewrite Hl. apply Hr.
  - unfold lock_ok in Hl. destruct (lock nd) as [[? ? ? ? ?|? ? ?]|].
    + by destruct Hl as (_ & ? & _).
    + destruct Hl as (-> & _). apply Hr.
    + rewrite Hl. apply Hr.
Qed.

(** The apply loop keeps the invariant; it panics only if [commitIndex] has
    run past the end of the log. *)
Lemma apply_ok i nd rf :
  node_ok i nd -> is_free nd = true -> applyLoop (raft nd) = Some rf -> node_ok i (set_raft rf nd).
Proof.
  intros [Hr Hl Ht Hn] Hfree%is_free_lock Ha.
  pose proof (applyLoop_in_order _ _ Ha (ro_applied _ _ Hr)) as Hord.
  unfold lock_ok in Hl. rewrite Hfree in Hl.
  assert (Hk : exists la ch, rf = set_applyCh ch (set_lastApplied la (raft nd))).
  { unfold applyLoop in Ha. destruct (_ <? _).
    - simpl in Ha. destruct (zidx _ _); simplify_eq/=. eauto.
    - injection Ha as <-. exists (lastApplied (raft nd)), (applyCh (raft nd)). by destruct (raft nd). }
  destruct Hk as (la & ch & ->). constructor; [|by unfold lock_ok; node_simpl; rewrite Hfree|done|done].
  destruct Hr. by constructor.
Qed.

Definition is_apply (ev : LocalEvent) : bool := match ev with LApply => true | _ => false end.

(** Every local step but the apply loop. *)
Lemma good_local i id ev nd :
  node_ok i nd -> (forall m rnd, ev = LDeliver m rnd -> msg_ok m /\ m_dst m = i) -> is_apply ev = false ->
  good i (local n i id ev nd).
Proof.
  intros Hok Hm Hne. destruct ev; try done.
  - by apply good_timer.
  - by apply good_election.
  - by apply good_election_end.
  - by apply good_election_failed.
  - by apply good_election_won.
  - by apply good_beat_tick.
  - by apply good_beat_e.
  - by apply good_beat_h.
  - by apply good_call_fail.
  - destruct (Hm m rnd eq_refl). by apply good_deliver.
  - by apply good_start_read.
  - by apply good_start.
  - by apply good_crash.
Qed.

Lemma local_node_ok i id ev nd eff :
  node_ok i nd -> (forall m rnd, ev = LDeliver m rnd -> msg_ok m /\ m_dst m = i) ->
  local n i id ev nd = Ok eff -> node_ok i (ef_node eff) /\ Forall msg_ok (ef_send eff).
Proof.
  intros Hok Hm Hl. destruct (is_apply ev) eqn:Hne.
  - destruct ev; try done. simpl in Hl. destruct (is_free nd) eqn:Hf; [|done]. simpl in Hl.
    destruct (applyLoop (raft nd)) as [rf|] eqn:Ha; [|done]. simplify_eq/=.
    split; [|constructor]. by apply apply_ok.
  - pose proof (good_local i id ev nd Hok Hm Hne) as Hg. by rewrite Hl in Hg.
Qed.

(** ** Cluster steps *)

(** A step of the cluster loses a message or is a local step of one peer. *)
Lemma cstep_cases ev c c' :
  cstep n ev c = Ok c' ->
  (exists k, ev = EvDrop k /\ c' = remove_msg k c) \/
  (exists i nd lev eff c0, nodes c !! i = Some nd /\ local n i (next_id c) lev nd = Ok eff /\
     c' = apply_effect i eff c0 /\ nodes c0 = nodes c /\ next_id c0 = next_id c /\
     granted c0 = granted c /\ won c0 = won c /\ (forall m, m ∈ net c0 -> m ∈ net c) /\
     (forall m rnd, lev = LDeliver m rnd -> m ∈ net c /\ m_dst m = i) /\
     (ev = EvLocal i lev \/ exists m rnd, lev = LDeliver m rnd)).
Proof.
  intros Hc. destruct ev as [i lev|k rnd|k]; simpl in Hc.
  - right. destruct (is_deliver lev) eqn:Hd; [done|]. simpl in Hc.
    destruct (nodes c !! i) as [nd|] eqn:Hi; [|done]. simpl in Hc.
    destruct (local n i (next_id c) lev nd) as [| |eff] eqn:Hl; try done. injection Hc as <-.
    exists i, nd, lev, eff, c. split_and!; try done; [|by left]. intros m rnd ->. done.
  - right. destruct (net c !! k) as [m|] eqn:Hm; [|done]. simpl in Hc.
    destruct (nodes c !! m_dst m) as [nd|] eqn:Hi; [|done]. cbn [mbind Outcome_bind enabled] in Hc.
    destruct (local_deliver (m_dst m) m rnd nd) as [| |eff] eqn:Hl; try done.
    cbn [mbind Outcome_bind] in Hc. injection Hc as <-.
    exists (m_dst m), nd, (LDeliver m rnd), eff, (remove_msg k c).
    split_and!; try done; [| |by eauto].
    + intros m' Hm'. simpl in Hm'. by eapply list_elem_of_delete_inv.
    + intros m' rnd' [= <- <-]. split; [|done]. by eapply list_elem_of_lookup_2.
  - left. destruct (net c !! k); [|done]. simplify_eq/=. eauto.
Qed.

Lemma cluster_ok_step ev c c' : cluster_ok c -> cstep n ev c = Ok c' -> cluster_ok c'.
Proof.
  intros [Hlen Hnodes Hnet] Hc. destruct (cstep_cases _ _ _ Hc) as
    [(k & _ & ->)|(i & nd & lev & eff & c0 & Hi & Hl & -> & E1 & E2 & E3 & E4 & Hsub & Hdel & _)].
  - constructor; [done|done|]. intros m Hm. apply Hnet. simpl in Hm. by eapply list_elem_of_delete_inv.
  - destruct (local_node_ok i (next_id c) lev nd eff) as [Hok Hsend]; [by apply Hnodes| |done|].
    { intros m rnd Heq. destruct (Hdel _ _ Heq). auto. }
    constructor; simpl; rewrite ?E1.
    + by rewrite length_insert.
    + intros j nd' Hj. destruct (decide (i = j)) as [->|Hne].
      * rewrite list_lookup_insert_eq in Hj by (by eapply lookup_lt_Some). by simplify_eq.
      * rewrite list_lookup_insert_ne in Hj by done. by apply Hnodes.
    + intros m [Hm|Hm]%elem_of_app; [by apply Hnet, Hsub|].
      rewrite Forall_forall in Hsend. by apply Hsend.
Qed.

Lemma cluster_ok_init rs : cluster_ok (init n rs).
Proof.
  constructor; simpl.
  - by rewrite length_map, length_seq.
  - intros i nd Hi. rewrite list_lookup_fmap in Hi.
    destruct (seq 0 n !! i) as [j|] eqn:Hj; simplify_eq/=.
    apply lookup_seq in Hj as [-> Hlt]. simpl. apply node_ok_fresh; [done|..]; rewrite saved_fresh;
      [apply log_shape_init|done].
  - intros m Hm. by apply not_elem_of_nil in Hm.
Qed.

Lemma reachable_ok c : reachable n c -> cluster_ok c.
Proof.
  induction 1 as [rs|c ev c' _ IH Hc]; [apply cluster_ok_init|by eapply cluster_ok_step].
Qed.

Lemma clean_reachable_reachable c : clean_reachable n c -> reachable n c.
Proof. induction 1; econstructor; eauto. Qed.

Lemma loyal_reachable_reachable c : loyal_reachable n c -> reachable n c.
Proof. induction 1; econstructor; eauto. Qed.

End Invariants.
