(* ===== verification/Election.v ===== *)
(** * Votes and elections

    In every execution a peer's saved term never decreases and it votes for at
    most one other peer per term, crashes included.  In the executions
    [loyal_reachable] singles out it votes for at most one peer per term,
    itself included.  In executions free of the three events excluded by
    [clean], at most one peer ever wins a term. *)

From S2P Require Import Prelude Timer Gob Persister Raft Vote Entry Cluster ClusterInv.

Section Election.
Context `{GobCodec}.
Variable n : nat.

(** ** How stable storage evolves *)

(** The saved term grows, or stays and keeps the vote once it is cast. *)
Definition saved_le (s s' : Z * Z * list LogEntry) : Prop :=
  s.1.1 < s'.1.1 \/ (s.1.1 = s'.1.1 /\ (s'.1.2 = s.1.2 \/ s.1.2 = -1)).

Lemma saved_le_refl s : saved_le s s.
Proof. right. auto. Qed.

Lemma saved_le_eq s s' : s' = s -> saved_le s s'.
Proof. intros ->. apply saved_le_refl. Qed.

Lemma saved_le_term s s' : saved_le s s' -> s.1.1 <= s'.1.1.
Proof. intros [?|[? _]]; lia. Qed.

Definition nsaved (nd : Node) : Z * Z * list LogEntry := saved (persister (raft nd)).

(** A vote granted to a request is on stable storage when the step ends; the
    vote a candidate casts for itself is for the term after the saved one. *)
Definition grant_saved (i : nat) (nd : Node) (g : nat * Z * nat) : Prop :=
  exists k, g = (i, (nsaved nd).1.1, k) /\ (k < n)%nat /\ (nsaved nd).1.2 = Z.of_nat k.

Definition self_vote (i : nat) (nd : Node) (g : nat * Z * nat) : Prop :=
  g = (i, (nsaved nd).1.1 + 1, i) /\ (i < n)%nat /\ votedFor (raft nd) = Z.of_nat i /\
  exists id args vc w vs, lock nd = Some (OpElection id args vc w vs) /\ va_Term args = (nsaved nd).1.1 + 1.

Definition votes_effect (i : nat) (nd : Node) (eff : Effect) : Prop :=
  saved_le (nsaved nd) (nsaved (ef_node eff)) /\
  Forall (fun g => (grant_saved i (ef_node eff) g /\ lock nd = None) \/
                   (self_vote i (ef_node eff) g /\ (nsaved nd).1.1 = (nsaved (ef_node eff)).1.1 /\
                    role (raft nd) <> Leader))
    (ef_granted eff).

Lemma votes_effect_quiet i nd nd' :
  persister (raft nd') = persister (raft nd) -> votes_effect i nd (quiet nd').
Proof. intros Hp. split; [|constructor]. apply saved_le_eq. unfold nsaved. simpl. by rewrite Hp. Qed.

(** A critical section of a peer whose storage was up to date, ending in
    [persist]. *)
Lemma saved_le_persist nd nd' :
  nsaved nd = pstate (raft nd) -> raftstate (persister (raft nd')) = persist_data (raft nd') ->
  term (raft nd) < term (raft nd') \/
  (term (raft nd) = term (raft nd') /\
   (votedFor (raft nd') = votedFor (raft nd) \/ votedFor (raft nd) = -1)) ->
  saved_le (nsaved nd) (nsaved nd').
Proof. intros Hs Hp Hor. unfold saved_le. rewrite Hs. unfold nsaved. by rewrite (saved_persist_data _ _ Hp). Qed.

Lemma lock_ok_free i nd : lock_ok n i nd -> lock nd = None -> nsaved nd = pstate (raft nd).
Proof. intros Hl Hf. unfold lock_ok in Hl. by rewrite Hf in Hl. Qed.

Lemma nsaved_free i nd : node_ok n i nd -> lock nd = None -> nsaved nd = pstate (raft nd).
Proof. intros Hok. eapply lock_ok_free, no_lock, Hok. Qed.

Lemma nsaved_beat i nd id s a :
  node_ok n i nd -> lock nd = Some (OpHeartbeat id s a) -> nsaved nd = pstate (raft nd) /\ (s < n)%nat.
Proof. intros Hok Hf. pose proof (no_lock _ _ _ Hok) as Hl. unfold lock_ok in Hl. by rewrite Hf in Hl. Qed.

Ltac step_inv Hl :=
  repeat match type of Hl with
  | (_ ← guard_step ?b; _) = Ok _ => let E := fresh "Hguard" in destruct b eqn:E; [|done]; cbn [guard_step mbind Outcome_bind] in Hl
  | (_ ← enabled ?o; _) = Ok _ => let E := fresh "Hen" in destruct o eqn:E; [|done]; cbn [enabled mbind Outcome_bind] in Hl
  end.

(** [RequestVote] against stable storage. *)
Lemma votes_RequestVote i m args rnd nd eff :
  node_ok n i nd -> msg_ok n m -> m_body m = PVoteReq args ->
  local_deliver i m rnd nd = Ok eff -> votes_effect i nd eff.
Proof.
  intros Hok (Hsrc & _ & Hbody) Hb Hl. unfold local_deliver in Hl. rewrite Hb in Hl, Hbody. simpl in Hbody.
  step_inv Hl. apply is_free_lock in Hguard. pose proof (nsaved_free _ _ Hok Hguard) as Hsv.
  destruct (RequestVote_spec args rnd (raft nd)) as (rf' & Hrv & _ & Htm & Hv & _ & Hps & _).
  rewrite Hrv in Hl. simpl in Hl. injection Hl as <-.
  unfold vote_term, vote_votedFor in *. split; node_simpl.
  - apply saved_le_persist; [done|done|]. node_simpl. rewrite Htm, Hv.
    unfold grants. destruct (Z.ltb_spec (term (raft nd)) (va_Term args)); [lia|]. right. split; [lia|].
    destruct (_ && _)%bool eqn:Hg; [|by left]. bool_to_prop. destruct H2 as [?|?]; [done|].
    bool_to_prop. destruct H3; bool_to_prop; auto.
  - destruct (grants args (raft nd)) eqn:Hg; [|constructor]. constructor; [|constructor]. left. split; [|done].
    unfold grant_saved, nsaved. node_simpl. rewrite (saved_persist_data _ _ Hps).
    exists (m_src m). unfold pstate. simpl. rewrite Htm, Hv, Hbody, Nat2Z.id.
    split_and!; [|done|done]. f_equal. f_equal. unfold grants in Hg. bool_to_prop.
    destruct H1; bool_to_prop; lia.
Qed.

Lemma votes_AppendEntries i m args rnd nd eff :
  node_ok n i nd -> msg_ok n m -> m_body m = PAppReq args ->
  local_deliver i m rnd nd = Ok eff -> votes_effect i nd eff.
Proof.
  intros Hok (_ & _ & Hbody) Hb Hl. unfold local_deliver in Hl. rewrite Hb in Hl, Hbody.
  step_inv Hl. apply is_free_lock in Hguard. pose proof (nsaved_free _ _ Hok Hguard) as Hsv.
  destruct (AppendEntries_spec args rnd (raft nd) (ro_log _ _ _ (no_raft _ _ _ Hok)) Hbody)
    as (rf' & reply & Hap & (_&_&_&Hv&_&_&_&Hps&_) & Hout).
  rewrite Hap in Hl. simpl in Hl. injection Hl as <-.
  split; [|constructor]. apply saved_le_persist; [done|done|]. node_simpl. rewrite Hv.
  destruct Hout as [? -> ? ? ?|? Hp ? ?|? -> ? ? ?|? -> ? ? ? ? ?]; auto.
  unfold pstate in Hp. injection Hp as -> _ _. auto.
Qed.

Lemma votes_heartbeat i nd id s args reply rnd rf :
  node_ok n i nd -> lock nd = Some (OpHeartbeat id s args) -> 0 <= ar_NextIndex reply ->
  heartbeat_reply (Z.of_nat s) args reply rnd (raft nd) = Some rf ->
  votes_effect i nd (quiet (set_lock None (set_raft rf nd))).
Proof.
  intros Hok Hlk Hnr Hh. destruct (nsaved_beat _ _ _ _ _ Hok Hlk) as [Hsv Hs].
  destruct (raft_ok_idx n i (raft nd) s (no_raft _ _ _ Hok) Hs) as [Hsn Hsm].
  destruct (heartbeat_reply_spec (Z.of_nat s) args reply rnd (raft nd) Hsn Hsm Hnr)
    as (rf' & Hh' & (_&_&_&Hv&_&_&Hps&_) & Hres).
  rewrite Hh in Hh'. injection Hh' as <-.
  split; [|constructor]. apply saved_le_persist; [done|done|]. node_simpl. rewrite Hv.
  destruct Hres as [(?&->&_)|(_&->&_)]; auto.
Qed.

Lemma votes_send i id s rnd nd eff :
  lock_ok n i nd -> send_heartbeat i id s rnd nd = Ok eff -> votes_effect i nd eff.
Proof.
  intros Hok Hl. unfold send_heartbeat in Hl. step_inv Hl. apply is_free_lock in Hguard.
  pose proof (lock_ok_free _ _ Hok Hguard) as Hsv. unfold heartbeat_args in Hl.
  destruct (_ =? _); simpl in Hl.
  - injection Hl as <-. split; [|constructor]. apply saved_le_persist; [done|done|]. auto.
  - destruct (getAppendLogs _ _) as [[[? ?] ?]|]; [|done]. simpl in Hl. injection Hl as <-.
    split; [|constructor]. by apply saved_le_eq.
Qed.

Lemma votes_election i id rnd nd eff :
  node_ok n i nd -> local_election n i id rnd nd = Ok eff -> votes_effect i nd eff.
Proof.
  intros Hok Hl. unfold local_election in Hl. step_inv Hl. apply is_free_lock in Hguard.
  pose proof (nsaved_free _ _ Hok Hguard) as Hsv. set (rf := set_electionTimer t (raft nd)) in Hl.
  destruct (decide (role rf = Leader)) as [HL|HL].
  - rewrite election_begin_leader in Hl by done. simpl in Hl. injection Hl as <-.
    split; [|constructor]. apply saved_le_persist; [done|done|]. auto.
  - destruct (election_begin_candidate rnd rf HL) as (rf' & Hb & _ & Htm & Hv & _ & Hps & _).
    rewrite Hb in Hl. simpl in Hl. injection Hl as <-.
    assert (Hs : nsaved (set_raft rf' nd) = nsaved nd) by (unfold nsaved; node_simpl; by rewrite Hps).
    split; [by apply saved_le_eq|]. constructor; [right|constructor]. node_simpl.
    pose proof (no_raft _ _ _ Hok) as Hr. unfold self_vote. change (nsaved (set_lock _ ?x)) with (nsaved x).
    rewrite Hs, Hsv. unfold pstate. cbn [fst snd]. split_and!; try done; [by apply Hr|node_simpl; rewrite Hv; by apply Hr|].
    by repeat eexists.
Qed.

Lemma votes_election_end i rnd nd eff :
  node_ok n i nd -> local_election_end i rnd nd = Ok eff ->
  (nsaved nd).1.1 < (nsaved (ef_node eff)).1.1 /\ ef_granted eff = [].
Proof.
  intros Hok Hl. unfold local_election_end in Hl. pose proof (no_lock _ _ _ Hok) as Hlk. unfold lock_ok in Hlk.
  destruct (lock nd) as [[id args vc [|? ?] vs|? ? ?]|]; try done.
  destruct Hlk as (_ & _ & Hva & Hle & _).
  destruct (election_end_spec vc rnd (raft nd) (raft_ok_me _ _ _ (no_raft _ _ _ Hok)))
    as (rf' & He & Htm & _ & _ & _ & _ & _ & _ & Hps & _). rewrite He in Hl. simpl in Hl.
  assert (Hs : (nsaved nd).1.1 < (saved (persister rf')).1.1).
  { rewrite (saved_persist_data _ _ Hps). change (pstate rf').1.1 with (term rf'). unfold nsaved. lia. }
  destruct (bool_decide _); injection Hl as <-; done.
Qed.

Lemma votes_deliver i m rnd nd eff :
  node_ok n i nd -> msg_ok n m -> local_deliver i m rnd nd = Ok eff -> votes_effect i nd eff.
Proof.
  intros Hok Hm Hl. destruct (m_body m) as [args|reply|args|reply] eqn:Hb.
  - by eapply votes_RequestVote.
  - unfold local_deliver in Hl. rewrite Hb in Hl.
    destruct (lock nd) as [[id args vc w vs|? ? ?]|]; try by (injection Hl as <-; apply votes_effect_quiet).
    case_bool_decide; [|by (injection Hl as <-; apply votes_effect_quiet)].
    destruct (election_reply_spec args reply rnd (raft nd) vc) as (rf' & He & _ & _ & Hps & _).
    rewrite He in Hl. injection Hl as <-. by apply votes_effect_quiet.
  - by eapply votes_AppendEntries.
  - unfold local_deliver in Hl. rewrite Hb in Hl. destruct Hm as (_ & _ & Hm). rewrite Hb in Hm.
    destruct (lock nd) as [[? ? ? ? ?|id s args]|] eqn:Hlk; try by (injection Hl as <-; apply votes_effect_quiet).
    case_bool_decide; [|by (injection Hl as <-; apply votes_effect_quiet)].
    destruct (heartbeat_reply _ _ _ _ _) as [rf|] eqn:Hh; [|done]. injection Hl as <-.
    by eapply votes_heartbeat.
Qed.

Lemma votes_start i id k nd eff :
  node_ok n i nd -> local n i id (LStart k) nd = Ok eff -> votes_effect i nd eff.
Proof.
  intros Hok Hl. simpl in Hl. step_inv Hl. apply is_free_lock in Hguard.
  pose proof (nsaved_free _ _ Hok Hguard) as Hsv. destruct p as [[cmd tm] [|]].
  - rewrite Start_locked_leader in Hl.
    2:{ pose proof (no_raft _ _ _ Hok) as Hr. destruct (raft_ok_idx n i _ i Hr (ro_in _ _ _ Hr)).
        rewrite (ro_me _ _ _ Hr). done. }
    injection Hl as <-. split; [|constructor]. apply saved_le_persist; [done|done|]. auto.
  - rewrite Start_locked_follower in Hl. injection Hl as <-. by apply votes_effect_quiet.
Qed.

Lemma votes_local i id ev nd eff :
  node_ok n i nd -> (forall m rnd, ev = LDeliver m rnd -> msg_ok n m) ->
  local n i id ev nd = Ok eff -> votes_effect i nd eff.
Proof.
  intros Hok Hm Hl. destruct ev.
  - simpl in Hl. step_inv Hl. injection Hl as <-. by apply votes_effect_quiet.
  - by eapply votes_election.
  - destruct (votes_election_end _ _ _ _ Hok Hl) as [? He]. split; [by left|]. rewrite He. constructor.
  - simpl in Hl. unfold local_election_failed in Hl. step_inv Hl.
    destruct (egor nd); try done. injection Hl as <-. by apply votes_effect_quiet.
  - simpl in Hl. unfold local_election_won in Hl. step_inv Hl.
    destruct (egor nd); try done. injection Hl as <-. by apply votes_effect_quiet.
  - simpl in Hl. unfold local_beat_tick in Hl. step_inv Hl.
    destruct (hgor nd); try done. injection Hl as <-. by apply votes_effect_quiet.
  - simpl in Hl. unfold local_beat_e in Hl. destruct (egor nd) as [| | |[|s todo]] eqn:He; try done.
    + injection Hl as <-. by apply votes_effect_quiet.
    + by eapply (votes_send i id s rnd (set_egor (EBeats todo) nd)); [apply Hok|].
  - simpl in Hl. unfold local_beat_h in Hl. destruct (hgor nd) as [|s todo]; try done.
    by eapply (votes_send i id s rnd (set_hgor todo nd)); [apply Hok|].
  - simpl in Hl. unfold local_call_fail in Hl.
    destruct (lock nd) as [[? ? ? ? ?|? s ?]|] eqn:Hlk; [| |done]; step_inv Hl.
    + injection Hl as <-. by apply votes_effect_quiet.
    + destruct (heartbeat_reply _ _ _ _ _) as [rf|] eqn:Hh; [|done]. injection Hl as <-.
      eapply (votes_heartbeat _ _ _ _ _ zero_reply); try done.
  - eapply votes_deliver; eauto.
  - simpl in Hl. step_inv Hl. destruct (applyLoop (raft nd)) as [rf|] eqn:Ha; [|done].
    injection Hl as <-. apply votes_effect_quiet. node_simpl. unfold applyLoop in Ha.
    destruct (_ <? _); simpl in Ha; [destruct (zidx _ _)|]; simplify_eq/=; done.
  - simpl in Hl. step_inv Hl. injection Hl as <-. by apply votes_effect_quiet.
  - by eapply votes_start.
  - simpl in Hl. injection Hl as <-. split; [|constructor]. apply saved_le_eq. unfold nsaved, fresh_node.
    node_simpl. destruct (Make_frame n (Z.of_nat i) (restart_persister (persister (raft nd))) rnd) as (_&_&->&_).
    apply saved_restart.
Qed.

(** ** One vote per term *)

(** Votes for others are on storage, whatever happens; a vote for oneself is
    at most one term ahead of it. *)
Record votes_ok (c : Cluster) : Prop := {
  vo_saved : forall v t k, (v, t, k) ∈ granted c -> k <> v ->
    exists nd, nodes c !! v = Some nd /\
      (t < (nsaved nd).1.1 \/ (t = (nsaved nd).1.1 /\ (nsaved nd).1.2 = Z.of_nat k));
  vo_self : forall v t, (v, t, v) ∈ granted c ->
    exists nd, nodes c !! v = Some nd /\ t <= (nsaved nd).1.1 + 1;
  vo_once : forall v t k k', (v, t, k) ∈ granted c -> (v, t, k') ∈ granted c -> k <> v -> k' <> v -> k = k';
}.

(** A vote on storage survives any step. *)
Lemma vote_survives s s' t (k : nat) :
  saved_le s s' -> (t < s.1.1 \/ (t = s.1.1 /\ s.1.2 = Z.of_nat k)) ->
  t < s'.1.1 \/ (t = s'.1.1 /\ s'.1.2 = Z.of_nat k /\ t = s.1.1).
Proof.
  intros [?|[? [?|?]]] [?|[? ?]]; [left; lia..| | |]; [right|left; lia|lia].
  split_and!; congruence.
Qed.

Lemma node_after i nd eff (c0 : Cluster) j nd' :
  nodes c0 !! i = Some nd -> nodes (apply_effect i eff c0) !! j = Some nd' ->
  (j = i /\ nd' = ef_node eff) \/ (j <> i /\ nodes c0 !! j = Some nd').
Proof.
  intros Hi Hj. simpl in Hj. destruct (decide (i = j)) as [->|Hne].
  - rewrite list_lookup_insert_eq in Hj by (by eapply lookup_lt_Some). left. by simplify_eq.
  - rewrite list_lookup_insert_ne in Hj by done. auto.
Qed.

Lemma node_after_eq i nd eff (c0 : Cluster) :
  nodes c0 !! i = Some nd -> nodes (apply_effect i eff c0) !! i = Some (ef_node eff).
Proof. intros Hi. apply list_lookup_insert_eq. by eapply lookup_lt_Some. Qed.

Lemma node_after_ne i j eff (c0 : Cluster) :
  i <> j -> nodes (apply_effect i eff c0) !! j = nodes c0 !! j.
Proof. intros Hne. simpl. by apply list_lookup_insert_ne. Qed.

(** The votes cast in a step, by kind. *)
Lemma new_votes i nd eff :
  votes_effect i nd eff -> forall v t k, (v, t, k) ∈ ef_granted eff -> v = i /\
    ((t = (nsaved (ef_node eff)).1.1 /\ (nsaved (ef_node eff)).1.2 = Z.of_nat k /\ lock nd = None) \/
     (k = i /\ t = (nsaved nd).1.1 + 1 /\ self_vote i (ef_node eff) (v, t, k) /\
      role (raft nd) <> Leader)).
Proof.
  intros [_ Hgr] v t k Hin. rewrite Forall_forall in Hgr.
  destruct (Hgr _ Hin) as [[(k' & [= -> -> ->] & ? & ?) ?]|(Hs & Heq & ?)]; [naive_solver|].
  pose proof Hs as [[= -> -> ->] _]. rewrite Heq. naive_solver.
Qed.

Lemma votes_ok_step ev c c' :
  cluster_ok n c -> votes_ok c -> cstep n ev c = Ok c' -> votes_ok c'.
Proof.
  intros Hco [Hsv Hself Hon] Hc. destruct (cstep_cases n _ _ _ Hc) as
    [(k & _ & ->)|(i & nd & lev & eff & c0 & Hi & Hl & -> & E1 & E2 & E3 & E4 & Hsub & Hdel & _)];
    [by constructor|].
  pose proof (co_nodes _ _ Hco _ _ Hi) as Hok.
  assert (Hve : votes_effect i nd eff).
  { eapply votes_local; [done| |done]. intros m rnd Heq. apply (co_net _ _ Hco), (Hdel _ _ Heq). }
  pose proof (new_votes _ _ _ Hve) as Hnew. destruct Hve as [Hle _]. pose proof (saved_le_term _ _ Hle) as Hlt.
  assert (Hat : nodes (apply_effect i eff c0) !! i = Some (ef_node eff)) by (eapply node_after_eq; by rewrite E1).
  constructor; cbn [apply_effect granted]; rewrite E3.
  - intros v t k [Hin|Hin]%elem_of_app Hk.
    + destruct (Hsv _ _ _ Hin Hk) as (nd0 & Hv & Hor). destruct (decide (i = v)) as [<-|Hne].
      * rewrite Hi in Hv. injection Hv as <-. exists (ef_node eff). split; [done|].
        destruct (vote_survives _ _ _ _ Hle Hor) as [?|(?&?&?)]; auto.
      * exists nd0. by rewrite node_after_ne, E1.
    + destruct (Hnew _ _ _ Hin) as (-> & [(?&?&_)|(?&_)]); [|done]. exists (ef_node eff). auto.
  - intros v t [Hin|Hin]%elem_of_app.
    + destruct (Hself _ _ Hin) as (nd0 & Hv & Ht). destruct (decide (i = v)) as [<-|Hne].
      * rewrite Hi in Hv. injection Hv as <-. exists (ef_node eff). split; [done|lia].
      * exists nd0. by rewrite node_after_ne, E1.
    + destruct (Hnew _ _ _ Hin) as (-> & Hor). exists (ef_node eff). split; [done|]. destruct Hor as [(?&_)|(_&?&_)]; lia.
  - assert (Hmix : forall v t k k', (v, t, k) ∈ granted c -> (v, t, k') ∈ ef_granted eff ->
      k <> v -> k' <> v -> k = k').
    { intros v t k k' H1 H2 Hk Hk'. destruct (Hnew _ _ _ H2) as (-> & [(-> & Hv & _)|(?&_)]); [|done].
      destruct (Hsv _ _ _ H1 Hk) as (nd0 & Hv0 & Hor). rewrite Hi in Hv0. injection Hv0 as <-.
      destruct (vote_survives _ _ _ _ Hle Hor) as [?|(_&?&_)]; lia. }
    intros v t k k' [H1|H1]%elem_of_app [H2|H2]%elem_of_app Hk Hk'; eauto.
    + symmetry. eauto.
    + destruct (Hnew _ _ _ H1) as (-> & [(_&?&_)|(?&_)]), (Hnew _ _ _ H2) as (_ & [(_&?&_)|(?&_)]); try done. lia.
Qed.

Lemma reachable_votes c : reachable n c -> votes_ok c.
Proof.
  induction 1 as [rs|c ev c' Hr IH Hc].
  - constructor; simpl; intros; by match goal with H : _ ∈ [] |- _ => apply not_elem_of_nil in H end.
  - eapply votes_ok_step; [by apply reachable_ok|done|done].
Qed.

(** ** Ballots in flight *)

#[local] Opaque RequestVote AppendEntries heartbeat_args heartbeat_reply election_begin
  election_reply election_end changeRole Start_locked Make applyLoop.

(** Every path through a local step, the critical sections kept opaque. *)
Ltac local_cases Hl :=
  unfold local, local_election, local_election_end, local_election_failed, local_election_won,
    local_beat_tick, local_beat_e, local_beat_h, local_call_fail, local_deliver, send_heartbeat,
    GetState, mbind, Outcome_bind, guard_step, enabled, run in Hl;
  repeat (case_match; simplify_eq); simplify_eq.

(** What a step does to a running election. *)
Lemma local_lock i id ev nd eff id' args vc w vs :
  local n i id ev nd = Ok eff -> lock (ef_node eff) = Some (OpElection id' args vc w vs) ->
  (id' = id /\ vs = []) \/
  (exists vc0 w0 vs0, lock nd = Some (OpElection id' args vc0 w0 vs0) /\
     forall v, v ∈ vs -> v ∈ vs0 \/
       exists m rnd r, ev = LDeliver m rnd /\ m_body m = PVoteRep r /\ vr_VoteGranted r = true /\
         m_id m = id' /\ m_src m = v).
Proof.
  intros Hl Hlk. local_cases Hl; node_simpl; simplify_eq/=; auto; try (right; by eauto 10).
  right. do 3 eexists. split; [reflexivity|]. intros v [->|Hv]%elem_of_cons; [right|by left].
  bool_to_prop. naive_solver.
Qed.

(** Where the messages of a step come from. *)
Definition sent_ok (i id : nat) (ev : LocalEvent) (eff : Effect) (m' : Msg) : Prop :=
  match m_body m' with
  | PVoteReq a => m_src m' = i /\ m_id m' = id /\
      (forall id' args vc w vs, lock (ef_node eff) = Some (OpElection id' args vc w vs) -> a = args)
  | PVoteRep r => m_src m' = i /\
      exists m rnd args, ev = LDeliver m rnd /\ m_body m = PVoteReq args /\ m_id m' = m_id m /\
        m_dst m' = m_src m /\
        (vr_VoteGranted r = true -> (i, va_Term args, Z.to_nat (va_CandidateId args)) ∈ ef_granted eff)
  | _ => m_id m' = id \/ exists m rnd, ev = LDeliver m rnd /\ m_id m' = m_id m
  end.

Lemma local_sent i id ev nd eff :
  local n i id ev nd = Ok eff -> forall m', m' ∈ ef_send eff -> sent_ok i id ev eff m'.
Proof.
  intros Hl m' Hm'. local_cases Hl; node_simpl;
    try (by apply not_elem_of_nil in Hm');
    try (apply list_elem_of_singleton in Hm' as ->; unfold sent_ok; simpl; by eauto 10 using list_elem_of_singleton).
  - apply list_elem_of_In, in_map_iff in Hm' as (j & <- & _). unfold sent_ok. simpl. naive_solver.
  - apply list_elem_of_singleton in Hm' as ->. unfold sent_ok. simpl. split; [done|].
    do 3 eexists. split_and!; try done. intros _. by apply list_elem_of_singleton.
  - apply list_elem_of_singleton in Hm' as ->. unfold sent_ok. simpl. split; [done|].
    do 3 eexists. split_and!; try done. congruence.
Qed.

(** The elections won in a step. *)
Lemma local_won i id ev nd eff j t V :
  node_ok n i nd -> local n i id ev nd = Ok eff -> (j, t, V) ∈ ef_won eff ->
  j = i /\ exists rnd id' args vc vs, ev = LElectionEnd rnd /\
    lock nd = Some (OpElection id' args vc [] vs) /\ V = i :: vs /\ t = term (raft nd) /\
    Z.of_nat n / 2 < vc /\ role (raft (ef_node eff)) = Leader /\ lock (ef_node eff) = None /\
    (nsaved (ef_node eff)).1.1 = t /\ ef_granted eff = [].
Proof.
  intros Hok Hl Hin. destruct ev; try (local_cases Hl; node_simpl; by apply not_elem_of_nil in Hin).
  simpl in Hl. unfold local_election_end in Hl.
  destruct (lock nd) as [[id' args vc [|? ?] vs|? ? ?]|]; try done.
  pose proof (no_raft _ _ _ Hok) as Hr. destruct (election_end_spec vc rnd (raft nd) (raft_ok_me _ _ _ Hr))
    as (rf' & He & Htm & _ & _ & _ & _ & _ & _ & Hps & _ & Hcase). rewrite He in Hl. simpl in Hl.
  case_bool_decide as Hmaj; injection Hl as <-; node_simpl; [|by apply not_elem_of_nil in Hin].
  apply list_elem_of_singleton in Hin. injection Hin as -> -> ->. destruct Hcase as [Hro _].
  rewrite (ro_peers _ _ _ Hr) in Hmaj. split; [done|].
  exists rnd, id', args, vc, vs. split_and!; try done.
  unfold nsaved. node_simpl. by rewrite (saved_persist_data _ _ Hps).
Qed.

Record ballots_ok (c : Cluster) : Prop := {
  bo_net : forall m, m ∈ net c -> (m_id m < next_id c)%nat;
  bo_ops : forall i nd id args vc w vs, nodes c !! i = Some nd ->
    lock nd = Some (OpElection id args vc w vs) -> (id < next_id c)%nat;
  bo_req : forall m a nd args vc w vs, m ∈ net c -> m_body m = PVoteReq a ->
    nodes c !! m_src m = Some nd -> lock nd = Some (OpElection (m_id m) args vc w vs) -> a = args;
  bo_rep : forall m r nd args vc w vs, m ∈ net c -> m_body m = PVoteRep r -> vr_VoteGranted r = true ->
    nodes c !! m_dst m = Some nd -> lock nd = Some (OpElection (m_id m) args vc w vs) ->
    (m_src m, va_Term args, m_dst m) ∈ granted c;
  bo_voters : forall i nd id args vc w vs v, nodes c !! i = Some nd ->
    lock nd = Some (OpElection id args vc w vs) -> v ∈ vs -> (v, va_Term args, i) ∈ granted c;
}.

Lemma ballots_drop k c : ballots_ok c -> ballots_ok (remove_msg k c).
Proof.
  intros [B1 B2 B3 B4 B5].
  constructor; simpl; eauto using list_elem_of_delete_inv.
Qed.

(** The identifier of a sent message is new or that of the message answered. *)
Lemma sent_id i id lev eff m :
  sent_ok i id lev eff m -> m_id m = id \/ exists m0 rnd, lev = LDeliver m0 rnd /\ m_id m = m_id m0.
Proof.
  unfold sent_ok. intros Hm. destruct (m_body m);
    [|destruct Hm as (_ & m0 & rnd & a & Hev & _ & ? & _)|destruct Hm as [?|(m0 & rnd & Hev & ?)]..];
    naive_solver.
Qed.

(** An election under way after a step has just begun, or was under way
    before with at most one voter less, whose ballot has just arrived. *)
Lemma election_origin c c0 i nd lev eff :
  nodes c !! i = Some nd -> local n i (next_id c) lev nd = Ok eff -> nodes c0 = nodes c ->
  forall j ndj id args vc w vs, nodes (apply_effect i eff c0) !! j = Some ndj ->
    lock ndj = Some (OpElection id args vc w vs) ->
    (id = next_id c /\ vs = [] /\ j = i /\ ndj = ef_node eff) \/
    exists ndj0 vc0 w0 vs0, nodes c !! j = Some ndj0 /\ lock ndj0 = Some (OpElection id args vc0 w0 vs0) /\
      (forall v, v ∈ vs -> v ∈ vs0 \/ exists m rnd r, lev = LDeliver m rnd /\ j = i /\
         m_body m = PVoteRep r /\ vr_VoteGranted r = true /\ m_id m = id /\ m_src m = v).
Proof.
  intros Hi Hl E1 j ndj id args vc w vs Hj Hop.
  destruct (node_after i nd eff c0 j ndj) as [[-> ->]|[Hne Hj0]]; [by rewrite E1|done| |].
  - destruct (local_lock _ _ _ _ _ _ _ _ _ _ Hl Hop) as [[-> ->]|(vc0 & w0 & vs0 & Hop0 & Hv)]; [by left|].
    right. exists nd, vc0, w0, vs0. split_and!; [done|done|]. naive_solver.
  - right. rewrite E1 in Hj0. exists ndj, vc, w, vs. naive_solver.
Qed.

Lemma ballots_ok_step ev c c' :
  cluster_ok n c -> ballots_ok c -> cstep n ev c = Ok c' -> ballots_ok c'.
Proof.
  intros Hco [B1 B2 B3 B4 B5] Hc. destruct (cstep_cases n _ _ _ Hc) as
    [(k & _ & ->)|(i & nd & lev & eff & c0 & Hi & Hl & -> & E1 & E2 & E3 & E4 & Hsub & Hdel & _)];
    [by apply ballots_drop|].
  pose proof (local_sent _ _ _ _ _ Hl) as Hsent.
  pose proof (election_origin c c0 i nd lev eff Hi Hl E1) as Hlk.
  constructor; cbn [apply_effect net next_id granted]; rewrite ?E2, ?E3.
  - intros m [Hm%Hsub%B1|Hm%Hsent%sent_id]%elem_of_app; [lia|].
    destruct Hm as [->|(m0 & rnd & Hev & ->)]; [lia|]. destruct (Hdel _ _ Hev) as [Hm0%B1 _]. lia.
  - intros j ndj id args vc w vs Hj Hop. destruct (Hlk _ _ _ _ _ _ _ Hj Hop) as [(-> & _)|(? & ? & ? & ? & Hj0 & Hop0 & _)];
      [lia|]. pose proof (B2 _ _ _ _ _ _ _ Hj0 Hop0). lia.
  - intros m a ndj args vc w vs [Hm%Hsub|Hm]%elem_of_app Hb Hj Hop.
    + destruct (Hlk _ _ _ _ _ _ _ Hj Hop) as [(Hid & _)|(? & ? & ? & ? & Hj0 & Hop0 & _)]; [|by eauto].
      pose proof (B1 _ Hm). lia.
    + pose proof (Hsent _ Hm) as Hs. unfold sent_ok in Hs. rewrite Hb in Hs. destruct Hs as (Hsrc & Hid & Ha).
      rewrite Hsrc, (node_after_eq i nd) in Hj by congruence. injection Hj as <-. by eapply Ha.
  - intros m r ndj args vc w vs [Hm%Hsub|Hm]%elem_of_app Hb Hg Hj Hop; apply elem_of_app.
    + left. destruct (Hlk _ _ _ _ _ _ _ Hj Hop) as [(Hid & _)|(? & ? & ? & ? & Hj0 & Hop0 & _)]; [|by eauto].
      pose proof (B1 _ Hm). lia.
    + right. pose proof (Hsent _ Hm) as Hs. unfold sent_ok in Hs. rewrite Hb in Hs.
      destruct Hs as (-> & m0 & rnd & a & Hev & Hb0 & Hid & Hdst & Hin). destruct (Hdel _ _ Hev) as [Hm0 _].
      rewrite Hid in Hop. rewrite Hdst in Hj |- *.
      destruct (Hlk _ _ _ _ _ _ _ Hj Hop) as [(Hid0 & _)|(? & ? & ? & ? & Hj0 & Hop0 & _)];
        [pose proof (B1 _ Hm0); lia|].
      rewrite <-(B3 _ _ _ _ _ _ _ Hm0 Hb0 Hj0 Hop0). specialize (Hin Hg).
      destruct (co_net _ _ Hco _ Hm0) as (_ & _ & Hbody). rewrite Hb0 in Hbody. simpl in Hbody.
      by rewrite Hbody, Nat2Z.id in Hin.
  - intros j ndj id args vc w vs v Hj Hop Hv. apply elem_of_app. left.
    destruct (Hlk _ _ _ _ _ _ _ Hj Hop) as [(_ & -> & _)|(? & ? & ? & ? & Hj0 & Hop0 & Hvs)];
      [by apply not_elem_of_nil in Hv|].
    destruct (Hvs v Hv) as [?|(m & rnd & r & Hev & -> & Hb & Hg & <- & <-)]; [by eauto|].
    destruct (Hdel _ _ Hev) as [Hm Hdst]. rewrite <-Hdst in *. by eapply B4.
Qed.

Lemma reachable_ballots c : reachable n c -> ballots_ok c.
Proof.
  induction 1 as [rs|c ev c' Hr IH Hc].
  - constructor; simpl; try (intros; by match goal with H : _ ∈ [] |- _ => apply not_elem_of_nil in H end);
      intros i nd id args vc w vs; intros; exfalso;
      match goal with H : _ !! i = Some nd |- _ => rewrite list_lookup_fmap in H;
        destruct (seq 0 n !! i); simplify_eq/= end.
  - eapply ballots_ok_step; [by apply reachable_ok|done|done].
Qed.

(** ** Leadership *)

(** Leadership is kept, lost with a higher term, lost by one of the events
    [clean] excludes, or won in an election. *)
Definition role_effect (i : nat) (ev : LocalEvent) (nd : Node) (eff : Effect) : Prop :=
  (role (raft (ef_node eff)) = role (raft nd) /\ term (raft (ef_node eff)) = term (raft nd)) \/
  (role (raft (ef_node eff)) <> Leader /\
   (role (raft nd) <> Leader \/ (nsaved nd).1.1 < (nsaved (ef_node eff)).1.1 \/
    clean_local n ev nd = false)) \/
  (role (raft (ef_node eff)) = Leader /\
   exists V, (i, term (raft (ef_node eff)), V) ∈ ef_won eff).

Lemma role_election i id rnd nd eff :
  local_election n i id rnd nd = Ok eff -> role_effect i (LElection rnd) nd eff.
Proof.
  intros Hl. unfold local_election in Hl. step_inv Hl. set (rf := set_electionTimer t (raft nd)) in Hl.
  destruct (decide (role rf = Leader)) as [HL|HL].
  - rewrite election_begin_leader in Hl by done. simpl in Hl. injection Hl as <-. by left.
  - destruct (election_begin_candidate rnd rf HL) as (rf' & Hb & _ & _ & _ & Hro & _).
    rewrite Hb in Hl. simpl in Hl. injection Hl as <-. right. left. node_simpl. rewrite Hro.
    split; [done|]. by left.
Qed.

Lemma role_election_end i rnd nd eff :
  node_ok n i nd -> local_election_end i rnd nd = Ok eff -> role_effect i (LElectionEnd rnd) nd eff.
Proof.
  intros Hok Hl. unfold local_election_end in Hl.
  destruct (lock nd) as [[id args vc [|? ?] vs|? ? ?]|]; try done.
  destruct (election_end_spec vc rnd (raft nd) (raft_ok_me _ _ _ (no_raft _ _ _ Hok)))
    as (rf' & He & Htm & _ & _ & _ & _ & _ & _ & _ & _ & Hcase). rewrite He in Hl. simpl in Hl.
  destruct (bool_decide _); injection Hl as <-.
  - right. right. split; [apply Hcase|]. node_simpl. eexists. by apply list_elem_of_singleton.
  - left. node_simpl. split; [apply Hcase|done].
Qed.

Lemma role_heartbeat i ev nd id s args reply rnd rf :
  node_ok n i nd -> lock nd = Some (OpHeartbeat id s args) -> 0 <= ar_NextIndex reply ->
  heartbeat_reply (Z.of_nat s) args reply rnd (raft nd) = Some rf ->
  role_effect i ev nd (quiet (set_lock None (set_raft rf nd))).
Proof.
  intros Hok Hlk Hnr Hh. destruct (nsaved_beat _ _ _ _ _ Hok Hlk) as [Hsv Hs].
  destruct (raft_ok_idx n i (raft nd) s (no_raft _ _ _ Hok) Hs) as [Hsn Hsm].
  destruct (heartbeat_reply_spec (Z.of_nat s) args reply rnd (raft nd) Hsn Hsm Hnr)
    as (rf' & Hh' & (_&_&_&_&_&_&Hps&_) & Hres).
  rewrite Hh in Hh'. injection Hh' as <-. unfold role_effect. node_simpl.
  destruct Hres as [(?&Ht&Hro&_)|(_&Ht&Hro&_)]; [|by left]. right. left. rewrite Hro. split; [done|].
  right. left. rewrite Hsv. unfold nsaved. node_simpl. rewrite (saved_persist_data _ _ Hps).
  unfold pstate. simpl. lia.
Qed.

Lemma role_deliver i m rnd nd eff :
  node_ok n i nd -> msg_ok n m -> local_deliver i m rnd nd = Ok eff ->
  role_effect i (LDeliver m rnd) nd eff.
Proof.
  intros Hok (_ & _ & Hm) Hl. unfold local_deliver in Hl.
  destruct (m_body m) as [args|reply|args|reply] eqn:Hb.
  - step_inv Hl. apply is_free_lock in Hguard. pose proof (nsaved_free _ _ Hok Hguard) as Hsv.
    destruct (RequestVote_spec args rnd (raft nd)) as (rf' & Hrv & _ & Htm & _ & Hro & Hps & _).
    rewrite Hrv in Hl. simpl in Hl. injection Hl as <-. unfold role_effect. node_simpl.
    rewrite Hro, Htm, Hsv. unfold nsaved. node_simpl. rewrite (saved_persist_data _ _ Hps).
    unfold pstate. cbn [fst snd]. rewrite Htm. unfold vote_role, vote_term.
    destruct (Z.ltb_spec (term (raft nd)) (va_Term args)) as [Hlt|Hge].
    { right. left. rewrite orb_true_r. split; [done|]. right. left. lia. }
    rewrite Z.max_l by lia. destruct (grants args (raft nd)) eqn:Hg; [|by left].
    right. left. split; [done|]. left. intros HL. unfold grants in Hg. rewrite HL in Hg.
    bool_to_prop. destruct H1; bool_to_prop; [lia|done].
  - destruct (lock nd) as [[id args vc w vs|? ? ?]|] eqn:Hlk; try by (injection Hl as <-; left).
    case_bool_decide; [|by (injection Hl as <-; left)].
    destruct (election_reply_spec args reply rnd (raft nd) vc) as (rf' & He & _ & _ & _ & _ & Hor).
    rewrite He in Hl. injection Hl as <-. pose proof (no_lock _ _ _ Hok) as Hlo. unfold lock_ok in Hlo.
    rewrite Hlk in Hlo. destruct Hlo as (_&_&_&_&_&HnL&_). right. left. node_simpl.
    destruct Hor as [[_ ->]|(_&_&->)]; auto.
  - step_inv Hl. apply is_free_lock in Hguard. pose proof (nsaved_free _ _ Hok Hguard) as Hsv.
    destruct (AppendEntries_spec args rnd (raft nd) (ro_log _ _ _ (no_raft _ _ _ Hok)) Hm)
      as (rf' & reply & Hap & (_&_&_&_&_&_&_&Hps&_) & Hout).
    rewrite Hap in Hl. simpl in Hl. injection Hl as <-. unfold role_effect. node_simpl.
    destruct Hout as [? Ht Hro ? ?|? Hp Hro ?|? Ht Hro ? ?|? Ht Hro ? ? ? ?]; [right; left|left..].
    + rewrite Hro. split; [done|]. right. left. rewrite Hsv. unfold nsaved. node_simpl.
      rewrite (saved_persist_data _ _ Hps). unfold pstate. simpl. lia.
    + split; [done|]. unfold pstate in Hp. congruence.
    + done.
    + done.
  - destruct (lock nd) as [[? ? ? ? ?|id s args]|] eqn:Hlk; try by (injection Hl as <-; left).
    case_bool_decide; [|by (injection Hl as <-; left)].
    destruct (heartbeat_reply _ _ _ _ _) as [rf|] eqn:Hh; [|done]. injection Hl as <-.
    by eapply role_heartbeat.
Qed.

#[local] Transparent heartbeat_args changeRole applyLoop Start_locked.

Lemma role_send i id s rnd nd0 nd eff ev :
  role (raft nd) = role (raft nd0) -> term (raft nd) = term (raft nd0) ->
  send_heartbeat i id s rnd nd = Ok eff -> role_effect i ev nd0 eff.
Proof.
  intros Hr Ht Hl. left. unfold send_heartbeat in Hl. step_inv Hl.
  unfold heartbeat_args in Hl. destruct (_ =? _); simpl in Hl.
  - injection Hl as <-. done.
  - destruct (getAppendLogs _ _) as [[[? ?] ?]|]; [|done]. simpl in Hl. injection Hl as <-. done.
Qed.

Lemma role_local i id ev nd eff :
  node_ok n i nd -> (forall m rnd, ev = LDeliver m rnd -> msg_ok n m) ->
  local n i id ev nd = Ok eff -> role_effect i ev nd eff.
Proof.
  intros Hok Hm Hl. destruct ev; simpl in Hl.
  - step_inv Hl. injection Hl as <-. by left.
  - by eapply role_election.
  - by eapply role_election_end.
  - unfold local_election_failed in Hl. step_inv Hl. destruct (egor nd); try done. injection Hl as <-.
    right. left. split; [done|]. simpl. destruct (decide (role (raft nd) = Leader)); [|by left].
    right. right. by rewrite bool_decide_true.
  - unfold local_election_won in Hl. step_inv Hl. destruct (egor nd); try done. injection Hl as <-. by left.
  - unfold local_beat_tick in Hl. step_inv Hl. destruct (hgor nd); try done. injection Hl as <-. by left.
  - unfold local_beat_e in Hl. destruct (egor nd) as [| | |[|s todo]]; try done.
    + injection Hl as <-. by left.
    + by eapply (role_send i id s rnd nd (set_egor (EBeats todo) nd)).
  - unfold local_beat_h in Hl. destruct (hgor nd) as [|s todo]; try done.
    by eapply (role_send i id s rnd nd (set_hgor todo nd)).
  - unfold local_call_fail in Hl. destruct (lock nd) as [[? ? ? ? ?|? s ?]|] eqn:Hlk; [| |done]; step_inv Hl.
    + injection Hl as <-. by left.
    + destruct (heartbeat_reply _ _ _ _ _) as [rf|] eqn:Hh; [|done]. injection Hl as <-.
      by eapply (role_heartbeat _ _ _ _ _ _ zero_reply).
  - eapply role_deliver; eauto.
  - step_inv Hl. destruct (applyLoop (raft nd)) as [rf|] eqn:Ha; [|done]. injection Hl as <-. left.
    unfold applyLoop in Ha. destruct (_ <? _); simpl in Ha; [destruct (zidx _ _)|]; simplify_eq/=; done.
  - step_inv Hl. injection Hl as <-. by left.
  - step_inv Hl. destruct p as [[cmd tm] b]. destruct (Start_locked _ _ _ _) as [[rf res]|] eqn:Hs; [|done].
    injection Hl as <-. left. unfold Start_locked in Hs.
    destruct (lastLogTermIndex _) as [? ?], (negb b); simpl in Hs; [by simplify_eq|].
    destruct (zset _ _ _); by simplify_eq/=.
  - injection Hl as <-. right. left. unfold fresh_node. node_simpl.
    destruct (Make_frame n (Z.of_nat i) (restart_persister (persister (raft nd))) rnd) as (_&_&_&->&_).
    split; [done|]. simpl. destruct (decide (role (raft nd) = Leader)); [|by left].
    right. right. by rewrite bool_decide_true.
Qed.

(** A leader grants a vote only together with a higher term. *)
Lemma leader_grants i id ev nd eff g :
  node_ok n i nd -> local n i id ev nd = Ok eff -> g ∈ ef_granted eff -> role (raft nd) = Leader ->
  (nsaved nd).1.1 < (nsaved (ef_node eff)).1.1.
Proof.
  intros Hok Hl Hg HL. destruct ev as [|rnd| | | | | | | |m rnd| | | |];
    try (exfalso; local_cases Hl; node_simpl; by apply not_elem_of_nil in Hg).
  { simpl in Hl. destruct (votes_election _ _ _ _ _ Hok Hl) as [_ Hf]. rewrite Forall_forall in Hf.
    destruct (Hf _ Hg) as [[_ _]|(_ & _ & ?)]; [|done]. exfalso. unfold local_election in Hl. step_inv Hl.
    rewrite election_begin_leader in Hl by done. simplify_eq/=. by apply not_elem_of_nil in Hg. }
  simpl in Hl. unfold local_deliver in Hl.
  destruct (m_body m) as [args|reply|args|reply]; [|exfalso; local_cases Hl; node_simpl; by apply not_elem_of_nil in Hg..].
  step_inv Hl. apply is_free_lock in Hguard. pose proof (nsaved_free _ _ Hok Hguard) as Hsv.
  destruct (RequestVote_spec args rnd (raft nd)) as (rf' & Hrv & _ & Htm & _ & _ & Hps & _).
  rewrite Hrv in Hl. simpl in Hl. injection Hl as <-. node_simpl.
  destruct (grants args (raft nd)) eqn:Hgr; [|by apply not_elem_of_nil in Hg].
  rewrite Hsv. unfold nsaved. node_simpl. rewrite (saved_persist_data _ _ Hps).
  unfold pstate. cbn [fst snd]. rewrite Htm. unfold vote_term, grants in *. rewrite HL in Hgr.
  bool_to_prop. destruct H1; bool_to_prop; [lia|done].
Qed.

(** ** Election safety of clean executions *)

Record wins_ok (c : Cluster) : Prop := {
  (** A win rests on a majority of distinct peers, the winner among them,
      whose votes for that very term are on record. *)
  wo_quorum : forall i t V, (i, t, V) ∈ won c ->
    NoDup V /\ (forall v, v ∈ V -> (v < n)%nat) /\ (n < 2 * length V)%nat /\
    forall v, v ∈ V -> v = i \/ (v, t, i) ∈ granted c;
  (** A winner is on record with at least that term, and leads while it is
      its current one. *)
  wo_leads : forall i t V, (i, t, V) ∈ won c -> exists nd, nodes c !! i = Some nd /\
    t <= (nsaved nd).1.1 /\ (t = (nsaved nd).1.1 -> role (raft nd) = Leader);
  (** A winner votes for nobody else in its own term. *)
  wo_no_grant : forall i t V k, (i, t, V) ∈ won c -> (i, t, k) ∈ granted c -> k = i;
  (** Leaders have won their term. *)
  wo_leader : forall i nd, nodes c !! i = Some nd -> role (raft nd) = Leader ->
    exists V, (i, term (raft nd), V) ∈ won c;
}.

Lemma majority_of_count (vc : Z) (vs : list nat) (i : nat) :
  Z.of_nat n / 2 < vc -> vc = 1 + zlen vs -> (n < 2 * length (i :: vs))%nat.
Proof.
  intros Hm Hvc. unfold zlen in Hvc. simpl.
  pose proof (Z.div_mod (Z.of_nat n) 2 ltac:(lia)). pose proof (Z.mod_pos_bound (Z.of_nat n) 2 ltac:(lia)). lia.
Qed.

(** The quorum behind a new win. *)
Lemma new_win_quorum c i nd id args vc vs :
  cluster_ok n c -> ballots_ok c -> nodes c !! i = Some nd ->
  lock nd = Some (OpElection id args vc [] vs) -> Z.of_nat n / 2 < vc ->
  NoDup (i :: vs) /\ (forall v, v ∈ i :: vs -> (v < n)%nat) /\ (n < 2 * length (i :: vs))%nat /\
  forall v, v ∈ i :: vs -> v = i \/ (v, va_Term args, i) ∈ granted c.
Proof.
  intros Hco Hbo Hi Hlk Hmaj. pose proof (co_nodes _ _ Hco _ _ Hi) as Hok.
  pose proof (no_lock _ _ _ Hok) as Hl. unfold lock_ok in Hl. rewrite Hlk in Hl.
  destruct Hl as (_&_&_&_&_&_&Hnd&Hin&Hvc). rewrite app_nil_r in *.
  pose proof (ro_in _ _ _ (no_raft _ _ _ Hok)). split_and!.
  - apply NoDup_cons. split; [|done]. intros Hv. by destruct (Hin i Hv).
  - intros v [->|Hv]%elem_of_cons; [done|]. by apply Hin.
  - by eapply majority_of_count.
  - intros v [->|Hv]%elem_of_cons; [by left|]. right. by eapply (bo_voters _ Hbo).
Qed.

(** A clean step that wins an election. *)
Lemma new_win c i nd lev eff :
  cluster_ok n c -> ballots_ok c -> nodes c !! i = Some nd -> local n i (next_id c) lev nd = Ok eff ->
  clean_local n lev nd = true ->
  forall j t V, (j, t, V) ∈ ef_won eff -> j = i /\ t = (nsaved (ef_node eff)).1.1 /\
    (nsaved nd).1.1 < t /\ role (raft (ef_node eff)) = Leader /\ ef_granted eff = [] /\
    NoDup V /\ (forall v, v ∈ V -> (v < n)%nat) /\ (n < 2 * length V)%nat /\
    forall v, v ∈ V -> v = i \/ (v, t, i) ∈ granted c.
Proof.
  intros Hco Hbo Hi Hl Hclean j t V Hw. pose proof (co_nodes _ _ Hco _ _ Hi) as Hok.
  destruct (local_won _ _ _ _ _ _ _ _ Hok Hl Hw) as
    (-> & rnd & id & args & vc & vs & -> & Hlk & -> & -> & Hmaj & Hro & _ & Hst & Hge).
  destruct (votes_election_end _ _ _ _ Hok Hl) as [Hlt _]. simpl in Hclean. rewrite Hlk in Hclean.
  assert (Hta : term (raft nd) = va_Term args) by (bool_to_prop; destruct Hclean; bool_to_prop; lia).
  rewrite Hta in *. split_and!; try done; try lia; by eapply new_win_quorum.
Qed.

(** A clean step of a peer that has won the term it is still in. *)
Lemma old_win_leads c i nd lev eff :
  (forall i t V, (i, t, V) ∈ won c -> exists nd, nodes c !! i = Some nd /\
     t <= (nsaved nd).1.1 /\ (t = (nsaved nd).1.1 -> role (raft nd) = Leader)) ->
  nodes c !! i = Some nd -> role_effect i lev nd eff ->
  (nsaved nd).1.1 <= (nsaved (ef_node eff)).1.1 -> clean_local n lev nd = true ->
  forall t V, (i, t, V) ∈ won c -> t = (nsaved (ef_node eff)).1.1 ->
  role (raft nd) = Leader /\ role (raft (ef_node eff)) = Leader /\ (nsaved nd).1.1 = (nsaved (ef_node eff)).1.1.
Proof.
  intros W2 Hi Hrole Hle Hclean t V Hw ->. destruct (W2 _ _ _ Hw) as (nd0 & Hi0 & Hle0 & HL).
  rewrite Hi in Hi0. injection Hi0 as <-.
  assert (Heq : (nsaved nd).1.1 = (nsaved (ef_node eff)).1.1) by lia. specialize (HL (eq_sym Heq)).
  destruct Hrole as [[-> _]|[[_ [?|[?|?]]]|[? _]]]; [done|done|lia|congruence|done].
Qed.

Lemma wins_ok_step ev c c' :
  cluster_ok n c -> votes_ok c -> ballots_ok c -> wins_ok c ->
  clean n ev c = true -> cstep n ev c = Ok c' -> wins_ok c'.
Proof.
  intros Hco Hvo Hbo [W1 W2 W3 W4] Hcl Hc. destruct (cstep_cases n _ _ _ Hc) as
    [(k & _ & ->)|(i & nd & lev & eff & c0 & Hi & Hl & -> & E1 & E2 & E3 & E4 & Hsub & Hdel & Hev)];
    [by constructor|].
  pose proof (co_nodes _ _ Hco _ _ Hi) as Hok.
  assert (Hmsg : forall m rnd, lev = LDeliver m rnd -> msg_ok n m).
  { intros m rnd Heq. apply (co_net _ _ Hco), (Hdel _ _ Heq). }
  pose proof (votes_local i _ lev nd eff Hok Hmsg Hl) as Hve. pose proof (new_votes _ _ _ Hve) as Hgr.
  destruct Hve as [Hle%saved_le_term _].
  pose proof (role_local i _ lev nd eff Hok Hmsg Hl) as Hrole.
  assert (Hclean : clean_local n lev nd = true).
  { destruct Hev as [->|(m & rnd & ->)]; [|done]. simpl in Hcl. by rewrite Hi in Hcl. }
  pose proof (new_win c i nd lev eff Hco Hbo Hi Hl Hclean) as Hnew.
  pose proof (old_win_leads c i nd lev eff W2 Hi Hrole Hle Hclean) as Hwin_old.
  constructor; cbn [apply_effect granted won]; rewrite ?E3, ?E4.
  - intros j t V [Hw|Hw]%elem_of_app.
    + destruct (W1 _ _ _ Hw) as (?&?&?&Hq). split_and!; try done.
      intros v Hv. destruct (Hq v Hv); [by left|]. right. apply elem_of_app. by left.
    + destruct (Hnew _ _ _ Hw) as (->&_&_&_&_&?&?&?&Hq). split_and!; try done.
      intros v Hv. destruct (Hq v Hv); [by left|]. right. apply elem_of_app. by left.
  - intros j t V [Hw|Hw]%elem_of_app.
    + destruct (decide (i = j)) as [<-|Hne].
      * exists (ef_node eff). split; [eapply node_after_eq; by rewrite E1|].
        destruct (W2 _ _ _ Hw) as (nd0 & Hi0 & Hle0 & _). rewrite Hi in Hi0. injection Hi0 as <-.
        split; [lia|]. intros ->. by eapply Hwin_old.
      * destruct (W2 _ _ _ Hw) as (nd0 & Hj & ?). exists nd0. by rewrite node_after_ne, E1 by done.
    + destruct (Hnew _ _ _ Hw) as (-> & -> & _ & Hro & _). exists (ef_node eff).
      split; [eapply node_after_eq; by rewrite E1|]. split; [lia|done].
  - intros j t V k [Hw|Hw]%elem_of_app [Hg|Hg]%elem_of_app.
    + by eapply W3.
    + destruct (Hgr _ _ _ Hg) as (-> & [(-> & _ & _)|(-> & _)]); [|done].
      destruct (Hwin_old _ _ Hw eq_refl) as (HL & _ & Heq).
      pose proof (leader_grants _ _ _ _ _ _ Hok Hl Hg HL). lia.
    + destruct (Hnew _ _ _ Hw) as (-> & _ & Hlt & _). destruct (decide (k = i)); [done|]. exfalso.
      destruct (vo_saved _ Hvo _ _ _ Hg) as (nd0 & Hi0 & Hor); [done|]. rewrite Hi in Hi0. injection Hi0 as <-. lia.
    + destruct (Hnew _ _ _ Hw) as (_ & _ & _ & _ & Hge & _). rewrite Hge in Hg. by apply not_elem_of_nil in Hg.
  - intros j ndj Hj HL. destruct (node_after i nd eff c0 j ndj) as [[-> ->]|[Hne Hj0]]; [by rewrite E1|done| |].
    + destruct Hrole as [[Hro Htm]|[[? _]|[_ [V Hw]]]]; [|done|exists V; apply elem_of_app; by right].
      destruct (W4 _ _ Hi) as [V Hw]; [congruence|]. exists V. apply elem_of_app. left. by rewrite Htm.
    + rewrite E1 in Hj0. destruct (W4 _ _ Hj0 HL) as [V Hw]. exists V. apply elem_of_app. by left.
Qed.

Lemma clean_wins c : clean_reachable n c -> wins_ok c.
Proof.
  induction 1 as [rs|c ev c' Hr IH Hcl Hc].
  - constructor; simpl; try (intros; by match goal with H : _ ∈ [] |- _ => apply not_elem_of_nil in H end).
    intros i nd Hi HL. exfalso. rewrite list_lookup_fmap in Hi.
    destruct (seq 0 n !! i) as [j|]; [|done]. simpl in Hi. injection Hi as <-.
    unfold fresh_node in HL. node_simpl.
    destruct (Make_frame n (Z.of_nat j) MakePersister (rs j)) as (_&_&_&Hro&_). congruence.
  - apply clean_reachable_reachable in Hr.
    eapply wins_ok_step; eauto using reachable_ok, reachable_votes, reachable_ballots.
Qed.

(** Two wins of the same term are wins of the same peer. *)
Lemma clean_one_winner c i j t V W :
  clean_reachable n c -> (i, t, V) ∈ won c -> (j, t, W) ∈ won c -> i = j.
Proof.
  intros Hr Hi Hj. pose proof (clean_wins _ Hr) as [W1 _ W3 _].
  pose proof (reachable_votes _ (clean_reachable_reachable _ _ Hr)) as [_ _ Honce].
  destruct (W1 _ _ _ Hi) as (HV & HVn & HVq & HVg), (W1 _ _ _ Hj) as (HW & HWn & HWq & HWg).
  destruct (majorities_intersect n V W) as (v & Hv & Hw); [done..|].
  specialize (HVg v Hv). specialize (HWg v Hw).
  destruct (decide (v = i)) as [->|Hvi].
  { destruct HWg as [?|Hgj]; [done|]. symmetry. by eapply W3. }
  destruct (decide (v = j)) as [->|Hvj].
  { destruct HVg as [?|Hgi]; [done|]. by eapply W3. }
  destruct HVg as [?|Hgi], HWg as [?|Hgj]; try done. by eapply Honce.
Qed.

(** ** A vote for oneself *)

(** What keeps peer [v] from voting for another peer in term [t]: storage has
    moved on, holds the vote, or belongs to the leader of the term; or the
    campaign for [t] is still under way. *)
Definition remembered (v : nat) (t : Z) (nd : Node) : Prop :=
  t < (nsaved nd).1.1 \/
  (t = (nsaved nd).1.1 /\ ((nsaved nd).1.2 = Z.of_nat v \/ role (raft nd) = Leader)) \/
  (t = (nsaved nd).1.1 + 1 /\ votedFor (raft nd) = Z.of_nat v /\ campaigning nd = true).

#[local] Opaque heartbeat_args changeRole applyLoop Start_locked.

(** A campaign goes on, ends or is cut short by a crash. *)
Lemma campaign_step i id ev nd eff :
  local n i id ev nd = Ok eff -> campaigning nd = true ->
  (nsaved (ef_node eff) = nsaved nd /\ votedFor (raft (ef_node eff)) = votedFor (raft nd) /\
   campaigning (ef_node eff) = true) \/
  (exists rnd, ev = LElectionEnd rnd) \/ (exists rnd, ev = LCrash rnd).
Proof.
  intros Hl Hc. destruct ev as [|rnd|rnd|rnd| | |rnd|rnd|s rnd|m rnd| |cmd|k|rnd]; [..|by eauto];
    try (by eauto); unfold campaigning in Hc; destruct (lock nd) as [[id' args vc w vs|]|] eqn:Hlk; try done; left;
    try (local_cases Hl; unfold is_free in *; rewrite ?Hlk in *; by node_simpl).
  - simpl in Hl. step_inv Hl. injection Hl as <-. unfold campaigning. node_simpl. by rewrite Hlk.
  - simpl in Hl. unfold local_beat_e, send_heartbeat, is_free in Hl.
    destruct (egor nd) as [| | |[|? ?]]; cbn [lock set_egor] in Hl; rewrite ?Hlk in Hl; try done. injection Hl as <-.
    unfold campaigning. node_simpl. by rewrite Hlk.
  - simpl in Hl. unfold local_beat_h, send_heartbeat, is_free in Hl.
    destruct (hgor nd); cbn [lock set_hgor] in Hl; rewrite ?Hlk in Hl; done.
  - simpl in Hl. unfold local_deliver, is_free in Hl. rewrite Hlk in Hl.
    destruct (m_body m) as [?|reply|?|?]; try done.
    + case_bool_decide; [|injection Hl as <-; unfold campaigning; node_simpl; by rewrite Hlk].
      destruct (election_reply_spec args reply rnd (raft nd) vc) as (rf' & He & _ & Hv & Hps & _).
      rewrite He in Hl. injection Hl as <-. unfold campaigning, nsaved. node_simpl. by rewrite Hps.
    + injection Hl as <-. unfold campaigning. node_simpl. by rewrite Hlk.
Qed.

Lemma remembered_end i rnd nd eff t :
  node_ok n i nd -> local_election_end i rnd nd = Ok eff -> t = (nsaved nd).1.1 + 1 ->
  votedFor (raft nd) = Z.of_nat i -> remembered i t (ef_node eff).
Proof.
  intros Hok Hl -> Hv. unfold local_election_end in Hl. pose proof (no_lock _ _ _ Hok) as Hlo. unfold lock_ok in Hlo.
  destruct (lock nd) as [[id args vc [|? ?] vs|? ? ?]|]; try done. destruct Hlo as (_&_&Hva&Hle&_).
  destruct (election_end_spec vc rnd (raft nd) (raft_ok_me _ _ _ (no_raft _ _ _ Hok)))
    as (rf' & He & Htm & _ & _ & _ & _ & _ & _ & Hps & _ & Hcase). rewrite He in Hl. simpl in Hl.
  assert (Hs : saved (persister rf') = pstate rf') by (by apply saved_persist_data).
  fold (nsaved nd) in Hva. case_bool_decide; injection Hl as <-; unfold remembered, nsaved; node_simpl;
    rewrite Hs; change (pstate rf').1.1 with (term rf'); change (pstate rf').1.2 with (votedFor rf');
    (destruct (decide ((saved (persister (raft nd))).1.1 + 1 < term rf')); [by left|right; left; unfold nsaved in *; split; [lia|]]).
  - right. apply Hcase.
  - left. destruct Hcase as (_ & -> & _). done.
Qed.

Lemma remembered_step i id ev nd eff t :
  node_ok n i nd -> (forall m rnd, ev = LDeliver m rnd -> msg_ok n m) ->
  local n i id ev nd = Ok eff -> loyal_local ev nd = true ->
  remembered i t nd -> remembered i t (ef_node eff).
Proof.
  intros Hok Hm Hl Hlo Hre. destruct (votes_local i id ev nd eff Hok Hm Hl) as [Hle _].
  pose proof (saved_le_term _ _ Hle) as Hlt. destruct Hre as [?|[(-> & [Hv|HL])|(-> & Hv & Hc)]].
  - left. lia.
  - destruct Hle as [?|[Heq [Hv'|?]]]; [by left| |lia]. right. left. split; [done|]. left. congruence.
  - destruct (decide ((nsaved nd).1.1 < (nsaved (ef_node eff)).1.1)); [by left|]. right. left. split; [lia|]. right.
    destruct (role_local i id ev nd eff Hok Hm Hl) as [[-> _]|[[_ [?|[?|Hcl]]]|[? _]]]; try done.
    exfalso. destruct ev; try done; simpl in Hcl, Hlo; rewrite ?bool_decide_true in Hlo by done; try done.
    pose proof (no_lock _ _ _ Hok) as Hk. unfold lock_ok in Hk.
    destruct (lock nd) as [[? ? ? ? ?|]|]; [|done..]. by destruct Hk as (_&_&_&_&_&?&_).
  - destruct (campaign_step _ _ _ _ _ Hl Hc) as [(Hs & Hv' & ?)|[[rnd ->]|[rnd ->]]].
    + right. right. rewrite Hs, Hv'. done.
    + by eapply remembered_end.
    + exfalso. simpl in Hlo. rewrite Hc, andb_false_r in Hlo. done.
Qed.

Definition loyal_ok (c : Cluster) : Prop :=
  forall v t, (v, t, v) ∈ granted c -> exists nd, nodes c !! v = Some nd /\ remembered v t nd.

Lemma loyal_ok_step ev c c' :
  cluster_ok n c -> loyal_ok c -> loyal ev c = true -> cstep n ev c = Ok c' -> loyal_ok c'.
Proof.
  intros Hco Hok Hlo Hc. destruct (cstep_cases n _ _ _ Hc) as
    [(k & _ & ->)|(i & nd & lev & eff & c0 & Hi & Hl & -> & E1 & E2 & E3 & E4 & Hsub & Hdel & Hev)]; [done|].
  pose proof (co_nodes _ _ Hco _ _ Hi) as Hnd.
  assert (Hmsg : forall m rnd, lev = LDeliver m rnd -> msg_ok n m).
  { intros m rnd Heq. apply (co_net _ _ Hco), (Hdel _ _ Heq). }
  assert (Hll : loyal_local lev nd = true).
  { destruct Hev as [->|(m & rnd & ->)]; [|done]. simpl in Hlo. by rewrite Hi in Hlo. }
  pose proof (new_votes _ _ _ (votes_local i _ lev nd eff Hnd Hmsg Hl)) as Hnew.
  assert (Hat : nodes (apply_effect i eff c0) !! i = Some (ef_node eff)) by (eapply node_after_eq; by rewrite E1).
  intros v t. cbn [apply_effect granted]. rewrite E3. intros [Hin|Hin]%elem_of_app.
  - destruct (Hok _ _ Hin) as (nd0 & Hv & Hre). destruct (decide (i = v)) as [<-|Hne].
    + rewrite Hi in Hv. injection Hv as <-. exists (ef_node eff). split; [done|]. by eapply remembered_step.
    + exists nd0. by rewrite node_after_ne, E1.
  - destruct (Hnew _ _ _ Hin) as (-> & Hor). exists (ef_node eff). split; [done|].
    destruct Hor as [(?&?&_)|(_ & _ & (Heq & _ & Hv & id & args & vc & w & vs & Hlk & _) & _)].
    + right. left. auto.
    + injection Heq as ->. right. right. split_and!; try done. unfold campaigning. by rewrite Hlk.
Qed.

Lemma loyal_reachable_ok c : loyal_reachable n c -> loyal_ok c.
Proof.
  induction 1 as [rs|c ev c' Hr IH Hlo Hc].
  - intros v t Hin. by apply not_elem_of_nil in Hin.
  - eapply loyal_ok_step; eauto using reachable_ok, loyal_reachable_reachable.
Qed.

(** A vote for another peer is never cast beside a remembered vote for oneself. *)
Lemma remembered_no_grant i id ev nd eff t k :
  node_ok n i nd -> (forall m rnd, ev = LDeliver m rnd -> msg_ok n m) ->
  local n i id ev nd = Ok eff -> remembered i t nd -> (i, t, k) ∈ ef_granted eff -> k = i.
Proof.
  intros Hok Hm Hl Hre Hin. pose proof (votes_local i id ev nd eff Hok Hm Hl) as Hve.
  destruct (new_votes _ _ _ Hve _ _ _ Hin) as (_ & [(-> & Hk & Hlk)|(? & _)]); [|done].
  destruct Hve as [Hle _]. pose proof (saved_le_term _ _ Hle).
  destruct Hre as [?|[(Heq & [Hv|HL])|(_ & _ & Hc)]].
  - lia.
  - destruct Hle as [?|[_ [Hv'|?]]]; lia.
  - pose proof (leader_grants _ _ _ _ _ _ Hok Hl Hin HL). lia.
  - unfold campaigning in Hc. by rewrite Hlk in Hc.
Qed.

Lemma loyal_vote_once c v t k :
  loyal_reachable n c -> (v, t, v) ∈ granted c -> (v, t, k) ∈ granted c -> k = v.
Proof.
  intros Hr. revert v t k. induction Hr as [rs|c ev c' Hr IH Hlo Hc]; intros v t k.
  { intros Hin. by apply not_elem_of_nil in Hin. }
  pose proof (loyal_reachable_reachable n c Hr) as Hrr. pose proof (reachable_ok n c Hrr) as Hco.
  pose proof (loyal_reachable_ok c Hr) as Hloy. pose proof (reachable_votes c Hrr) as Hvo.
  destruct (cstep_cases n _ _ _ Hc) as
    [(k' & _ & ->)|(i & nd & lev & eff & c0 & Hi & Hl & -> & E1 & E2 & E3 & E4 & Hsub & Hdel & Hev)]; [apply IH|].
  pose proof (co_nodes _ _ Hco _ _ Hi) as Hnd.
  assert (Hmsg : forall m rnd, lev = LDeliver m rnd -> msg_ok n m).
  { intros m rnd Heq. apply (co_net _ _ Hco), (Hdel _ _ Heq). }
  pose proof (new_votes _ _ _ (votes_local i _ lev nd eff Hnd Hmsg Hl)) as Hnew.
  cbn [apply_effect granted]. rewrite E3. intros [H1|H1]%elem_of_app [H2|H2]%elem_of_app.
  - by eapply IH.
  - destruct (Hnew _ _ _ H2) as [-> _]. destruct (Hloy _ _ H1) as (nd0 & Hv & Hre). rewrite Hi in Hv.
    injection Hv as <-. by eapply remembered_no_grant.
  - destruct (decide (k = v)) as [?|Hk]; [done|]. exfalso.
    destruct (vo_saved _ Hvo _ _ _ H2 Hk) as (nd0 & Hv & Hor). destruct (Hnew _ _ _ H1) as (-> & Hor1).
    rewrite Hi in Hv. injection Hv as <-. destruct Hor1 as [(-> & Hs & _)|(_ & ? & _)]; [|lia].
    destruct (votes_local i _ lev nd eff Hnd Hmsg Hl) as [Hle _].
    destruct (vote_survives _ _ _ _ Hle Hor) as [?|(_&?&_)]; lia.
  - destruct (Hnew _ _ _ H1) as (-> & [(-> & Hs & _)|(_ & -> & Hs & _)]),
      (Hnew _ _ _ H2) as (_ & [(Ht & Hs' & Hlk)|(? & _)]); try done; [lia|].
    destruct Hs as [Heq%(f_equal (fun g => g.1.2)) _]. cbn [fst snd] in Heq. lia.
Qed.

End Election.
