(* ===== verification/ElectionNet.v ===== *)
(** * Election safety over the RPC network

    The simulation of [RaftNetSim] carries election safety from the cluster to
    the system the tester runs, and from one moment to two: the elections won
    so far only grow, and whoever leads a term has won it. *)

From S2P Require Import Prelude Gob Persister Raft Vote Entry Cluster ClusterInv Election.
From S2P Require Import LabRpc RaftNet RaftNetInv RaftNetSim.

(** The instance that is server [i] at the moment. *)
Definition server_node (s : RaftNet) (i : nat) : option Node :=
  r ← mjoin (cur (world (rpc s)) !! i);
  it ← insts (world (rpc s)) !! r;
  Some (in_node it).

Definition leads_net (t : Z) (s : RaftNet) (i : nat) : bool :=
  match server_node s i with
  | Some nd => bool_decide (role (raft nd) = Leader) && (term (raft nd) =? t)
  | None => false
  end.

Section ElectionNet.
Context `{GobCodec} `{RaftCodec}.
Variable n : nat.

Lemma won_grows ev c c' : cstep n ev c = Ok c' -> won c `prefix_of` won c'.
Proof.
  intros Hc. destruct ev as [i lev|k rnd|k]; cbn [cstep] in Hc; outcome_inv; simpl;
    first [reflexivity | by apply prefix_app_r].
Qed.

Lemma w_won_grows s s' :
  nclean_steps n s s' -> nreachable n s -> w_won (world (rpc s)) `prefix_of` w_won (world (rpc s')).
Proof.
  induction 1 as [|s ev s1 s' Hss IH Hcl Hs]; [done|]. intros Hr. etrans; [by apply IH|].
  pose proof (nclean_nreachable n _ _ Hss Hr) as Hr1.
  destruct (sim_reachable n s1 Hr1) as (c & _ & Hsim).
  destruct (sim_step n false s1 c ev s' (wf_reachable n s1 Hr1) Hsim ltac:(done) Hs) as (c' & Hstep & Hsim').
  destruct Hsim as [Hw _], Hsim' as [Hw' _]. rewrite <-(ws_won _ _ _ Hw), <-(ws_won _ _ _ Hw').
  destruct Hstep as [-> |(ev' & _ & Hc)]; [done|by eapply won_grows].
Qed.

Lemma sim_server strict s c i nd :
  sim strict s c -> server_node s i = Some nd -> nodes c !! i = Some nd.
Proof.
  intros [Hw _] Hi. unfold server_node in Hi.
  destruct (cur (world (rpc s)) !! i) as [[r|]|] eqn:Hc; try done. simpl in Hi.
  destruct (insts (world (rpc s)) !! r) as [it|] eqn:Hr; [|done]. injection Hi as <-.
  by apply (ws_cur _ _ _ Hw _ _ _ Hc).
Qed.

(** Whoever leads has won, on the record that only grows. *)
Lemma leader_has_won s i t :
  nclean_reachable n s -> leads_net t s i = true -> exists V, (i, t, V) ∈ w_won (world (rpc s)).
Proof.
  intros Hr Hl. destruct (clean_sim_reachable n s Hr) as (c & Hc & Hsim). unfold leads_net in Hl.
  destruct (server_node s i) as [nd|] eqn:Hi; [|done]. bool_to_prop. subst t.
  rewrite <-(ws_won _ _ _ (sim_world _ _ _ Hsim)).
  eapply (wo_leader n c (clean_wins n c Hc)); [by eapply sim_server|done].
Qed.

Lemma nclean_trans s s' s'' : nclean_steps n s s' -> nclean_steps n s' s'' -> nclean_steps n s s''.
Proof.
  intros H1. induction 1 as [|s' ev s1 s2 _ IH Hcl Hs]; [done|].
  eapply nclean_step; [by apply IH|exact Hcl|exact Hs].
Qed.

Lemma one_winner_net s i j t V W :
  nclean_reachable n s -> (i, t, V) ∈ w_won (world (rpc s)) -> (j, t, W) ∈ w_won (world (rpc s)) -> i = j.
Proof.
  intros Hr. destruct (clean_sim_reachable n s Hr) as (c & Hc & Hsim).
  rewrite <-(ws_won _ _ _ (sim_world _ _ _ Hsim)). by apply (clean_one_winner n).
Qed.

Lemma one_leader_per_term s s' i j t :
  nclean_reachable n s -> nclean_steps n s s' -> leads_net t s i = true -> leads_net t s' j = true -> i = j.
Proof.
  intros Hr Hss Hi Hj. assert (Hr' : nclean_reachable n s') by (exact (nclean_trans _ _ _ Hr Hss)).
  destruct (leader_has_won s i t Hr Hi) as [V HV], (leader_has_won s' j t Hr' Hj) as [W HW].
  eapply one_winner_net; [exact Hr'| |exact HW].
  apply list_elem_of_lookup in HV as [k Hk]. apply list_elem_of_lookup. exists k.
  eapply prefix_lookup_Some; [exact Hk|]. apply w_won_grows; [done|].
  eapply nclean_nreachable; [exact Hr|constructor].
Qed.
End ElectionNet.
