(* ===== verification/Steady.v ===== *)
(** * Agreement while one leader reigns

    Lost replies and competing leaders can make the logs of this program
    diverge ([ClusterProps]).  Here is what holds in between: from a moment at
    which one peer leads, every log is a prefix of its log and no call is under
    way, for as long as no other election begins, nobody restarts, and no
    [AppendEntries] call fails whose request has been handled, every log
    remains a prefix of the leader's.  All peers then apply the same commands,
    and what is committed is held by a majority.

    Requests may still be lost, and so may votes; calls may fail for that;
    clients may call [Start] anywhere; old vote requests may arrive. *)

From S2P Require Import Prelude Timer Gob Persister Raft Vote Entry Cluster ClusterInv.

Definition log_of (nd : Node) : list LogEntry := logEntries (raft nd).

(** What has been sent to [applyCh] when the first [k] entries of a log have
    been applied. *)
Definition applied_msgs (k : Z) (l : list LogEntry) : list ApplyMsg :=
  (fun e => mkApplyMsg true (e_Command e) (e_Index e)) <$> take (Z.to_nat k) (drop 1 l).

#[export] Instance ApplyMsg_eq_dec : EqDecision ApplyMsg.
Proof. solve_decision. Defined.
#[export] Instance applied_eq_dec (x y : list ApplyMsg) : Decision (x = y) := _.

(** ** Events and states *)

Definition is_append (m : Msg) : bool :=
  match m_body m with PAppReq _ | PAppRep _ => true | _ => false end.

Definition appends (c : Cluster) : list Msg := List.filter is_append (net c).

(** The events of a reign of peer [l]. *)
Definition reign_event (l : nat) (ev : Event) (c : Cluster) : bool :=
  match ev with
  | EvLocal _ (LElection _) | EvLocal _ (LCrash _) => false
  | EvLocal i (LElectionFailed _) => negb (Nat.eqb i l)
  | EvLocal _ (LCallFail _ _) => match appends c with [] => true | _ => false end
  | EvDrop k => match net c !! k with Some (mkMsg _ _ _ (PAppRep _)) => false | _ => true end
  | _ => true
  end.

Section Reign.
Context `{GobCodec}.
Variable n : nat.

Fixpoint reign (l : nat) (evs : list Event) (c : Cluster) : bool :=
  match evs with
  | [] => true
  | ev :: evs => reign_event l ev c && match cstep n ev c with Ok c' => reign l evs c' | _ => true end
  end.

(** A majority of the peers has an entry at index [k]. *)
Definition holding (c : Cluster) (k : Z) : Z := zlen (List.filter (fun nd => k <? zlen (log_of nd)) (nodes c)).
Definition held (c : Cluster) (k : Z) : bool := Z.of_nat n / 2 <? holding c k.

Definition applied_okb (rf : Raft) : bool :=
  (0 <=? lastApplied rf) && (lastApplied rf <=? commitIndex rf) && (commitIndex rf <? zlen (logEntries rf)) &&
  bool_decide (applyCh rf = applied_msgs (lastApplied rf) (logEntries rf)).

(** A peer that does not lead and is not about to send anything. *)
Definition settled_follower (T : Z) (nd : Node) : bool :=
  (term (raft nd) <=? T) && negb (bool_decide (role (raft nd) = Leader)) && is_free nd &&
  (match egor nd with EIdle | EFailed => true | _ => false end) &&
  (match hgor nd with [] => true | _ => false end) &&
  forallb (fun s => negb s.2) (starts nd).

(** The leader's [nextIndex] and [matchIndex] of peer [i] fit the peer's log. *)
Definition settled_progress (rfL : Raft) (i : nat) (log : list LogEntry) : bool :=
  match nextIndex rfL !! i, matchIndex rfL !! i with
  | Some next, Some mtch =>
      (zlen log <=? next) && (next <=? zlen (logEntries rfL)) && (mtch <? zlen log)
  | _, _ => false
  end.

Definition settled_node (l : nat) (ndL : Node) (c : Cluster) (i : nat) : bool :=
  match nodes c !! i with
  | Some nd =>
      (Nat.eqb i l || settled_follower (term (raft ndL)) nd) &&
      bool_decide (log_of nd `prefix_of` log_of ndL) && applied_okb (raft nd) &&
      settled_progress (raft ndL) i (log_of nd) && held c (commitIndex (raft nd))
  | None => false
  end.

(** Only votes are in flight, of no later term. *)
Definition settled_msg (T : Z) (m : Msg) : bool :=
  match m_body m with PVoteReq a => va_Term a <=? T | PVoteRep _ => true | _ => false end.

Definition settled (l : nat) (c : Cluster) : bool :=
  match nodes c !! l with
  | Some ndL =>
      bool_decide (role (raft ndL) = Leader) && is_free ndL &&
      bool_decide (e_Index <$> log_of ndL = seqZ 0 (zlen (log_of ndL))) &&
      forallb (settled_msg (term (raft ndL))) (net c) &&
      forallb (settled_node l ndL c) (seq 0 n)
  | None => false
  end.

(** ** The invariant *)

Record applied_ok (rf : Raft) : Prop := {
  ao_last : 0 <= lastApplied rf <= commitIndex rf;
  ao_commit : commitIndex rf < zlen (logEntries rf);
  ao_ch : applyCh rf = applied_msgs (lastApplied rf) (logEntries rf);
}.

Record follower_ok (ndL nd : Node) : Prop := {
  fo_term : term (raft nd) <= term (raft ndL);
  fo_role : role (raft nd) <> Leader;
  fo_lock : lock nd = None;
  fo_egor : egor nd = EIdle \/ egor nd = EFailed;
  fo_hgor : hgor nd = [];
  fo_starts : Forall (fun s => s.2 = false) (starts nd);
  fo_log : log_of nd `prefix_of` log_of ndL;
  fo_applied : applied_ok (raft nd);
}.

Record leader_ok (nd : Node) : Prop := {
  le_role : role (raft nd) = Leader;
  le_log : log_exact (log_of nd);
  le_applied : applied_ok (raft nd);
}.

Section Leader.
Variable l : nat.

(** A reply that reports position [k] is on its way from [i]. *)
Definition replying (c : Cluster) (i : nat) (k : Z) : Prop :=
  exists id r, appends c = [mkMsg id i l (PAppRep r)] /\ ar_NextIndex r = k.

(** The messages of the leader's call, if there is one. *)
Definition exchange (ndL : Node) (c : Cluster) : Prop :=
  match lock ndL with
  | None => appends c = []
  | Some (OpHeartbeat id s args) =>
      s <> l /\ aa_Term args = term (raft ndL) /\ aa_LeaderCommit args = commitIndex (raft ndL) /\
      getAppendLogs (Z.of_nat s) (raft ndL) =
        Some (aa_PrevLogIndex args, aa_PervLogTerm args, aa_Entries args) /\
      (appends c = [] \/ appends c = [mkMsg id l s (PAppReq args)] \/
       exists r, appends c = [mkMsg id s l (PAppRep r)] /\ ar_Term r <= term (raft ndL) /\
         (ar_NextIndex r = 0 \/
          exists nd, nodes c !! s = Some nd /\ ar_NextIndex r = zlen (log_of nd)))
  | Some (OpElection _ _ _ _ _) => False
  end.

Definition progress_ok (ndL : Node) (c : Cluster) : Prop :=
  (forall i nd next, i <> l -> nodes c !! i = Some nd -> nextIndex (raft ndL) !! i = Some next ->
     zlen (log_of nd) <= next <= zlen (log_of ndL) \/ replying c i (zlen (log_of nd))) /\
  (forall i nd mtch, nodes c !! i = Some nd -> matchIndex (raft ndL) !! i = Some mtch ->
     mtch < zlen (log_of nd)).

Definition old_votes (ndL : Node) (ms : list Msg) : Prop :=
  forall m a, m ∈ ms -> m_body m = PVoteReq a -> va_Term a <= term (raft ndL).

Record reigning (ndL : Node) (c : Cluster) : Prop := {
  re_ok : cluster_ok n c;
  re_node : nodes c !! l = Some ndL;
  re_leader : leader_ok ndL;
  re_exchange : exchange ndL c;
  re_followers : forall i nd, i <> l -> nodes c !! i = Some nd -> follower_ok ndL nd;
  re_progress : progress_ok ndL c;
  re_votes : old_votes ndL (net c);
  re_held : forall i nd, nodes c !! i = Some nd -> held c (commitIndex (raft nd)) = true;
}.

(** ** Logs and what has been applied *)

Lemma log_exact_prefix F L : F `prefix_of` L -> 1 <= zlen F -> log_exact L -> log_exact F.
Proof.
  intros [k ->] Hlen [H0 Hi]. split.
  - rewrite lookup_app_l in H0; [done|unfold zlen in Hlen; lia].
  - intros i e He. apply Hi. rewrite lookup_app_l; [done|by eapply lookup_lt_Some].
Qed.

Lemma applied_msgs_prefix k F L :
  F `prefix_of` L -> 0 <= k < zlen F -> applied_msgs k L = applied_msgs k F.
Proof.
  intros [r ->] Hk. unfold applied_msgs. f_equal.
  rewrite drop_app_le by (unfold zlen in Hk; lia).
  rewrite take_app_le; [done|]. rewrite length_drop. unfold zlen in Hk. lia.
Qed.

Lemma applied_msgs_mono k k' L : k <= k' -> applied_msgs k L `prefix_of` applied_msgs k' L.
Proof.
  intros Hk. unfold applied_msgs. set (f := fun e => _).
  replace (take (Z.to_nat k) (drop 1 L)) with (take (Z.to_nat k) (take (Z.to_nat k') (drop 1 L)))
    by (rewrite take_take; f_equal; lia).
  exists (f <$> drop (Z.to_nat k) (take (Z.to_nat k') (drop 1 L))). by rewrite <-fmap_app, take_drop.
Qed.

Lemma applied_msgs_next k L e :
  0 <= k -> log_exact L -> zidx L (k + 1) = Some e ->
  applied_msgs (k + 1) L = applied_msgs k L ++ [mkApplyMsg true (e_Command e) (k + 1)].
Proof.
  intros Hk [_ Hi] [Hr He]%zidx_Some. pose proof (Hi _ _ He) as Hie. unfold applied_msgs.
  replace (Z.to_nat (k + 1)) with (S (Z.to_nat k)) in * by lia.
  rewrite (take_S_r _ _ e) by (by rewrite lookup_drop). rewrite fmap_app. simpl. do 3 f_equal. lia.
Qed.

Lemma applied_ok_apply rf rf' :
  log_exact (logEntries rf) -> applied_ok rf -> applyLoop rf = Some rf' ->
  applied_ok rf' /\ logEntries rf' = logEntries rf /\ commitIndex rf' = commitIndex rf /\
  nextIndex rf' = nextIndex rf /\ matchIndex rf' = matchIndex rf /\ role rf' = role rf /\ term rf' = term rf.
Proof.
  intros Hx [Hl Hc Hch] Ha. unfold applyLoop in Ha. destruct (Z.ltb_spec (lastApplied rf) (commitIndex rf)).
  - simpl in Ha. destruct (zidx _ _) as [e|] eqn:He; [|done]. injection Ha as <-. split; [|done].
    constructor; simpl; [lia|done|]. rewrite Hch. symmetry. apply applied_msgs_next; [lia|done|exact He].
  - injection Ha as <-. done.
Qed.

(** The apply state survives changes of anything else, and a longer log. *)
Lemma applied_ok_ext rf rf' :
  applied_ok rf -> lastApplied rf' = lastApplied rf -> applyCh rf' = applyCh rf ->
  logEntries rf `prefix_of` logEntries rf' -> commitIndex rf <= commitIndex rf' < zlen (logEntries rf') ->
  applied_ok rf'.
Proof.
  intros [Hl Hc Hch] E1 E2 Hp Hcc. constructor; rewrite ?E1, ?E2; [lia|lia|].
  rewrite Hch. symmetry. apply applied_msgs_prefix; [done|lia].
Qed.

Lemma prefix_zlen {A} (x y : list A) : x `prefix_of` y -> zlen x <= zlen y.
Proof. intros Hp%prefix_length. unfold zlen. lia. Qed.

(** ** Who holds an entry *)

Lemma filter_le {A B} (P : A -> bool) (Q : B -> bool) xs ys :
  Forall2 (fun x y => P x = true -> Q y = true) xs ys ->
  zlen (List.filter P xs) <= zlen (List.filter Q ys).
Proof.
  induction 1 as [|x y xs ys Hxy _ IH]; [done|]. simpl.
  destruct (P x) eqn:Hx, (Q y) eqn:Hy; rewrite ?zlen_cons; lia.
Qed.

Lemma held_mono c c' k k' :
  k' <= k -> length (nodes c') = length (nodes c) ->
  (forall i nd nd', nodes c !! i = Some nd -> nodes c' !! i = Some nd' -> zlen (log_of nd) <= zlen (log_of nd')) ->
  held c k = true -> held c' k' = true.
Proof.
  unfold held, holding. intros Hk Hl Hlen Hh. bool_to_prop.
  enough (zlen (List.filter (fun nd => k <? zlen (log_of nd)) (nodes c)) <=
          zlen (List.filter (fun nd => k' <? zlen (log_of nd)) (nodes c'))) by lia.
  apply filter_le, Forall2_same_length_lookup. split; [done|].
  intros i nd nd' Hi Hi' Hlt. specialize (Hlen i nd nd' Hi Hi'). lia.
Qed.

(** Truthful match indices: what a majority of them covers is held. *)
Lemma majority_held c rf k :
  length (matchIndex rf) = n -> length (nodes c) = n -> peers rf = n ->
  (forall i nd mtch, nodes c !! i = Some nd -> matchIndex rf !! i = Some mtch -> mtch < zlen (log_of nd)) ->
  majority_at k rf -> held c k = true.
Proof.
  intros Hm Hn Hp Hall Hmaj. unfold held, holding, majority_at, replicas in *. rewrite Hp in Hmaj.
  apply Z.ltb_lt. eapply Z.lt_le_trans; [exact Hmaj|].
  assert (Hf : forall ms, filter (fun m => k <= m) ms = List.filter (fun m => k <=? m) ms).
  { induction ms as [|m ms IH]; [done|]. rewrite filter_cons. simpl.
    destruct (Z.leb_spec k m), (decide (k <= m)); try lia; by rewrite IH. }
  rewrite Hf. apply filter_le, Forall2_same_length_lookup. split; [congruence|].
  intros i m nd Hi Hnd Hle. specialize (Hall i nd m Hnd Hi). lia.
Qed.

(** ** Messages in flight *)

Lemma appends_remove k m c :
  net c !! k = Some m ->
  exists A B, appends c = A ++ (if is_append m then [m] else []) ++ B /\ appends (remove_msg k c) = A ++ B.
Proof.
  intros Hm. exists (List.filter is_append (take k (net c))), (List.filter is_append (drop (S k) (net c))).
  unfold appends, remove_msg. cbn [net]. rewrite delete_take_drop.
  rewrite <-(take_drop_middle _ _ _ Hm) at 1. rewrite !List.filter_app. simpl.
  by destruct (is_append m).
Qed.

Lemma appends_other k m c :
  net c !! k = Some m -> is_append m = false -> appends (remove_msg k c) = appends c.
Proof. intros (A & B & -> & ->)%appends_remove E. by rewrite E. Qed.

Lemma appends_one k m x c :
  net c !! k = Some m -> is_append m = true -> appends c = [x] -> m = x /\ appends (remove_msg k c) = [].
Proof.
  intros (A & B & HA & ->)%appends_remove E Hx. rewrite E, Hx in HA.
  destruct A as [|a A]; [|by destruct A]. injection HA as -> HB. by destruct B.
Qed.

Lemma appends_none k m c : net c !! k = Some m -> appends c = [] -> is_append m = false.
Proof.
  intros (A & B & HA & _)%appends_remove Hx. rewrite Hx in HA. destruct (is_append m); [by destruct A|done].
Qed.

Lemma appends_effect i eff c :
  appends (apply_effect i eff c) = appends c ++ List.filter is_append (ef_send eff).
Proof. unfold appends, apply_effect. simpl. apply List.filter_app. Qed.

(** ** Changes of one peer *)

Lemma updated c c' i x j nd :
  nodes c' = <[i := x]> (nodes c) -> nodes c' !! j = Some nd ->
  j = i /\ nd = x /\ (exists nd0, nodes c !! i = Some nd0) \/ j <> i /\ nodes c !! j = Some nd.
Proof.
  intros E Hj. rewrite E in Hj. apply list_lookup_insert_Some in Hj as [(<- & <- & Hlt)|[? ?]]; [left|by right].
  split_and!; [done|done|]. by apply lookup_lt_is_Some_2.
Qed.

Lemma updated_eq c c' i x nd0 :
  nodes c' = <[i := x]> (nodes c) -> nodes c !! i = Some nd0 -> nodes c' !! i = Some x.
Proof. intros -> Hi. apply list_lookup_insert_eq. by eapply lookup_lt_Some. Qed.

(** What the peers hold, when one of them changes. *)
Lemma held_update c c' i nd0 x k k' :
  nodes c' = <[i := x]> (nodes c) -> nodes c !! i = Some nd0 -> zlen (log_of nd0) <= zlen (log_of x) ->
  k' <= k -> held c k = true -> held c' k' = true.
Proof.
  intros E Hi Hle Hk. apply held_mono; [done|by rewrite E, length_insert|]. intros j nd nd' Hj Hj'.
  destruct (updated _ _ _ _ _ _ E Hj') as [(-> & -> & _)|[_ ?]]; [|simplify_eq; lia].
  rewrite Hi in Hj. by injection Hj as <-.
Qed.

(** A follower changes, its log and commit index do not. *)
Lemma reigning_follower ndL c c' i nd nd' :
  reigning ndL c -> i <> l -> nodes c !! i = Some nd -> cluster_ok n c' ->
  nodes c' = <[i := nd']> (nodes c) -> appends c' = appends c -> old_votes ndL (net c') ->
  follower_ok ndL nd' -> log_of nd' = log_of nd -> commitIndex (raft nd') = commitIndex (raft nd) ->
  reigning ndL c'.
Proof.
  intros [Hok Hnl Hle Hex Hfo [Hp1 Hp2] Hvo Hhe] Hne Hi Hok' E Ha Hvo' Hfo' Hlog Hci.
  constructor; try done.
  - rewrite E, list_lookup_insert_ne by done. done.
  - unfold exchange in *. rewrite Ha. destruct (lock ndL) as [[| ? s ?]|]; [done| |done].
    destruct Hex as (? & ? & ? & ? & Hms). split_and!; try done.
    destruct Hms as [?|[?|(r & ? & ? & Hr)]]; [by left|by right; left|right; right]. exists r. split_and!; try done.
    destruct Hr as [?|(nds & Hs & ?)]; [by left|right]. destruct (decide (s = i)) as [->|].
    + exists nd'. split; [by eapply updated_eq|]. rewrite Hlog. congruence.
    + exists nds. split; [|done]. by rewrite E, list_lookup_insert_ne.
  - intros j x Hj Hx. destruct (updated _ _ _ _ _ _ E Hx) as [(-> & -> & _)|[_ ?]]; [done|eauto].
  - split.
    + intros j x next Hj Hx Hnx. unfold replying in *. rewrite Ha.
      destruct (updated _ _ _ _ _ _ E Hx) as [(-> & -> & _)|[_ ?]]; [rewrite Hlog|]; eauto.
    + intros j x m Hx Hm. destruct (updated _ _ _ _ _ _ E Hx) as [(-> & -> & _)|[_ ?]]; [rewrite Hlog|]; eauto.
  - intros j x Hx. assert (Hmono : forall k, held c k = true -> held c' k = true).
    { intros k. eapply held_update; [done|done|by rewrite Hlog|done]. }
    destruct (updated _ _ _ _ _ _ E Hx) as [(-> & -> & _)|[_ ?]]; [rewrite Hci|]; eauto.
Qed.

(** The leader changes, but not its log and what it knows of the others'. *)
Definition same_reign (nd nd' : Node) : Prop :=
  log_of nd' = log_of nd /\ commitIndex (raft nd') = commitIndex (raft nd) /\
  nextIndex (raft nd') = nextIndex (raft nd) /\ matchIndex (raft nd') = matchIndex (raft nd) /\
  term (raft nd') = term (raft nd) /\ role (raft nd') = role (raft nd) /\ applied_ok (raft nd').

Lemma same_reign_follower ndL ndL' nd : same_reign ndL ndL' -> follower_ok ndL nd -> follower_ok ndL' nd.
Proof. intros (E1 & _ & _ & _ & E5 & _ & _) []. constructor; rewrite ?E1, ?E5; done. Qed.

Lemma reigning_leader ndL ndL' c c' :
  reigning ndL c -> same_reign ndL ndL' -> cluster_ok n c' ->
  nodes c' = <[l := ndL']> (nodes c) -> exchange ndL' c' ->
  (forall i k, replying c i k -> replying c' i k) ->
  (forall m a, m ∈ net c' -> m_body m = PVoteReq a -> m ∈ net c) -> reigning ndL' c'.
Proof.
  intros [Hok Hnl Hle Hex Hfo [Hp1 Hp2] Hvo Hhe] Hsr Hok' E Hex' Hrep Hvo'.
  pose proof Hsr as (E1 & E2 & E3 & E4 & E5 & E6 & Hap).
  constructor; try done.
  - by eapply updated_eq.
  - destruct Hle. constructor; rewrite ?E1, ?E6; done.
  - intros j x Hj Hx. eapply same_reign_follower; [done|].
    destruct (updated _ _ _ _ _ _ E Hx) as [(-> & -> & _)|[_ ?]]; [done|eauto].
  - unfold progress_ok. rewrite E1, E3, E4. split.
    + intros j x next Hj Hx Hnx. destruct (updated _ _ _ _ _ _ E Hx) as [(-> & -> & _)|[_ ?]]; [done|].
      destruct (Hp1 j x next) as [?|?]; eauto.
    + intros j x m Hx Hm. destruct (updated _ _ _ _ _ _ E Hx) as [(-> & -> & _)|[_ ?]]; [rewrite E1|]; eauto.
  - intros m a Hm Hb. rewrite E5. eauto.
  - intros j x Hx. assert (Hmono : forall k, held c k = true -> held c' k = true).
    { intros k. eapply held_update; [done|done|by rewrite E1|done]. }
    destruct (updated _ _ _ _ _ _ E Hx) as [(-> & -> & _)|[_ ?]]; [rewrite E2|]; eauto.
Qed.
(** ** Local steps of the followers *)

Definition may_step (lev : LocalEvent) : bool :=
  match lev with LElection _ | LCrash _ | LDeliver _ _ => false | _ => true end.

Lemma follower_exact ndL nd i :
  follower_ok ndL nd -> log_exact (log_of ndL) -> node_ok n i nd -> log_exact (log_of nd).
Proof.
  intros [_ _ _ _ _ _ Hp _] Hx Hok. eapply log_exact_prefix; [done| |done].
  apply log_shape_len, (ro_log _ _ _ (no_raft _ _ _ Hok)).
Qed.

(** Nothing but timer, role and pending [Start] calls changes. *)
Lemma follower_ok_ext ndL nd nd' :
  follower_ok ndL nd -> log_of nd' = log_of nd -> commitIndex (raft nd') = commitIndex (raft nd) ->
  lastApplied (raft nd') = lastApplied (raft nd) -> applyCh (raft nd') = applyCh (raft nd) ->
  term (raft nd') <= term (raft ndL) -> role (raft nd') <> Leader ->
  lock nd' = None -> egor nd' = EIdle \/ egor nd' = EFailed -> hgor nd' = [] ->
  Forall (fun s => s.2 = false) (starts nd') -> follower_ok ndL nd'.
Proof.
  intros [_ _ _ _ _ _ Hp Hap] E1 E2 E3 E4 Ht Hr Hl He Hh Hs. constructor; try done; [by rewrite E1|].
  eapply applied_ok_ext; [done|done|done| |]; unfold log_of in E1; rewrite E1, ?E2; [done|].
  destruct Hap. lia.
Qed.

Lemma follower_local ndL i id lev nd eff :
  follower_ok ndL nd -> log_exact (log_of ndL) -> node_ok n i nd -> may_step lev = true ->
  local n i id lev nd = Ok eff ->
  ef_send eff = [] /\ follower_ok ndL (ef_node eff) /\
  log_of (ef_node eff) = log_of nd /\ commitIndex (raft (ef_node eff)) = commitIndex (raft nd).
Proof.
  intros Hfo Hx Hok Hm Hl. pose proof (follower_exact _ _ _ Hfo Hx Hok) as Hxf.
  pose proof Hfo as [Ht Hr Hlk He Hh Hs Hp Hap].
  assert (Hext : forall rf eg ss, logEntries rf = logEntries (raft nd) -> commitIndex rf = commitIndex (raft nd) ->
    lastApplied rf = lastApplied (raft nd) -> applyCh rf = applyCh (raft nd) -> term rf = term (raft nd) ->
    role rf <> Leader -> eg = EIdle \/ eg = EFailed -> Forall (fun s => s.2 = false) ss ->
    follower_ok ndL (mkNode rf None eg [] ss)).
  { intros rf eg ss E1 E2 E3 E4 E5 E6 E7 E8. eapply follower_ok_ext; try done. simpl. by rewrite E5. }
  destruct nd as [rf lk eg hg ss]. simpl in *. subst lk hg.
  destruct lev; try done; cbn [local] in Hl.
  - (* LTimer *) outcome_inv. simpl. split_and!; try done. by apply Hext.
  - (* LElectionFailed *) unfold local_election_failed in Hl. destruct He as [->| ->]; [done|].
    injection Hl as <-. simpl. split_and!; try done. apply Hext; try done. by left.
  - unfold local_election_won in Hl. by destruct He as [->| ->].
  - (* LBeatTick *) unfold local_beat_tick in Hl. simpl in Hl. rewrite bool_decide_eq_false_2 in Hl by done.
    injection Hl as <-. done.
  - unfold local_beat_e in Hl. by destruct He as [->| ->].
  - (* LApply *) simpl in Hl. outcome_inv.
    match goal with E : applyLoop _ = Some ?r |- _ => rename E into Ha; rename r into rf' end.
    destruct (applied_ok_apply rf rf' Hxf Hap Ha) as (Hap' & E1 & E2 & _ & _ & E5 & E6).
    split_and!; try done. constructor; simpl; try done; [by rewrite E6|by rewrite E5|].
    unfold log_of. simpl. by rewrite E1.
  - (* LStartRead *) simpl in Hl. injection Hl as <-. split_and!; try done. apply Hext; try done.
    rewrite bool_decide_eq_false_2 by done. apply Forall_app. split; [done|by repeat constructor].
  - (* LStart *) simpl in Hl. outcome_inv.
    match goal with E : ss !! k = Some (?cmd, ?tm, ?isl) |- _ =>
      assert (isl = false) as -> by (exact (Forall_lookup_1 _ _ _ _ Hs E)) end.
    match goal with E : Start_locked _ _ _ _ = Some _ |- _ => rewrite Start_locked_follower in E; injection E as <- _ end.
    split_and!; try done. apply Hext; try done. by apply Forall_delete.
Qed.
(** ** Local steps of the leader *)

Inductive leader_outcome (id : nat) (lev : LocalEvent) (nd : Node) (eff : Effect) : Prop :=
  | leader_quiet : ef_send eff = [] -> lock (ef_node eff) = lock nd -> same_reign nd (ef_node eff) ->
      leader_outcome id lev nd eff
  | leader_sends s args :
      lock nd = None -> s <> l -> ef_send eff = [mkMsg id l s (PAppReq args)] ->
      lock (ef_node eff) = Some (OpHeartbeat id s args) -> raft (ef_node eff) = raft nd ->
      aa_Term args = term (raft nd) -> aa_LeaderCommit args = commitIndex (raft nd) ->
      getAppendLogs (Z.of_nat s) (raft nd) =
        Some (aa_PrevLogIndex args, aa_PervLogTerm args, aa_Entries args) ->
      leader_outcome id lev nd eff
  | leader_starts cmd :
      lock nd = None -> lock (ef_node eff) = None -> ef_send eff = [] ->
      raft (ef_node eff) =
        persist (set_matchIndex (<[l := zlen (log_of nd)]> (matchIndex (raft nd)))
          (set_logEntries (log_of nd ++ [mkEntry (term (raft nd)) (zlen (log_of nd)) cmd]) (raft nd))) ->
      leader_outcome id lev nd eff
  | leader_call_failed id' s args rnd rf :
      lev = LCallFail s rnd ->
      lock nd = Some (OpHeartbeat id' s args) -> lock (ef_node eff) = None -> ef_send eff = [] ->
      heartbeat_reply (Z.of_nat s) args zero_reply rnd (raft nd) = Some rf -> raft (ef_node eff) = rf ->
      leader_outcome id lev nd eff.

Lemma same_reign_raft nd nd' :
  applied_ok (raft nd) -> logEntries (raft nd') = logEntries (raft nd) ->
  commitIndex (raft nd') = commitIndex (raft nd) -> nextIndex (raft nd') = nextIndex (raft nd) ->
  matchIndex (raft nd') = matchIndex (raft nd) -> term (raft nd') = term (raft nd) ->
  role (raft nd') = role (raft nd) -> lastApplied (raft nd') = lastApplied (raft nd) ->
  applyCh (raft nd') = applyCh (raft nd) -> same_reign nd nd'.
Proof.
  intros Hap E1 E2 E3 E4 E5 E6 E7 E8. unfold same_reign, log_of. split_and!; try done.
  eapply applied_ok_ext; [done|done|done| |]; rewrite E1, ?E2; [done|]. destruct Hap. lia.
Qed.

Lemma leader_send id lev s rnd nd nd0 eff :
  applied_ok (raft nd) -> me (raft nd) = Z.of_nat l -> raft nd = raft nd0 -> lock nd = lock nd0 ->
  send_heartbeat l id s rnd nd = Ok eff -> leader_outcome id lev nd0 eff.
Proof.
  intros Hap Hi Er El Hs. unfold send_heartbeat in Hs. destruct (is_free nd) eqn:Hf; [|done]. simpl in Hs.
  apply is_free_lock in Hf. rewrite Hf in El. unfold heartbeat_args in Hs.
  destruct (Z.eqb_spec (me (raft nd)) (Z.of_nat s)) as [Hme|Hme].
  - simpl in Hs. injection Hs as <-. apply leader_quiet; [done|by rewrite <-El|].
    by apply same_reign_raft; simpl; rewrite <-?Er.
  - destruct (getAppendLogs (Z.of_nat s) (raft nd)) as [[[prev t] es]|] eqn:Hg; [|done]. simpl in Hs.
    injection Hs as <-. eapply (leader_sends _ _ _ _ s); simpl; rewrite <-?Er; try reflexivity; [done| |exact Hg].
    intros ->. by rewrite Hi in Hme.
Qed.

Lemma leader_local id lev nd eff :
  leader_ok nd -> node_ok n l nd -> may_step lev = true -> (forall rnd, lev <> LElectionFailed rnd) ->
  (forall i a v w vs, lock nd <> Some (OpElection i a v w vs)) ->
  local n l id lev nd = Ok eff -> leader_outcome id lev nd eff.
Proof.
  intros Hle Hok Hm Hnf Hne Hl. pose proof Hle as [Hro Hx Hap].
  pose proof (ro_me _ _ _ (no_raft _ _ _ Hok)) as Hi.
  assert (Hsame : same_reign nd nd) by (by apply same_reign_raft).
  destruct lev; try done; cbn [local] in Hl; try (by destruct (Hnf rnd)).
  - (* LTimer *) outcome_inv. apply leader_quiet; [done..|by apply same_reign_raft].
  - unfold local_election_end in Hl. destruct (lock nd) as [[? ? ? [|] ?|]|] eqn:E; try done. by destruct (Hne _ _ _ _ _ eq_refl).
  - unfold local_election_won in Hl. outcome_inv. by apply leader_quiet.
  - unfold local_beat_tick in Hl. outcome_inv. by apply leader_quiet.
  - unfold local_beat_e in Hl. destruct (egor nd) as [| | |[|s todo]]; try done.
    + injection Hl as <-. by apply leader_quiet.
    + by eapply (leader_send id _ s rnd (set_egor (EBeats todo) nd)).
  - unfold local_beat_h in Hl. destruct (hgor nd) as [|s todo]; [done|].
    by eapply (leader_send id _ s rnd (set_hgor todo nd)).
  - unfold local_call_fail in Hl. destruct (lock nd) as [[? ? ? ? ?|id' s args]|] eqn:Hlk; [|outcome_inv|done].
    + by destruct (Hne _ _ _ _ _ eq_refl).
    + bool_to_prop. subst server. by eapply leader_call_failed.
  - outcome_inv. match goal with E : applyLoop _ = Some ?r |- _ => rename E into Ha; rename r into rf' end.
    destruct (applied_ok_apply _ rf' Hx Hap Ha) as (Hap' & E1 & E2 & E3 & E4 & E5 & E6). by apply leader_quiet.
  - outcome_inv. by apply leader_quiet.
  - outcome_inv. bool_to_prop. match goal with E : is_free nd = true |- _ => apply is_free_lock in E; rename E into Hf end.
    match goal with E : Start_locked ?cmd ?tm ?isl _ = Some _ |- _ => rename E into Hst; destruct isl end.
    + pose proof (log_exact_last (raft nd) Hx) as Hlast.
      rewrite Start_locked_leader in Hst.
      2: { rewrite Hi. destruct (raft_ok_idx n l (raft nd) l (no_raft _ _ _ Hok) (ro_in _ _ _ (no_raft _ _ _ Hok))). done. }
      rewrite Hlast, Hi, Nat2Z.id, Z.sub_add in Hst. injection Hst as <- _. by eapply leader_starts.
    + rewrite Start_locked_follower in Hst. injection Hst as <- _. by apply leader_quiet.
Qed.
(** ** The request *)

(** What the leader sends to a peer whose [nextIndex] is in range. *)
Lemma call_args rf s next prev t es :
  log_exact (logEntries rf) -> nextIndex rf !! s = Some next -> 1 <= next <= zlen (logEntries rf) ->
  getAppendLogs (Z.of_nat s) rf = Some (prev, t, es) ->
  prev = next - 1 /\ es = drop (Z.to_nat next) (logEntries rf) /\
  exists p, zidx (logEntries rf) prev = Some p /\ t = e_Term p.
Proof.
  intros Hx Hn Hr Hg. pose proof (log_exact_last rf Hx) as Hlast.
  assert (Hz : zidx (nextIndex rf) (Z.of_nat s) = Some next).
  { apply zidx_Some. rewrite Nat2Z.id. split; [|done]. apply lookup_lt_Some in Hn. unfold zlen. lia. }
  destruct (getAppendLogs_spec (Z.of_nat s) next rf) as (prev' & t' & es' & Hg' & _ & _ & Hcase);
    [by apply log_exact_shape|done|lia|]. rewrite Hg in Hg'. injection Hg' as <- <- <-.
  destruct Hcase as [(Hlt & -> & [= -> ->])|(_ & -> & -> & _ & Hp)]; [|done].
  assert (next = zlen (logEntries rf)) as -> by lia. split_and!; [lia| |].
  - unfold zlen. by rewrite Nat2Z.id, drop_all.
  - unfold lastLogTermIndex in *. destruct (last (logEntries rf)) as [e|] eqn:He; simpl in *.
    + exists e. split; [|done]. rewrite Hlast. by apply last_zidx.
    + apply last_None in He. rewrite He in Hr. unfold zlen in Hr. simpl in Hr. lia.
Qed.

(** The follower takes over the rest of the leader's log, or says where its own ends. *)
Lemma follower_append ndL nd i s args rnd rf reply next :
  leader_ok ndL -> follower_ok ndL nd -> node_ok n i nd -> args_ok args ->
  nextIndex (raft ndL) !! s = Some next -> zlen (log_of nd) <= next <= zlen (log_of ndL) ->
  aa_Term args = term (raft ndL) ->
  getAppendLogs (Z.of_nat s) (raft ndL) = Some (aa_PrevLogIndex args, aa_PervLogTerm args, aa_Entries args) ->
  AppendEntries args rnd (raft nd) = Some (rf, reply) ->
  append_frame (raft nd) rf /\ role rf <> Leader /\ term rf <= term (raft ndL) /\ ar_Term reply <= term (raft ndL) /\
  (logEntries rf = log_of nd /\ commitIndex rf = commitIndex (raft nd) /\
     (ar_NextIndex reply = 0 \/ ar_NextIndex reply = zlen (logEntries rf)) \/
   logEntries rf = log_of ndL /\ ar_NextIndex reply = zlen (logEntries rf) /\
     commitIndex rf = new_commit (aa_LeaderCommit args) (zlen (log_of ndL) - 1) (commitIndex (raft nd))).
Proof.
  intros [_ Hx _] Hfo Hok Hargs Hn Hr Haa Hg Happ.
  pose proof (ro_log _ _ _ (no_raft _ _ _ Hok)) as Hsh. pose proof (log_shape_len _ Hsh) as Hlen.
  pose proof (ro_term _ _ _ (no_raft _ _ _ Hok)) as Hpos.
  destruct (call_args _ _ _ _ _ _ Hx Hn ltac:(unfold log_of in *; lia) Hg) as (Hprev & Hes & p & Hp & Ht).
  pose proof (follower_exact _ _ _ Hfo Hx Hok) as Hxf.
  destruct Hfo as [Htm Hro _ _ _ _ Hpre _]. unfold log_of in *.
  destruct (AppendEntries_spec args rnd (raft nd) Hsh Hargs) as (rf0 & reply0 & Happ0 & Hfr & Hout).
  rewrite Happ in Happ0. injection Happ0 as <- <-.
  destruct Hout as [Hlt Ht' Hr' Hl' Hc'|Hlt|_ Ht' Hr' Hc' Href|_ Ht' Hr' Hpm _ Hl' Hc'];
    (split; [done|]); simpl; [|lia| |].
  - split_and!; [by rewrite Hr'|lia|lia|]. left. split_and!; [done|done|by left].
  - split_and!; [by rewrite Hr'|lia|lia|]. left. rewrite Hc'. split_and!; [|done|by right].
    destruct Href as [old H0 Ho Hne|j e old He Ho _ Hne|_]; [exfalso|exfalso|done].
    + rewrite Ht in Hne. destruct Hpre as [k Hk].
      apply zidx_Some in Ho as [Ho Ho'], Hp as [_ Hp]. rewrite Hk, lookup_app_l in Hp by (unfold zlen in Ho; lia).
      congruence.
    + rewrite Hes, lookup_drop in He. destruct Hx as [_ Hxi]. rewrite (Hxi _ _ He) in Ho.
      apply zidx_Some in Ho as [Ho _]. lia.
  - split_and!; [by rewrite Hr'|lia|lia|]. right. destruct Hpm as [Hpl _].
    assert (Hnx : next = zlen (logEntries (raft nd))) by lia.
    assert (Hall : logEntries rf = logEntries (raft ndL)).
    { rewrite Hl', Hes, Hnx. destruct Hpre as [k ->]. unfold zlen. rewrite Nat2Z.id, drop_app_length. done. }
    rewrite Hc', Hall. done.
Qed.
Lemma new_commit_range lc last old :
  old <= last -> old <= new_commit lc last old <= last /\
  (new_commit lc last old = old \/ new_commit lc last old <= lc).
Proof. intros Hl. unfold new_commit. destruct (Z.ltb_spec old lc); lia. Qed.

Lemma replying_not_request c id s args i k :
  appends c = [mkMsg id l s (PAppReq args)] -> ~ replying c i k.
Proof. intros Ha (id' & r & Hr & _). congruence. Qed.

Lemma replying_not_none c i k : appends c = [] -> ~ replying c i k.
Proof. intros Ha (id' & r & Hr & _). congruence. Qed.

Lemma appends_in m c : m ∈ appends c -> m ∈ net c.
Proof. unfold appends. rewrite !list_elem_of_In. intros [? _]%List.filter_In. done. Qed.

Lemma next_some ndL c i nd :
  reigning ndL c -> nodes c !! i = Some nd -> exists next, nextIndex (raft ndL) !! i = Some next.
Proof.
  intros [Hok Hnl _ _ _ _ _ _] Hi. apply lookup_lt_is_Some_2.
  rewrite (ro_next _ _ _ (no_raft _ _ _ (co_nodes _ _ Hok _ _ Hnl))), <-(co_len _ _ Hok). by eapply lookup_lt_Some.
Qed.

(** The follower handles the request. *)
Lemma reigning_append ndL c c' id s args nd rf reply rnd :
  reigning ndL c -> lock ndL = Some (OpHeartbeat id s args) -> appends c = [mkMsg id l s (PAppReq args)] ->
  nodes c !! s = Some nd -> AppendEntries args rnd (raft nd) = Some (rf, reply) ->
  cluster_ok n c' -> nodes c' = <[s := set_raft rf nd]> (nodes c) ->
  appends c' = [mkMsg id s l (PAppRep reply)] -> old_votes ndL (net c') -> reigning ndL c'.
Proof.
  intros Hre Hlk Hap Hs Happ Hok' E Hap' Hvo'. pose proof Hre as [Hok Hnl Hle Hex Hfo [Hp1 Hp2] Hvo Hhe].
  unfold exchange in Hex. rewrite Hlk in Hex. destruct Hex as (Hsl & Haa & Hac & Hg & _).
  destruct (next_some _ _ _ _ Hre Hs) as [next Hn]. pose proof (Hfo s nd Hsl Hs) as Hfs.
  pose proof (replying_not_request c id s args) as Hnr.
  destruct (Hp1 s nd next Hsl Hs Hn) as [Hr|Hr]; [|by destruct (Hnr _ _ Hap Hr)].
  assert (Hargs : args_ok args).
  { apply (co_net _ _ Hok (mkMsg id l s (PAppReq args))), appends_in. rewrite Hap. by left. }
  destruct (follower_append ndL nd s s args rnd rf reply next Hle Hfs (co_nodes _ _ Hok _ _ Hs) Hargs Hn Hr Haa Hg Happ)
    as ((F1&F2&F3&F4&F5&F6&F7&F8&F9) & Hro & Htm & Hrt & Hcase).
  assert (Hgrow : log_of nd `prefix_of` logEntries rf /\ logEntries rf `prefix_of` log_of ndL /\
    commitIndex (raft nd) <= commitIndex rf < zlen (logEntries rf) /\
    (commitIndex rf = commitIndex (raft nd) \/ commitIndex rf <= commitIndex (raft ndL))).
  { destruct Hfs as [_ _ _ _ _ _ Hpre [_ Hci _]]. destruct Hcase as [(-> & -> & _)|(-> & _ & ->)].
    - split_and!; [done|done|lia|done|by left].
    - pose proof (prefix_zlen _ _ Hpre).
      destruct (new_commit_range (aa_LeaderCommit args) (zlen (log_of ndL) - 1) (commitIndex (raft nd))) as [? Hor];
        [unfold log_of in *; lia|]. rewrite <-Hac. split_and!; [done|done|lia|lia|done]. }
  destruct Hgrow as (Hg1 & Hg2 & Hg3 & Hg4).
  constructor; try done.
  - by rewrite E, list_lookup_insert_ne.
  - unfold exchange. rewrite Hlk. split_and!; try done. right. right. exists reply. split_and!; [done|done|].
    destruct Hcase as [(_ & _ & [?|?])|(_ & ? & _)]; [by left|right..]; eexists; (split; [by eapply updated_eq|done]).
  - intros j x Hj Hx. destruct (updated _ _ _ _ _ _ E Hx) as [(-> & -> & _)|[_ ?]]; [|eauto].
    destruct Hfs. constructor; simpl; try done. eapply applied_ok_ext; [done|congruence|congruence|done|done].
  - split.
    + intros j x nx Hj Hx Hnx. destruct (updated _ _ _ _ _ _ E Hx) as [(-> & -> & _)|[_ ?]].
      * rewrite Hn in Hnx. injection Hnx as <-. unfold log_of at 1 3. simpl.
        destruct Hcase as [(-> & _ & [?|?])|(-> & ? & _)]; [by left|right; by exists id, reply..].
      * destruct (Hp1 j x nx) as [?|Hrj]; [done|done|done|by left|by destruct (Hnr _ _ Hap Hrj)].
    + intros j x m Hx Hm. destruct (updated _ _ _ _ _ _ E Hx) as [(-> & -> & _)|[_ ?]]; [|by eauto].
      specialize (Hp2 _ _ _ Hs Hm). apply prefix_zlen in Hg1. unfold log_of in *. simpl. lia.
  - intros j x Hx. assert (Hmono : forall k k', k' <= k -> held c k = true -> held c' k' = true).
    { intros k k' Hk. eapply held_update; [done|done|by apply prefix_zlen|done]. }
    destruct (updated _ _ _ _ _ _ E Hx) as [(-> & -> & _)|[_ ?]]; [|by eauto using Z.le_refl]. simpl.
    destruct Hg4 as [->|Hle']; [exact (Hmono _ _ (Z.le_refl _) (Hhe _ _ Hs))|exact (Hmono _ _ Hle' (Hhe _ _ Hnl))].
Qed.
(** ** The reply *)

(** [nextIndex] and [matchIndex] of the peers after a truthful reply of [s]. *)
Lemma progress_reply ndL c c' s nd0 reply rf :
  reigning ndL c -> s <> l -> nodes c !! s = Some nd0 ->
  (ar_NextIndex reply = 0 \/ ar_NextIndex reply = zlen (log_of nd0)) ->
  (forall i k, replying c i k -> i = s /\ k = ar_NextIndex reply) ->
  (ar_NextIndex reply = 0 /\ nextIndex rf = nextIndex (raft ndL) /\ matchIndex rf = matchIndex (raft ndL) \/
   1 <= ar_NextIndex reply /\ progress (Z.of_nat s) (ar_NextIndex reply) (raft ndL) rf) ->
  logEntries rf = log_of ndL -> (forall i nd, i <> l -> nodes c' !! i = Some nd -> nodes c !! i = Some nd) ->
  (forall nd, nodes c' !! l = Some nd -> log_of nd = log_of ndL) ->
  forall ndL', raft ndL' = rf -> progress_ok ndL' c'.
Proof.
  intros [Hok Hnl _ _ Hfo [Hp1 Hp2] _ _] Hsl Hs Hni Hrep Hnote Hlog Hother Hown ndL' Er.
  assert (Hlen : forall i nd, nodes c !! i = Some nd -> 1 <= zlen (log_of nd)).
  { intros i nd Hi. apply log_shape_len, (ro_log _ _ _ (no_raft _ _ _ (co_nodes _ _ Hok _ _ Hi))). }
  assert (Hold : forall i nd, nodes c' !! i = Some nd -> exists nd1, nodes c !! i = Some nd1 /\ log_of nd1 = log_of nd).
  { intros i nd Hi. destruct (decide (i = l)) as [->|]; [|by eauto]. exists ndL. split; [done|]. symmetry. by apply Hown. }
  unfold progress_ok, log_of at 2. rewrite Er, Hlog. split.
  - intros i nd next Hi Hnd Hn. left. pose proof (Hother _ _ Hi Hnd) as Hc.
    destruct Hnote as [(Hz & En & _)|(H1 & En & _)]; rewrite En in Hn.
    + destruct (Hp1 i nd next Hi Hc Hn) as [?|Hr]; [done|]. apply Hrep in Hr as [_ ?]. specialize (Hlen _ _ Hc). lia.
    + rewrite Nat2Z.id in Hn. destruct (decide (i = s)) as [->|Hne].
      * rewrite list_lookup_insert_eq in Hn by (destruct (lookup_lt_is_Some (nextIndex (raft ndL)) s) as [_ Hx];
          rewrite (ro_next _ _ _ (no_raft _ _ _ (co_nodes _ _ Hok _ _ Hnl))), <-(co_len _ _ Hok); by eapply lookup_lt_Some).
        injection Hn as <-. rewrite Hs in Hc. injection Hc as ->.
        pose proof (prefix_zlen _ _ (fo_log _ _ (Hfo s nd Hsl Hs))). lia.
      * rewrite list_lookup_insert_ne in Hn by done.
        destruct (Hp1 i nd next Hi Hc Hn) as [?|Hr]; [done|]. by apply Hrep in Hr as [? _].
  - intros i nd m Hnd Hm. destruct (Hold i nd Hnd) as (nd1 & Hc & <-).
    destruct Hnote as [(_ & _ & Em)|(H1 & _ & Em)]; rewrite Em in Hm; [by eauto|].
    rewrite Nat2Z.id in Hm. apply list_lookup_insert_Some in Hm as [(<- & <- & _)|[_ Hm]]; [|by eauto].
    rewrite Hs in Hc. injection Hc as ->. lia.
Qed.

Lemma reigning_reply ndL ndL' c c' id s args reply rnd rf :
  reigning ndL c -> lock ndL = Some (OpHeartbeat id s args) ->
  heartbeat_reply (Z.of_nat s) args reply rnd (raft ndL) = Some rf -> raft ndL' = rf -> lock ndL' = None ->
  ar_Term reply <= term (raft ndL) ->
  (ar_NextIndex reply = 0 \/ exists nd, nodes c !! s = Some nd /\ ar_NextIndex reply = zlen (log_of nd)) ->
  (forall i k, replying c i k -> i = s /\ k = ar_NextIndex reply) ->
  cluster_ok n c' -> nodes c' = <[l := ndL']> (nodes c) -> appends c' = [] ->
  (forall m a, m ∈ net c' -> m_body m = PVoteReq a -> m ∈ net c) -> reigning ndL' c'.
Proof.
  intros Hre Hlk Hh Er Elk Hrt Hni Hrep Hok' E Hap' Hvo'.
  pose proof Hre as [Hok Hnl [Hro Hx Hal] Hex Hfo [Hp1 Hp2] Hvo Hhe].
  unfold exchange in Hex. rewrite Hlk in Hex. destruct Hex as (Hsl & _).
  pose proof (co_nodes _ _ Hok _ _ Hnl) as Hokl. pose proof (no_lock _ _ _ Hokl) as Hlo.
  unfold lock_ok in Hlo. rewrite Hlk in Hlo. destruct Hlo as [_ Hsn].
  destruct (raft_ok_idx n l (raft ndL) s (no_raft _ _ _ Hokl) Hsn) as [Hs1 Hs2].
  destruct (lookup_lt_is_Some_2 (nodes c) s) as [nd0 Hs]; [by rewrite (co_len _ _ Hok)|].
  assert (Hni' : ar_NextIndex reply = 0 \/ ar_NextIndex reply = zlen (log_of nd0)).
  { destruct Hni as [?|(nd & Hnd & ?)]; [by left|right]. congruence. }
  destruct (heartbeat_reply_spec (Z.of_nat s) args reply rnd (raft ndL) Hs1 Hs2) as (rf' & Hh' & Hfr & Hres).
  { destruct Hni' as [->| ->]; [done|apply zlen_nonneg]. }
  rewrite Hh in Hh'. injection Hh' as <-. destruct Hfr as (F1&F2&F3&F4&F5&F6&F7&F8).
  destruct Hres as [(? & _)|(_ & Ht' & Hr' & Hnote & Hcle & Hcnew)]; [lia|].
  assert (Elog : log_of ndL' = log_of ndL) by (unfold log_of; congruence).
  assert (Hcr : commitIndex rf < zlen (logEntries rf)).
  { rewrite F6. destruct (decide (commitIndex rf = commitIndex (raft ndL))) as [->|Hd]; [apply Hal|].
    by destruct (Hcnew Hd) as (_ & ? & _). }
  assert (Hpr : progress_ok ndL' c').
  { eapply (progress_reply ndL c c' s nd0 reply rf); try done.
    - intros i nd Hi Hnd. destruct (updated _ _ _ _ _ _ E Hnd) as [(-> & _)|[_ ?]]; done.
    - intros nd Hnd. destruct (updated _ _ _ _ _ _ E Hnd) as [(_ & -> & _)|[? _]]; done. }
  constructor; try done.
  - by eapply updated_eq.
  - constructor; rewrite ?Er, ?Elog; [by rewrite Hr'|done|].
    eapply applied_ok_ext; [done|done|done|by rewrite F6|lia].
  - unfold exchange. by rewrite Elk.
  - intros j x Hj Hxj. destruct (updated _ _ _ _ _ _ E Hxj) as [(-> & -> & _)|[_ Hj']]; [done|].
    destruct (Hfo j x Hj Hj'). constructor; try done; [by rewrite Er, Ht'|by rewrite Elog].
  - intros m a Hm Hb. rewrite Er, Ht'. eauto.
  - intros j x Hxj. assert (Hmono : forall k, held c k = true -> held c' k = true).
    { intros k. eapply held_update; [done|done|by rewrite Elog|done]. }
    destruct (updated _ _ _ _ _ _ E Hxj) as [(-> & -> & _)|[_ ?]]; [|by eauto]. rewrite Er.
    destruct (decide (commitIndex rf = commitIndex (raft ndL))) as [->|Hd]; [by eauto|].
    destruct (Hcnew Hd) as (_ & _ & Hmaj & _).
    pose proof (no_raft _ _ _ (co_nodes _ _ Hok' _ _ (updated_eq _ _ _ _ _ E Hnl))) as Hrl. rewrite Er in Hrl.
    eapply (majority_held c' rf); [apply Hrl|apply Hok'|apply Hrl| |done]. rewrite <-Er. apply Hpr.
Qed.
(** ** A command of a client *)

Lemma reigning_start ndL ndL' c c' cmd :
  reigning ndL c -> lock ndL = None -> lock ndL' = None ->
  raft ndL' = persist (set_matchIndex (<[l := zlen (log_of ndL)]> (matchIndex (raft ndL)))
    (set_logEntries (log_of ndL ++ [mkEntry (term (raft ndL)) (zlen (log_of ndL)) cmd]) (raft ndL))) ->
  cluster_ok n c' -> nodes c' = <[l := ndL']> (nodes c) -> appends c' = appends c ->
  (forall m a, m ∈ net c' -> m_body m = PVoteReq a -> m ∈ net c) -> reigning ndL' c'.
Proof.
  intros [Hok Hnl [Hro Hx Hal] Hex Hfo [Hp1 Hp2] Hvo Hhe] Hlk Hlk' Er Hok' E Hap Hvo'.
  unfold exchange in Hex. rewrite Hlk in Hex.
  set (e := mkEntry (term (raft ndL)) (zlen (log_of ndL)) cmd) in *.
  assert (Elog : log_of ndL' = log_of ndL ++ [e]) by (unfold log_of at 1; by rewrite Er).
  assert (Hz : zlen (log_of ndL') = zlen (log_of ndL) + 1) by (rewrite Elog, zlen_app; done).
  constructor; try done.
  - by eapply updated_eq.
  - constructor; [by rewrite Er| |].
    + rewrite Elog. apply log_exact_app; [done|]. intros [|j] e' He'; [|done]. injection He' as <-. simpl. lia.
    + rewrite Er. eapply applied_ok_ext; [exact Hal|done|done| |]; simpl; [by apply prefix_app_r|].
      rewrite zlen_app. change (zlen [e]) with 1. destruct Hal. unfold log_of. lia.
  - unfold exchange. rewrite Hlk'. congruence.
  - intros j x Hj Hxj. destruct (updated _ _ _ _ _ _ E Hxj) as [(-> & -> & _)|[_ Hj']]; [done|].
    destruct (Hfo j x Hj Hj'). constructor; try done; [by rewrite Er|]. rewrite Elog. by apply prefix_app_r.
  - split.
    + intros j x next Hj Hxj Hn. left. rewrite Er in Hn. simpl in Hn.
      destruct (updated _ _ _ _ _ _ E Hxj) as [(-> & -> & _)|[_ Hj']]; [done|].
      destruct (Hp1 j x next Hj Hj' Hn) as [?|Hr]; [lia|]. by destruct (replying_not_none c j (zlen (log_of x)) Hex).
    + intros j x m Hxj Hm. rewrite Er in Hm. simpl in Hm.
      apply list_lookup_insert_Some in Hm as [(<- & <- & _)|[Hne Hm]];
        destruct (updated _ _ _ _ _ _ E Hxj) as [(? & -> & _)|[? Hj']]; try done; [lia|by eauto].
  - intros m a Hm Hb. rewrite Er. simpl. eauto.
  - intros j x Hxj. assert (Hmono : forall k, held c k = true -> held c' k = true).
    { intros k. eapply held_update; [done|done|lia|done]. }
    destruct (updated _ _ _ _ _ _ E Hxj) as [(-> & -> & _)|[_ ?]]; [|by eauto]. rewrite Er. simpl. eauto.
Qed.

(** ** All events *)

Lemma exchange_no_election ndL c i a v w vs :
  exchange ndL c -> lock ndL <> Some (OpElection i a v w vs).
Proof. unfold exchange. intros Hex E. by rewrite E in Hex. Qed.

Lemma reigning_local ndL c c' i lev :
  reigning ndL c -> reign_event l (EvLocal i lev) c = true -> cstep n (EvLocal i lev) c = Ok c' ->
  exists ndL', reigning ndL' c'.
Proof.
  intros Hre Hev Hc. pose proof Hre as [Hok Hnl Hle Hex Hfo Hpr Hvo Hhe].
  pose proof (cluster_ok_step _ _ _ _ Hok Hc) as Hok'. cbn [cstep] in Hc.
  apply bind_Ok in Hc as (u & Hnd & Hc). apply guard_Ok, negb_true_iff in Hnd.
  apply bind_Ok in Hc as (nd & Hi & Hc). apply enabled_Ok in Hi.
  apply bind_Ok in Hc as (eff & Hl & Hc). injection Hc as <-.
  assert (Hms : may_step lev = true) by (by destruct lev).
  destruct (decide (i = l)) as [->|Hne].
  - rewrite Hnl in Hi. injection Hi as <-. exists (ef_node eff).
    assert (Hnf : forall rnd, lev <> LElectionFailed rnd).
    { intros rnd ->. simpl in Hev. by rewrite Nat.eqb_refl in Hev. }
    destruct (leader_local (next_id c) lev ndL eff Hle (co_nodes _ _ Hok _ _ Hnl) Hms Hnf
      (fun _ _ _ _ _ => exchange_no_election _ _ _ _ _ _ _ Hex) Hl)
      as [Hsend Hlk Hsr|s args Hlk Hsl Hsend Hlk' Er Ht Hcm Hg|cmd Hlk Hlk' Hsend Er|id' s args rnd rf -> Hlk Hlk' Hsend Hh Er].
    + eapply (reigning_leader ndL (ef_node eff) c); try done.
      * unfold exchange in *. rewrite appends_effect, Hsend, app_nil_r, Hlk.
        destruct Hsr as (E1 & E2 & E3 & E4 & E5 & E6 & _).
        destruct (lock ndL) as [[? ? ? ? ?|id s args]|]; [done| |done]. rewrite E5, E2.
        destruct Hex as (Hsl & ? & ? & Hg & Hm). split_and!; try done.
        { unfold getAppendLogs, lastLogTermIndex in *. unfold log_of in E1. by rewrite E1, E3. }
        destruct Hm as [?|[?|(r & ? & ? & Hr)]]; [by left|by right; left|right; right]. exists r. split_and!; try done.
        simpl. by rewrite list_lookup_insert_ne.
      * intros j k. unfold replying. by rewrite appends_effect, Hsend, app_nil_r.
      * simpl. rewrite Hsend, app_nil_r. done.
    + unfold exchange in Hex. rewrite Hlk in Hex. eapply (reigning_leader ndL (ef_node eff) c); try done.
      * apply same_reign_raft; rewrite ?Er; try done. apply Hle.
      * unfold exchange. rewrite appends_effect, Hsend, Hex, Hlk', Er. simpl. split_and!; try done. right. by left.
      * intros j k Hr. by destruct (replying_not_none _ _ _ Hex Hr).
      * simpl. rewrite Hsend. intros m a [Hm| ->%list_elem_of_singleton]%elem_of_app Hb; [done|done].
    + eapply (reigning_start ndL); try done.
      * rewrite appends_effect, Hsend. simpl. by rewrite app_nil_r.
      * simpl. by rewrite Hsend, app_nil_r.
    + assert (Hap : appends c = []).
      { simpl in Hev. by destruct (appends c). }
      eapply (reigning_reply ndL); try done.
      * simpl. apply (ro_term _ _ _ (no_raft _ _ _ (co_nodes _ _ Hok _ _ Hnl))).
      * by left.
      * intros j k Hr. by destruct (replying_not_none _ _ _ Hap Hr).
      * rewrite appends_effect, Hsend. simpl. by rewrite app_nil_r.
      * simpl. by rewrite Hsend, app_nil_r.
  - exists ndL. destruct (follower_local ndL i (next_id c) lev nd eff (Hfo i nd Hne Hi) (le_log _ Hle)
      (co_nodes _ _ Hok _ _ Hi) Hms Hl) as (Hsend & Hfo' & Elog & Eci).
    eapply (reigning_follower ndL c _ i nd); try done.
    + rewrite appends_effect, Hsend. simpl. by rewrite app_nil_r.
    + simpl. by rewrite Hsend, app_nil_r.
Qed.
(** A message of the leader's call. *)
Lemma append_in_flight ndL c k m :
  exchange ndL c -> net c !! k = Some m -> is_append m = true ->
  exists id s args, lock ndL = Some (OpHeartbeat id s args) /\ s <> l /\
    appends c = [m] /\ appends (remove_msg k c) = [] /\
    (m = mkMsg id l s (PAppReq args) \/
     exists r, m = mkMsg id s l (PAppRep r) /\ ar_Term r <= term (raft ndL) /\
       (ar_NextIndex r = 0 \/ exists nd, nodes c !! s = Some nd /\ ar_NextIndex r = zlen (log_of nd))).
Proof.
  intros Hex Hm Ha. unfold exchange in Hex. destruct (lock ndL) as [[? ? ? ? ?|id s args]|]; [done| |].
  2: { by rewrite (appends_none _ _ _ Hm Hex) in Ha. }
  destruct Hex as (Hsl & _ & _ & _ & [Hn|[Hone|(r & Hone & Hr)]]).
  - by rewrite (appends_none _ _ _ Hm Hn) in Ha.
  - destruct (appends_one _ _ _ _ Hm Ha Hone) as [-> Hrm]. exists id, s, args. split_and!; try done. by left.
  - destruct (appends_one _ _ _ _ Hm Ha Hone) as [-> Hrm]. exists id, s, args. split_and!; try done.
    right. by exists r.
Qed.

Lemma remove_votes k c m a : m ∈ net (remove_msg k c) -> m_body m = PVoteReq a -> m ∈ net c.
Proof. intros Hm _. simpl in Hm. by eapply list_elem_of_delete_inv. Qed.

(** Votes, granted or not, leave logs alone. *)
Lemma vote_same_log args rnd rf rf' reply :
  RequestVote args rnd rf = Some (rf', reply) ->
  same_log rf rf' /\ term rf' = Z.max (term rf) (va_Term args) /\
  (role rf' = Leader -> role rf = Leader) /\
  (role rf = Leader -> va_Term args <= term rf -> role rf' = Leader).
Proof.
  intros Hv. destruct (RequestVote_spec args rnd rf) as (rf1 & Hv' & Hsl & Ht & _ & Hr & _).
  rewrite Hv in Hv'. injection Hv' as <- _. split_and!; [done|done|..]; rewrite Hr; unfold vote_role.
  - by destruct (_ || _).
  - intros HL Hle. unfold grants. rewrite HL, bool_decide_eq_true_2 by done.
    destruct (Z.ltb_spec (term rf) (va_Term args)); [lia|]. simpl. by rewrite !andb_false_r.
Qed.

Lemma reigning_deliver_follower ndL c m k rnd nd eff :
  reigning ndL c -> net c !! k = Some m -> m_dst m <> l -> nodes c !! m_dst m = Some nd ->
  local_deliver (m_dst m) m rnd nd = Ok eff ->
  cluster_ok n (apply_effect (m_dst m) eff (remove_msg k c)) ->
  reigning ndL (apply_effect (m_dst m) eff (remove_msg k c)).
Proof.
  intros Hre Hm Hd Hnd Hl Hok'. pose proof Hre as [Hok Hnl Hle Hex Hfo Hpr Hvo Hhe].
  pose proof (Hfo _ _ Hd Hnd) as Hf. pose proof (list_elem_of_lookup_2 _ _ _ Hm) as Hin.
  assert (Hcalm : forall nd', ef_node eff = nd' -> follower_ok ndL nd' -> log_of nd' = log_of nd ->
    commitIndex (raft nd') = commitIndex (raft nd) -> is_append m = false ->
    List.filter is_append (ef_send eff) = [] ->
    (forall m' a, m' ∈ ef_send eff -> m_body m' <> PVoteReq a) ->
    reigning ndL (apply_effect (m_dst m) eff (remove_msg k c))).
  { intros nd' <- Hf' El Ec Ha Hs Hnv. eapply (reigning_follower ndL c _ (m_dst m) nd); try done.
    - by rewrite appends_effect, Hs, app_nil_r, (appends_other _ m).
    - intros m' a [Hm'|Hm']%elem_of_app Hb; [|by destruct (Hnv m' a Hm')].
      apply (Hvo m' a); [|done]. by eapply remove_votes. }
  pose proof Hf as [Ht Hr Hlk He Hh Hs Hp Hap]. unfold local_deliver in Hl. destruct (m_body m) as [a|r|a|r] eqn:Hb.
  - apply bind_Ok in Hl as (u & _ & Hl). apply bind_Ok in Hl as ([rf' reply] & Hv & Hl). apply run_Ok in Hv.
    injection Hl as <-. destruct (vote_same_log _ _ _ _ _ Hv) as ((E1&E2&E3&E4&E5&E6&E7&E8) & Et & Hr1 & _).
    eapply Hcalm; [reflexivity|..]; try done.
    + eapply follower_ok_ext; [exact Hf|..]; try done; simpl; [|naive_solver].
      specialize (Hvo m a Hin Hb). lia.
    + unfold is_append. by rewrite Hb.
    + intros m' b ->%list_elem_of_singleton. done.
  - rewrite Hlk in Hl. injection Hl as <-. eapply Hcalm; try done; [unfold is_append; by rewrite Hb|]. intros. set_solver.
  - assert (Ha : is_append m = true) by (unfold is_append; by rewrite Hb).
    destruct (append_in_flight _ _ _ _ Hex Hm Ha) as (id & s & args & Hlkl & Hsl & Hone & Hrm & [->|(r & -> & _)]); [|done].
    simpl in *. injection Hb as <-.
    apply bind_Ok in Hl as (u & _ & Hl). apply bind_Ok in Hl as ([rf' reply] & Hv & Hl). apply run_Ok in Hv.
    injection Hl as <-. eapply reigning_append; try done.
    + by rewrite appends_effect, Hrm.
    + intros m' a [Hm'| ->%list_elem_of_singleton]%elem_of_app Hb'; [|done].
      apply (Hvo m' a); [|done]. by eapply remove_votes.
  - assert (Ha : is_append m = true) by (unfold is_append; by rewrite Hb).
    destruct (append_in_flight _ _ _ _ Hex Hm Ha) as (id & s & args & _ & _ & _ & _ & [->|(r' & -> & _)]); done.
Qed.
Lemma reigning_deliver_leader ndL c m k rnd eff :
  reigning ndL c -> net c !! k = Some m -> m_dst m = l ->
  local_deliver l m rnd ndL = Ok eff -> cluster_ok n (apply_effect l eff (remove_msg k c)) ->
  reigning (ef_node eff) (apply_effect l eff (remove_msg k c)).
Proof.
  intros Hre Hm Hd Hl Hok'. pose proof Hre as [Hok Hnl Hle Hex Hfo Hpr Hvo Hhe].
  pose proof (list_elem_of_lookup_2 _ _ _ Hm) as Hin. pose proof Hle as [Hro Hx Hal].
  assert (Hcalm : same_reign ndL (ef_node eff) -> lock (ef_node eff) = lock ndL -> is_append m = false ->
    List.filter is_append (ef_send eff) = [] -> (forall m' a, m' ∈ ef_send eff -> m_body m' <> PVoteReq a) ->
    reigning (ef_node eff) (apply_effect l eff (remove_msg k c))).
  { intros Hsr Elk Ha Hs Hnv.
    assert (Eap : appends (apply_effect l eff (remove_msg k c)) = appends c)
      by (by rewrite appends_effect, Hs, app_nil_r, (appends_other _ m)).
    eapply (reigning_leader ndL (ef_node eff) c); try done.
    - unfold exchange in *. rewrite Eap, Elk. destruct Hsr as (E1 & E2 & E3 & E4 & E5 & E6 & _).
      destruct (lock ndL) as [[? ? ? ? ?|id s args]|]; [done| |done]. rewrite E5, E2.
      destruct Hex as (Hsl & ? & ? & Hg & Hms). split_and!; try done.
      { unfold getAppendLogs, lastLogTermIndex in *. unfold log_of in E1. by rewrite E1, E3. }
      simpl. by rewrite list_lookup_insert_ne.
    - intros j x. unfold replying. by rewrite Eap.
    - intros m' a [Hm'|Hm']%elem_of_app Hb; [by eapply remove_votes|by destruct (Hnv m' a Hm')]. }
  unfold local_deliver in Hl. destruct (m_body m) as [a|r|a|r] eqn:Hb.
  - apply bind_Ok in Hl as (u & _ & Hl). apply bind_Ok in Hl as ([rf' reply] & Hv & Hl). apply run_Ok in Hv.
    injection Hl as <-. destruct (vote_same_log _ _ _ _ _ Hv) as ((E1&E2&E3&E4&E5&E6&E7&E8) & Et & _ & Hr2).
    specialize (Hvo m a Hin Hb). apply Hcalm; try done.
    + apply same_reign_raft; simpl; try done; [lia|by rewrite Hr2].
    + unfold is_append. by rewrite Hb.
    + intros m' b ->%list_elem_of_singleton. done.
  - assert (Hq : eff = quiet ndL).
    { unfold exchange in Hex. destruct (lock ndL) as [[? ? ? ? ?|? ? ?]|]; [done|by injection Hl as <-..]. }
    subst eff. apply Hcalm; [by apply same_reign_raft|done|unfold is_append; by rewrite Hb|done|].
    intros m' a Hm'. by apply not_elem_of_nil in Hm'.
  - assert (Ha : is_append m = true) by (unfold is_append; by rewrite Hb).
    destruct (append_in_flight _ _ _ _ Hex Hm Ha) as (id & s & args & _ & Hsl & _ & _ & [->|(r' & -> & _)]); done.
  - assert (Ha : is_append m = true) by (unfold is_append; by rewrite Hb).
    destruct (append_in_flight _ _ _ _ Hex Hm Ha) as (id & s & args & Hlk & Hsl & Hone & Hrm & [->|(r' & -> & Hrt & Hni)]); [done|].
    injection Hb as ->. rewrite Hlk in Hl. simpl in Hl. rewrite bool_decide_eq_true_2 in Hl by done.
    apply bind_Ok in Hl as (rf & Hh & Hl). apply run_Ok in Hh. injection Hl as <-.
    eapply (reigning_reply ndL); try done.
    + intros j x (id' & r' & Hr' & Hx'). rewrite Hone in Hr'. by injection Hr' as _ <- <-.
    + by rewrite appends_effect, Hrm.
    + simpl. rewrite app_nil_r. intros m' a Hm' _. by eapply list_elem_of_delete_inv.
Qed.

Lemma reigning_drop ndL c k m :
  reigning ndL c -> net c !! k = Some m -> (forall r, m_body m <> PAppRep r) -> reigning ndL (remove_msg k c).
Proof.
  intros [Hok Hnl Hle Hex Hfo [Hp1 Hp2] Hvo Hhe] Hm Hnr.
  assert (Happ : appends (remove_msg k c) = appends c \/
    appends (remove_msg k c) = [] /\ forall i x, ~ replying c i x).
  { destruct (is_append m) eqn:Ha; [right|left; by eapply appends_other].
    destruct (append_in_flight _ _ _ _ Hex Hm Ha) as (id & s & args & _ & _ & Hone & Hrm & [->|(r & -> & _)]);
      [|by destruct (Hnr r)].
    split; [done|]. intros i x. exact (replying_not_request _ _ _ _ i x Hone). }
  constructor; try done.
  - destruct Hok as [? ? Hn]. constructor; try done. intros m' Hm'. simpl in Hm'. apply Hn. by eapply list_elem_of_delete_inv.
  - unfold exchange in *. destruct (lock ndL) as [[? ? ? ? ?|id s args]|]; [done| |].
    + destruct Hex as (? & ? & ? & ? & Hms). split_and!; try done. destruct Happ as [->|[-> _]]; [done|by left].
    + destruct Happ as [->|[-> _]]; done.
  - split; [|done]. intros i nd next Hi Hnd Hn. destruct (Hp1 i nd next Hi Hnd Hn) as [?|Hr]; [by left|].
    destruct Happ as [E|[_ Hno]]; [right; unfold replying; by rewrite E|by destruct (Hno _ _ Hr)].
  - intros m' a Hm' Hb. apply (Hvo m' a); [|done]. by eapply remove_votes.
Qed.

Lemma reigning_step ndL c ev c' :
  reigning ndL c -> reign_event l ev c = true -> cstep n ev c = Ok c' -> exists ndL', reigning ndL' c'.
Proof.
  intros Hre Hev Hc. destruct ev as [i lev|k rnd|k]; [by eapply reigning_local|..].
  - pose proof (cluster_ok_step _ _ _ _ (re_ok _ _ Hre) Hc) as Hok'. cbn [cstep] in Hc.
    apply bind_Ok in Hc as (m & Hm & Hc). apply enabled_Ok in Hm.
    apply bind_Ok in Hc as (nd & Hnd & Hc). apply enabled_Ok in Hnd.
    apply bind_Ok in Hc as (eff & Hl & Hc). injection Hc as <-. cbn [local] in Hl.
    destruct (decide (m_dst m = l)) as [El|Hne].
    + rewrite El in *. rewrite (re_node _ _ Hre) in Hnd. injection Hnd as <-. exists (ef_node eff).
      by eapply reigning_deliver_leader.
    + exists ndL. by eapply reigning_deliver_follower.
  - exists ndL. cbn [cstep] in Hc. apply bind_Ok in Hc as (m & Hm & Hc). apply enabled_Ok in Hm. injection Hc as <-.
    eapply reigning_drop; [done|done|]. intros r Hb. simpl in Hev. rewrite Hm in Hev.
    destruct m as [? ? ? b]. simpl in Hb. by subst b.
Qed.

Lemma reigning_exec ndL evs c c' :
  reigning ndL c -> reign l evs c = true -> exec n evs c = Ok c' -> exists ndL', reigning ndL' c'.
Proof.
  revert ndL c. induction evs as [|ev evs IH]; intros ndL c Hre Hrn He; simpl in *.
  { injection He as <-. eauto. }
  apply andb_true_iff in Hrn as [Hev Hrn]. destruct (cstep n ev c) as [| |c1] eqn:Hc; try done.
  destruct (reigning_step _ _ _ _ Hre Hev Hc) as [nd1 Hre1]. by eapply IH.
Qed.
(** ** The beginning *)

Lemma applied_okb_spec rf : applied_okb rf = true -> applied_ok rf.
Proof. unfold applied_okb. intros Hb. bool_to_prop. constructor; [lia|lia|done]. Qed.

Lemma settled_follower_spec ndL nd :
  settled_follower (term (raft ndL)) nd = true -> log_of nd `prefix_of` log_of ndL -> applied_ok (raft nd) ->
  follower_ok ndL nd.
Proof.
  unfold settled_follower. intros Hb Hp Ha. bool_to_prop.
  constructor; try done; [by apply is_free_lock|..].
  - destruct (egor nd); try done; [by left|by right].
  - by destruct (hgor nd).
  - apply Forall_forall. intros s Hs.
    match goal with F : forallb _ _ = true |- _ => rewrite forallb_forall in F; specialize (F s) end.
    apply negb_true_iff. by match goal with F : List.In s _ -> _ |- _ => apply F, list_elem_of_In end.
Qed.

Lemma settled_net T c :
  forallb (settled_msg T) (net c) = true ->
  appends c = [] /\ forall m a, m ∈ net c -> m_body m = PVoteReq a -> va_Term a <= T.
Proof.
  intros Hb. rewrite forallb_forall in Hb. split.
  - destruct (appends c) as [|m ms] eqn:E; [done|]. exfalso.
    assert (Hm : List.In m (appends c)) by (rewrite E; by left). unfold appends in Hm.
    apply List.filter_In in Hm as [Hm Ha]. specialize (Hb m Hm). unfold settled_msg, is_append in *.
    by destruct (m_body m).
  - intros m a Hm%list_elem_of_In Hbody. specialize (Hb m Hm). unfold settled_msg in Hb. rewrite Hbody in Hb. lia.
Qed.

Lemma settled_reigning c : cluster_ok n c -> settled l c = true -> exists ndL, reigning ndL c.
Proof.
  intros Hok Hs. unfold settled in Hs. destruct (nodes c !! l) as [ndL|] eqn:Hnl; [|done]. exists ndL. bool_to_prop.
  match goal with F : forallb (settled_msg _) _ = true |- _ => destruct (settled_net _ _ F) as [Hap Hvo] end.
  match goal with F : forallb (settled_node _ _ _) _ = true |- _ => rewrite forallb_forall in F; rename F into Hall end.
  match goal with F : e_Index <$> _ = _ |- _ => rename F into Hidx end.
  match goal with F : is_free ndL = true |- _ => apply is_free_lock in F; rename F into Hfree end.
  assert (Hnode : forall i nd, nodes c !! i = Some nd -> settled_node l ndL c i = true).
  { intros i nd Hi. apply Hall, in_seq. rewrite <-(co_len _ _ Hok). apply lookup_lt_Some in Hi. lia. }
  assert (Hfacts : forall i nd, nodes c !! i = Some nd ->
    (i <> l -> follower_ok ndL nd) /\ applied_ok (raft nd) /\ settled_progress (raft ndL) i (log_of nd) = true /\
    held c (commitIndex (raft nd)) = true).
  { intros i nd Hi. specialize (Hnode i nd Hi). unfold settled_node in Hnode. rewrite Hi in Hnode. bool_to_prop.
    match goal with F : applied_okb _ = true |- _ => apply applied_okb_spec in F; rename F into Hao end.
    split_and!; try done. intros Hne. apply settled_follower_spec; [|done|done].
    match goal with F : _ \/ _ |- _ => destruct F as [Heq|?] end; [by apply Nat.eqb_eq in Heq|done]. }
  assert (Hx : log_exact (log_of ndL)).
  { destruct (ro_log _ _ _ (no_raft _ _ _ (co_nodes _ _ Hok _ _ Hnl))) as [Hph _]. split; [done|].
    intros i e He. assert (Hz : (e_Index <$> log_of ndL) !! i = Some (e_Index e)) by (by rewrite list_lookup_fmap, He).
    rewrite Hidx in Hz. apply lookup_seqZ in Hz as [-> _]. lia. }
  constructor; try done.
  - constructor; [done|done|]. by apply (Hfacts l).
  - unfold exchange. by rewrite Hfree.
  - intros i nd Hne Hi. by apply (Hfacts i nd Hi).
  - split.
    + intros i nd next Hne Hi Hn. left. destruct (Hfacts i nd Hi) as (_ & _ & Hp & _). unfold settled_progress in Hp.
      rewrite Hn in Hp. destruct (matchIndex (raft ndL) !! i); [|done]. bool_to_prop. unfold log_of in *. lia.
    + intros i nd m Hi Hm. destruct (Hfacts i nd Hi) as (_ & _ & Hp & _). unfold settled_progress in Hp.
      rewrite Hm in Hp. destruct (nextIndex (raft ndL) !! i); [|done]. bool_to_prop. lia.
  - intros i nd Hi. by apply (Hfacts i nd Hi).
Qed.

(** ** What it means for the commands applied *)

Lemma applied_prefix ndL nd :
  log_of nd `prefix_of` log_of ndL -> applied_ok (raft nd) ->
  applyCh (raft nd) = applied_msgs (lastApplied (raft nd)) (log_of ndL).
Proof.
  intros Hp [Hla Hci ->]. symmetry. apply applied_msgs_prefix; [done|]. lia.
Qed.

Lemma reigning_log ndL c i nd :
  reigning ndL c -> nodes c !! i = Some nd -> log_of nd `prefix_of` log_of ndL /\ applied_ok (raft nd).
Proof.
  intros [_ Hnl [_ _ Hal] _ Hfo _ _ _] Hi. destruct (decide (i = l)) as [->|Hne].
  - rewrite Hnl in Hi. by injection Hi as <-.
  - by destruct (Hfo i nd Hne Hi).
Qed.

Lemma reigning_agree ndL c i j nd nd' :
  reigning ndL c -> nodes c !! i = Some nd -> nodes c !! j = Some nd' ->
  applyCh (raft nd) `prefix_of` applyCh (raft nd') \/ applyCh (raft nd') `prefix_of` applyCh (raft nd).
Proof.
  intros Hre Hi Hj. destruct (reigning_log _ _ _ _ Hre Hi) as [Hp Ha], (reigning_log _ _ _ _ Hre Hj) as [Hp' Ha'].
  rewrite (applied_prefix _ _ Hp Ha), (applied_prefix _ _ Hp' Ha').
  destruct (Z.le_ge_cases (lastApplied (raft nd)) (lastApplied (raft nd'))); [left|right]; by apply applied_msgs_mono.
Qed.
End Leader.
End Reign.
