(* ===== verification/RaftProps.v ===== *)
(** * Properties of one Raft peer

    The contracts of the operations of [raft.go], [vote.go], [entry.go],
    [persister.go] and [util.go], each on all its branches, with instances on
    concrete peers. *)

From S2P Require Import Prelude Timer Gob GobWire Persister Raft Vote Entry Replication.

(** ** Concrete peers used by the instances *)

(** Peer 1 of three after its first boot. *)
Definition peer1 : Raft := Make (H := Wire.gob_wire) 3 1 MakePersister 0.

(** Peer 0 of three, leader of term 2 with three entries. *)
Definition leader0 : Raft :=
  mkRaft 3 MakePersister 0 0 Leader [] (NewTimer 0) 2 (-1)
    [mkEntry 0 0 INil; mkEntry 1 1 (IInt 10); mkEntry 2 2 (IInt 20)] 0 0 [3; 3; 3] [2; 0; 0].

(** Peer 1 of three in term 2, with two entries left over from term 1. *)
Definition stale1 : Raft :=
  mkRaft 3 MakePersister 1 0 Follower [] (NewTimer 0) 2 0
    [mkEntry 0 0 INil; mkEntry 1 1 (IInt 10); mkEntry 1 2 (IInt 11); mkEntry 1 3 (IInt 12)] 0 0
    [0; 0; 0] [0; 0; 0].

(** ** Handlers *)

Section Handlers.
Context `{GobCodec}.

(** C23. [RequestVote] answers every request: it raises the term to the
    request's, saves the state, touches neither log nor commit state, replies
    with the old term, and grants the vote exactly when the candidate's log is
    not older and either its term is higher or the peer is a non-leader of the
    same term that has not voted for anyone else. *)
Theorem request_vote_correct (args : RequestVoteArgs) (rnd : Z) (rf : Raft) :
  exists rf' g, RequestVote args rnd rf = Some (rf', mkVoteReply (term rf) g) /\
    same_log rf rf' /\ term rf' = Z.max (term rf) (va_Term args) /\
    raftstate (persister rf') = persist_data rf' /\
    (g = true <-> candidate_log_old args rf = false /\
       (term rf < va_Term args \/
        (va_Term args = term rf /\ role rf <> Leader /\
         (votedFor rf = -1 \/ votedFor rf = va_CandidateId args)))) /\
    (g = true -> votedFor rf' = va_CandidateId args /\ role rf' = Follower) /\
    (g = false -> term rf < va_Term args -> votedFor rf' = -1 /\ role rf' = Follower) /\
    (g = false -> va_Term args <= term rf -> votedFor rf' = votedFor rf /\ role rf' = role rf).
Proof.
  destruct (RequestVote_spec args rnd rf) as (rf' & Hr & Hsl & Ht & Hv & Hro & Hp & _).
  exists rf', (grants args rf). split; [done|]. split; [done|]. split; [done|]. split; [done|].
  rewrite Hv, Hro. unfold vote_votedFor, vote_role. split_and!.
  - unfold grants. rewrite andb_true_iff, negb_true_iff, orb_true_iff, Z.ltb_lt, !andb_true_iff,
      orb_true_iff, negb_true_iff, bool_decide_eq_false, !Z.eqb_eq. tauto.
  - intros ->. done.
  - intros -> Hlt. apply Z.ltb_lt in Hlt. rewrite Hlt. done.
  - intros -> Hge. apply Z.ltb_ge in Hge. rewrite Hge. done.
Qed.

(** C24. An election of a peer that is not the leader always completes,
    whatever the calls return and in whatever order: the log and the commit
    index are untouched, the state is saved, and it returns true exactly if
    the peer is now leader.  If no reply shows a higher term, the term grows
    by exactly one and the peer becomes leader exactly when its own vote and
    the granted ones exceed half of the peers, with [nextIndex] one past its
    last entry everywhere and [matchIndex] known for itself only.  If a reply
    shows a higher term and the votes are not a majority, the peer ends as a
    follower in the higher term of one of the replies. *)
Theorem start_election_correct (replies : list (option RequestVoteReply)) (rnd : Z) (rf : Raft) :
  role rf <> Leader -> 0 <= me rf < Z.of_nat (peers rf) ->
  exists rf' succ, startElection replies rnd rf = Some (rf', succ) /\
    logEntries rf' = logEntries rf /\ commitIndex rf' = commitIndex rf /\
    raftstate (persister rf') = persist_data rf' /\ (succ = true <-> role rf' = Leader) /\
    (no_higher_term (term rf + 1) replies ->
       term rf' = term rf + 1 /\
       (role rf' = Leader <-> Z.of_nat (peers rf) / 2 < 1 + votes_for replies) /\
       (role rf' = Leader ->
          nextIndex rf' = replicate (peers rf) ((lastLogTermIndex rf).2 + 1) /\
          matchIndex rf' = <[Z.to_nat (me rf) := (lastLogTermIndex rf).2]> (zmake (peers rf)))) /\
    (~ no_higher_term (term rf + 1) replies -> 1 + votes_for replies <= Z.of_nat (peers rf) / 2 ->
       role rf' = Follower /\
       exists r, Some r ∈ replies /\ term rf + 1 < vr_Term r /\ term rf' = vr_Term r).
Proof.
  intros HnL Hme. unfold startElection.
  destruct (election_begin_candidate rnd rf HnL) as (r1 & -> & Hs1 & Ht1 & _ & Hro1 & _). cbn [mbind option_bind].
  set (args := mkVoteArgs _ _ _ _).
  destruct (election_replies_spec args replies rnd r1 1) as (r2 & -> & Hs2 & _ & Ht2 & Hro2 & Hno & Hlast & Hhi);
    [simpl; lia|]. cbn [mbind option_bind].
  assert (Hs : same_log rf r2) by (by transitivity r1). destruct Hs as (E1&E2&_&E4&E5&_&_&_).
  assert (Hll : lastLogTermIndex r2 = lastLogTermIndex rf) by (unfold lastLogTermIndex; by rewrite E4).
  destruct (election_end_spec (1 + votes_for replies) rnd r2) as (rf' & -> & Ht & Hlog & _ & _ & Hc & _ & _ & Hp & _ & Hcase);
    [by rewrite E1, E2|]. rewrite E1, E2, Hll in Hcase. rewrite E1. simpl in Ht2, Hno, Hlast, Hhi.
  assert (HnL2 : role r2 <> Leader) by (apply Hro2; by rewrite Hro1).
  exists rf'. eexists. split; [done|]. case_bool_decide as Hm; split_and!; try congruence; try tauto.
  - intros Hn. rewrite Ht, (Hno Hn). tauto.
  - lia.
  - destruct Hcase as [-> _]. split; [done|]. intros ?. done.
  - intros Hn. destruct Hcase as [-> _]. rewrite Ht, (Hno Hn). split_and!; [done| |]; rewrite Hro1; [|done].
    split; [done|lia].
  - intros Hn _. destruct (Hhi Hn) as [Hf Hgt]. destruct Hcase as [-> _]. split; [done|].
    destruct Hlast as [->|(_ & r & ? & ? & ?)]; [lia|]. exists r. split_and!; [done|lia|congruence].
Qed.


(** A log whose entries sit at their own index keeps that property when
    [AppendEntries] processes the consecutive entries after [PrevLogIndex],
    except in one case: the entries are accepted, there are some, and
    [PrevLogIndex] is not the last index of the log.  In that case, which a
    retransmission after a lost reply produces, the batch is appended a
    second time and the property is lost. *)
Theorem append_keeps_exact_iff (args : AppendEntriesArgs) (rnd : Z) (rf rf' : Raft) (reply : AppendEntriesReply) :
  log_exact (logEntries rf) -> 0 <= aa_PrevLogIndex args ->
  (forall j e, aa_Entries args !! j = Some e -> e_Index e = aa_PrevLogIndex args + 1 + Z.of_nat j) ->
  AppendEntries args rnd rf = Some (rf', reply) ->
  log_exact (logEntries rf') <->
  ar_Success reply = false \/ aa_Entries args = [] \/ aa_PrevLogIndex args = zlen (logEntries rf) - 1.
Proof.
  intros He Hp Hes Hap. assert (Ha : args_ok args).
  { split; [done|]. intros j e Hj. rewrite (Hes _ _ Hj). lia. }
  destruct (AppendEntries_spec args rnd rf (log_exact_shape _ He) Ha) as (r & rep & Hap' & _ & Ho).
  rewrite Hap in Hap'. injection Hap' as <- <-.
  destruct Ho as [? ? ? Hl ?|? Hps ? ?|? ? ? ? Href|? ? ? [Hlt _] ? Hl ?]; simpl.
  - rewrite Hl. tauto.
  - unfold pstate in Hps. injection Hps as _ _ ->. tauto.
  - split; [by left|]. intros _. destruct Href; [apply log_exact_take; [lia|done]..|done].
  - rewrite Hl. split.
    + intros [_ Hx]. right. destruct (aa_Entries args) as [|e es] eqn:Hents; [by left|right].
      pose proof (Hes 0%nat e eq_refl) as He0.
      rewrite (Hx (length (logEntries rf)) e) in He0 by (by rewrite lookup_app_r, Nat.sub_diag).
      unfold zlen. lia.
    + intros [?|[->|Heq]]; [done|by rewrite app_nil_r|].
      apply log_exact_app; [done|]. intros j e Hj. rewrite (Hes _ _ Hj). lia.
Qed.

(** After a call a leader steps down exactly if the reply shows a higher
    term; otherwise it records the position a same-term reply carries, never
    lowers [commitIndex], and raises it only after a successful append whose
    first entry is of its own term, to an index of its log that a majority of
    [matchIndex] reaches. *)
Theorem heartbeat_reply_correct (server : Z) (args : AppendEntriesArgs) (reply : AppendEntriesReply)
    (rnd : Z) (rf : Raft) :
  0 <= server < zlen (nextIndex rf) -> 0 <= server < zlen (matchIndex rf) -> 0 <= ar_NextIndex reply ->
  exists rf', heartbeat_reply server args reply rnd rf = Some rf' /\ heartbeat_frame rf rf' /\
    (term rf < ar_Term reply -> term rf' = ar_Term reply /\ role rf' = Follower) /\
    (ar_Term reply <= term rf -> term rf' = term rf /\ role rf' = role rf /\
       (1 <= ar_NextIndex reply -> progress server (ar_NextIndex reply) rf rf')) /\
    commitIndex rf <= commitIndex rf' /\
    (commitIndex rf < commitIndex rf' ->
       ar_Success reply = true /\ commitIndex rf' < zlen (logEntries rf) /\
       majority_at (commitIndex rf') rf' /\
       exists e es, aa_Entries args = e :: es /\ e_Term e = term rf).
Proof.
  intros Hn Hm Hr. destruct (heartbeat_reply_spec server args reply rnd rf Hn Hm Hr) as (rf' & -> & Hf & Hres).
  exists rf'. split; [done|]. split; [done|].
  destruct Hres as [(Hlt & Ht & Hro & Hc & _)|(Hge & Ht & Hro & Hp & Hc & Hup)].
  - rewrite Hc. split_and!; [done|lia|lia|lia].
  - split_and!; [lia| |done|intros; apply Hup; lia]. intros _. split_and!; [done|done|].
    destruct Hp as [[? _]|[_ ?]]; [lia|done].
Qed.

(** C31. [Start], undisturbed between its two critical sections, appends on a
    leader exactly one entry, of the current term and with the next index, acknowledges it in its own [matchIndex], saves
    the state and returns that index and term; on any other peer it changes
    nothing and says so. *)
Theorem start_correct (command : iface) (rf : Raft) :
  0 <= me rf < zlen (matchIndex rf) ->
  exists rf' index, Start command rf = Some (rf', (index, term rf, bool_decide (role rf = Leader))) /\
    (role rf <> Leader -> rf' = rf) /\
    (role rf = Leader -> index = (lastLogTermIndex rf).2 + 1 /\
       logEntries rf' = logEntries rf ++ [mkEntry (term rf) index command] /\
       lastLogTermIndex rf' = (term rf, index) /\ zidx (matchIndex rf') (me rf) = Some index /\
       raftstate (persister rf') = persist_data rf' /\ term rf' = term rf /\ commitIndex rf' = commitIndex rf).
Proof.
  intros Hme. unfold Start, GetState. case_bool_decide as Hr.
  - rewrite Start_locked_leader by done. do 2 eexists. split; [reflexivity|]. split; [done|]. intros _.
    simpl. split_and!; try done.
    + unfold lastLogTermIndex at 1. simpl. by rewrite last_snoc.
    + apply zidx_Some. rewrite zlen_insert. split; [done|]. apply list_lookup_insert_eq. unfold zlen in Hme. lia.
  - rewrite Start_locked_follower. do 2 eexists. split; [reflexivity|]. done.
Qed.

(** A peer restarted from the copy of the storage of a peer that has just
    saved its state has the same term, vote and log; on a first boot it has
    term 0, no vote and the placeholder entry.  Either way it is a follower
    that has committed and applied nothing. *)
Theorem restart_restores (n : nat) (i : Z) (rf : Raft) (rnd : Z) :
  pstate (Make n i (Copy (persister (persist rf))) rnd) = pstate rf /\
  pstate (Make n i MakePersister rnd) = (0, -1, [mkEntry 0 0 INil]) /\
  forall ps, role (Make n i ps rnd) = Follower /\ commitIndex (Make n i ps rnd) = 0 /\
    lastApplied (Make n i ps rnd) = 0 /\ applyCh (Make n i ps rnd) = [].
Proof.
  split_and!.
  - by apply Make_pstate_saved.
  - by apply Make_pstate_fresh.
  - intros ps. destruct (Make_frame n i ps rnd) as (_&_&_&?&?&?&?&_). done.
Qed.

(** C16. Replication converges.  A leader and a follower of the same term,
    whose logs hold every entry at its index and match wherever index and
    term agree, and where the leader's [nextIndex] for the follower is the
    length of the follower's log or lies past the leader's own log (as after
    an election, and after every round), exchange heartbeat rounds that are
    not lost.  After as many
    rounds as the follower has entries, plus one, the leader's log is a prefix
    of the follower's, and the leader's [nextIndex] and [matchIndex] for the
    follower point past and at its last entry. *)
Theorem replication_converges (server rnd : Z) (k : nat) (next : Z) (L F : Raft) :
  0 <= term L -> synced server next L F -> (length (logEntries F) + 1 <= k)%nat ->
  exists L' F', rounds server rnd k L F = Some (L', F') /\ logEntries L' = logEntries L /\
    term L' = term L /\ role L' = role L /\ replicated server L' F'.
Proof.
  intros Ht Hs Hk. apply rounds_converge with next; [done|done|].
  unfold still_to_do. case_decide; lia.
Qed.

End Handlers.

(** C28. [commitLog] implements the rule its comment quotes, as long as no entry
    of an earlier term above [commitIndex] is reached by a majority of
    [matchIndex]: it sets [commitIndex] to the largest N of the log with
    N > commitIndex, a majority of [matchIndex] at N or beyond and
    log[N].term = currentTerm, leaves it alone if there is none, and changes
    nothing else. *)
Theorem commit_log_correct (rf : Raft) :
  0 <= commitIndex rf ->
  (forall N e, commitIndex rf < N -> zidx (logEntries rf) N = Some e -> majority_at N rf -> e_Term e = term rf) ->
  (exists c, commitLog rf = set_commitIndex c rf /\ commit_rule rf c /\ forall N, commit_rule rf N -> N <= c) \/
  (commitLog rf = rf /\ forall N, ~ commit_rule rf N).
Proof.
  intros H0 Hold. destruct (commitLog_spec rf) as (c & -> & Hle & Hmax & Hor).
  assert (Hrule : forall N, commit_rule rf N -> N <= c).
  { intros N (Hlt & Hm & e & Hz & _). apply Hmax; [|done]. apply zidx_Some in Hz as [? _]. lia. }
  destruct Hor as [->|[Hr Hm]].
  - right. split; [by destruct rf|]. intros N HN. pose proof (Hrule N HN). destruct HN as [? _]. lia.
  - left. exists c. split_and!; [done| |done]. destruct (proj2 (zidx_is_Some (logEntries rf) c) ltac:(lia)) as [e Hz].
    split_and!; [lia|done|]. exists e. split; [done|]. apply (Hold c); [lia|done|done].
Qed.

(** [commitLog] does not look at the term of the entries it commits: with
    a majority for index 1, a leader of term 2 commits an entry of term 1. *)
Theorem commit_log_ignores_term :
  exists rf e, term rf = 2 /\ zidx (logEntries rf) (commitIndex (commitLog rf)) = Some e /\
    commitIndex rf < commitIndex (commitLog rf) /\ e_Term e < term rf.
Proof.
  exists (set_matchIndex [2; 1; 0] leader0), (mkEntry 1 1 (IInt 10)). by vm_compute.
Qed.

(** Whatever the timer was doing, [resetTimer] leaves it running with no
    stale expiry queued, set to fire after at least [ElectionTimeout] and
    before twice that, so after any RPC timeout or heartbeat interval. *)
Theorem election_timer_reset (timer : Timer) (r : Z) :
  timer_ok timer -> 0 <= r ->
  let timer' := (resetTimer timer ElectionTimeout r).2 in
  active timer' = true /\ chan timer' = false /\
  ElectionTimeout <= dur timer' < 2 * ElectionTimeout /\
  RPCTimeout < dur timer' /\ HeartbeatInterval < dur timer'.
Proof.
  intros Hok Hr. pose proof (randTimeout_bounds ElectionTimeout r ltac:(done) Hr) as Hb.
  rewrite resetTimer_spec by done. cbn [active chan dur].
  unfold RPCTimeout, HeartbeatInterval, ElectionTimeout, Millisecond in *. split_and!; (done || lia).
Qed.

(** The persister implements two storage cells: after any sequence of
    saves and copies each cell reads back the last value written to it. *)
Theorem persister_cells (ops : list PersisterOp) :
  ReadRaftState (fold_left persister_exec ops MakePersister) = last_state [] ops /\
  ReadSnapshot (fold_left persister_exec ops MakePersister) = last_snapshot [] ops /\
  RaftStateSize (fold_left persister_exec ops MakePersister) = zlen (last_state [] ops) /\
  SnapshotSize (fold_left persister_exec ops MakePersister) = zlen (last_snapshot [] ops).
Proof.
  unfold ReadRaftState, ReadSnapshot, RaftStateSize, SnapshotSize.
  rewrite persister_exec_cells. done.
Qed.

(** ** Instances *)

Lemma start_election_correct_witness :
  (exists rf', startElection (H := Wire.gob_wire) [Some (mkVoteReply 0 true); None] 0 peer1 = Some (rf', true) /\
    role rf' = Leader /\ term rf' = 1) /\
  exists rf', startElection (H := Wire.gob_wire) [Some (mkVoteReply 5 false); None] 0 peer1 = Some (rf', false) /\
    role rf' = Follower /\ term rf' = 5.
Proof.
  split.
  - destruct (start_election_correct (H := Wire.gob_wire) [Some (mkVoteReply 0 true); None] 0 peer1)
      as (rf' & succ & He & _ & _ & _ & Hs & Hl & _); [by vm_compute|by vm_compute|].
    destruct Hl as (Ht & Hl & _); [repeat constructor; by vm_compute|].
    assert (HL : role rf' = Leader) by (apply Hl; by vm_compute).
    exists rf'. split; [|by split]. rewrite He. by rewrite (proj2 Hs HL).
  - destruct (start_election_correct (H := Wire.gob_wire) [Some (mkVoteReply 5 false); None] 0 peer1)
      as (rf' & succ & He & _ & _ & _ & Hs & _ & Hl); [by vm_compute|by vm_compute|].
    destruct Hl as (Hf & r & Hr & _ & Ht); [by intros [Hx _]%Forall_cons_1; vm_compute in Hx|by vm_compute|].
    exists rf'. split_and!; [|exact Hf|].
    + rewrite He. destruct succ; [|done]. destruct (proj1 Hs eq_refl). by rewrite Hf in Hs; destruct Hs as [Hs _]; specialize (Hs eq_refl).
    + rewrite Ht. apply elem_of_cons in Hr as [[= ->]|Hr]; [done|].
      apply elem_of_cons in Hr as [?|Hr]; [done|]. by apply not_elem_of_nil in Hr.
Defined.

Definition batch : AppendEntriesArgs := mkAppendArgs 0 0 0 0 [mkEntry 0 1 (IInt 5)] 0.

Lemma batch_entries j e : aa_Entries batch !! j = Some e -> e_Index e = aa_PrevLogIndex batch + 1 + Z.of_nat j.
Proof. destruct j as [|j]; simpl; [by intros [= <-]|done]. Qed.



(** The second copy of a batch breaks the log. *)
Lemma append_keeps_exact_iff_witness :
  exists rf' reply rf'' reply', AppendEntries (H := Wire.gob_wire) batch 0 peer1 = Some (rf', reply) /\
    AppendEntries (H := Wire.gob_wire) batch 0 rf' = Some (rf'', reply') /\
    log_exact (logEntries rf') /\ ~ log_exact (logEntries rf'').
Proof.
  assert (H1 : log_exact (logEntries peer1)).
  { split; [done|]. intros [|[|i]] e; simpl; [by intros [= <-]|done|done]. }
  destruct (AppendEntries (H := Wire.gob_wire) batch 0 peer1) as [[rf' reply]|] eqn:E1; [|by vm_compute in E1].
  assert (H2 : log_exact (logEntries rf')).
  { apply (append_keeps_exact_iff (H := Wire.gob_wire) batch 0 peer1 rf' reply H1 ltac:(done) batch_entries E1).
    right. right. done. }
  destruct (AppendEntries (H := Wire.gob_wire) batch 0 rf') as [[rf'' reply']|] eqn:E2.
  2:{ exfalso. vm_compute in E1. injection E1 as <- <-. by vm_compute in E2. }
  exists rf', reply, rf'', reply'. split_and!; try done.
  intros H3. apply (append_keeps_exact_iff (H := Wire.gob_wire) batch 0 rf' rf'' reply' H2 ltac:(done) batch_entries E2) in H3.
  vm_compute in E1. injection E1 as <- <-. vm_compute in E2. injection E2 as <- <-. naive_solver.
Defined.

Lemma heartbeat_reply_correct_witness :
  exists rf', heartbeat_reply (H := Wire.gob_wire) 1 batch (mkAppendReply 3 false 0) 0 leader0 = Some rf' /\
    role rf' = Follower.
Proof.
  destruct (heartbeat_reply_correct (H := Wire.gob_wire) 1 batch (mkAppendReply 3 false 0) 0 leader0)
    as (rf' & He & _ & Hs & _); [by vm_compute..|].
  exists rf'. split; [done|]. by apply Hs.
Defined.

Lemma start_correct_witness :
  exists rf', Start (H := Wire.gob_wire) (IInt 30) leader0 = Some (rf', (3, 2, true)).
Proof.
  destruct (start_correct (H := Wire.gob_wire) (IInt 30) leader0) as (rf' & index & Hs & _ & Hl);
    [by vm_compute|]. destruct (Hl eq_refl) as [-> _]. exists rf'. exact Hs.
Defined.

Lemma election_timer_reset_witness :
  ElectionTimeout <= dur (resetTimer (mkTimer false true 0) ElectionTimeout 123).2.
Proof. apply (election_timer_reset (mkTimer false true 0) 123); [by intros [? _]|done]. Defined.

(** A leader of term 2 whose entry of term 1 is committed commits the next. *)
Lemma commit_log_correct_witness :
  commitIndex (commitLog (set_commitIndex 1 (set_matchIndex [2; 2; 0] leader0))) = 2.
Proof.
  destruct (commit_log_correct (set_commitIndex 1 (set_matchIndex [2; 2; 0] leader0))) as
    [(c & Hc & Hr & Hmax)|[_ Hno]].
  - done.
  - intros N e Hlt Hz _. apply zidx_Some in Hz as [Hr Hz].
    assert (N = 2) as -> by (change (1 < N) in Hlt; change (0 <= N < 3) in Hr; lia). vm_compute in Hz. by injection Hz as <-.
  - rewrite Hc. simpl. assert (2 <= c) by (apply Hmax; split_and!; [done|by vm_compute|by eexists]).
    destruct Hr as (_ & _ & e & Hz & _). apply zidx_Some in Hz as [Hr _].
    change (0 <= c < 3) in Hr. lia.
  - exfalso. apply (Hno 2). split_and!; [done|by vm_compute|by eexists].
Defined.

(** A follower with two conflicting entries catches up. *)
Lemma replication_converges_witness :
  exists L' F', rounds (H := Wire.gob_wire) 1 0 5 leader0 stale1 = Some (L', F') /\
    logEntries leader0 `prefix_of` logEntries F'.
Proof.
  destruct (replication_converges (H := Wire.gob_wire) 1 0 5 3 leader0 stale1) as (L' & F' & Hr & Hl & _ & _ & Hp & _).
  - done.
  - constructor; try by vm_compute.
    + split; split; try done; intros [|[|[|[|i]]]] e; simpl; by intros [= <-] || done.
    + intros [|[|[|[|i]]]] e f; simpl; intros; simplify_eq/=; done.
    + by right; vm_compute.
  - simpl. lia.
  - exists L', F'. split; [done|]. by rewrite <-Hl.
Defined.
