(* ===== verification/ClusterProps.v ===== *)
(** * Properties of the whole cluster

    What holds of every execution of [Cluster], what holds of the clean ones,
    and computed executions that show what the excluded events can do.  The
    concrete executions run on the gob wire format of [GobWire]. *)

From S2P Require Import Prelude Timer Gob GobWire Persister Raft Vote Entry Cluster ClusterInv Election Steady.

(** ** Executions *)

Section Exec.
Context `{GobCodec}.
Variable n : nat.

Lemma exec_reachable evs c c' : reachable n c -> exec n evs c = Ok c' -> reachable n c'.
Proof.
  revert c. induction evs as [|ev evs IH]; intros c Hr He; simpl in He; [by injection He as <-|].
  destruct (cstep n ev c) as [| |c1] eqn:Hc; try done. eapply IH; [|done]. by eapply reach_step.
Qed.

(** All events of a run are clean. *)
Fixpoint clean_run (evs : list Event) (c : Cluster) : bool :=
  match evs with
  | [] => true
  | ev :: evs => clean n ev c && match cstep n ev c with Ok c' => clean_run evs c' | _ => true end
  end.

Lemma exec_clean evs c c' :
  clean_reachable n c -> clean_run evs c = true -> exec n evs c = Ok c' -> clean_reachable n c'.
Proof.
  revert c. induction evs as [|ev evs IH]; intros c Hr Hcl He; simpl in *; [by injection He as <-|].
  apply andb_true_iff in Hcl as [Hcl Hrest]. destruct (cstep n ev c) as [| |c1] eqn:Hc; try done.
  eapply IH; [|done|done]. by eapply clean_step.
Qed.

(** No event of a run makes a peer forget the vote it cast for itself. *)
Fixpoint loyal_run (evs : list Event) (c : Cluster) : bool :=
  match evs with
  | [] => true
  | ev :: evs => loyal ev c && match cstep n ev c with Ok c' => loyal_run evs c' | _ => true end
  end.

Lemma exec_loyal evs c c' :
  loyal_reachable n c -> loyal_run evs c = true -> exec n evs c = Ok c' -> loyal_reachable n c'.
Proof.
  revert c. induction evs as [|ev evs IH]; intros c Hr Hcl He; simpl in *; [by injection He as <-|].
  apply andb_true_iff in Hcl as [Hcl Hrest]. destruct (cstep n ev c) as [| |c1] eqn:Hc; try done.
  eapply IH; [|done|done]. by eapply loyal_step.
Qed.

(** ** Storage over time *)

Lemma node_step ev c c' i nd :
  reachable n c -> cstep n ev c = Ok c' -> nodes c !! i = Some nd ->
  exists nd', nodes c' !! i = Some nd' /\ (nsaved nd).1.1 <= (nsaved nd').1.1.
Proof.
  intros Hr Hc Hi. pose proof (reachable_ok n _ Hr) as Hco. destruct (cstep_cases n _ _ _ Hc) as
    [(k & _ & ->)|(j & ndj & lev & eff & c0 & Hj & Hl & -> & E1 & _ & _ & _ & _ & Hdel & _)]; [eauto with lia|].
  destruct (decide (j = i)) as [->|Hne].
  - rewrite Hi in Hj. injection Hj as <-. exists (ef_node eff).
    split; [eapply node_after_eq; by rewrite E1|]. apply saved_le_term.
    apply (votes_local n i (next_id c) lev nd eff (co_nodes _ _ Hco _ _ Hi)); [|done].
    intros m rnd Heq. apply (co_net _ _ Hco), (Hdel _ _ Heq).
  - exists nd. rewrite node_after_ne, E1 by done. eauto with lia.
Qed.

Lemma node_exec evs c c' i nd :
  reachable n c -> exec n evs c = Ok c' -> nodes c !! i = Some nd ->
  exists nd', nodes c' !! i = Some nd' /\ (nsaved nd).1.1 <= (nsaved nd').1.1.
Proof.
  revert c nd. induction evs as [|ev evs IH]; intros c nd Hr He Hi; simpl in He.
  { injection He as <-. eauto with lia. }
  destruct (cstep n ev c) as [| |c1] eqn:Hc; try done.
  destruct (node_step _ _ _ _ _ Hr Hc Hi) as (nd1 & Hi1 & Hle).
  destruct (IH c1 nd1) as (nd' & Hi' & Hle'); [by eapply reach_step|done|done|]. exists nd'. split; [done|lia].
Qed.

(** Outside elections storage is up to date. *)
Lemma nsaved_idle i nd : node_ok n i nd -> campaigning nd = false -> nsaved nd = pstate (raft nd).
Proof.
  intros Hok Hc. pose proof (no_lock _ _ _ Hok) as Hl. unfold lock_ok, campaigning, nsaved in *.
  destruct (lock nd) as [[? ? ? ? ?|? ? ?]|]; [done|apply Hl|done].
Qed.

(** Memory is never behind storage. *)
Lemma saved_le_memory i nd : node_ok n i nd -> (nsaved nd).1.1 <= term (raft nd).
Proof.
  intros Hok. pose proof (no_lock _ _ _ Hok) as Hl. unfold lock_ok, nsaved in *.
  destruct (lock nd) as [[? ? ? ? ?|? ? ?]|].
  - destruct Hl as (_&_&?&?&_). lia.
  - destruct Hl as [-> _]. simpl. lia.
  - rewrite Hl. simpl. lia.
Qed.

(** ** Releasing the mutex *)

Lemma filter_ne_id (s : nat) (w : list nat) : s ∉ w -> filter (fun j => j <> s) w = w.
Proof.
  induction w as [|x w IH]; [done|]. intros [Hne Hin]%not_elem_of_cons.
  rewrite filter_cons_True by done. by rewrite IH.
Qed.

(** The events that end the call a peer waits for, when the network gives
    no more answers: every outstanding call times out. *)
Definition timeouts (i : nat) (nd : Node) : list Event :=
  match lock nd with
  | None => []
  | Some (OpHeartbeat _ s _) => [EvLocal i (LCallFail s 0)]
  | Some (OpElection _ _ _ waiting _) =>
      map (fun s => EvLocal i (LCallFail s 0)) waiting ++ [EvLocal i (LElectionEnd 0)]
  end.

Lemma local_step_eq c i lev nd eff :
  nodes c !! i = Some nd -> is_deliver lev = false -> local n i (next_id c) lev nd = Ok eff ->
  cstep n (EvLocal i lev) c = Ok (apply_effect i eff c) /\
  nodes (apply_effect i eff c) !! i = Some (ef_node eff).
Proof.
  intros Hi Hd Hl. split; [|by eapply node_after_eq]. unfold cstep. rewrite Hd, Hi. simpl. by rewrite Hl.
Qed.

Lemma election_end_exec c i nd id args vc vs :
  reachable n c -> nodes c !! i = Some nd -> lock nd = Some (OpElection id args vc [] vs) ->
  exists c' nd', exec n [EvLocal i (LElectionEnd 0)] c = Ok c' /\ nodes c' !! i = Some nd' /\ lock nd' = None.
Proof.
  intros Hr Hi Hlk. pose proof (co_nodes _ _ (reachable_ok n _ Hr) _ _ Hi) as Hok.
  pose proof (good_local n i (next_id c) (LElectionEnd 0) nd Hok ltac:(done) eq_refl) as Hg.
  destruct (local n i (next_id c) (LElectionEnd 0) nd) as [| |eff] eqn:Hl; [|done|].
  { simpl in Hl. unfold local_election_end in Hl. rewrite Hlk in Hl.
    destruct (election_end _ _ _) as [[rf []]|]; done. }
  destruct (local_step_eq c i (LElectionEnd 0) nd eff Hi eq_refl Hl) as [Hc Hi'].
  exists (apply_effect i eff c), (ef_node eff). cbn [exec]. rewrite Hc. split_and!; try done.
  simpl in Hl. unfold local_election_end in Hl. rewrite Hlk in Hl.
  destruct (election_end _ _ _) as [[rf []]|]; simplify_eq/=; done.
Qed.

Lemma call_fail_election c i nd id args vc s w vs :
  nodes c !! i = Some nd -> lock nd = Some (OpElection id args vc (s :: w) vs) -> NoDup (s :: w) ->
  exists c' nd', cstep n (EvLocal i (LCallFail s 0)) c = Ok c' /\ nodes c' !! i = Some nd' /\
    lock nd' = Some (OpElection id args vc w vs).
Proof.
  intros Hi Hlk [Hs Hnd]%NoDup_cons.
  set (nd' := set_lock (Some (OpElection id args vc (filter (fun j => j <> s) (s :: w)) vs)) nd).
  destruct (local_step_eq c i (LCallFail s 0) nd (quiet nd') Hi eq_refl) as [Hc Hi'].
  { simpl. unfold local_call_fail. rewrite Hlk, bool_decide_true by (by constructor). done. }
  eexists _, nd'. split_and!; [done|done|]. unfold nd'. cbn [lock set_lock]. do 2 f_equal.
  rewrite filter_cons_False by (by intros ?). by apply filter_ne_id.
Qed.

Lemma election_exec w : forall c i nd id args vc vs,
  reachable n c -> nodes c !! i = Some nd -> lock nd = Some (OpElection id args vc w vs) -> NoDup w ->
  exists c' nd', exec n (map (fun s => EvLocal i (LCallFail s 0)) w ++ [EvLocal i (LElectionEnd 0)]) c = Ok c' /\
    nodes c' !! i = Some nd' /\ lock nd' = None.
Proof.
  induction w as [|s w IH]; intros c i nd id args vc vs Hr Hi Hlk Hnd.
  { by eapply election_end_exec. }
  destruct (call_fail_election _ _ _ _ _ _ _ _ _ Hi Hlk Hnd) as (c1 & nd1 & Hc & Hi1 & Hlk1).
  destruct (IH c1 i nd1 id args vc vs) as (c' & nd' & He & ?); try done; [by eapply reach_step|by apply NoDup_cons in Hnd as []|].
  exists c', nd'. cbn [map app exec]. rewrite Hc. split; [exact He|done].
Qed.

Lemma heartbeat_exec c i nd id s a :
  reachable n c -> nodes c !! i = Some nd -> lock nd = Some (OpHeartbeat id s a) ->
  exists c' nd', exec n [EvLocal i (LCallFail s 0)] c = Ok c' /\ nodes c' !! i = Some nd' /\ lock nd' = None.
Proof.
  intros Hr Hi Hlk. pose proof (co_nodes _ _ (reachable_ok n _ Hr) _ _ Hi) as Hok.
  pose proof (good_local n i (next_id c) (LCallFail s 0) nd Hok ltac:(done) eq_refl) as Hg.
  destruct (local n i (next_id c) (LCallFail s 0) nd) as [| |eff] eqn:Hl; [|done|].
  { simpl in Hl. unfold local_call_fail in Hl. rewrite Hlk, bool_decide_true in Hl by done.
    simpl in Hl. by destruct (heartbeat_reply _ _ _ _ _). }
  destruct (local_step_eq c i (LCallFail s 0) nd eff Hi eq_refl Hl) as [Hc Hi'].
  exists (apply_effect i eff c), (ef_node eff). cbn [exec]. rewrite Hc. split_and!; try done.
  simpl in Hl. unfold local_call_fail in Hl. rewrite Hlk, bool_decide_true in Hl by done.
  simpl in Hl. destruct (heartbeat_reply _ _ _ _ _); simplify_eq/=; done.
Qed.

End Exec.

(** ** Concrete executions *)

(** Draw 0 for every first timer. *)
Definition start_of (n : nat) : Cluster := init (H := Wire.gob_wire) n (fun _ => 0).

Definition runs (n : nat) (evs : list Event) : Outcome Cluster :=
  exec (H := Wire.gob_wire) n evs (start_of n).

(** The messages in flight, oldest first, [k] times. *)
Definition deliver (k : nat) : list Event := replicate k (EvDeliver 0 0).

(** Peer [i] of [n] campaigns and everyone answers. *)
Definition elect (n i : nat) : list Event :=
  [EvLocal i LTimer; EvLocal i (LElection 0)] ++ deliver (2 * (n - 1)) ++
  [EvLocal i (LElectionEnd 0); EvLocal i LElectionWon].

(** A client command at peer [i]. *)
Definition start (i : nat) (cmd : iface) : list Event := [EvLocal i (LStartRead cmd); EvLocal i (LStart 0)].

(** The next heartbeat of peer [i]: answered, answered but with the reply to
    [s] lost, lost on the way to [s], or to itself. *)
Definition beat (i : nat) : list Event := EvLocal i (LBeatH 0) :: deliver 2.
Definition beat_lost (i s : nat) : list Event :=
  [EvLocal i (LBeatH 0); EvDeliver 0 0; EvLocal i (LCallFail s 0); EvDrop 0].
Definition beat_drop (i s : nat) : list Event := [EvLocal i (LBeatH 0); EvDrop 0; EvLocal i (LCallFail s 0)].
Definition beat_self (i : nat) : list Event := [EvLocal i (LBeatH 0)].
Definition tick (i : nat) : list Event := [EvLocal i LBeatTick].

(** The reply to the first replication of 10 to peer 1 is lost, so it is sent
    again; then 20 is replicated. *)
Definition retransmission : list Event :=
  elect 3 0 ++ start 0 (IInt 10) ++ tick 0 ++ beat_self 0 ++ beat_lost 0 1 ++ beat 0 ++
  tick 0 ++ beat_self 0 ++ beat 0 ++ beat 0 ++ start 0 (IInt 20) ++
  tick 0 ++ beat_self 0 ++ beat 0 ++ beat 0 ++ tick 0 ++ beat_self 0 ++ beat 0 ++ beat 0 ++
  [EvLocal 0 LApply; EvLocal 0 LApply; EvLocal 1 LApply; EvLocal 1 LApply].

(** The same among five peers; 20 reaches peer 2 only, is committed with the
    help of the bogus [matchIndex] of peer 1, and peer 3 is elected. *)
Definition lost_commit : list Event :=
  elect 5 0 ++ start 0 (IInt 10) ++
  tick 0 ++ beat_self 0 ++ beat_lost 0 1 ++ beat 0 ++ beat 0 ++ beat 0 ++
  tick 0 ++ beat_self 0 ++ beat 0 ++ beat 0 ++ beat 0 ++ beat 0 ++ start 0 (IInt 20) ++
  tick 0 ++ beat_self 0 ++ beat 0 ++ beat 0 ++ beat_drop 0 3 ++ beat_drop 0 4 ++
  tick 0 ++ beat_self 0 ++ beat 0 ++ elect 5 3 ++ start 3 (IInt 30) ++
  tick 3 ++ beat_drop 3 0 ++ beat 3 ++ [EvLocal 1 LApply].

(** Peer 4 loses an election, then campaigns for term 2; peer 0 hears of term
    2 in a reply, wins the votes of term 1 and calls itself leader of term 2. *)
Definition late_win : list Event :=
  [EvLocal 4 LTimer; EvLocal 4 (LElection 0); EvDrop 0; EvDrop 0; EvDrop 0; EvDrop 0] ++
  map (fun s => EvLocal 4 (LCallFail s 0)) [0; 1; 2; 3]%nat ++
  [EvLocal 4 (LElectionEnd 0); EvLocal 4 (LElectionFailed 0);
   EvLocal 4 LTimer; EvLocal 4 (LElection 0); EvDeliver 3 0;
   EvLocal 0 LTimer; EvLocal 0 (LElection 0); EvDeliver 4 0; EvDeliver 4 0; EvDeliver 4 0;
   EvDeliver 5 0; EvDeliver 5 0; EvDeliver 5 0; EvLocal 0 (LCallFail 4 0); EvLocal 0 (LElectionEnd 0);
   EvDeliver 1 0; EvDeliver 1 0; EvDeliver 1 0; EvDeliver 2 0; EvDeliver 2 0;
   EvLocal 4 (LCallFail 0 0); EvLocal 4 (LElectionEnd 0)].

(** Peer 0 wins term 1 with peer 1's vote, crashes, and votes for peer 2. *)
Definition forgetful_leader : list Event :=
  [EvLocal 2 LTimer; EvLocal 2 (LElection 0); EvLocal 0 LTimer; EvLocal 0 (LElection 0);
   EvDeliver 2 0; EvDeliver 3 0; EvLocal 0 (LCallFail 2 0); EvLocal 0 (LElectionEnd 0);
   EvLocal 0 (LCrash 0); EvDeliver 0 0; EvDeliver 2 0; EvLocal 2 (LCallFail 1 0); EvLocal 2 (LElectionEnd 0)].

(** Peer 0 is deposed by peer 1 between two heartbeats of one round. *)
Definition deposed_beat : list Event := elect 3 0 ++ tick 0 ++ beat_self 0 ++ elect 3 1 ++ beat_self 0.

(** The peers that take themselves for the leader of term [t]. *)
Definition leads (t : Z) (c : Cluster) (i : nat) : bool :=
  match nodes c !! i with
  | Some nd => bool_decide (role (raft nd) = Leader) && (term (raft nd) =? t)
  | None => false
  end.
Definition leaders (t : Z) (c : Cluster) : list nat := List.filter (leads t c) (seq 0 (length (nodes c))).

(** The commands peer [i] has applied, oldest first. *)
Definition applied (c : Cluster) (i : nat) : list iface :=
  match nodes c !! i with Some nd => Command <$> applyCh (raft nd) | None => [] end.

(** ** All executions *)

Section Properties.
Context `{GobCodec}.
Variable n : nat.

(** C1. Election safety.  In an execution in which no leader is demoted by
    its own timer, no leader crashes and no election is won in a term the
    candidate did not campaign for, two peers that are leaders at the same
    time in the same term are the same peer, and so are two peers that won
    the same term at any time, whatever the network loses, delays or
    reorders and whoever else crashes. *)
Theorem election_safety (c : Cluster) (i j : nat) (t : Z) :
  clean_reachable n c ->
  (leads t c i = true -> leads t c j = true -> i = j) /\
  (forall V W, (i, t, V) ∈ won c -> (j, t, W) ∈ won c -> i = j).
Proof.
  intros Hr. split; [|intros V W; by apply (clean_one_winner n c)].
  assert (Hw : forall k, leads t c k = true -> exists V, (k, t, V) ∈ won c).
  { intros k Hk. unfold leads in Hk. destruct (nodes c !! k) as [nd|] eqn:E; [|done].
    bool_to_prop. subst t. by apply (wo_leader _ _ (clean_wins n c Hr)). }
  intros [V Hi]%Hw [W Hj]%Hw. by apply (clean_one_winner n c i j t V W).
Qed.

(** C6. One vote per term, the vote a candidate casts for itself counted.
    In an execution in which no leader is demoted by its own timer and no
    peer crashes while it leads or campaigns, no peer votes for two
    candidates in the same term.  In any execution at all (crashes at any
    moment, deposed leaders, lost or reordered messages) a peer that votes
    twice in a term does so for itself and one other: it never grants the
    votes of one term to two other candidates. *)
Theorem vote_once (c : Cluster) (v k k' : nat) (t : Z) :
  (v, t, k) ∈ granted c -> (v, t, k') ∈ granted c ->
  (loyal_reachable n c -> k = k') /\
  (reachable n c -> k <> v -> k' <> v -> k = k').
Proof.
  intros Hk Hk'. split; [|intros Hr; by apply (vo_once _ (reachable_votes n c Hr) v t)].
  intros Hr. destruct (decide (k = v)) as [->|Hv]; [symmetry; by eapply (loyal_vote_once n c)|].
  destruct (decide (k' = v)) as [->|Hv']; [by eapply (loyal_vote_once n c)|].
  by apply (vo_once _ (reachable_votes n c (loyal_reachable_reachable n c Hr)) v t).
Qed.

(** C19. Every election won, in any execution, was won with the votes of a
    majority of distinct peers: the winner and peers that granted it their
    vote for the term it campaigned for, which is the term it now leads
    unless a reply has raised it. *)
Theorem win_has_quorum (c : Cluster) (i : nat) (nd : Node) (id : nat) (args : RequestVoteArgs)
    (vc : Z) (vs : list nat) (rnd : Z) (c' : Cluster) (V : list nat) (t : Z) :
  reachable n c -> nodes c !! i = Some nd -> lock nd = Some (OpElection id args vc [] vs) ->
  cstep n (EvLocal i (LElectionEnd rnd)) c = Ok c' -> won c' = won c ++ [(i, t, V)] ->
  NoDup V /\ (n < 2 * length V)%nat /\ va_Term args <= t /\
  forall v, v ∈ V -> (v < n)%nat /\ (v = i \/ (v, va_Term args, i) ∈ granted c).
Proof.
  intros Hr Hi Hlk Hc Hwon. pose proof (reachable_ok n _ Hr) as Hco.
  pose proof (co_nodes _ _ Hco _ _ Hi) as Hok. unfold cstep in Hc. rewrite Hi in Hc. simpl in Hc.
  destruct (local_election_end i rnd nd) as [| |eff] eqn:Hl; try done. injection Hc as <-.
  simpl in Hwon. apply app_inv_head in Hwon.
  assert (Hin : (i, t, V) ∈ ef_won eff) by (rewrite Hwon; by constructor).
  destruct (local_won n i (next_id c) (LElectionEnd rnd) nd eff i t V Hok Hl Hin) as
    (_ & rnd' & id' & args' & vc' & vs' & _ & Hlk' & -> & -> & Hmaj & _).
  rewrite Hlk in Hlk'. injection Hlk' as <- <- <- <-.
  destruct (new_win_quorum n c i nd id args vc vs Hco (reachable_ballots n c Hr) Hi Hlk Hmaj) as (?&?&?&?).
  pose proof (no_lock _ _ _ Hok) as Hlo. unfold lock_ok in Hlo. rewrite Hlk in Hlo.
  destruct Hlo as (_&_&_&?&_). split_and!; try done. intros v Hv. auto.
Qed.

(** C18. Terms never decrease between elections.  Take a peer that is not in
    the middle of an election.  Whatever events follow, its crashes and
    restarts, elections it starts and elections it loses included, its term
    never falls below the one it has now.  And at every moment, elections
    included, the term on its stable storage never decreases.  (In the middle
    of an election the term in memory may be ahead of storage and fall back,
    by a crash or by a reply.) *)
Theorem term_monotone (c : Cluster) (evs : list Event) (c' : Cluster) (i : nat) (nd : Node) :
  reachable n c -> exec n evs c = Ok c' -> nodes c !! i = Some nd ->
  exists nd', nodes c' !! i = Some nd' /\
    (saved (persister (raft nd))).1.1 <= (saved (persister (raft nd'))).1.1 /\
    (campaigning nd = false -> term (raft nd) <= term (raft nd')).
Proof.
  intros Hr He Hi. destruct (node_exec n _ _ _ _ _ Hr He Hi) as (nd' & Hi' & Hle).
  exists nd'. split_and!; [done|done|]. intros Hcm.
  pose proof (co_nodes _ _ (reachable_ok n _ Hr) _ _ Hi) as Hok.
  pose proof (co_nodes _ _ (reachable_ok n _ (exec_reachable n _ _ _ Hr He)) _ _ Hi') as Hok'.
  rewrite (nsaved_idle n i nd Hok Hcm) in Hle.
  pose proof (saved_le_memory n i nd' Hok'). unfold pstate in Hle. cbn [fst] in Hle. lia.
Qed.

(** A restart comes up with what is on stable storage. *)
Lemma crash_step (c : Cluster) (i : nat) (nd : Node) (rnd : Z) :
  nodes c !! i = Some nd ->
  exists c' nd', cstep n (EvLocal i (LCrash rnd)) c = Ok c' /\ nodes c' !! i = Some nd' /\
    (forall j, j <> i -> nodes c' !! j = nodes c !! j) /\ net c' = net c /\
    lock nd' = None /\ role (raft nd') = Follower /\ commitIndex (raft nd') = 0 /\ applyCh (raft nd') = [] /\
    pstate (raft nd') = saved (persister (raft nd)).
Proof.
  intros Hi. set (rf' := Make n (Z.of_nat i) (restart_persister (persister (raft nd))) rnd).
  destruct (local_step_eq n c i (LCrash rnd) nd (quiet (fresh_node rf')) Hi eq_refl eq_refl) as [Hc Hi'].
  exists (apply_effect i (quiet (fresh_node rf')) c), (fresh_node rf').
  destruct (Make_frame n (Z.of_nat i) (restart_persister (persister (raft nd))) rnd)
    as (_&_&_&Hro&Hci&_&Hac&_).
  split_and!; try done.
  - intros j Hj. by rewrite node_after_ne.
  - simpl. by rewrite app_nil_r.
  - cbn [fresh_node raft]. unfold rf'. by rewrite Make_saved, saved_restart.
Qed.

(** C12. Crash recovery.  A peer that the tester crashes and restarts while it
    is not in the middle of an election (it may be waiting for the reply to
    a heartbeat) comes up as a follower that has committed and applied
    nothing, with exactly the term, the vote and the log it had in memory;
    the other peers and the messages in flight are untouched. *)
Theorem crash_recovery (c : Cluster) (i : nat) (nd : Node) (rnd : Z) :
  reachable n c -> nodes c !! i = Some nd -> campaigning nd = false ->
  exists c' nd', cstep n (EvLocal i (LCrash rnd)) c = Ok c' /\ nodes c' !! i = Some nd' /\
    (forall j, j <> i -> nodes c' !! j = nodes c !! j) /\ net c' = net c /\
    lock nd' = None /\ role (raft nd') = Follower /\ commitIndex (raft nd') = 0 /\ applyCh (raft nd') = [] /\
    logEntries (raft nd') = logEntries (raft nd) /\
    term (raft nd') = term (raft nd) /\ votedFor (raft nd') = votedFor (raft nd).
Proof.
  intros Hr Hi Hcm. pose proof (co_nodes _ _ (reachable_ok n _ Hr) _ _ Hi) as Hok.
  destruct (crash_step c i nd rnd Hi) as (c' & nd' & ? & ? & ? & ? & ? & ? & ? & ? & Hp).
  exists c', nd'. pose proof (nsaved_idle n i nd Hok Hcm) as Hs. unfold nsaved in Hs. rewrite Hs in Hp.
  unfold pstate in Hp. injection Hp as ? ? ?. by split_and!.
Qed.

(** A crash in the middle of an election falls back to the term before it:
    [startElection] saves its new term and vote only when it returns. *)
Lemma crash_in_election (c : Cluster) (i : nat) (nd : Node) (rnd : Z) id args vc w vs :
  reachable n c -> nodes c !! i = Some nd -> lock nd = Some (OpElection id args vc w vs) ->
  exists c' nd', cstep n (EvLocal i (LCrash rnd)) c = Ok c' /\ nodes c' !! i = Some nd' /\
    logEntries (raft nd') = logEntries (raft nd) /\ term (raft nd') = va_Term args - 1.
Proof.
  intros Hr Hi Hlk. pose proof (no_lock _ _ _ (co_nodes _ _ (reachable_ok n _ Hr) _ _ Hi)) as Hl.
  unfold lock_ok in Hl. rewrite Hlk in Hl. destruct Hl as (<- & _ & -> & _).
  destruct (crash_step c i nd rnd Hi) as (c' & nd' & ? & ? & _ & _ & _ & _ & _ & _ & Hp).
  exists c', nd'. rewrite <-Hp. split_and!; [done..|]. simpl. lia.
Qed.

(** Only the apply loop can panic. *)
Lemma panic_in_apply (c : Cluster) (ev : Event) :
  reachable n c -> cstep n ev c = Panic ->
  exists i nd, ev = EvLocal i LApply /\ nodes c !! i = Some nd /\ lock nd = None /\
    lastApplied (raft nd) < commitIndex (raft nd) /\ zlen (logEntries (raft nd)) <= lastApplied (raft nd) + 1.
Proof.
  intros Hr Hc. pose proof (reachable_ok n _ Hr) as Hco.
  destruct ev as [i lev|k rnd|k]; unfold cstep in Hc.
  - destruct (is_deliver lev) eqn:Hd; [done|]. simpl in Hc.
    destruct (nodes c !! i) as [nd|] eqn:Hi; [|done]. cbn [mbind Outcome_bind enabled] in Hc.
    pose proof (co_nodes _ _ Hco _ _ Hi) as Hok.
    destruct (is_apply lev) eqn:Ha.
    + destruct lev; try done. exists i, nd. simpl in Hc. destruct (is_free nd) eqn:Hf; [|done]. simpl in Hc.
      apply is_free_lock in Hf. unfold applyLoop in Hc.
      destruct (_ <? _) eqn:Hlt; [|done]. simpl in Hc.
      destruct (zidx _ _) as [e|] eqn:Hz; [done|]. bool_to_prop.
      destruct (ro_applied _ _ _ (no_raft _ _ _ Hok)) as [Hla _].
      apply zidx_None in Hz. split_and!; try done. lia.
    + pose proof (good_local n i (next_id c) lev nd Hok) as Hg.
      destruct (local n i (next_id c) lev nd); try done. exfalso. apply Hg; [|done]. by intros m rnd ->.
  - destruct (net c !! k) as [m|] eqn:Hm; [|done]. cbn [mbind Outcome_bind enabled] in Hc.
    destruct (nodes c !! m_dst m) as [nd|] eqn:Hi; [|done]. cbn [mbind Outcome_bind enabled] in Hc.
    pose proof (good_local n (m_dst m) (next_id c) (LDeliver m rnd) nd (co_nodes _ _ Hco _ _ Hi)) as Hg.
    destruct (local n (m_dst m) (next_id c) (LDeliver m rnd) nd); try done. exfalso. apply Hg; [|done].
    intros m' rnd' [= <- <-]. split; [|done]. apply (co_net _ _ Hco). by eapply list_elem_of_lookup_2.
  - by destruct (net c !! k).
Qed.

(** C15. No handler, election, heartbeat, client request or restart ever
    panics in any execution; the only step that can is the apply loop of an
    idle peer, and only when [commitIndex] has run past the end of the log. *)
Theorem only_apply_panics (c : Cluster) (ev : Event) :
  reachable n c -> cstep n ev c = Panic ->
  exists i nd, ev = EvLocal i LApply /\ nodes c !! i = Some nd /\ lock nd = None /\
    lastApplied (raft nd) < commitIndex (raft nd) /\ zlen (logEntries (raft nd)) <= lastApplied (raft nd) + 1.
Proof. apply panic_in_apply. Qed.


(** C25. A mutex held during calls is always released, without help from the
    network: when the outstanding calls of the peer time out, one after the
    other, the election or heartbeat it is in ends and the mutex is free. *)
Theorem mutex_released (c : Cluster) (i : nat) (nd : Node) :
  reachable n c -> nodes c !! i = Some nd ->
  exists c' nd', exec n (timeouts i nd) c = Ok c' /\ nodes c' !! i = Some nd' /\ lock nd' = None.
Proof.
  intros Hr Hi. pose proof (no_lock _ _ _ (co_nodes _ _ (reachable_ok n _ Hr) _ _ Hi)) as Hl.
  unfold lock_ok in Hl. unfold timeouts. destruct (lock nd) as [[id args vc w vs|id s a]|] eqn:Hlk.
  - destruct Hl as (_&_&_&_&_&_&Hnd&_). apply NoDup_app in Hnd as (_&_&Hnd). by eapply election_exec.
  - by eapply heartbeat_exec.
  - by exists c, nd.
Qed.

(** C37. Every peer of every execution hands its commands to the service one
    by one with consecutive indices starting at 1 after each restart, never
    skipping nor repeating an index. *)
Theorem applied_consecutive (c : Cluster) (i : nat) (nd : Node) :
  reachable n c -> nodes c !! i = Some nd ->
  CommandIndex <$> applyCh (raft nd) = seqZ 1 (lastApplied (raft nd)) /\ 0 <= lastApplied (raft nd).
Proof.
  intros Hr Hi. destruct (ro_applied _ _ _ (no_raft _ _ _ (co_nodes _ _ (reachable_ok n _ Hr) _ _ Hi))). done.
Qed.

End Properties.

(** ** What retransmission, early heartbeats and the excluded events can do *)

(** Retransmitting a batch whose reply was lost breaks state machine
    safety: in this clean execution of three peers, peer 0 applies the
    commands 10 and 20 while peer 1 applies 10 twice. *)
Theorem retransmission_diverges :
  exists c, runs 3 retransmission = Ok c /\
    clean_run (H := Wire.gob_wire) 3 retransmission (start_of 3) = true /\
    applied c 0 = [IInt 10; IInt 20] /\ applied c 1 = [IInt 10; IInt 10].
Proof. eexists. split_and!; by vm_compute. Qed.

(** In this clean execution of five peers, peer 0 commits the command 20
    at index 2 in term 1, peer 3 is then the leader of term 2 with another
    command at index 2, and the apply loop of peer 1 indexes past the end of
    its log: the program panics. *)
Theorem committed_entry_lost :
  exists c, runs 5 lost_commit = Ok c /\
    clean_run (H := Wire.gob_wire) 5 lost_commit (start_of 5) = true /\
    (exists nd, nodes c !! 0%nat = Some nd /\ commitIndex (raft nd) = 2 /\
       zidx (logEntries (raft nd)) 2 = Some (mkEntry 1 2 (IInt 20))) /\
    (exists nd, nodes c !! 3%nat = Some nd /\ role (raft nd) = Leader /\ term (raft nd) = 2 /\
       zidx (logEntries (raft nd)) 2 = Some (mkEntry 2 2 (IInt 30))) /\
    cstep (H := Wire.gob_wire) 5 (EvLocal 1 LApply) c = Panic.
Proof. eexists. split_and!; [by vm_compute|by vm_compute|eexists|eexists|by vm_compute]; by vm_compute. Qed.

(** Winning an election after a reply has raised the term makes two
    leaders of one term: peers 0 and 4 both lead term 2. *)
Theorem late_win_two_leaders :
  exists c, runs 5 late_win = Ok c /\ leaders 2 c = [0; 4]%nat.
Proof. eexists. split; by vm_compute. Qed.

(** A leader saves [votedFor] as -1, so after a crash it votes again in
    the term it won: peers 0 and 2 both win term 1. *)
Theorem forgetful_leader_two_winners :
  exists c V W, runs 3 forgetful_leader = Ok c /\ won c = [(0%nat, 1, V); (2%nat, 1, W)] /\
    leaders 1 c = [2%nat].
Proof. eexists _, _, _. split_and!; by vm_compute. Qed.

(** Peer 0 campaigns for term 1, crashes before [startElection] returns, and
    votes for peer 2. *)
Definition forgetful_candidate : list Event :=
  [EvLocal 0 LTimer; EvLocal 0 (LElection 0); EvLocal 0 (LCrash 0);
   EvLocal 2 LTimer; EvLocal 2 (LElection 0); EvDeliver 2 0].

(** Counting the vote for oneself, peer 0 votes twice in term 1 in
    [forgetful_leader] and in [forgetful_candidate]; the second run is clean. *)
Definition both_votes (evs : list Event) : bool :=
  match runs 3 evs with
  | Ok c => bool_decide ((0%nat, 1, 0%nat) ∈ granted c) && bool_decide ((0%nat, 1, 2%nat) ∈ granted c)
  | _ => false
  end.

Theorem votes_for_itself_and_another :
  both_votes forgetful_leader = true /\ both_votes forgetful_candidate = true /\
  clean_run (H := Wire.gob_wire) 3 forgetful_candidate (start_of 3) = true.
Proof. by vm_compute. Qed.

(** The heartbeat loop reads the role once per round: in this clean
    execution peer 0, deposed in the middle of a round, sends an
    [AppendEntries] of term 2, a term that peer 1 won. *)
Theorem deposed_leader_sends :
  exists c m args, runs 3 deposed_beat = Ok c /\
    clean_run (H := Wire.gob_wire) 3 deposed_beat (start_of 3) = true /\
    m ∈ net c /\ m_src m = 0%nat /\ m_body m = PAppReq args /\ aa_Term args = 2 /\ leaders 2 c = [1%nat].
Proof.
  eexists _, _, _. split_and!; [by vm_compute|by vm_compute|by vm_compute; constructor|by vm_compute..].
Qed.

(** ** Instances *)


(** Peer 0 of three after winning term 1, and in the middle of its election. *)
Definition in_election : list Event := [EvLocal 0 LTimer; EvLocal 0 (LElection 0); EvDeliver 0 0; EvDeliver 1 0].

(** The state after a run, and its peers. *)
Definition state_of (n : nat) (evs : list Event) : Cluster :=
  match runs n evs with Ok c => c | _ => start_of n end.
Definition node_of (n : nat) (evs : list Event) (i : nat) : Node :=
  default (fresh_node (Make (H := Wire.gob_wire) n 0 MakePersister 0)) (nodes (state_of n evs) !! i).
Definition is_ok {A} (o : Outcome A) : bool := match o with Ok _ => true | _ => false end.

Lemma runs_state n evs : is_ok (runs n evs) = true -> runs n evs = Ok (state_of n evs).
Proof. unfold state_of. by destruct (runs n evs). Qed.

Lemma node_of_lookup n evs i :
  bool_decide (is_Some (nodes (state_of n evs) !! i)) = true -> nodes (state_of n evs) !! i = Some (node_of n evs i).
Proof. unfold node_of. by destruct (nodes (state_of n evs) !! i). Qed.

Lemma state_reachable n evs : is_ok (runs n evs) = true -> reachable (H := Wire.gob_wire) n (state_of n evs).
Proof. intros Hok%runs_state. eapply exec_reachable; [|exact Hok]. constructor. Qed.

Lemma state_clean n evs :
  is_ok (runs n evs) = true -> clean_run (H := Wire.gob_wire) n evs (start_of n) = true ->
  clean_reachable (H := Wire.gob_wire) n (state_of n evs).
Proof. intros Hok%runs_state Hc. eapply exec_clean; [|exact Hc|exact Hok]. constructor. Qed.

Lemma election_safety_witness :
  leads 2 (state_of 3 (elect 3 0 ++ elect 3 1)) 1 = true /\
  forall j, leads 2 (state_of 3 (elect 3 0 ++ elect 3 1)) j = true -> 1%nat = j.
Proof.
  split; [by vm_compute|]. intros j.
  refine (proj1 (election_safety (H := Wire.gob_wire) 3 _ 1 j 2 (state_clean _ _ _ _)) _); by vm_compute.
Defined.

Lemma state_loyal n evs :
  is_ok (runs n evs) = true -> loyal_run (H := Wire.gob_wire) n evs (start_of n) = true ->
  loyal_reachable (H := Wire.gob_wire) n (state_of n evs).
Proof. intros Hok%runs_state Hc. eapply exec_loyal; [|exact Hc|exact Hok]. constructor. Qed.

Lemma vote_once_witness :
  (0%nat, 1, 0%nat) ∈ granted (state_of 3 (elect 3 0 ++ elect 3 1)) /\
  (1%nat, 1, 0%nat) ∈ granted (state_of 3 (elect 3 0 ++ elect 3 1)) /\
  (forall k, (0%nat, 1, k) ∈ granted (state_of 3 (elect 3 0 ++ elect 3 1)) -> k = 0%nat) /\
  forall k, (1%nat, 1, k) ∈ granted (state_of 3 (elect 3 0 ++ elect 3 1)) -> k <> 1%nat -> k = 0%nat.
Proof.
  assert (H0 : (0%nat, 1, 0%nat) ∈ granted (state_of 3 (elect 3 0 ++ elect 3 1)))
    by (apply (bool_decide_unpack _); by vm_compute).
  assert (H1 : (1%nat, 1, 0%nat) ∈ granted (state_of 3 (elect 3 0 ++ elect 3 1)))
    by (apply (bool_decide_unpack _); by vm_compute).
  split; [exact H0|]. split; [exact H1|]. split; intros k Hk.
  - refine (proj1 (vote_once (H := Wire.gob_wire) 3 _ 0 k 0 1 Hk H0) (state_loyal _ _ _ _)); by vm_compute.
  - intros Hne. refine (proj2 (vote_once (H := Wire.gob_wire) 3 _ 1 k 0 1 Hk H1) (state_reachable _ _ _) Hne _);
      [by vm_compute|discriminate].
Defined.

Lemma win_has_quorum_witness :
  NoDup [0; 2; 1]%nat /\ (3 < 2 * length [0; 2; 1])%nat /\ 1 <= 1 /\
  forall v, v ∈ [0; 2; 1]%nat ->
    (v < 3)%nat /\ (v = 0%nat \/ (v, 1, 0%nat) ∈ granted (state_of 3 (in_election ++ deliver 2))).
Proof.
  refine (win_has_quorum (H := Wire.gob_wire) 3 (state_of 3 (in_election ++ deliver 2)) 0
    (node_of 3 (in_election ++ deliver 2) 0) 1 (mkVoteArgs 1 0 0 0) 3 [2; 1]%nat 0
    (state_of 3 (in_election ++ deliver 2 ++ [EvLocal 0 (LElectionEnd 0)])) [0; 2; 1]%nat 1
    (state_reachable _ _ _) (node_of_lookup _ _ _ _) _ _ _); by vm_compute.
Defined.

Lemma term_monotone_witness :
  exists nd', nodes (state_of 3 (elect 3 0 ++ EvLocal 0 (LCrash 0) :: elect 3 1)) !! 0%nat = Some nd' /\
    1 <= term (raft nd').
Proof.
  destruct (term_monotone (H := Wire.gob_wire) 3 (state_of 3 (elect 3 0)) (EvLocal 0 (LCrash 0) :: elect 3 1)
    (state_of 3 (elect 3 0 ++ EvLocal 0 (LCrash 0) :: elect 3 1)) 0 (node_of 3 (elect 3 0) 0))
    as (nd' & Hi & _ & Ht); [apply state_reachable; by vm_compute|by vm_compute|apply node_of_lookup; by vm_compute|].
  exists nd'. split; [exact Hi|]. exact (Ht eq_refl).
Defined.

Lemma crash_recovery_witness :
  exists c' nd', cstep (H := Wire.gob_wire) 3 (EvLocal 0 (LCrash 7)) (state_of 3 (elect 3 0 ++ start 0 (IInt 10))) = Ok c' /\
    nodes c' !! 0%nat = Some nd' /\ logEntries (raft nd') = [mkEntry 0 0 INil; mkEntry 1 1 (IInt 10)].
Proof.
  destruct (crash_recovery (H := Wire.gob_wire) 3 (state_of 3 (elect 3 0 ++ start 0 (IInt 10))) 0
    (node_of 3 (elect 3 0 ++ start 0 (IInt 10)) 0) 7) as (c' & nd' & Hc & Hi' & _ & _ & _ & _ & _ & _ & Hlog & _);
    [apply state_reachable; by vm_compute|apply node_of_lookup; by vm_compute|by vm_compute|].
  exists c', nd'. split; [exact Hc|]. split; [exact Hi'|]. rewrite Hlog. by vm_compute.
Defined.

Lemma only_apply_panics_witness :
  exists nd, nodes (state_of 5 lost_commit) !! 1%nat = Some nd /\
    zlen (logEntries (raft nd)) <= lastApplied (raft nd) + 1.
Proof.
  destruct (only_apply_panics (H := Wire.gob_wire) 5 (state_of 5 lost_commit) (EvLocal 1 LApply))
    as (i & nd & Hev & Hi & _ & _ & Hle); [apply state_reachable; by vm_compute|by vm_compute|].
  injection Hev as <-. exists nd. split; [exact Hi|exact Hle].
Defined.

Lemma mutex_released_witness :
  lock (node_of 3 in_election 0) <> None /\
  exists c' nd', exec (H := Wire.gob_wire) 3 (timeouts 0 (node_of 3 in_election 0)) (state_of 3 in_election) = Ok c' /\
    nodes c' !! 0%nat = Some nd' /\ lock nd' = None.
Proof.
  split; [by vm_compute|].
  refine (mutex_released (H := Wire.gob_wire) 3 _ 0 _ (state_reachable _ _ _) (node_of_lookup _ _ _ _)); by vm_compute.
Defined.

Lemma applied_consecutive_witness :
  CommandIndex <$> applyCh (raft (node_of 3 retransmission 0)) = [1; 2].
Proof.
  destruct (applied_consecutive (H := Wire.gob_wire) 3 (state_of 3 retransmission) 0 (node_of 3 retransmission 0))
    as [Ha _]; [apply state_reachable; by vm_compute|apply node_of_lookup; by vm_compute|].
  rewrite Ha. by vm_compute.
Defined.



