(* ===== verification/Tester.v ===== *)
(** * The tester ([lab2_raft/raft/config.go])

    The record [config] and its operations: connecting, disconnecting,
    crashing and starting servers, the goroutine that checks what a server
    applies, and the checks the tests call.  [RaftNet] has the steps of
    [crash1] and [start1] interleaved with everything else; here each
    operation is a function on the tester's own data.

    While a check sleeps, and between the moments it looks at two servers, the
    rest of the system runs.  What a loop over the servers sees is a [View]:
    for each server the configuration at the moment it is looked at.  A sleep
    and the loop after it are a function from configurations to views, an
    argument of the check.  [t.Fatalf] and [log.Fatalf] are [Panic]. *)

From S2P Require Import Prelude Gob Persister Raft LabRpc Cluster.

Record config := mkConfig {
  cfg_net : Network;
  cfg_n : nat;
  cfg_rafts : list (option Raft);
  cfg_applyErr : list string;
  cfg_connected : list bool;
  cfg_saved : list (option Persister);
  cfg_endnames : list (option (list Key));
  cfg_logs : list (gmap Z iface);
  (** the number of [Server] objects made so far *)
  cfg_nservers : nat;
  cfg_rpcs0 : Z; cfg_cmds0 : Z; cfg_bytes0 : Z;
  cfg_maxIndex : Z; cfg_maxIndex0 : Z;
}.

Definition set_cfg_net (x : Network) (cfg : config) : config :=
  mkConfig x (cfg_n cfg) (cfg_rafts cfg) (cfg_applyErr cfg) (cfg_connected cfg) (cfg_saved cfg)
    (cfg_endnames cfg) (cfg_logs cfg) (cfg_nservers cfg) (cfg_rpcs0 cfg) (cfg_cmds0 cfg)
    (cfg_bytes0 cfg) (cfg_maxIndex cfg) (cfg_maxIndex0 cfg).
Definition set_cfg_rafts (x : list (option Raft)) (cfg : config) : config :=
  mkConfig (cfg_net cfg) (cfg_n cfg) x (cfg_applyErr cfg) (cfg_connected cfg) (cfg_saved cfg)
    (cfg_endnames cfg) (cfg_logs cfg) (cfg_nservers cfg) (cfg_rpcs0 cfg) (cfg_cmds0 cfg)
    (cfg_bytes0 cfg) (cfg_maxIndex cfg) (cfg_maxIndex0 cfg).
Definition set_cfg_connected (x : list bool) (cfg : config) : config :=
  mkConfig (cfg_net cfg) (cfg_n cfg) (cfg_rafts cfg) (cfg_applyErr cfg) x (cfg_saved cfg)
    (cfg_endnames cfg) (cfg_logs cfg) (cfg_nservers cfg) (cfg_rpcs0 cfg) (cfg_cmds0 cfg)
    (cfg_bytes0 cfg) (cfg_maxIndex cfg) (cfg_maxIndex0 cfg).
Definition set_cfg_saved (x : list (option Persister)) (cfg : config) : config :=
  mkConfig (cfg_net cfg) (cfg_n cfg) (cfg_rafts cfg) (cfg_applyErr cfg) (cfg_connected cfg) x
    (cfg_endnames cfg) (cfg_logs cfg) (cfg_nservers cfg) (cfg_rpcs0 cfg) (cfg_cmds0 cfg)
    (cfg_bytes0 cfg) (cfg_maxIndex cfg) (cfg_maxIndex0 cfg).
Definition set_cfg_endnames (x : list (option (list Key))) (cfg : config) : config :=
  mkConfig (cfg_net cfg) (cfg_n cfg) (cfg_rafts cfg) (cfg_applyErr cfg) (cfg_connected cfg)
    (cfg_saved cfg) x (cfg_logs cfg) (cfg_nservers cfg) (cfg_rpcs0 cfg) (cfg_cmds0 cfg)
    (cfg_bytes0 cfg) (cfg_maxIndex cfg) (cfg_maxIndex0 cfg).
Definition set_cfg_logs (x : list (gmap Z iface)) (maxIndex : Z) (cfg : config) : config :=
  mkConfig (cfg_net cfg) (cfg_n cfg) (cfg_rafts cfg) (cfg_applyErr cfg) (cfg_connected cfg)
    (cfg_saved cfg) (cfg_endnames cfg) x (cfg_nservers cfg) (cfg_rpcs0 cfg) (cfg_cmds0 cfg)
    (cfg_bytes0 cfg) maxIndex (cfg_maxIndex0 cfg).
Definition set_cfg_nservers (x : nat) (cfg : config) : config :=
  mkConfig (cfg_net cfg) (cfg_n cfg) (cfg_rafts cfg) (cfg_applyErr cfg) (cfg_connected cfg)
    (cfg_saved cfg) (cfg_endnames cfg) (cfg_logs cfg) x (cfg_rpcs0 cfg) (cfg_cmds0 cfg)
    (cfg_bytes0 cfg) (cfg_maxIndex cfg) (cfg_maxIndex0 cfg).

(** [l[i] = x] for an index that is in range by construction; otherwise the
    program panics. *)
Definition assign {A} (l : list A) (i : nat) (x : A) : Outcome (list A) :=
  if Nat.ltb i (length l) then Ok (<[i := x]> l) else Panic.

(** [for _, j := range js { s = f(j, s) }] *)
Fixpoint for_each {S} (f : nat -> S -> Outcome S) (js : list nat) (s : S) : Outcome S :=
  match js with
  | [] => Ok s
  | j :: js => s ← f j s; for_each f js s
  end.

(** ** Attaching servers to the network *)

(** [cfg.endnames[i][j]]; a [nil] slice has no elements. *)
Definition endname_of (cfg : config) (i j : nat) : Outcome Key :=
  ns ← run (cfg_endnames cfg !! i);
  ns ← run ns;
  run (ns !! j).

(** The body of the two loops of [connect]: enable end [i] to [k]. *)
Definition enable_if_connected (cfg : config) (i j k : nat) (rn : Network) : Outcome Network :=
  b ← run (cfg_connected cfg !! k);
  if (b : bool) then e ← endname_of cfg i j; Ok (Enable e true rn) else Ok rn.

Definition connect (i : nat) (cfg : config) : Outcome config :=
  cs ← assign (cfg_connected cfg) i true;
  let cfg := set_cfg_connected cs cfg in
  let js := seq 0 (cfg_n cfg) in
  rn ← for_each (fun j => enable_if_connected cfg i j j) js (cfg_net cfg);
  rn ← for_each (fun j => enable_if_connected cfg j i j) js rn;
  Ok (set_cfg_net rn cfg).

(** The body of the two loops of [disconnect]. *)
Definition disable_if_made (cfg : config) (i j : nat) (rn : Network) : Outcome Network :=
  o ← run (cfg_endnames cfg !! i);
  match o with
  | None => Ok rn
  | Some _ => e ← endname_of cfg i j; Ok (Enable e false rn)
  end.

Definition disconnect (i : nat) (cfg : config) : Outcome config :=
  cs ← assign (cfg_connected cfg) i false;
  let cfg := set_cfg_connected cs cfg in
  let js := seq 0 (cfg_n cfg) in
  rn ← for_each (fun j => disable_if_made cfg i j) js (cfg_net cfg);
  rn ← for_each (fun j => disable_if_made cfg j i) js rn;
  Ok (set_cfg_net rn cfg).

(** ** Crashing and starting *)

Section Tester.
Context `{GobCodec}.

(** What [cfg.saved[i]] points to: the persister of the running instance. *)
Definition saved_content (cfg : config) (i : nat) : Outcome (option Persister) :=
  o ← run (cfg_saved cfg !! i);
  rf ← run (cfg_rafts cfg !! i);
  Ok (match o, rf with Some _, Some rf => Some (persister rf) | _, _ => o end).

Definition server_name (i : nat) : Key := KInt (Z.of_nat i).

(** The killed instance runs on, but no field refers to it any more. *)
Definition crash1 (i : nat) (cfg : config) : Outcome config :=
  cfg ← disconnect i cfg;
  let cfg := set_cfg_net (DeleteServer (server_name i) (cfg_net cfg)) cfg in
  o ← saved_content cfg i;
  (* a fresh persister with the content of the old one *)
  let copy := Copy <$> o in
  rafts ← assign (cfg_rafts cfg) i None;
  let saved := (fun p => SaveRaftState (ReadRaftState p) MakePersister) <$> copy in
  saveds ← assign (cfg_saved cfg) i saved;
  Ok (set_cfg_saved saveds (set_cfg_rafts rafts cfg)).

(** [MakeEnd] and [Connect] for the names of the ends to servers [j], [j + 1], ... *)
Fixpoint make_client_ends (j : nat) (names : list Key) (rn : Network) : Outcome Network :=
  match names with
  | [] => Ok rn
  | e :: names =>
      '(rn, _) ← MakeEnd e rn;
      make_client_ends (S j) names (Connect e (server_name j) rn)
  end.

(** [names j] is the string [randstring] returns for the end to server [j]; the
    goroutine that reads [applyCh] is [apply_msg]. *)
Definition start1 (i : nat) (names : nat -> Key) (rnd : Z) (cfg : config) : Outcome config :=
  cfg ← crash1 i cfg;
  let names := names <$> seq 0 (cfg_n cfg) in
  endnames ← assign (cfg_endnames cfg) i (Some names);
  let cfg := set_cfg_endnames endnames cfg in
  rn ← make_client_ends 0 names (cfg_net cfg);
  let cfg := set_cfg_net rn cfg in
  o ← run (cfg_saved cfg !! i);
  let ps := match o with Some ps => Copy ps | None => MakePersister end in
  saveds ← assign (cfg_saved cfg) i (Some ps);
  rafts ← assign (cfg_rafts cfg) i (Some (Make (cfg_n cfg) (Z.of_nat i) ps rnd));
  let cfg := set_cfg_rafts rafts (set_cfg_saved saveds cfg) in
  let srv := cfg_nservers cfg in
  Ok (set_cfg_nservers (S srv) (set_cfg_net (AddServer (server_name i) srv (cfg_net cfg)) cfg)).

Definition setunreliable (unrel : bool) (cfg : config) : config :=
  set_cfg_net (Reliable (negb unrel) (cfg_net cfg)) cfg.
Definition setlongreordering (longrel : bool) (cfg : config) : config :=
  set_cfg_net (LongReordering longrel (cfg_net cfg)) cfg.

(** [make_config(t, n, unreliable)]; [names i] and [rnds i] are drawn by [start1(i)]. *)
Definition make_config (n : nat) (unreliable : bool) (names : nat -> nat -> Key) (rnds : nat -> Z)
    : Outcome config :=
  let cfg := mkConfig MakeNetwork n (replicate n None) (replicate n "") (replicate n false)
               (replicate n None) (replicate n None) (replicate n ∅) 0 0 0 0 0 0 in
  let cfg := setunreliable unreliable cfg in
  let cfg := set_cfg_net (LongDelays true (cfg_net cfg)) cfg in
  cfg ← for_each (fun i => start1 i (names i) (rnds i)) (seq 0 n) cfg;
  for_each connect (seq 0 n) cfg.

(** [time.Since(cfg.start)] in nanoseconds, and [cfg.t.Failed()]. *)
Definition checkTimeout (failed : bool) (elapsed : Z) : Outcome unit :=
  if negb failed && (120 * 10 ^ 9 <? elapsed) then Panic else Ok tt.

(** Every instance is killed, then the network. *)
Definition cleanup (failed : bool) (elapsed : Z) (cfg : config) : Outcome config :=
  rn ← Cleanup (cfg_net cfg);
  let cfg := set_cfg_net rn (set_cfg_rafts (map (option_map Kill) (cfg_rafts cfg)) cfg) in
  _ ← checkTimeout failed elapsed;
  Ok cfg.
End Tester.

(** ** The goroutine that reads [applyCh] *)

Inductive ApplyErr :=
  | ErrCommitted (server : nat)   (** server [server] committed another value *)
  | ErrOrder.                     (** applied out of order *)

(** The loop over [cfg.logs]; the last disagreement wins. *)
Fixpoint mismatch_loop (index : Z) (v : iface) (j : nat) (logs : list (gmap Z iface))
    (err : option ApplyErr) : option ApplyErr :=
  match logs with
  | [] => err
  | lg :: logs =>
      let err :=
        match lg !! index with
        | Some old => if bool_decide (old = v) then err else Some (ErrCommitted j)
        | None => err
        end in
      mismatch_loop index v (S j) logs err
  end.

(** One message from server [i]. *)
Definition apply_msg (i : nat) (m : ApplyMsg) (cfg : config) : Outcome config :=
  if negb (CommandValid m) then Ok cfg
  else
    let v := Command m in
    let err := mismatch_loop (CommandIndex m) v 0 (cfg_logs cfg) None in
    lg ← run (cfg_logs cfg !! i);
    let prevok := bool_decide (is_Some (lg !! (CommandIndex m - 1))) in
    let cfg := set_cfg_logs (<[i := <[CommandIndex m := v]> lg]> (cfg_logs cfg))
                 (if cfg_maxIndex cfg <? CommandIndex m then CommandIndex m else cfg_maxIndex cfg) cfg in
    let err := if (1 <? CommandIndex m) && negb prevok then Some ErrOrder else err in
    match err with
    | Some _ => Panic
    | None => Ok cfg
    end.

Fixpoint apply_msgs (ms : list (nat * ApplyMsg)) (cfg : config) : Outcome config :=
  match ms with
  | [] => Ok cfg
  | (i, m) :: ms => cfg ← apply_msg i m cfg; apply_msgs ms cfg
  end.

(** ** Checks *)

(** [v i] is the configuration when the loop looks at server [i], and also
    what the next statement finds when the loop ends with [i - 1]. *)
Definition View := nat -> config.
Definition still (cfg : config) : View := fun _ => cfg.
Definition after_look (v : View) : config := v (cfg_n (v 0%nat)).

(** [cfg.rafts[i].GetState()]; a [nil] instance is dereferenced. *)
Definition get_state (cfg : config) (i : nat) : Outcome (Z * bool) :=
  o ← run (cfg_rafts cfg !! i);
  rf ← run o;
  Ok (GetState rf).

Definition is_connected (cfg : config) (i : nat) : Outcome bool := run (cfg_connected cfg !! i).

(** The first loop of [checkOneLeader]: leaders by term. *)
Definition collect_leader (cfg : config) (i : nat) (leaders : gmap Z (list nat)) : Outcome (gmap Z (list nat)) :=
  b ← is_connected cfg i;
  if (b : bool) then
    '(t, leader) ← get_state cfg i;
    if (leader : bool) then Ok (<[t := default [] (leaders !! t) ++ [i]]> leaders) else Ok leaders
  else Ok leaders.

Definition collect_leaders (v : View) : Outcome (gmap Z (list nat)) :=
  for_each (fun i => collect_leader (v i) i) (seq 0 (cfg_n (v 0%nat))) ∅.

(** The loop over the map, whose order Go does not fix: [l] lists its entries. *)
Fixpoint scan_leaders (l : list (Z * list nat)) (lastTermWithLeader : Z) : Outcome Z :=
  match l with
  | [] => Ok lastTermWithLeader
  | (t, who) :: l =>
      if (1 <? zlen who) then Panic
      else scan_leaders l (if lastTermWithLeader <? t then t else lastTermWithLeader)
  end.

(** One iteration; [None]: no leader yet. *)
Definition one_leader_iter (order : list (Z * list nat)) (leaders : gmap Z (list nat)) : Outcome (option nat) :=
  lastTermWithLeader ← scan_leaders order (-1);
  if negb (bool_decide (size leaders = 0%nat)) then
    i ← run (head (default [] (leaders !! lastTermWithLeader)));
    Ok (Some i)
  else Ok None.

(** The loop with [iters] iterations left, each of which begins by sleeping. *)
Fixpoint one_leader_loop (iters : nat) (sleep : nat -> config -> View) (cfg : config) : Outcome (nat * View) :=
  match iters with
  | O => Panic  (* expected one leader, got none *)
  | S iters =>
      let v := sleep iters cfg in
      leaders ← collect_leaders v;
      o ← one_leader_iter (map_to_list leaders) leaders;
      match o with
      | Some i => Ok (i, v)
      | None => one_leader_loop iters sleep (after_look v)
      end
  end.

Definition checkOneLeader (sleep : nat -> config -> View) (cfg : config) : Outcome (nat * View) :=
  one_leader_loop 10 sleep cfg.

Definition check_term (cfg : config) (i : nat) (t : Z) : Outcome Z :=
  b ← is_connected cfg i;
  if (b : bool) then
    '(xterm, _) ← get_state cfg i;
    if t =? -1 then Ok xterm else if negb (t =? xterm) then Panic else Ok t
  else Ok t.

Definition checkTerms (v : View) : Outcome Z :=
  for_each (fun i => check_term (v i) i) (seq 0 (cfg_n (v 0%nat))) (-1).

Definition check_no_leader (cfg : config) (i : nat) (u : unit) : Outcome unit :=
  b ← is_connected cfg i;
  if (b : bool) then
    '(_, leader) ← get_state cfg i;
    if (leader : bool) then Panic else Ok u
  else Ok u.

Definition checkNoLeader (v : View) : Outcome unit :=
  for_each (fun i => check_no_leader (v i) i) (seq 0 (cfg_n (v 0%nat))) tt.

(** The body of the loop of [nCommitted]. *)
Definition count_committed (cfg : config) (index : Z) (i : nat) (s : Z * iface) : Outcome (Z * iface) :=
  let '(count, cmd) := s in
  err ← run (cfg_applyErr cfg !! i);
  if negb (bool_decide (err = "")) then Panic
  else
    lg ← run (cfg_logs cfg !! i);
    match lg !! index with
    | Some cmd1 =>
        if (0 <? count) && negb (bool_decide (cmd = cmd1)) then Panic
        else Ok (count + 1, cmd1)
    | None => Ok (count, cmd)
    end.

Definition nCommitted (index : Z) (v : View) : Outcome (Z * iface) :=
  for_each (fun i => count_committed (v i) index i) (seq 0 (length (cfg_rafts (v 0%nat)))) (0, INil).

(** Whether some instance has a term beyond [startTerm]: servers [i], [i + 1], ... *)
Fixpoint moved_on (startTerm : Z) (i todo : nat) (v : View) : Outcome bool :=
  match todo with
  | O => Ok false
  | S todo =>
      '(t, _) ← get_state (v i) i;
      if startTerm <? t then Ok true else moved_on startTerm (S i) todo v
  end.

(** The loop of [wait]; [false]: some instance has moved on.  [look] is what
    [nCommitted] sees, [sleep] what the loop after the sleep sees. *)
Fixpoint wait_loop (iters : nat) (index n startTerm : Z) (look sleep : nat -> config -> View) (cfg : config)
    : Outcome (bool * config) :=
  match iters with
  | O => Ok (true, cfg)
  | S iters =>
      let v := look (S iters) cfg in
      '(nd, _) ← nCommitted index v;
      if n <=? nd then Ok (true, after_look v)
      else
        let v := sleep (S iters) (after_look v) in
        moved ← (if -1 <? startTerm then moved_on startTerm 0 (length (cfg_rafts (v 0%nat))) v else Ok false);
        if (moved : bool) then Ok (false, after_look v)
        else wait_loop iters index n startTerm look sleep (after_look v)
  end.

Definition wait (index n startTerm : Z) (look sleep : nat -> config -> View) (cfg : config)
    : Outcome (iface * View) :=
  '(go, cfg) ← wait_loop 30 index n startTerm look sleep cfg;
  if (go : bool) then
    let v := look 0%nat cfg in
    '(nd, cmd) ← nCommitted index v;
    if nd <? n then Panic else Ok (cmd, v)
  else Ok (IInt (-1), still cfg).

Section One.
Context `{GobCodec}.

(** What goes on during a round of [one]: before each attempt at a server,
    before each [nCommitted] of the two seconds it polls, and while it sleeps
    when nobody is the leader. *)
Record Round := mkRound {
  r_pause : nat -> config -> config;
  r_polls : list (config -> View);
  r_idle : config -> config;
}.

(** The loop that tries all servers; returns [starts] and the index. *)
Fixpoint try_servers (cmd : iface) (pause : nat -> config -> config) (tries starts : nat) (cfg : config)
    : Outcome (nat * Z * config) :=
  match tries with
  | O => Ok (starts, (-1)%Z, cfg)
  | S tries =>
      let cfg := pause tries cfg in
      let starts := (starts + 1) mod cfg_n cfg in
      b ← is_connected cfg starts;
      o ← (if (b : bool) then run (cfg_rafts cfg !! starts) else Ok None);
      match o with
      | Some rf =>
          '(rf, (index1, _, ok)) ← run (Start cmd rf);
          let cfg := set_cfg_rafts (<[starts := Some rf]> (cfg_rafts cfg)) cfg in
          if (ok : bool) then Ok (starts, index1, cfg) else try_servers cmd pause tries starts cfg
      | None => try_servers cmd pause tries starts cfg
      end
  end%nat.

(** Two seconds of looking for the agreement, as often as [polls] has views. *)
Fixpoint poll_agreement (cmd : iface) (expectedServers index : Z) (polls : list (config -> View))
    (cfg : config) : Outcome (bool * View) :=
  match polls with
  | [] => Ok (false, still cfg)
  | look :: polls =>
      let v := look cfg in
      '(nd, cmd1) ← nCommitted index v;
      if (0 <? nd) && (expectedServers <=? nd) && bool_decide (cmd1 = cmd) then Ok (true, v)
      else poll_agreement cmd expectedServers index polls (after_look v)
  end.

(** [rounds] are the rounds that fit into ten seconds. *)
Fixpoint one (cmd : iface) (expectedServers : Z) (retry : bool) (rounds : list Round) (starts : nat)
    (cfg : config) : Outcome (Z * View) :=
  match rounds with
  | [] => Panic
  | r :: rounds =>
      '(starts, index, cfg) ← try_servers cmd (r_pause r) (cfg_n cfg) starts cfg;
      if negb (index =? -1) then
        '(agreed, v) ← poll_agreement cmd expectedServers index (r_polls r) cfg;
        if (agreed : bool) then Ok (index, v)
        else if negb retry then Panic
        else one cmd expectedServers retry rounds starts (after_look v)
      else one cmd expectedServers retry rounds starts (r_idle r cfg)
  end.
End One.

(** ** Statistics *)

(** The counter is in the [Server] object, part of the state of [LabRpc]. *)
Definition rpcCount {Val R W} (server : nat) (st : Rpc Val R W) : Outcome Z := GetCount (server_name server) st.
Definition rpcTotal (cfg : config) : Z := GetTotalCount (cfg_net cfg).
Definition bytesTotal (cfg : config) : Z := GetTotalBytes (cfg_net cfg).

Definition begin (cfg : config) : config :=
  mkConfig (cfg_net cfg) (cfg_n cfg) (cfg_rafts cfg) (cfg_applyErr cfg) (cfg_connected cfg)
    (cfg_saved cfg) (cfg_endnames cfg) (cfg_logs cfg) (cfg_nservers cfg) (rpcTotal cfg) 0
    (bytesTotal cfg) (cfg_maxIndex cfg) (cfg_maxIndex cfg).

(** What [end] prints: peers, RPCs, bytes and agreements since [begin]. *)
Definition end_stats (cfg : config) : Z * Z * Z * Z :=
  (Z.of_nat (cfg_n cfg), rpcTotal cfg - cfg_rpcs0 cfg, bytesTotal cfg - cfg_bytes0 cfg,
   cfg_maxIndex cfg - cfg_maxIndex0 cfg).

Definition end_test (failed : bool) (elapsed : Z) (cfg : config) : Outcome (option (Z * Z * Z * Z)) :=
  _ ← checkTimeout failed elapsed;
  Ok (if negb failed then Some (end_stats cfg) else None).
