(* ===== verification/NetProps.v ===== *)
(** * Properties of the RPC network, of labgob, and of Raft over them

    The theorems about [LabGob], [LabRpc] and [RaftNet] with their instances,
    which run Raft over the network with the gob wire format of [GobWire]. *)

From S2P Require Import Prelude Utf8 LabGob Gob GobWire Persister Raft Vote Entry Cluster ClusterInv Election.
From S2P Require Import LabRpc LabRpcInv RaftNet RaftNetInv RaftNetSim ElectionNet.

(** ** Helper lemmas *)

Section Rpc.
Context {Val R W : Type} `{!RpcCodec Val}.
Implicit Types (st : Rpc Val R W) (c : Call Val R W).

Lemma rexec_reachable evs st st' : rreachable st -> rexec evs st = Ok st' -> rreachable st'.
Proof.
  revert st. induction evs as [|ev evs IH]; intros st Hr He; [by injection He as <-|].
  simpl in He. apply bind_Ok in He as (st1 & Hs & He). eapply IH; [|done]. by eapply rreach_step.
Qed.

(** A call that found no server to go to. *)
Definition dead_end c : Prop :=
  c_handler c = HNone /\ ((exists ms, c_pc c = Expiring ms /\ 0 <= ms < 7000) \/ c_pc c = Returned None).

Lemma dead_end_step k rn hp c c' xs : call_step k rn hp c c' xs -> dead_end c -> dead_end c'.
Proof.
  unfold dead_end. intros Hcs [Hh Hpc]. destruct Hcs; simpl in *; try congruence;
    destruct Hpc as [(ms' & Hpc & Hms)|Hpc]; try congruence; auto.
Qed.

Lemma dead_end_exec evs st st' k c :
  rexec evs st = Ok st' -> calls st !! k = Some c -> dead_end c ->
  exists c', calls st' !! k = Some c' /\ dead_end c'.
Proof.
  revert st c. induction evs as [|ev evs IH]; intros st c He Hk Hd; [injection He as <-; eauto|].
  simpl in He. apply bind_Ok in He as (st1 & Hs & He).
  assert (exists c1, calls st1 !! k = Some c1 /\ dead_end c1) as (c1 & Hk1 & Hd1).
  { destruct (rstep_calls _ _ _ Hs) as [Hc _ _|e meth a var Hc _ _|j d d' xs Hj Hc _ _ _ _ Hcs]; rewrite Hc.
    - eauto.
    - exists c. split; [by apply lookup_app_l_Some|done].
    - destruct (decide (j = k)) as [->|Hne].
      + simplify_eq. exists d'. split; [by apply list_lookup_insert_eq; eapply lookup_lt_Some|].
        by eapply dead_end_step.
      + exists c. by rewrite list_lookup_insert_ne. }
  eauto.
Qed.

Lemma mod_lt_7000 (b : bool) rnd : 0 <= (if b then rnd mod 7000 else rnd mod 100) < 7000.
Proof.
  destruct b; [apply Z.mod_pos_bound; lia|].
  pose proof (Z.mod_pos_bound rnd 100 ltac:(lia)). lia.
Qed.
End Rpc.

(** Methods registered by the loop of [MakeService]. *)
Lemma methods_fold {Val R W} (ms : list (Method Val R W)) (acc : gmap string (Method Val R W)) name m :
  NoDup (m_Name <$> ms) ->
  (forall m', m' ∈ ms -> acc !! m_Name m' = None) ->
  fold_left (fun acc m => if is_handler m then <[m_Name m := m]> acc else acc) ms acc !! name = Some m <->
  acc !! name = Some m \/ (m ∈ ms /\ m_Name m = name /\ is_handler m = true).
Proof.
  revert acc. induction ms as [|m0 ms IH]; intros acc Hnd Hacc; [set_solver|].
  apply NoDup_cons in Hnd as [Hni Hnd]. cbn [fold_left].
  rewrite IH; [|done|].
  - destruct (is_handler m0) eqn:Hh.
    + rewrite lookup_insert_Some. split.
      * intros [[(<- & <-)|(Hne & Hl)]|(Hin & Hn & Hm)]; [right|left|right]; set_solver.
      * intros [Hl|(Hin & Hn & Hm)].
        -- left. right. split; [|done]. intros <-. rewrite Hacc in Hl; set_solver.
        -- apply elem_of_cons in Hin as [-> |Hin]; [by left; left|by right].
    + split; [intros [Hl|(Hin & Hn & Hm)]; [by left|right; set_solver]|].
      intros [Hl|(Hin & Hn & Hm)]; [by left|]. apply elem_of_cons in Hin as [-> |Hin]; [congruence|by right].
  - intros m' Hin. destruct (is_handler m0); [|apply Hacc; set_solver].
    rewrite lookup_insert_ne; [apply Hacc; set_solver|]. intros Hn. apply Hni. rewrite Hn.
    by apply list_elem_of_fmap_2.
Qed.

Lemma is_handler_spec {Val R W} (m : Method Val R W) :
  is_handler m = true <->
  m_PkgPath m = "" /\ length (m_In m) = 3%nat /\
  (exists t, m_In m !! 2%nat = Some t /\ in_ptr t = true) /\ m_NumOut m = 0%nat.
Proof.
  unfold is_handler. rewrite negb_true_iff, !orb_false_iff, !negb_false_iff, !bool_decide_eq_true.
  destruct (m_In m !! 2%nat) as [t|]; naive_solver.
Qed.

(** The last dot of a name. *)
Lemma last_index_none c i found l : c ∉ l -> last_index_from c i found l = found.
Proof.
  revert i. induction l as [|a l IH]; intros i Hc; [done|]. cbn [last_index_from].
  apply not_elem_of_cons in Hc as [Hne Hc]. rewrite bool_decide_eq_false_2 by done. by apply IH.
Qed.

Lemma last_index_app c i found l l' :
  c ∉ l' -> last_index_from c i found (l ++ c :: l') = i + zlen l.
Proof.
  intros Hc. revert i found. induction l as [|a l IH]; intros i found; cbn [app last_index_from].
  - rewrite bool_decide_eq_true_2, last_index_none by done. rewrite zlen_nil. lia.
  - rewrite IH, zlen_cons. lia.
Qed.

Lemma list_ascii_app s s' :
  String.list_ascii_of_string (String.append s s') =
  String.list_ascii_of_string s ++ String.list_ascii_of_string s'.
Proof.
  induction s as [|a s IH]; [done|].
  change (a :: String.list_ascii_of_string (String.append s s') =
          a :: String.list_ascii_of_string s ++ String.list_ascii_of_string s'). by rewrite IH.
Qed.

(** ** labgob *)

Section LabGobProps.
Context `{UpperTable}.

(** C11. [checkType] returns, on every table of types, recursive ones
    included: the set of checked types makes a fuel of one more than the
    number of types enough, and more fuel changes nothing.  It marks exactly
    the types that can be reached from [t] without passing through a type
    that was marked before, prints one complaint for each lower-case field of
    each newly marked struct, and counts as many errors; so nothing is
    reported if [t] was checked before. *)
Theorem check_type_correct (types : list RType) (t : nat) (s : LabGob) :
  types_ok types -> is_Some (types !! t) ->
  exists s', (forall fuel, (length types < fuel)%nat -> checkType types fuel t s = Done s') /\
    (forall u, u ∈ checked s' <-> u ∈ checked s \/ reaches types (checked s) t u) /\
    printed s' ≡ₚ printed s ++ complaints types (checked s' ∖ checked s) /\
    errorCount s' = errorCount s + zlen (complaints types (checked s' ∖ checked s)) /\
    (t ∈ checked s -> s' = s).
Proof.
  intros Hok Ht.
  destruct (check_type_visits types Hok (S (length types)) t s Ht) as (s' & Hs & Hv).
  { pose proof (unchecked_le types s). lia. }
  exists s'. split_and!.
  - intros fuel Hf. eapply check_type_fuel; [|exact Hs]. lia.
  - intros u. by eapply visited_reaches.
  - exact (v_printed _ _ _ _ _ Hv).
  - pose proof (v_count _ _ _ _ _ Hv) as Hc. pose proof (v_printed _ _ _ _ _ Hv) as Hp.
    unfold zlen in *. rewrite Hp, length_app in Hc. simpl in Hc. lia.
  - intros Hin. destruct Ht as [ty Hty]. cbn [checkType] in Hs.
    rewrite Hty, bool_decide_eq_true_2 in Hs by done. by injection Hs.
Qed.

(** C39. The values Raft sends and stores (arguments and replies of both
    calls, log entries) have no lower-case field anywhere: checking any of
    their types in any state of the package reports nothing. *)
Theorem raft_types_exported (t : nat) (s : LabGob) :
  (t < length raft_types)%nat ->
  exists s', checkType raft_types (S (length raft_types)) t s = Done s' /\
    printed s' ≡ₚ printed s /\ errorCount s' = errorCount s.
Proof.
  intros Ht.
  assert (Hok : types_ok raft_types) by (by apply types_okb_spec).
  assert (Hnone : forall u, complaints_of raft_types u = []).
  { intros u. unfold complaints_of. do 13 (destruct u as [|u]; [done|]). done. }
  destruct (check_type_visits raft_types Hok (S (length raft_types)) t s) as (s' & Hs & Hv).
  { by apply lookup_lt_is_Some. }
  { pose proof (unchecked_le raft_types s). lia. }
  exists s'. split; [done|].
  assert (Hp : printed s' ≡ₚ printed s).
  { rewrite (v_printed _ _ _ _ _ Hv). unfold complaints.
    replace (_ ≫= _) with (@nil Warning); [by rewrite !app_nil_r|]. symmetry.
    induction (elements _) as [|u us IH]; [done|]. cbn. by rewrite Hnone. }
  pose proof (v_count _ _ _ _ _ Hv) as Hc. unfold zlen in Hc. rewrite Hp in Hc. split; [done|lia].
Qed.

(** C38. [Decode] of a [nil] interface panics.  Into a variable whose type is
    known it first checks the type and then looks at the basic values within
    three levels of pointers and structs: if one of them lies behind an
    unexported field it panics instead of warning; otherwise it adds one
    error for each that is not zero, prints a warning for the first of them
    if there was no error before, and returns what gob returns. *)
Theorem decode_checked {Dec Err} (types : list RType)
    (gob_Decode : Dec -> option GoValue -> Dec * option GoValue * option Err)
    (dec : Dec) (v : GoValue) (s : LabGob) :
  types_ok types -> is_Some (types !! TypeOf v) -> 0 <= errorCount s ->
  Decode types gob_Decode dec None s = Panicked /\
  exists s1, checkValue types (Some v) s = Done s1 /\
    let ls := leaves 3 RONone "" v in
    let bad := List.filter non_default ls in
    if existsb l_ro ls then Decode types gob_Decode dec (Some v) s = Panicked
    else exists s2, Decode types gob_Decode dec (Some v) s = Done (s2, gob_Decode dec (Some v)) /\
      checked s2 = checked s1 /\ errorCount s2 = errorCount s1 + zlen bad /\
      printed s2 = printed s1 ++
        (if errorCount s1 <? 1 then match bad with [] => [] | l :: _ => [NonDefault (l_what l)] end
         else []).
Proof.
  intros Hok Ht He. split; [done|].
  destruct (check_value_visits types v s Hok Ht) as (s1 & Hs1 & Hv). exists s1. split; [done|].
  assert (He1 : 0 <= errorCount s1).
  { pose proof (v_count _ _ _ _ _ Hv) as Hc. pose proof (v_printed _ _ _ _ _ Hv) as Hp.
    unfold zlen in Hc. rewrite Hp, length_app in Hc. lia. }
  cbn zeta. unfold Decode. rewrite Hs1. cbn [mbind Result_bind].
  rewrite (check_default_leaves v s1 He1). unfold report_leaves.
  destruct (existsb l_ro (leaves 3 RONone "" v)); [done|]. eexists. split; [done|].
  split_and!; [done|done|]. cbn. destruct (errorCount s1 <? 1); [done|by rewrite app_nil_r].
Qed.
End LabGobProps.

(** ** labrpc *)

Section LabRpcProps.
Context {Val R W : Type} `{!RpcCodec Val}.
Implicit Types (st : Rpc Val R W) (c : Call Val R W).

(** C9. In every execution, with every loss, delay, deletion of a server and
    change of the configuration, the handler of a call runs at most once; it
    runs on the argument the caller passed; and a call that returns true has
    run exactly once, the caller's variable holding the decoded reply of that
    run. *)
Theorem rpc_at_most_once st (k : nat) c (e : Key) (meth : string) (a : Val) :
  rreachable st -> calls st !! k = Some c ->
  c_req c = mkReq e meth (typeof a) (rpc_encode a) ->
  (length (runs k (execs st)) <= 1)%nat /\
  (forall v, c_pc c = Returned (Some v) ->
     exists x, runs k (execs st) = [x] /\ x_args x = a /\ rpc_decode (x_reply x) (c_var c) = (v, true)).
Proof.
  intros Hr Hk Hreq. destruct (call_inv_reachable st Hr) as [Hok _]. specialize (Hok k c Hk). split.
  - by apply call_ok_once in Hok.
  - intros v Hpc. unfold call_ok in Hok. rewrite Hpc in Hok.
    destruct Hok as (_ & t & r & x & Hx & (_ & Hrep & _ & Harg) & Hdec). exists x. split; [done|].
    rewrite <-Hrep, Hdec, Harg, Hreq. simpl. by rewrite rpc_decode_encode.
Qed.


(** C7. [Call] returns, except if the handler does not: from every state, the
    goroutines of a call alone bring it, in at most ten events, to its
    return, or to a handler that blocks on a live server, or to one of the
    fatal errors (unknown service or method, undecodable reply, a panic of
    the handler); and every event of a call lowers its measure except a look
    at a server that is alive. *)
Theorem call_completes (rnd : Z) st (k : nat) c :
  rreachable st -> calls st !! k = Some c ->
  (exists evs st', Forall (fun ev => own k ev = true) evs /\ (length evs <= 10)%nat /\
     rexec evs st = Ok st' /\ call_end rnd k st') /\
  (forall ev st', own k ev = true -> rstep ev st = Ok st' -> ~ tick_alive k ev st ->
     exists c', calls st' !! k = Some c' /\ (measure c' < measure c)%nat).
Proof.
  intros Hr Hk. split.
  - destruct (call_completes_aux (measure c) rnd st k c Hr Hk (le_n _)) as (evs & st' & Ho & Hl & He & Hend).
    exists evs, st'. pose proof (measure_bound c). split_and!; [done|lia|done|done].
  - intros ev st' Ho Hs Ht. destruct (own_step k ev st st' c Ho Hs Hk Ht) as (c' & xs & Hk' & Hcs).
    destruct (call_inv_reachable st Hr) as [Hok _]. exists c'. split; [done|].
    eapply call_step_measure; eauto.
Qed.

(** C32. On a reliable network, a call over an enabled end that is connected
    to a registered server does not fail as long as the configuration of the
    network does not change, whatever all other calls do. *)
Theorem reliable_call (evs : list (RpcEvent Val R W)) st st' (k : nat) c (sn : Key) (rs : nat) :
  rreachable st -> calls st !! k = Some c -> c_pc c = Sending ->
  connected (endname (c_req c)) sn rs (net st) ->
  forallb undisturbed evs = true -> rexec evs st = Ok st' ->
  exists c', calls st' !! k = Some c' /\ c_pc c' <> Returned None /\
    (returned c' -> length (runs k (execs st')) = 1%nat).
Proof.
  intros Hr Hk Hpc Hcn Hq He.
  destruct (reliable_exec evs st st' sn rs k c Hq Hr He Hk Hcn) as (c' & Hk' & _ & _ & Hok).
  { unfold reliable_ok. by rewrite Hpc. }
  exists c'. split; [done|]. unfold reliable_ok in Hok.
  destruct (call_inv_reachable st' (rexec_reachable _ _ _ Hr He)) as [Hinv _]. specialize (Hinv k c' Hk').
  unfold call_ok in Hinv. split; [intros E; by rewrite E in Hok|].
  intros [[v|] E]; rewrite E in Hok, Hinv; [|done].
  destruct Hinv as (_ & t & r & x & -> & _). done.
Qed.

(** C33. A request over an end that is disabled, not connected, or connected
    to a name without a server never reaches a handler: after a delay of less
    than seven seconds the call returns false, whatever happens to the
    configuration meanwhile. *)
Theorem unreachable_never_executes (evs : list (RpcEvent Val R W)) st st1 st2 (k : nat) c (rnd : Z) :
  let i := readEndnameInfo (endname (c_req c)) (net st) in
  rreachable st -> calls st !! k = Some c ->
  i_enabled i = false \/ i_servername i = None \/ i_server i = None ->
  rstep (RRead k rnd) st = Ok st1 -> rexec evs st1 = Ok st2 ->
  runs k (execs st2) = [] /\
  exists c', calls st2 !! k = Some c' /\
    ((exists ms, c_pc c' = Expiring ms /\ 0 <= ms < 7000) \/ c_pc c' = Returned None).
Proof.
  intros i Hr Hk Hi Hs He. assert (Hr1 : rreachable st1) by (by eapply rreach_step).
  assert (exists c1, calls st1 !! k = Some c1 /\ dead_end c1) as (c1 & Hk1 & Hd1).
  { destruct (call_inv_reachable st Hr) as [Hok _]. specialize (Hok k c Hk).
    cbn [rstep] in Hs. unfold step_read in Hs. rewrite Hk in Hs. simpl in Hs.
    destruct (c_pc c) eqn:Hpc; try done. injection Hs as <-. simpl.
    eexists. split; [by apply list_lookup_insert_eq; eapply lookup_lt_Some|].
    unfold call_ok in Hok. rewrite Hpc in Hok. destruct Hok as [Hh _]. split; [done|]. left. simpl.
    unfold read_info. fold i. exists (if n_longDelays (net st) then rnd mod 7000 else rnd mod 100).
    split; [|apply mod_lt_7000]. destruct (i_enabled i), (i_servername i), (i_server i); naive_solver. }
  destruct (dead_end_exec evs st1 st2 k c1 He Hk1 Hd1) as (c2 & Hk2 & Hh2 & Hpc2).
  split; [|eauto].
  destruct (call_inv_reachable st2 (rexec_reachable _ _ _ Hr1 He)) as [Hok _]. specialize (Hok k c2 Hk2).
  unfold call_ok in Hok. destruct Hpc2 as [(ms & Hpc & _)|Hpc]; rewrite Hpc, ?Hh2 in Hok; naive_solver.
Qed.

(** [GetTotalCount] is the number of requests the network has taken, kept
    in 32 bits: exact below 2^31, and negative from there to 2^32. *)
Theorem total_count_wraps (evs : list (RpcEvent Val R W)) (w : W) st :
  rexec evs (rinit w) = Ok st ->
  - 2 ^ 31 <= GetTotalCount (net st) < 2 ^ 31 /\
  (sends evs < 2 ^ 31 -> GetTotalCount (net st) = sends evs) /\
  (2 ^ 31 <= sends evs < 2 ^ 32 -> GetTotalCount (net st) < 0).
Proof.
  intros He. unfold GetTotalCount. rewrite (rexec_count evs _ _ He) by done.
  change (n_count (net (rinit w))) with 0. rewrite Z.add_0_l.
  pose proof (zlen_nonneg (List.filter is_send evs)) as Hnn. fold (sends evs) in Hnn.
  pose proof (Z.mod_pos_bound (sends evs + 2 ^ 31) (2 ^ 32) ltac:(lia)). split_and!.
  - unfold int32. lia.
  - unfold int32. lia.
  - intros. apply int32_id. lia.
  - intros. unfold int32. rewrite Zmod_eq by lia.
    replace ((sends evs + 2 ^ 31) / 2 ^ 32) with 1; [lia|].
    apply Z.div_unique with (sends evs + 2 ^ 31 - 2 ^ 32); lia.
Qed.

(** A service offers exactly the methods of its receiver that are
    exported, take two arguments besides the receiver, the second of them a
    pointer, and return nothing. *)
Theorem service_methods (rcvr : Rcvr Val R W) (name : string) (m : Method Val R W) :
  NoDup (m_Name <$> rc_methods rcvr) ->
  s_methods (MakeService rcvr) !! name = Some m <->
  m ∈ rc_methods rcvr /\ m_Name m = name /\ m_PkgPath m = "" /\ length (m_In m) = 3%nat /\
  (exists t, m_In m !! 2%nat = Some t /\ in_ptr t = true) /\ m_NumOut m = 0%nat.
Proof.
  intros Hnd. cbn [MakeService s_methods]. rewrite methods_fold; [|done|].
  - rewrite is_handler_spec, lookup_empty. naive_solver.
  - intros. apply lookup_empty.
Qed.
End LabRpcProps.

(** A name in a call is split at its last dot: service and method come
    back as they were put together, dots in the service name included; a name
    without a dot panics. *)
Theorem svcMeth_roundtrip (svc meth : string) :
  dot_char ∉ String.list_ascii_of_string meth ->
  split_svcMeth (String.append svc (String.append "." meth)) = Some (svc, meth) /\
  split_svcMeth meth = None.
Proof.
  intros Hm. unfold split_svcMeth, LastIndex. split.
  - rewrite !list_ascii_app. change (String.list_ascii_of_string ".") with [dot_char].
    cbn [app]. rewrite last_index_app by done. rewrite Z.add_0_l.
    set (l := String.list_ascii_of_string svc). set (l' := String.list_ascii_of_string meth).
    assert (Ht : ztake (l ++ dot_char :: l') (zlen l) = Some l).
    { apply ztake_Some. rewrite zlen_app, zlen_cons. pose proof (zlen_nonneg l). pose proof (zlen_nonneg l').
      split; [lia|]. unfold zlen. rewrite Nat2Z.id. by rewrite take_app_length. }
    assert (Hd : zdrop (l ++ dot_char :: l') (zlen l + 1) = Some l').
    { apply zdrop_Some. rewrite zlen_app, zlen_cons. pose proof (zlen_nonneg l). pose proof (zlen_nonneg l').
      split; [lia|]. unfold zlen. replace (Z.to_nat (Z.of_nat (length l) + 1)) with (length l + 1)%nat by lia.
      rewrite drop_app_add. done. }
    rewrite Ht, Hd. cbn [mbind option_bind]. unfold l, l'.
    by rewrite !String.string_of_list_ascii_of_string.
  - by rewrite last_index_none.
Qed.

(** ** Raft over labrpc *)

Section RaftNetProps.
Context `{GobCodec} `{RaftCodec}.
Variable n : nat.

Lemma nexec_reachable evs s s' : nreachable n s -> nexec n evs s = Ok s' -> nreachable n s'.
Proof.
  revert s. induction evs as [|ev evs IH]; intros s Hr He; [by injection He as <-|].
  simpl in He. apply bind_Ok in He as (s1 & Hs & He). eapply IH; [|done]. by eapply nreach_step.
Qed.

(** All events of a run are clean. *)
Fixpoint clean_nrun (evs : list NEvent) (s : RaftNet) : bool :=
  match evs with
  | [] => true
  | ev :: evs => clean_net n ev s && match nstep n ev s with Ok s' => clean_nrun evs s' | _ => true end
  end.

Lemma nexec_clean evs s0 s s' :
  nclean_steps n s0 s -> clean_nrun evs s = true -> nexec n evs s = Ok s' -> nclean_steps n s0 s'.
Proof.
  revert s. induction evs as [|ev evs IH]; intros s Hr Hcl He; simpl in *; [by injection He as <-|].
  apply andb_true_iff in Hcl as [Hcl Hrest]. destruct (nstep n ev s) as [| |s1] eqn:Hs; try done.
  eapply IH; [|exact Hrest|exact He]. eapply nclean_step; [exact Hr|exact Hcl|exact Hs].
Qed.

(** C2. Raft over labrpc refines the cluster.  In every execution of Raft
    instances that call each other through the RPC network, with a tester
    that disconnects, kills and restarts them while the killed instances run
    on, the current instances are the peers of a reachable state of
    [Cluster], with the same history of votes and elections, and every
    request that can still be executed and every reply that can still be
    received is a message in flight there. *)
Theorem raft_refines_cluster (s : RaftNet) :
  nreachable n s ->
  exists c, reachable n c /\
    (forall i r it, cur (world (rpc s)) !! i = Some (Some r) -> insts (world (rpc s)) !! r = Some it ->
       nodes c !! i = Some (in_node it)) /\
    granted c = w_granted (world (rpc s)) /\ won c = w_won (world (rpc s)) /\
    inflight s ⊆+ Cluster.net c.
Proof.
  intros Hr. destruct (sim_reachable n s Hr) as (c & Hc & [Hw Hnet]). exists c.
  split_and!; [done|..|done].
  - intros i r it. apply (ws_cur _ _ _ Hw).
  - exact (ws_granted _ _ _ Hw).
  - exact (ws_won _ _ _ Hw).
Qed.

(** Over labrpc as well, restarts included, no server grants the votes of one
    term to two candidates other than itself. *)
Theorem vote_once_over_labrpc (s : RaftNet) (v k k' : nat) (t : Z) :
  nreachable n s -> (v, t, k) ∈ w_granted (world (rpc s)) -> (v, t, k') ∈ w_granted (world (rpc s)) ->
  k <> v -> k' <> v -> k = k'.
Proof.
  intros Hr. destruct (sim_reachable n s Hr) as (c & Hc & [Hw _]). rewrite <-(ws_granted _ _ _ Hw).
  apply (vo_once _ (reachable_votes n c Hc)).
Qed.

(** C3. Election safety over labrpc.  Take an execution of Raft instances over
    the RPC network with a tester that cuts off, kills and restarts them, in
    which no server that leads is demoted by its own timer or killed and no
    server wins an election in a term it did not campaign for.  A server that
    leads a term at one moment and a server that leads the same term at any
    later moment are the same. *)
Theorem election_safety_over_labrpc (s s' : RaftNet) (i j : nat) (t : Z) :
  nclean_reachable n s -> nclean_steps n s s' ->
  leads_net t s i = true -> leads_net t s' j = true -> i = j.
Proof. apply one_leader_per_term. Qed.

(** C22. An instance that was replaced cannot send: no call it makes after
    that is executed by anyone, and none returns true. *)
Theorem replaced_instance_cut_off (s : RaftNet) (k : nat) (c : Call Payload nat World) (me : Meta) (v : Payload) :
  nreachable n s -> calls (rpc s) !! k = Some c -> metas s !! k = Some me -> me_fresh me = false ->
  runs k (execs (rpc s)) = [] /\ c_pc c <> Returned (Some v).
Proof.
  intros Hr Hk Hme Hf. pose proof (wf_reachable n s Hr) as Hwf.
  destruct (wc_stale _ _ _ _ (wf_calls s Hwf k c me Hk Hme) Hf) as [Hh Hpc].
  destruct (call_inv_reachable (rpc s) (tidy_rreachable _ (wf_tidy s Hwf))) as [Hok _].
  specialize (Hok k c Hk). unfold call_ok in Hok. rewrite Hh in Hok.
  destruct (c_pc c) as [| | | | | | |[?|]]; try done; destruct_and?; split; congruence.
Qed.
End RaftNetProps.

(** ** Instances *)

(** Three servers over the network, all ends enabled. *)
Definition names (g : nat) : list Key :=
  [KInt (Z.of_nat (10 * g)); KInt (Z.of_nat (10 * g + 1)); KInt (Z.of_nat (10 * g + 2))].
Definition pairs : list (nat * nat) := i ← seq 0 3; j ← seq 0 3; [(i, j)].
Definition boot : list NEvent :=
  (i ← seq 0 3; [NMake i (names (S i)) 5; NAdd i]) ++ ((fun '(i, j) => NEnable i j true) <$> pairs).

(** Call [k] from its request to its reply, without loss. *)
Definition served (k : nat) : list NEvent :=
  [NRpc (RSend k); NRpc (RRead k 3); NRpc (RStart k 3); NRpc (RDispatch k); NRpc (RHandle k 4);
   NRpc (RReply k); NRpc (RFinish k 1 1 1 1)].

(** Server 0 campaigns (calls 0 and 1) and gets the vote of server 1. *)
Definition campaign : list NEvent :=
  boot ++ [NLocal 0 LTimer; NLocal 0 (LElection 7)] ++ served 0 ++ [NResult 0 6].

(** Server 0 is cut off and replaced by instance 3; the old instance wins its
    election all the same and sends a heartbeat (call 2). *)
Definition replaced : list NEvent :=
  campaign ++ [NEnable 0 0 false; NEnable 0 1 false; NEnable 0 2 false;
    NDelete 0; NSave 0; NMake 0 (names 4) 5; NAdd 0;
    NLocal 0 (LCallFail 2 6); NLocal 0 (LElectionEnd 4); NLocal 0 LElectionWon;
    NLocal 0 LTimer; NLocal 0 LBeatTick; NLocal 0 (LBeatH 2); NLocal 0 (LBeatH 2)].

Definition run_net (evs : list NEvent) : Outcome RaftNet :=
  nexec (H := Wire.gob_wire) (H0 := gob_raft_codec (H := Wire.gob_wire)) 3 evs (ninit 3).
Definition net_state (evs : list NEvent) : RaftNet :=
  match run_net evs with Ok s => s | _ => ninit 3 end.
Definition net_ok (evs : list NEvent) : bool := match run_net evs with Ok _ => true | _ => false end.

Local Notation wire := Wire.gob_wire.
Local Notation codec := (gob_raft_codec (H := Wire.gob_wire)).
Local Notation rcodec := (gob_rpc_codec (H := Wire.gob_wire)).

Lemma net_reachable evs : net_ok evs = true -> nreachable (H := wire) (H0 := codec) 3 (net_state evs).
Proof.
  unfold net_ok, net_state. destruct (run_net evs) as [| |s] eqn:E; try done.
  intros _. eapply nexec_reachable; [|exact E]. constructor.
Qed.

(** Server 0 wins term 1; then its heartbeats to servers 1 and 2 (calls 2 and 3). *)
Definition elected : list NEvent :=
  campaign ++ [NLocal 0 (LCallFail 2 6); NLocal 0 (LElectionEnd 4); NLocal 0 LElectionWon].
Definition heartbeats : list NEvent :=
  [NLocal 0 (LBeatE 2); NLocal 0 (LBeatE 2)] ++ served 2 ++ [NResult 2 6; NLocal 0 (LBeatE 2)] ++ served 3 ++
  [NResult 3 6].

Definition net_clean (evs evs' : list NEvent) : bool :=
  net_ok (evs ++ evs') && clean_nrun (H := wire) (H0 := codec) 3 evs' (net_state evs).

Lemma nexec_app evs evs' s :
  nexec (H := wire) (H0 := codec) 3 (evs ++ evs') s =
  (s' ← nexec (H := wire) (H0 := codec) 3 evs s; nexec (H := wire) (H0 := codec) 3 evs' s').
Proof.
  revert s. induction evs as [|ev evs IH]; intros s; [done|]. simpl. destruct (nstep 3 ev s); [done|done|apply IH].
Qed.

Lemma net_steps evs evs' :
  net_clean evs evs' = true -> nclean_steps (H := wire) (H0 := codec) 3 (net_state evs) (net_state (evs ++ evs')).
Proof.
  unfold net_clean, net_ok, net_state, run_net. rewrite nexec_app. intros [Hok Hcl]%andb_true_iff.
  destruct (nexec 3 evs (ninit 3)) as [| |s] eqn:E; try done. simpl in *.
  destruct (nexec 3 evs' s) as [| |s'] eqn:E'; try done.
  eapply nexec_clean; [constructor|exact Hcl|exact E'].
Qed.

Lemma rpc_tidy evs : net_ok evs = true -> tidy_reachable (RpcCodec0 := rcodec) (rpc (net_state evs)).
Proof.
  intros Hok%net_reachable. exact (wf_tidy _ (wf_reachable (H := wire) (H0 := codec) 3 _ Hok)).
Qed.

Lemma rpc_reach evs : net_ok evs = true -> rreachable (RpcCodec0 := rcodec) (rpc (net_state evs)).
Proof. intros Hok. apply tidy_rreachable. by apply rpc_tidy. Qed.

(** The call with a given number. *)
Definition call_of (evs : list NEvent) (k : nat) : Call Payload nat World :=
  default (mkCall (mkReq (KInt 0) "" 0 []) (PVoteRep (mkVoteReply 0 false)) Sending HNone)
    (calls (rpc (net_state evs)) !! k).

Lemma call_of_lookup evs k :
  bool_decide (is_Some (calls (rpc (net_state evs)) !! k)) = true ->
  calls (rpc (net_state evs)) !! k = Some (call_of evs k).
Proof. unfold call_of. by destruct (calls _ !! k). Qed.

(** All types of the tables below are in ASCII. *)
Definition ascii_upper : UpperTable := fun _ => false.

(** [T4] of [labgob/test_test.go] and [[]map[*T4]int]. *)
Definition T4_types : list RType :=
  [TBasic Int "int"; TStruct "T4" [field "Yes" 0; field "no" 0]; TPtr 1; TMap 2 0; TSlice 3].
Definition T4_value (yes no : Z) : GoValue :=
  VPtr 2 (Some (VStruct 1 [(field "Yes" 0, VBasic 0 "int" (BInt yes)); (field "no" 0, VBasic 0 "int" (BInt no))])).

Lemma check_type_correct_witness :
  exists s', checkType (H := ascii_upper) T4_types 6 4 labgob_init = Done s' /\
    1%nat ∈ checked s' /\ errorCount s' = 1.
Proof.
  destruct (check_type_correct (H := ascii_upper) T4_types 4 labgob_init) as (s' & Hs & Hc & _ & He & _);
    [by apply types_okb_spec|by eexists|].
  exists s'. split; [apply Hs; simpl; lia|]. split.
  - apply Hc. right.
    eapply (reaches_step _ _ _ 2); [|reflexivity|by constructor|set_solver].
    eapply (reaches_step _ _ _ 3); [|reflexivity|by right; constructor|set_solver].
    eapply (reaches_step _ _ _ 4); [constructor; set_solver|reflexivity|by constructor|set_solver].
  - assert (E : checkType (H := ascii_upper) T4_types 6 4 labgob_init = Done s') by (apply Hs; simpl; lia).
    vm_compute in E. injection E as <-. done.
Defined.

Lemma raft_types_exported_witness :
  (9 < length raft_types)%nat /\
  exists s', checkType (H := ascii_upper) raft_types 14 9 labgob_init = Done s' /\
    printed s' ≡ₚ [] /\ errorCount s' = 0.
Proof.
  split; [simpl; lia|].
  refine (raft_types_exported (H := ascii_upper) 9 labgob_init _). simpl; lia.
Defined.

Lemma decode_checked_witness :
  Decode (H := ascii_upper) T4_types (fun (_ : unit) v => (tt, v, @None unit)) tt (Some (T4_value 1 2)) labgob_init
  = Panicked.
Proof.
  destruct (decode_checked (H := ascii_upper) T4_types (fun (_ : unit) v => (tt, v, @None unit)) tt
    (T4_value 1 2) labgob_init) as [_ (s1 & _ & Hp)]; [by apply types_okb_spec|by eexists|done|exact Hp].
Defined.

Lemma rpc_at_most_once_witness :
  exists x, runs 0 (execs (rpc (net_state campaign))) = [x] /\
    x_args x = PVoteReq (mkVoteArgs 1 0 0 0).
Proof.
  destruct (rpc_at_most_once (RpcCodec0 := rcodec) (rpc (net_state campaign)) 0 (call_of campaign 0) (KInt 11)
    "Raft.RequestVote" (PVoteReq (mkVoteArgs 1 0 0 0))) as [_ Hx];
    [apply rpc_reach; by vm_compute|apply call_of_lookup; by vm_compute|by vm_compute|].
  destruct (Hx (PVoteRep (mkVoteReply 0 true))) as (x & Hr & Ha & _); [by vm_compute|].
  exists x. split; [exact Hr|exact Ha].
Defined.


Lemma call_completes_witness :
  exists evs st', Forall (fun ev => own 1 ev = true) evs /\ (length evs <= 10)%nat /\
    rexec (RpcCodec0 := rcodec) evs (rpc (net_state campaign)) = Ok st' /\ call_end (RpcCodec0 := rcodec) 3 1 st'.
Proof.
  refine (proj1 (call_completes (RpcCodec0 := rcodec) 3 _ 1 (call_of campaign 1) (rpc_reach _ _) (call_of_lookup _ _ _)));
    by vm_compute.
Defined.

(** The network after server 0 has asked for votes, and call 0 all through. *)
Definition asked : list NEvent := boot ++ [NLocal 0 LTimer; NLocal 0 (LElection 7)].
Definition rpc_served (k : nat) : list (RpcEvent Payload nat World) :=
  [RSend k; RRead k 3; RStart k 3; RDispatch k; RHandle k 4; RReply k; RFinish k 1 1 1 1].
Definition after (evs : list (RpcEvent Payload nat World)) (st : Rpc Payload nat World) : Rpc Payload nat World :=
  match rexec (RpcCodec0 := rcodec) evs st with Ok st' => st' | _ => st end.

Definition runs_ok (evs : list (RpcEvent Payload nat World)) (st : Rpc Payload nat World) : bool :=
  match rexec (RpcCodec0 := rcodec) evs st with Ok _ => true | _ => false end.

Lemma after_exec evs st : runs_ok evs st = true -> rexec (RpcCodec0 := rcodec) evs st = Ok (after evs st).
Proof. unfold runs_ok, after. by destruct (rexec evs st). Qed.

Lemma after_step ev st : runs_ok [ev] st = true -> rstep (RpcCodec0 := rcodec) ev st = Ok (after [ev] st).
Proof. unfold runs_ok, after. simpl. by destruct (rstep ev st). Qed.

Lemma reliable_call_witness :
  exists c', calls (after (rpc_served 0) (rpc (net_state asked))) !! 0%nat = Some c' /\
    c_pc c' <> Returned None.
Proof.
  destruct (reliable_call (RpcCodec0 := rcodec) (rpc_served 0) (rpc (net_state asked))
    (after (rpc_served 0) (rpc (net_state asked))) 0 (call_of asked 0) (KInt 1) 1) as (c' & Hk & Hn & _).
  - apply rpc_reach; by vm_compute.
  - apply call_of_lookup; by vm_compute.
  - by vm_compute.
  - split; by vm_compute.
  - by vm_compute.
  - apply after_exec; by vm_compute.
  - exists c'. split; [exact Hk|exact Hn].
Defined.

(** Server 1 is disconnected before the request of call 0 is looked at. *)
Definition disconnected : list NEvent := asked ++ [NEnable 0 1 false; NRpc (RSend 0)].

Lemma unreachable_never_executes_witness :
  runs 0 (execs (after [RTimer 0] (after [RRead 0 12345] (rpc (net_state disconnected))))) = [].
Proof.
  refine (proj1 (unreachable_never_executes (RpcCodec0 := rcodec) [RTimer 0] (rpc (net_state disconnected))
    (after [RRead 0 12345] (rpc (net_state disconnected))) _ 0 (call_of disconnected 0) 12345
    (rpc_reach _ _) (call_of_lookup _ _ _) (or_introl _) (after_step _ _ _) (after_exec _ _ _))); by vm_compute.
Defined.

Lemma total_count_wraps_witness :
  GetTotalCount (net (after [RCall (mkEnd (KInt 1)) "Raft.RequestVote" (PVoteReq (mkVoteArgs 1 0 0 0))
    (PVoteRep (mkVoteReply 0 false)); RSend 0] (rinit (mkWorld [] [] [] 0 [] [])))) = 1.
Proof.
  refine (proj1 (proj2 (total_count_wraps (RpcCodec0 := rcodec)
    [RCall (mkEnd (KInt 1)) "Raft.RequestVote" (PVoteReq (mkVoteArgs 1 0 0 0))
      (PVoteRep (mkVoteReply 0 false)); RSend 0] (mkWorld [] [] [] 0 [] []) _ (after_exec _ _ _))) _); by vm_compute.
Defined.

Lemma service_methods_witness :
  s_methods (MakeService (raft_rcvr (H := wire) 2)) !! "Start" = None.
Proof.
  destruct (s_methods (MakeService (raft_rcvr (H := wire) 2)) !! "Start") as [m|] eqn:E; [|reflexivity].
  exfalso. apply (service_methods (raft_rcvr (H := wire) 2) "Start" m) in E.
  - destruct E as (Hin & Hn & _ & Hl & _).
    repeat (apply elem_of_cons in Hin as [-> |Hin]; [by vm_compute in Hn, Hl|]).
    by apply elem_of_nil in Hin.
  - apply (bool_decide_unpack _). by vm_compute.
Defined.

Lemma svcMeth_roundtrip_witness :
  split_svcMeth "kv.Raft.AppendEntries" = Some ("kv.Raft", "AppendEntries") /\
  split_svcMeth "AppendEntries" = None.
Proof.
  refine (svcMeth_roundtrip "kv.Raft" "AppendEntries" _). apply (bool_decide_unpack _). by vm_compute.
Defined.

Lemma raft_refines_cluster_witness :
  exists c, reachable (H := wire) 3 c /\ granted c = [(0%nat, 1, 0%nat); (1%nat, 1, 0%nat)].
Proof.
  destruct (raft_refines_cluster (H := wire) (H0 := codec) 3 (net_state campaign)) as (c & Hc & _ & Hg & _ & _);
    [apply net_reachable; by vm_compute|].
  exists c. split; [exact Hc|]. rewrite Hg. by vm_compute.
Defined.

Lemma vote_once_over_labrpc_witness :
  (1%nat, 1, 0%nat) ∈ w_granted (world (rpc (net_state replaced))) /\
  forall k, (1%nat, 1, k) ∈ w_granted (world (rpc (net_state replaced))) -> k <> 1%nat -> k = 0%nat.
Proof.
  assert (Hg : (1%nat, 1, 0%nat) ∈ w_granted (world (rpc (net_state replaced))))
    by (apply (bool_decide_unpack _); by vm_compute).
  split; [exact Hg|]. intros k Hk Hne.
  refine (vote_once_over_labrpc (H := wire) (H0 := codec) 3 _ 1 k 0 1 (net_reachable _ _) Hk Hg Hne _);
    [by vm_compute|discriminate].
Defined.

Lemma election_safety_over_labrpc_witness :
  leads_net 1 (net_state elected) 0 = true /\
  forall j, leads_net 1 (net_state (elected ++ heartbeats)) j = true -> 0%nat = j.
Proof.
  split; [by vm_compute|]. intros j Hj.
  refine (election_safety_over_labrpc (H := wire) (H0 := codec) 3 (net_state elected) _ 0 j 1 _ (net_steps _ _ _) _ Hj);
    [|by vm_compute|by vm_compute].
  apply (net_steps []). by vm_compute.
Defined.

Lemma replaced_instance_cut_off_witness :
  exists me, metas (net_state replaced) !! 2%nat = Some me /\ me_fresh me = false /\
    runs 2 (execs (rpc (net_state replaced))) = [].
Proof.
  eexists. split; [by vm_compute|]. split; [by vm_compute|].
  refine (proj1 (replaced_instance_cut_off (H := wire) (H0 := codec) 3 _ 2 (call_of replaced 2) _
    (PVoteRep (mkVoteReply 0 true)) (net_reachable _ _) (call_of_lookup _ _ _) _ _)); by vm_compute.
Defined.
