(* ===== verification/TesterProps.v ===== *)
(** * Properties of the tester

    Which ends are enabled ([conn_ok]), what the checker of applied commands
    guarantees ([logs_agree]), and what the checks of the tests say. *)

From S2P Require Import Prelude Gob GobWire Persister Raft Vote Entry Cluster ClusterInv Election ClusterProps.
From S2P Require Import LabRpc RaftNet RaftNetInv RaftNetSim ElectionNet Tester NetProps.

(** ** Connections *)

(** Whether server [i] is marked as connected. *)
Definition conn (cfg : config) (i : nat) : bool := default false (cfg_connected cfg !! i).

(** [cfg.endnames[i][j]], if it is there. *)
Definition end_of (cfg : config) (i j : nat) : option Key := ns ← mjoin (cfg_endnames cfg !! i); ns !! j.

Lemma endname_of_Ok cfg i j e : endname_of cfg i j = Ok e <-> end_of cfg i j = Some e.
Proof.
  unfold endname_of, end_of. destruct (cfg_endnames cfg !! i) as [[ns|]|]; simpl; try done.
  destruct (ns !! j); naive_solver.
Qed.

Record conn_ok (cfg : config) : Prop := {
  ck_conn : length (cfg_connected cfg) = cfg_n cfg;
  ck_len i ns : cfg_endnames cfg !! i = Some (Some ns) -> length ns = cfg_n cfg;
  ck_num : length (cfg_endnames cfg) = cfg_n cfg;
  ck_end i j e : end_of cfg i j = Some e ->
    n_connections (cfg_net cfg) !! e = Some (Some (server_name j)) /\
    n_enabled (cfg_net cfg) !! e = Some (conn cfg i && conn cfg j) /\
    is_Some (n_ends (cfg_net cfg) !! e);
  ck_inj i j i' j' e : end_of cfg i j = Some e -> end_of cfg i' j' = Some e -> i = i' /\ j = j';
}.

Lemma end_of_range cfg i j e : conn_ok cfg -> end_of cfg i j = Some e -> (i < cfg_n cfg)%nat /\ (j < cfg_n cfg)%nat.
Proof.
  intros Hok. unfold end_of. destruct (cfg_endnames cfg !! i) as [[ns|]|] eqn:E; simpl; try done.
  intros Hj. apply lookup_lt_Some in Hj. rewrite (ck_len _ Hok _ _ E) in Hj. split; [|done].
  rewrite <-(ck_num _ Hok). by eapply lookup_lt_Some.
Qed.

(** A network that differs in [enabled] only. *)
Definition same_but_enabled (rn rn' : Network) : Prop :=
  n_connections rn' = n_connections rn /\ n_ends rn' = n_ends rn.

(** The loops of [connect] and [disconnect] set the ends [T j] to [b]. *)
Lemma enable_loop (T : nat -> option Key) (b : bool) (f : nat -> Network -> Outcome Network) js rn rn' :
  (forall j rn rn', f j rn = Ok rn' ->
     (T j = None /\ rn' = rn) \/ exists e, T j = Some e /\ rn' = Enable e b rn) ->
  for_each f js rn = Ok rn' ->
  same_but_enabled rn rn' /\
  forall e, n_enabled rn' !! e = if bool_decide (Some e ∈ T <$> js) then Some b else n_enabled rn !! e.
Proof.
  intros Hf. revert rn. induction js as [|j js IH]; intros rn He; cbn [for_each] in He.
  { injection He as <-. split; [done|]. intros e. by rewrite bool_decide_eq_false_2 by set_solver. }
  apply bind_Ok in He as (rn1 & H1 & He). destruct (IH _ He) as [[E1 E2] E3].
  destruct (Hf _ _ _ H1) as [[HT ->]|(e0 & HT & ->)]; (split; [done|]); intros e; rewrite E3, fmap_cons, HT.
  - case_bool_decide as Hin; case_bool_decide as Hin'; set_solver.
  - simpl. destruct (decide (e = e0)) as [->|Hne].
    + rewrite lookup_insert_eq, (bool_decide_eq_true_2 (_ ∈ Some e0 :: _)) by set_solver. by case_bool_decide.
    + rewrite lookup_insert_ne by done. case_bool_decide as Hin; case_bool_decide as Hin'; set_solver.
Qed.

Lemma elem_of_loop (P : nat -> bool) (F : nat -> option Key) n e :
  Some e ∈ (fun j => if P j then F j else None) <$> seq 0 n <->
  exists j, (j < n)%nat /\ P j = true /\ F j = Some e.
Proof.
  rewrite list_elem_of_fmap. split.
  - intros (j & Hj & Hin). apply elem_of_seq in Hin. exists j. destruct (P j); [|done]. split; [lia|done].
  - intros (j & Hlt & HP & HF). exists j. rewrite HP, HF. split; [done|]. apply elem_of_seq. lia.
Qed.

(** Updating [connected] and [enabled] together. *)
Lemma conn_ok_update cfg cs rn b i :
  conn_ok cfg -> (i < cfg_n cfg)%nat -> cs = <[i := b]> (cfg_connected cfg) ->
  same_but_enabled (cfg_net cfg) rn ->
  (forall a c e, end_of cfg a c = Some e ->
     n_enabled rn !! e =
       Some (default false (cs !! a) && default false (cs !! c))) ->
  conn_ok (set_cfg_net rn (set_cfg_connected cs cfg)).
Proof.
  intros [Hc Hl Hn He Hi] Hlt -> [E1 E2] Hen. split; simpl; try done.
  - by rewrite length_insert.
  - intros a c e Hac. destruct (He a c e Hac) as (? & _ & ?). rewrite E1, E2. split_and!; try done.
    by apply Hen.
Qed.

Lemma connect_ok i cfg cfg' : conn_ok cfg -> connect i cfg = Ok cfg' -> conn_ok cfg'.
Proof.
  intros Hok Hs. unfold connect in Hs. apply bind_Ok in Hs as (cs & Hcs & Hs).
  unfold assign in Hcs. destruct (Nat.ltb i _) eqn:Hlt; [|done]. injection Hcs as <-.
  apply Nat.ltb_lt in Hlt.
  apply bind_Ok in Hs as (rn1 & H1 & Hs). apply bind_Ok in Hs as (rn2 & H2 & [= <-]).
  set (cs := <[i := true]> (cfg_connected cfg)) in *. simpl in *.
  apply (enable_loop (fun j => if default false (cs !! j) then end_of cfg i j else None) true) in H1 as [E1 D1].
  2: { intros j rn rn' Hf. unfold enable_if_connected in Hf. simpl in Hf. outcome_inv.
       - match goal with E : cs !! j = _ |- _ => rewrite E end.
         match goal with E : endname_of _ _ _ = Ok _ |- _ => apply endname_of_Ok in E end. simpl. eauto.
       - match goal with E : cs !! j = _ |- _ => rewrite E end. simpl. by left. }
  apply (enable_loop (fun j => if default false (cs !! j) then end_of cfg j i else None) true) in H2 as [E2 D2].
  2: { intros j rn rn' Hf. unfold enable_if_connected in Hf. simpl in Hf. outcome_inv.
       - match goal with E : cs !! j = _ |- _ => rewrite E end.
         match goal with E : endname_of _ _ _ = Ok _ |- _ => apply endname_of_Ok in E end. simpl. eauto.
       - match goal with E : cs !! j = _ |- _ => rewrite E end. simpl. by left. }
  eapply (conn_ok_update cfg cs); [done|by rewrite <-(ck_conn _ Hok)|done| |].
  { destruct E1, E2. split; congruence. }
  intros a c e Hac. rewrite D2, D1. destruct (end_of_range _ _ _ _ Hok Hac) as [Ha Hc].
  assert (Hi : default false (cs !! i) = true) by (unfold cs; by rewrite list_lookup_insert_eq).
  assert (Hne : forall j, j <> i -> default false (cs !! j) = conn cfg j)
    by (intros j Hj; unfold cs, conn; by rewrite list_lookup_insert_ne).
  destruct (ck_end _ Hok _ _ _ Hac) as (_ & Hen & _).
  case_bool_decide as Hin; [|case_bool_decide as Hout]; rewrite ?elem_of_loop in *.
  - destruct Hin as (j & _ & HP & HF). destruct (ck_inj _ Hok _ _ _ _ _ Hac HF) as [-> ->].
    by rewrite HP, Hi.
  - destruct Hout as (j & _ & HP & HF). destruct (ck_inj _ Hok _ _ _ _ _ Hac HF) as [-> ->].
    by rewrite HP, Hi.
  - rewrite Hen. f_equal. destruct (decide (a = i)) as [->|Hai].
    + destruct (default false (cs !! c)) eqn:Hcc; [by destruct Hout; eauto|].
      destruct (decide (c = i)) as [->|Hci]; [congruence|]. rewrite <-(Hne c), Hcc by done.
      by rewrite !andb_false_r.
    + destruct (decide (c = i)) as [->|Hci]; [|by rewrite !Hne].
      destruct (default false (cs !! a)) eqn:Hca; [by destruct Hin; eauto|].
      rewrite <-(Hne a), Hca by done. done.
Qed.

Lemma disconnect_ok i cfg cfg' :
  conn_ok cfg -> disconnect i cfg = Ok cfg' ->
  conn_ok cfg' /\ (i < cfg_n cfg)%nat /\ conn cfg' i = false /\ cfg_n cfg' = cfg_n cfg /\
  cfg_endnames cfg' = cfg_endnames cfg.
Proof.
  intros Hok Hs. unfold disconnect in Hs. apply bind_Ok in Hs as (cs & Hcs & Hs).
  unfold assign in Hcs. destruct (Nat.ltb i _) eqn:Hlt; [|done]. injection Hcs as <-.
  apply Nat.ltb_lt in Hlt.
  apply bind_Ok in Hs as (rn1 & H1 & Hs). apply bind_Ok in Hs as (rn2 & H2 & [= <-]).
  set (cs := <[i := false]> (cfg_connected cfg)) in *. simpl in *.
  assert (Hstep : forall (a c : nat -> nat) j rn rn',
    disable_if_made (set_cfg_connected cs cfg) (a j) (c j) rn = Ok rn' ->
    (end_of cfg (a j) (c j) = None /\ rn' = rn) \/
    exists e, end_of cfg (a j) (c j) = Some e /\ rn' = Enable e false rn).
  { intros a c j rn rn' Hf. unfold disable_if_made in Hf. simpl in Hf. outcome_inv.
    - match goal with E : endname_of _ _ _ = Ok _ |- _ => apply endname_of_Ok in E end. right. eauto.
    - left. unfold end_of. match goal with E : cfg_endnames cfg !! _ = _ |- _ => rewrite E end. done. }
  apply (enable_loop (fun j => end_of cfg i j) false) in H1 as [E1 D1];
    [|exact (Hstep (fun _ => i) (fun j => j))].
  apply (enable_loop (fun j => end_of cfg j i) false) in H2 as [E2 D2];
    [|exact (Hstep (fun j => j) (fun _ => i))].
  assert (Hi : default false (cs !! i) = false) by (unfold cs; by rewrite list_lookup_insert_eq).
  split_and!; [|by rewrite <-(ck_conn _ Hok)|exact Hi|done|done].
  eapply (conn_ok_update cfg cs); [done|by rewrite <-(ck_conn _ Hok)|done| |].
  { destruct E1, E2. split; congruence. }
  intros a c e Hac. rewrite D2, D1. destruct (end_of_range _ _ _ _ Hok Hac) as [Ha Hc].
  assert (Hne : forall j, j <> i -> default false (cs !! j) = conn cfg j)
    by (intros j Hj; unfold cs, conn; by rewrite list_lookup_insert_ne).
  destruct (ck_end _ Hok _ _ _ Hac) as (_ & Hen & _).
  case_bool_decide as Hin; [|case_bool_decide as Hout].
  - apply list_elem_of_fmap in Hin as (j & HF & _).
    destruct (ck_inj _ Hok _ _ _ _ _ Hac (eq_sym HF)) as [-> ->]. by rewrite Hi, andb_false_r.
  - apply list_elem_of_fmap in Hout as (j & HF & _).
    destruct (ck_inj _ Hok _ _ _ _ _ Hac (eq_sym HF)) as [-> ->]. by rewrite Hi.
  - assert (a <> i). { intros ->. apply Hout, list_elem_of_fmap. exists c. split; [done|]. apply elem_of_seq. lia. }
    assert (c <> i). { intros ->. apply Hin, list_elem_of_fmap. exists a. split; [done|]. apply elem_of_seq. lia. }
    by rewrite Hen, !Hne.
Qed.

(** What an operation may change without touching the connections. *)
Lemma conn_ok_ext cfg cfg' :
  cfg_connected cfg' = cfg_connected cfg -> cfg_endnames cfg' = cfg_endnames cfg -> cfg_n cfg' = cfg_n cfg ->
  n_connections (cfg_net cfg') = n_connections (cfg_net cfg) ->
  n_enabled (cfg_net cfg') = n_enabled (cfg_net cfg) -> n_ends (cfg_net cfg') = n_ends (cfg_net cfg) ->
  conn_ok cfg -> conn_ok cfg'.
Proof.
  destruct cfg, cfg'. simpl. intros -> -> -> E1 E2 E3 [Hc Hl Hn He Hi]. split; try done.
  unfold conn, end_of in *. simpl in *. by rewrite E1, E2, E3.
Qed.

Lemma crash1_ok i cfg cfg' :
  conn_ok cfg -> crash1 i cfg = Ok cfg' ->
  conn_ok cfg' /\ (i < cfg_n cfg')%nat /\ conn cfg' i = false /\ cfg_n cfg' = cfg_n cfg.
Proof.
  intros Hok Hs. unfold crash1 in Hs. apply bind_Ok in Hs as (c1 & H1 & Hs).
  destruct (disconnect_ok _ _ _ Hok H1) as (Hok1 & Hi & Hc & Hn & _).
  apply bind_Ok in Hs as (o & _ & Hs). apply bind_Ok in Hs as (rs & _ & Hs).
  apply bind_Ok in Hs as (ps & _ & [= <-]). simpl. split_and!; [|lia|exact Hc|done].
  by eapply conn_ok_ext, Hok1.
Qed.

Lemma make_client_ends_ok names : forall j rn rn',
  make_client_ends j names rn = Ok rn' ->
  NoDup names /\ (forall e, e ∈ names -> n_ends rn !! e = None) /\
  (forall k e, names !! k = Some e ->
     n_connections rn' !! e = Some (Some (server_name (j + k))) /\ n_enabled rn' !! e = Some false /\
     is_Some (n_ends rn' !! e)) /\
  (forall e, e ∉ names ->
     n_connections rn' !! e = n_connections rn !! e /\ n_enabled rn' !! e = n_enabled rn !! e /\
     n_ends rn' !! e = n_ends rn !! e).
Proof.
  induction names as [|e0 names IH]; intros j rn rn' Hs; cbn [make_client_ends] in Hs.
  { injection Hs as <-. split_and!; [constructor|set_solver|done|done]. }
  apply bind_Ok in Hs as ([rn1 c] & H1 & Hs). unfold MakeEnd in H1.
  destruct (n_ends rn !! e0) eqn:He0; [done|]. injection H1 as <- <-.
  apply IH in Hs as (Hnd & Hfr & Hin & Hout). simpl in *.
  assert (Hnew : e0 ∉ names).
  { intros Hi. specialize (Hfr _ Hi). by rewrite lookup_insert_eq in Hfr. }
  split_and!.
  - by constructor.
  - intros e [->|He]%elem_of_cons; [done|]. specialize (Hfr _ He).
    by rewrite lookup_insert_ne in Hfr by (by intros ->).
  - intros [|k] e Hk; simpl in Hk.
    + injection Hk as <-. destruct (Hout e0 Hnew) as (-> & -> & ->).
      rewrite !lookup_insert_eq, Nat.add_0_r. split_and!; [done|done|eauto].
    + replace (j + S k)%nat with (S j + k)%nat by lia. by apply Hin.
  - intros e He. apply not_elem_of_cons in He as [Hne He]. destruct (Hout e He) as (-> & -> & ->).
    by rewrite !lookup_insert_ne.
Qed.

Lemma end_of_insert cfg i ns a c :
  (i < length (cfg_endnames cfg))%nat ->
  end_of (set_cfg_endnames (<[i := Some ns]> (cfg_endnames cfg)) cfg) a c =
  if decide (a = i) then ns !! c else end_of cfg a c.
Proof.
  intros Hi. unfold end_of. simpl. destruct (decide (a = i)) as [->|Hne].
  - by rewrite list_lookup_insert_eq.
  - by rewrite list_lookup_insert_ne.
Qed.

(** New ends for a server that is not connected. *)
Lemma conn_ok_new_ends cfg i names rn :
  conn_ok cfg -> (i < cfg_n cfg)%nat -> conn cfg i = false -> length names = cfg_n cfg ->
  make_client_ends 0 names (cfg_net cfg) = Ok rn ->
  conn_ok (set_cfg_net rn (set_cfg_endnames (<[i := Some names]> (cfg_endnames cfg)) cfg)).
Proof.
  intros [Hc Hl Hn He Hi] Hlt Hco Hlen Hs. apply make_client_ends_ok in Hs as (Hnd & Hfr & Hin & Hout).
  set (cfg' := set_cfg_net _ _).
  assert (HE : forall a c, end_of cfg' a c = if decide (a = i) then names !! c else end_of cfg a c)
    by (intros; apply end_of_insert; lia).
  assert (Hold : forall a c e, end_of cfg a c = Some e -> e ∉ names).
  { intros a c e Hac Hn'. apply Hfr in Hn'. destruct (He _ _ _ Hac) as (_ & _ & [? ?]). congruence. }
  split; simpl; try done.
  - intros a ns. destruct (decide (a = i)) as [->|Hne].
    + rewrite list_lookup_insert_eq by lia. by intros [= <-].
    + rewrite list_lookup_insert_ne by done. apply Hl.
  - by rewrite length_insert.
  - intros a c e. rewrite HE. change (conn cfg' a) with (conn cfg a). change (conn cfg' c) with (conn cfg c).
    destruct (decide (a = i)) as [->|Hne].
    + rewrite Hco. apply Hin.
    + intros Hac. destruct (Hout e (Hold _ _ _ Hac)) as (-> & -> & ->). by apply He.
  - intros a c a' c' e. rewrite !HE.
    destruct (decide (a = i)) as [->|Hne], (decide (a' = i)) as [->|Hne']; intros H1 H2.
    + split; [done|]. by eapply NoDup_lookup.
    + exfalso. eapply (Hold a' c'); [done|]. by eapply list_elem_of_lookup_2.
    + exfalso. eapply (Hold a c); [done|]. by eapply list_elem_of_lookup_2.
    + by eapply Hi.
Qed.

Lemma start1_ok `{GobCodec} i names rnd cfg cfg' :
  conn_ok cfg -> start1 i names rnd cfg = Ok cfg' -> conn_ok cfg'.
Proof.
  intros Hok Hs. unfold start1 in Hs. apply bind_Ok in Hs as (c1 & H1 & Hs).
  destruct (crash1_ok _ _ _ Hok H1) as (Hok1 & Hi & Hc & Hn).
  apply bind_Ok in Hs as (es & Hes & Hs). unfold assign in Hes. destruct (Nat.ltb i _) eqn:Hlt; [|done].
  injection Hes as <-. simpl in Hs. apply bind_Ok in Hs as (rn & Hrn & Hs).
  apply conn_ok_new_ends with (i := i) in Hrn; [|done|done|done|by rewrite length_fmap, length_seq].
  do 3 (apply bind_Ok in Hs as (? & _ & Hs)). injection Hs as <-. by eapply conn_ok_ext, Hrn.
Qed.

(** ** Sequences of operations *)

Inductive TesterOp :=
  | TConnect (i : nat) | TDisconnect (i : nat) | TCrash (i : nat)
  | TStart (i : nat) (names : nat -> Key) (rnd : Z)
  | TUnreliable (b : bool) | TReordering (b : bool).

Definition tester_step `{GobCodec} (op : TesterOp) (cfg : config) : Outcome config :=
  match op with
  | TConnect i => connect i cfg
  | TDisconnect i => disconnect i cfg
  | TCrash i => crash1 i cfg
  | TStart i names rnd => start1 i names rnd cfg
  | TUnreliable b => Ok (setunreliable b cfg)
  | TReordering b => Ok (setlongreordering b cfg)
  end.

Fixpoint tester_exec `{GobCodec} (ops : list TesterOp) (cfg : config) : Outcome config :=
  match ops with
  | [] => Ok cfg
  | op :: ops => cfg ← tester_step op cfg; tester_exec ops cfg
  end.

Lemma tester_step_ok `{GobCodec} op cfg cfg' : conn_ok cfg -> tester_step op cfg = Ok cfg' -> conn_ok cfg'.
Proof.
  destruct op; simpl; intros Hok Hs.
  - by eapply connect_ok.
  - by eapply disconnect_ok.
  - by eapply crash1_ok.
  - by eapply start1_ok.
  - injection Hs as <-. by eapply conn_ok_ext, Hok.
  - injection Hs as <-. by eapply conn_ok_ext, Hok.
Qed.

Lemma tester_exec_ok `{GobCodec} ops cfg cfg' : conn_ok cfg -> tester_exec ops cfg = Ok cfg' -> conn_ok cfg'.
Proof.
  revert cfg. induction ops as [|op ops IH]; intros cfg Hok Hs; cbn [tester_exec] in Hs; [by injection Hs as <-|].
  apply bind_Ok in Hs as (c1 & H1 & Hs). eapply IH, Hs. by eapply tester_step_ok.
Qed.

Lemma for_each_inv {S} (I : S -> Prop) (f : nat -> S -> Outcome S) js :
  (forall j s s', I s -> f j s = Ok s' -> I s') -> forall s s', I s -> for_each f js s = Ok s' -> I s'.
Proof.
  intros Hf. induction js as [|j js IH]; intros s s' Hi Hs; cbn [for_each] in Hs; [by injection Hs as <-|].
  apply bind_Ok in Hs as (s1 & H1 & Hs). eapply IH, Hs. by eapply Hf.
Qed.

Lemma make_config_ok `{GobCodec} n unreliable names rnds cfg :
  make_config n unreliable names rnds = Ok cfg -> conn_ok cfg.
Proof.
  intros Hs. unfold make_config in Hs. apply bind_Ok in Hs as (c1 & H1 & Hs).
  eapply (for_each_inv conn_ok connect); [|  |exact Hs].
  { intros j s s1 Hi Hj. exact (connect_ok _ _ _ Hi Hj). }
  eapply (for_each_inv conn_ok _ (seq 0 n)); [|  |exact H1].
  { intros j s s1 Hi Hj. exact (start1_ok _ _ _ _ _ Hi Hj). }
  assert (Hno : forall i j : nat, mjoin (replicate n None !! i) ≫= (fun ns : list Key => ns !! j) = None).
  { intros i j. destruct (replicate n None !! i) as [o|] eqn:E; [|done].
    by apply lookup_replicate in E as [-> _]. }
  split; simpl; rewrite ?length_replicate; try done.
  - intros i ns Hl. by apply lookup_replicate in Hl as [? _].
  - intros i j e. unfold end_of. simpl. by rewrite Hno.
  - intros i j i' j' e. unfold end_of. simpl. by rewrite Hno.
Qed.

(** ** The checker of applied commands *)

(** Server [i] sent the valid command [v] with index [k]. *)
Definition sent (ms : list (nat * ApplyMsg)) (i : nat) (k : Z) (v : iface) : Prop :=
  exists m, (i, m) ∈ ms /\ CommandValid m = true /\ CommandIndex m = k /\ Command m = v.

(** The message [m] of server [i] is in order after [ms]: nobody sent another
    command with its index, and [i] sent the index before it. *)
Definition in_order (ms : list (nat * ApplyMsg)) (i : nat) (m : ApplyMsg) : Prop :=
  CommandValid m = true ->
  (forall j v, sent ms j (CommandIndex m) v -> v = Command m) /\
  (1 < CommandIndex m -> exists v, sent ms i (CommandIndex m - 1) v).

Definition all_in_order (ms : list (nat * ApplyMsg)) : Prop :=
  forall before i m after, ms = before ++ (i, m) :: after -> in_order before i m.

Lemma sent_snoc ms i m j k v :
  sent (ms ++ [(i, m)]) j k v <->
  sent ms j k v \/ (j = i /\ CommandValid m = true /\ CommandIndex m = k /\ Command m = v).
Proof.
  unfold sent. split.
  - intros (m' & Hin & Hm). apply elem_of_app in Hin as [Hin|Hin]; [left; eauto|right].
    apply list_elem_of_singleton in Hin. injection Hin as -> ->. done.
  - intros [(m' & Hin & Hm)|(-> & Hm)]; eexists; (split; [|done]); apply elem_of_app; [by left|right].
    by apply list_elem_of_singleton.
Qed.

Lemma all_in_order_snoc ms i m : all_in_order (ms ++ [(i, m)]) <-> all_in_order ms /\ in_order ms i m.
Proof.
  split.
  - intros Ha. split; [|by eapply (Ha ms i m [])].
    intros before j m' after ->. eapply (Ha before j m' (after ++ [(i, m)])). by rewrite <-app_assoc.
  - intros [Ha Hm] before j m' after E. destruct after as [|x after _] using rev_ind.
    + apply app_inj_tail in E as [<- [= <- <-]]. done.
    + rewrite app_comm_cons, app_assoc in E. apply app_inj_tail in E as [-> _]. by eapply Ha.
Qed.

(** The loop finds a disagreement exactly if there is one. *)
Lemma mismatch_loop_spec index v logs : forall j err,
  mismatch_loop index v j logs err = None <->
  err = None /\ forall lg old, lg ∈ logs -> lg !! index = Some old -> old = v.
Proof.
  induction logs as [|lg logs IH]; intros j err; cbn [mismatch_loop].
  { split; [intros ->; split; [done|intros; set_solver]|naive_solver]. }
  rewrite IH. destruct (lg !! index) as [old|] eqn:El; [case_bool_decide as Ho|]; split.
  - intros [-> Hl]. split; [done|]. intros lg' old' [->|Hin]%elem_of_cons; [congruence|by apply Hl].
  - intros [-> Hl]. split; [done|]. intros. eapply Hl; [by apply elem_of_cons; right|done].
  - by intros [? _].
  - intros [_ Hl]. destruct Ho. eapply Hl; [apply elem_of_cons; by left|done].
  - intros [-> Hl]. split; [done|]. intros lg' old' [->|Hin]%elem_of_cons; [congruence|by apply Hl].
  - intros [-> Hl]. split; [done|]. intros. eapply Hl; [by apply elem_of_cons; right|done].
Qed.

(** [cfg.logs] holds what was sent. *)
Definition logs_hold (n : nat) (ms : list (nat * ApplyMsg)) (logs : list (gmap Z iface)) : Prop :=
  length logs = n /\
  forall i lg k v, logs !! i = Some lg -> lg !! k = Some v <-> sent ms i k v.

Lemma logs_hold_in n ms logs i k v :
  logs_hold n ms logs -> (i < n)%nat -> sent ms i k v -> exists lg, logs !! i = Some lg /\ lg !! k = Some v.
Proof.
  intros [Hlen Hh] Hi Hs. destruct (lookup_lt_is_Some_2 logs i) as [lg Hl]; [lia|].
  exists lg. split; [done|]. by eapply Hh.
Qed.

Lemma logs_hold_mismatch n ms logs i m :
  logs_hold n ms logs -> Forall (fun x => (x.1 < n)%nat) ms ->
  mismatch_loop (CommandIndex m) (Command m) i logs None = None <->
  forall j v, sent ms j (CommandIndex m) v -> v = Command m.
Proof.
  intros Hh Hr. rewrite mismatch_loop_spec. split.
  - intros [_ Hl] j v Hs. assert (j < n)%nat.
    { destruct Hs as (m' & Hin & _). rewrite Forall_forall in Hr. apply (Hr _ Hin). }
    destruct (logs_hold_in _ _ _ _ _ _ Hh H Hs) as (lg & Hlg & Hv). eapply Hl; [|done].
    by eapply list_elem_of_lookup_2.
  - intros Hs. split; [done|]. intros lg old Hin Ho. apply list_elem_of_lookup_1 in Hin as [j Hj].
    eapply Hs. by eapply Hh.
Qed.

Lemma logs_hold_step n ms logs i m lg :
  logs_hold n ms logs -> logs !! i = Some lg -> CommandValid m = true ->
  (forall j v, sent ms j (CommandIndex m) v -> v = Command m) ->
  logs_hold n (ms ++ [(i, m)]) (<[i := <[CommandIndex m := Command m]> lg]> logs).
Proof.
  intros [Hlen Hh] Hi Hv Hag. split; [by rewrite length_insert|].
  intros j lg' k v Hj. rewrite sent_snoc. destruct (decide (j = i)) as [->|Hne].
  - rewrite list_lookup_insert_eq in Hj by (by eapply lookup_lt_Some). injection Hj as <-.
    destruct (decide (k = CommandIndex m)) as [->|Hk].
    + rewrite lookup_insert_eq. split; [intros [= <-]; by right|].
      intros [Hs|(_ & _ & _ & ->)]; [|done]. by rewrite (Hag _ _ Hs).
    + rewrite lookup_insert_ne by done. rewrite (Hh _ _ _ _ Hi). naive_solver.
  - rewrite list_lookup_insert_ne in Hj by done. rewrite (Hh _ _ _ _ Hj). naive_solver.
Qed.

Lemma logs_hold_ignored n ms logs i m :
  logs_hold n ms logs -> CommandValid m = false -> logs_hold n (ms ++ [(i, m)]) logs.
Proof.
  intros [Hlen Hh] Hv. split; [done|]. intros j lg k v Hj. rewrite sent_snoc, (Hh _ _ _ _ Hj).
  rewrite Hv. naive_solver.
Qed.

(** One message: accepted exactly if it is in order. *)
Lemma apply_msg_spec n ms i m cfg :
  logs_hold n ms (cfg_logs cfg) -> Forall (fun x => (x.1 < n)%nat) ms -> (i < n)%nat ->
  match apply_msg i m cfg with
  | Ok cfg' => in_order ms i m /\ logs_hold n (ms ++ [(i, m)]) (cfg_logs cfg')
  | Panic => ~ in_order ms i m
  | Disabled => False
  end.
Proof.
  intros Hh Hr Hi. unfold apply_msg. destruct (CommandValid m) eqn:Hv; simpl.
  2: { split; [by unfold in_order; rewrite Hv|by apply logs_hold_ignored]. }
  destruct (lookup_lt_is_Some_2 (cfg_logs cfg) i) as [lg Hlg]; [destruct Hh as [-> _]; done|].
  rewrite Hlg. simpl. pose proof (logs_hold_mismatch n ms _ 0 m Hh Hr) as Hm.
  assert (Hp : bool_decide (is_Some (lg !! (CommandIndex m - 1))) = true <->
               exists v, sent ms i (CommandIndex m - 1) v).
  { rewrite bool_decide_eq_true. unfold is_Some. split; intros [v Hs]; exists v; by eapply Hh. }
  destruct ((1 <? CommandIndex m) && negb _) eqn:Ho.
  - apply andb_true_iff in Ho as [Ho1 Ho2]. apply Z.ltb_lt in Ho1. apply negb_true_iff in Ho2.
    intros Hord. destruct (Hord Hv) as [_ Hprev]. apply Hprev, Hp in Ho1. congruence.
  - destruct (mismatch_loop _ _ _ _ _) eqn:Em.
    + intros Hord. destruct (Hord Hv) as [Hag _]. apply Hm in Hag. done.
    + pose proof (proj1 Hm eq_refl) as Hag. split; [|by apply logs_hold_step].
      intros _. split; [done|]. intros H1. apply Hp. apply andb_false_iff in Ho as [Ho|Ho]; [lia|].
      by apply negb_false_iff in Ho.
Qed.

Lemma apply_msgs_snoc ms i m cfg :
  apply_msgs (ms ++ [(i, m)]) cfg = (cfg' ← apply_msgs ms cfg; apply_msg i m cfg').
Proof.
  revert cfg. induction ms as [|[j m'] ms IH]; intros cfg; simpl.
  - by destruct (apply_msg i m cfg).
  - destruct (apply_msg j m' cfg); simpl; auto.
Qed.

Lemma apply_msgs_spec n ms cfg :
  cfg_logs cfg = replicate n ∅ -> Forall (fun x => (x.1 < n)%nat) ms ->
  match apply_msgs ms cfg with
  | Ok cfg' => all_in_order ms /\ logs_hold n ms (cfg_logs cfg')
  | Panic => ~ all_in_order ms
  | Disabled => False
  end.
Proof.
  intros He. induction ms as [|[i m] ms IH] using rev_ind; intros Hr.
  { split; [by intros [|] * E|]. simpl. rewrite He. split; [apply length_replicate|].
    intros i lg k v Hl. apply lookup_replicate in Hl as [-> _]. rewrite lookup_empty.
    split; [done|]. intros (m & Hin & _). set_solver. }
  apply Forall_app in Hr as [Hr Hi]. apply (proj1 (Forall_singleton _ _)) in Hi. specialize (IH Hr).
  rewrite apply_msgs_snoc. destruct (apply_msgs ms cfg) as [| |c]; simpl; [done| |].
  { rewrite all_in_order_snoc. naive_solver. }
  destruct IH as [Ha Hh]. pose proof (apply_msg_spec n ms i m c Hh Hr Hi) as Hm.
  destruct (apply_msg i m c); [done| |]; rewrite all_in_order_snoc; naive_solver.
Qed.

(** Two servers that apply different commands at one index are caught, in
    whatever order the messages are read. *)
Lemma divergence_caught n ms cfg i j k v w :
  cfg_logs cfg = replicate n ∅ -> Forall (fun x => (x.1 < n)%nat) ms ->
  sent ms i k v -> sent ms j k w -> v <> w -> apply_msgs ms cfg = Panic.
Proof.
  intros He Hr Hi Hj Hne. pose proof (apply_msgs_spec n ms cfg He Hr) as Hs.
  destruct (apply_msgs ms cfg) as [| |c]; [done|done|]. destruct Hs as [Ha Hh]. destruct Hne.
  assert (Hag : forall i j m m', (i, m) ∈ ms -> (j, m') ∈ ms -> CommandValid m = true -> CommandValid m' = true ->
            CommandIndex m = CommandIndex m' -> Command m = Command m'); [|].
  { clear -Ha. induction ms as [|[a x] ms IH] using rev_ind; [set_solver|].
    apply all_in_order_snoc in Ha as [Ha Hx]. specialize (IH Ha). intros i j m m' Hi Hj Hv Hv' Hk.
    apply elem_of_app in Hi as [Hi|Hi], Hj as [Hj|Hj]; try apply list_elem_of_singleton in Hi;
      try apply list_elem_of_singleton in Hj; simplify_eq; [by eapply IH| | |done].
    - eapply (proj1 (Hx Hv')). rewrite <-Hk. by exists m.
    - symmetry. eapply (proj1 (Hx Hv)). rewrite Hk. by exists m'. }
  destruct Hi as (m & Hi & Hv & Hk & <-), Hj as (m' & Hj & Hv' & Hk' & <-).
  eapply Hag; eauto. congruence.
Qed.

(** ** The leader check *)

(** Server [i] is connected and is the leader of term [t]. *)
Definition leader_at (cfg : config) (t : Z) (i : nat) : Prop :=
  cfg_connected cfg !! i = Some true /\
  exists rf, cfg_rafts cfg !! i = Some (Some rf) /\ GetState rf = (t, true).

(** Every connected server runs an instance when it is looked at, whose term
    is not negative. *)
Definition servers_up (v : View) : Prop :=
  forall i, length (cfg_connected (v i)) = cfg_n (v 0%nat) /\
    (cfg_connected (v i) !! i = Some true ->
     exists rf, cfg_rafts (v i) !! i = Some (Some rf) /\ 0 <= term rf).

(** Server [i] is connected and leads term [t] when it is looked at. *)
Definition leader_seen (v : View) (t : Z) (i : nat) : Prop := leader_at (v i) t i.

(** [leaders] lists, by term and in order, the leaders below [k]. *)
Definition leaders_upto (v : View) (k : nat) (leaders : gmap Z (list nat)) : Prop :=
  (forall t, leaders !! t <> Some []) /\
  (forall t, NoDup (default [] (leaders !! t))) /\
  forall t i, i ∈ default [] (leaders !! t) <-> (i < k)%nat /\ leader_seen v t i.

Lemma collect_leader_step v k leaders :
  servers_up v -> (k < cfg_n (v 0%nat))%nat -> leaders_upto v k leaders ->
  exists leaders', collect_leader (v k) k leaders = Ok leaders' /\ leaders_upto v (S k) leaders'.
Proof.
  intros Hu Hk (Hne & Hnd & Hin). unfold collect_leader, is_connected, get_state. destruct (Hu k) as [Hlen Hup].
  destruct (lookup_lt_is_Some_2 (cfg_connected (v k)) k) as [b Hb]; [lia|]. rewrite Hb. simpl.
  assert (Hskip : (forall t, ~ leader_seen v t k) -> leaders_upto v (S k) leaders).
  { intros Hno. split_and!; [done|done|]. intros t i. rewrite Hin.
    split; intros [Hi Hl]; (split; [|done]); [lia|]. destruct (decide (i = k)) as [->|]; [by destruct (Hno t)|lia]. }
  destruct b.
  2: { eexists. split; [done|]. apply Hskip. intros t [Hc _]. congruence. }
  destruct (Hup Hb) as (rf & Hrf & _). rewrite Hrf. simpl.
  case_bool_decide as Hrole.
  2: { eexists. split; [done|]. apply Hskip. intros t (_ & rf' & Hrf' & HL). injection HL as _ HL.
       rewrite Hrf in Hrf'. injection Hrf' as <-. by apply bool_decide_eq_true in HL. }
  eexists. split; [done|].
  assert (Hlead : forall t, leader_seen v t k <-> t = term rf).
  { intros t. split.
    - intros (_ & rf' & Hrf' & [= <- _]). by rewrite Hrf in Hrf'; injection Hrf' as <-.
    - intros ->. split; [done|]. exists rf. unfold GetState. by rewrite bool_decide_eq_true_2. }
  split_and!; intros t; destruct (decide (t = term rf)) as [->|Ht];
    rewrite ?lookup_insert_eq, ?lookup_insert_ne by done; simpl.
  - intros [= E]. by destruct (default [] _).
  - apply Hne.
  - apply NoDup_app. split_and!; [done| |apply NoDup_singleton].
    intros i [Hi _]%Hin Hk'%list_elem_of_singleton. lia.
  - apply Hnd.
  - intros i. rewrite elem_of_app, list_elem_of_singleton, Hin. split.
    + intros [[Hi Hl]| ->]; [split; [lia|done]|]. split; [lia|]. by apply Hlead.
    + intros [Hi Hl]. destruct (decide (i = k)) as [->|]; [by right|left]. split; [lia|done].
  - intros i. rewrite Hin. split; intros [Hi Hl]; (split; [|done]); [lia|].
    destruct (decide (i = k)) as [->|]; [by apply Hlead in Hl|lia].
Qed.

Lemma collect_leaders_ok v :
  servers_up v ->
  exists leaders, collect_leaders v = Ok leaders /\ leaders_upto v (cfg_n (v 0%nat)) leaders.
Proof.
  intros Hup. unfold collect_leaders. set (n := cfg_n (v 0%nat)).
  assert (Hloop : forall m k leaders, (k + m = n)%nat -> leaders_upto v k leaders ->
    exists leaders', for_each (fun i => collect_leader (v i) i) (seq k m) leaders = Ok leaders' /\
      leaders_upto v n leaders').
  { induction m as [|m IH]; intros k leaders Hk Hl; cbn [seq for_each].
    - exists leaders. split; [done|]. by replace n with k by lia.
    - destruct (collect_leader_step v k leaders Hup ltac:(lia) Hl) as (l1 & -> & H1). simpl.
      apply IH; [lia|done]. }
  apply Hloop; [done|]. split_and!; intros t; rewrite ?lookup_empty; simpl; [done|constructor|].
  intros i. split; [set_solver|intros [? _]; lia].
Qed.

Lemma leader_seen_range v t i : servers_up v -> leader_seen v t i -> (i < cfg_n (v 0%nat))%nat.
Proof. intros Hu [Hc _]. destruct (Hu i) as [<- _]. by eapply lookup_lt_Some. Qed.

Lemma leader_seen_term v t i : servers_up v -> leader_seen v t i -> 0 <= t.
Proof.
  intros Hu (Hc & rf & Hrf & [= <- _]). destruct (Hu i) as [_ Hup].
  destruct (Hup Hc) as (rf' & Hrf' & ?). congruence.
Qed.

(** The scan returns the largest key, or fails at a long entry. *)
Lemma scan_leaders_spec l : forall z,
  match scan_leaders l z with
  | Ok top => z <= top /\ (top = z \/ exists who, (top, who) ∈ l) /\
      forall t who, (t, who) ∈ l -> t <= top /\ zlen who <= 1
  | Panic => exists t who, (t, who) ∈ l /\ 1 < zlen who
  | Disabled => False
  end.
Proof.
  induction l as [|[t who] l IH]; intros z; cbn [scan_leaders].
  { split; [lia|]. split; [by left|]. intros. set_solver. }
  destruct (1 <? zlen who) eqn:E.
  { exists t, who. split; [apply elem_of_cons; by left|lia]. }
  specialize (IH (if z <? t then t else z)). destruct (scan_leaders _ _) as [| |top]; [done| |].
  - destruct IH as (t' & who' & Hin & ?). exists t', who'. split; [|done]. apply elem_of_cons. by right.
  - destruct IH as (Hle & Hsrc & Hall). split; [destruct (z <? t) eqn:?; lia|]. split.
    + destruct Hsrc as [ -> |[w Hw]]; [destruct (z <? t)|]; [right; exists who|by left|right; exists w];
        apply elem_of_cons; [by left|by right].
    + intros t' who' [[= -> ->]|Hin]%elem_of_cons; [|by apply Hall].
      split; [destruct (z <? t) eqn:?; lia|lia].
Qed.

(** One iteration, for any order in which Go ranges over the map. *)
Definition iter_result (v : View) (r : Outcome (option nat)) : Prop :=
  match r with
  | Ok (Some i) => exists t, leader_seen v t i /\ forall t' j, leader_seen v t' j -> t' <= t /\ (t' = t -> j = i)
  | Ok None => forall t j, ~ leader_seen v t j
  | Panic => exists t i j, i <> j /\ leader_seen v t i /\ leader_seen v t j
  | Disabled => False
  end.

Lemma two_elements {A} (l : list A) : NoDup l -> 1 < zlen l -> exists x y, x <> y /\ x ∈ l /\ y ∈ l.
Proof.
  intros Hnd Hl. destruct l as [|x [|y l]]; try (unfold zlen in Hl; simpl in Hl; lia).
  exists x, y. apply NoDup_cons in Hnd as [Hx _]. split_and!; set_solver.
Qed.

Lemma one_element {A} (l : list A) x y : zlen l <= 1 -> head l = Some x -> y ∈ l -> y = x.
Proof.
  intros Hl Hh Hy. destruct l as [|z [|z' l]]; try (unfold zlen in Hl; simpl in Hl; lia); [done|].
  injection Hh as ->. by apply list_elem_of_singleton in Hy.
Qed.

Lemma one_leader_iter_spec v leaders order :
  servers_up v -> leaders_upto v (cfg_n (v 0%nat)) leaders -> order ≡ₚ map_to_list leaders ->
  iter_result v (one_leader_iter order leaders).
Proof.
  intros Hup (Hne & Hnd & Hin) Hp. unfold one_leader_iter.
  assert (Ho : forall t who, (t, who) ∈ order <-> leaders !! t = Some who)
    by (intros; rewrite Hp; apply elem_of_map_to_list).
  assert (Hl : forall t i, leader_seen v t i -> exists who, leaders !! t = Some who /\ i ∈ who).
  { intros t i Hi. assert (Hi' : i ∈ default [] (leaders !! t)).
    { apply Hin. split; [by eapply leader_seen_range|done]. }
    destruct (leaders !! t) as [who|]; [eauto|set_solver]. }
  assert (Hw : forall t who i, leaders !! t = Some who -> i ∈ who -> leader_seen v t i)
    by (intros t who i Ht Hi; apply (Hin t i); by rewrite Ht).
  pose proof (scan_leaders_spec order (-1)) as Hscan. destruct (scan_leaders order (-1)) as [| |top]; [done| |].
  { destruct Hscan as (t & who & Ht%Ho & Hlen). simpl.
    destruct (two_elements who) as (i & j & Hij & Hi & Hj); [by specialize (Hnd t); rewrite Ht in Hnd|done|].
    exists t, i, j. eauto. }
  destruct Hscan as (Hge & Hsrc & Hall). simpl. case_bool_decide as Hsz; simpl.
  { intros t j Hj. apply Hl in Hj as (who & Ht & _). apply map_size_empty_inv in Hsz. by rewrite Hsz in Ht. }
  apply map_size_ne_0_lookup in Hsz as [t0 [w0 Ht0]].
  destruct w0 as [|i0 w0]; [by destruct (Hne t0)|].
  assert (Hi0 : leader_seen v t0 i0) by (eapply Hw; [done|apply elem_of_cons; by left]).
  pose proof (leader_seen_term _ _ _ Hup Hi0) as Ht0'. apply Ho in Ht0 as Ht0o.
  destruct (Hall _ _ Ht0o) as [Htop _]. destruct Hsrc as [ ->|[who Hwho]]; [lia|].
  apply Ho in Hwho as Htw. rewrite Htw. simpl. destruct who as [|i who]; [by destruct (Hne top)|]. simpl.
  exists top. split; [eapply Hw; [done|apply elem_of_cons; by left]|].
  intros t' j Hj. apply Hl in Hj as (w & Ht' & Hjw). destruct (Hall t' w) as [Hle Hlen]; [by apply Ho|].
  split; [done|]. intros ->. rewrite Htw in Ht'. injection Ht' as <-. by eapply one_element.
Qed.

(** What the iterations of a loop see. *)
Fixpoint slept (iters : nat) (sleep : nat -> config -> View) (cfg : config) : list View :=
  match iters with
  | O => []
  | S iters => let v := sleep iters cfg in v :: slept iters sleep (after_look v)
  end.

Lemma one_leader_loop_spec iters sleep : forall cfg,
  Forall servers_up (slept iters sleep cfg) ->
  match one_leader_loop iters sleep cfg with
  | Ok (i, v) => v ∈ slept iters sleep cfg /\ iter_result v (Ok (Some i))
  | Panic => Exists (fun v => iter_result v Panic) (slept iters sleep cfg) \/
             Forall (fun v => iter_result v (Ok None)) (slept iters sleep cfg)
  | Disabled => False
  end.
Proof.
  induction iters as [|iters IH]; intros cfg Hup; cbn [one_leader_loop slept] in *; [by right|].
  apply Forall_cons in Hup as [Hu Hup]. destruct (collect_leaders_ok _ Hu) as (leaders & -> & Hl). cbn.
  pose proof (one_leader_iter_spec _ _ _ Hu Hl (reflexivity _)) as Hit.
  destruct (one_leader_iter _ _) as [| |[i|]]; [done|left; by left|split; [by left|done]|].
  specialize (IH (after_look (sleep iters cfg)) Hup). destruct (one_leader_loop iters sleep _) as [| |[i c]]; [done| |].
  - destruct IH as [IH|IH]; [left; by right|right; by constructor].
  - destruct IH. split; [by right|done].
Qed.

(** ** Counting commits *)

(** What server [i] has applied at [index] when it is looked at, and how many
    of the first [k] servers hold [cmd]. *)
Definition applied_at (w : View) (index : Z) (i : nat) : option iface :=
  (cfg_logs (w i) !! i) ≫= (fun lg => lg !! index).
Definition holds (w : View) (index : Z) (cmd : iface) (i : nat) : bool :=
  bool_decide (applied_at w index i = Some cmd).
Definition holders (w : View) (index : Z) (cmd : iface) (k : nat) : Z :=
  zlen (List.filter (holds w index cmd) (seq 0 k)).

Definition committed_upto (w : View) (index : Z) (k : nat) (s : Z * iface) : Prop :=
  s.1 = holders w index s.2 k /\
  forall i v, (i < k)%nat -> applied_at w index i = Some v -> v = s.2.

Lemma holders_S w index cmd k :
  holders w index cmd (S k) = holders w index cmd k + Z.b2z (holds w index cmd k).
Proof.
  unfold holders. rewrite seq_S, List.filter_app. unfold zlen. rewrite length_app, Nat2Z.inj_add. f_equal.
  simpl. by destruct (holds _ _ _ _).
Qed.

Lemma holders_zero w index cmd k :
  (forall i, (i < k)%nat -> holds w index cmd i = false) -> holders w index cmd k = 0.
Proof.
  induction k as [|k IH]; intros Hn; [done|]. rewrite holders_S, IH, (Hn k); [done|lia|]. intros. apply Hn. lia.
Qed.

Lemma holders_ge_1 w index cmd k i :
  (i < k)%nat -> holds w index cmd i = true -> 0 < holders w index cmd k.
Proof.
  intros Hi Hh. assert (Hin : i ∈ List.filter (holds w index cmd) (seq 0 k)).
  { apply list_elem_of_In, List.filter_In. split; [|done]. apply in_seq. lia. }
  unfold holders. destruct (List.filter _ _); [by apply elem_of_nil in Hin|]. unfold zlen. simpl. lia.
Qed.

Lemma count_committed_step w index k s s' :
  committed_upto w index k s -> count_committed (w k) index k s = Ok s' -> committed_upto w index (S k) s'.
Proof.
  intros [Hc Hv] Hs. destruct s as [count cmd]. unfold count_committed in Hs. simpl in *.
  apply bind_Ok in Hs as (err & _ & Hs). destruct (negb _); [done|].
  apply bind_Ok in Hs as (lg & Hlg & Hs). apply run_Ok in Hlg.
  assert (Hat : applied_at w index k = lg !! index) by (unfold applied_at; by rewrite Hlg).
  unfold committed_upto. rewrite holders_S. unfold holds at 1. rewrite Hat.
  destruct (lg !! index) as [cmd1|] eqn:E.
  2: { injection Hs as <-. rewrite bool_decide_eq_false_2 by done. split; [simpl; lia|].
       intros i v Hi Hl. destruct (decide (i = k)) as [->|]; [congruence|].
       eapply Hv; [|done]. lia. }
  destruct ((0 <? count) && _) eqn:Hcmp; [done|]. injection Hs as <-. cbn [fst snd].
  rewrite bool_decide_eq_true_2 by done. simpl.
  assert (Hsome : forall i v, (i < k)%nat -> applied_at w index i = Some v -> 0 < count /\ v = cmd).
  { intros i v Hi Hl. pose proof (Hv i v Hi Hl) as ->. split; [|done]. rewrite Hc.
    apply holders_ge_1 with i; [done|]. unfold holds. by rewrite bool_decide_eq_true. }
  assert (Hcase : cmd1 = cmd \/ count = 0).
  { apply andb_false_iff in Hcmp as [Hc0|Hb]; [right|left].
    - unfold holders, zlen in Hc. lia.
    - apply negb_false_iff in Hb. by apply bool_decide_eq_true in Hb. }
  split.
  - destruct Hcase as [ ->|Hz]; [lia|]. rewrite holders_zero; [lia|].
    intros i Hi. unfold holds. apply bool_decide_eq_false. intros Hl. destruct (Hsome _ _ Hi Hl). lia.
  - intros i v Hi Hl. destruct (decide (i = k)) as [->|]; [congruence|].
    destruct (Hsome i v ltac:(lia) Hl) as [? ->]. destruct Hcase; [done|lia].
Qed.

Lemma nCommitted_spec index w count cmd :
  nCommitted index w = Ok (count, cmd) ->
  count = holders w index cmd (length (cfg_rafts (w 0%nat))) /\
  forall i v, (i < length (cfg_rafts (w 0%nat)))%nat ->
    applied_at w index i = Some v -> v = cmd.
Proof.
  unfold nCommitted. intros Hs.
  assert (Hloop : forall m k s s', committed_upto w index k s ->
    for_each (fun i => count_committed (w i) index i) (seq k m) s = Ok s' -> committed_upto w index (k + m) s').
  { induction m as [|m IH]; intros k s s' Hk Hf; cbn [seq for_each] in Hf.
    - injection Hf as <-. by rewrite Nat.add_0_r.
    - apply bind_Ok in Hf as (s1 & H1 & Hf). rewrite Nat.add_succ_r. eapply (IH (S k)), Hf.
      by eapply count_committed_step. }
  apply (Hloop _ 0%nat) in Hs; [done|]. split; [done|]. lia.
Qed.

Lemma poll_agreement_spec cmd expected index polls : forall cfg w,
  poll_agreement cmd expected index polls cfg = Ok (true, w) ->
  0 < holders w index cmd (length (cfg_rafts (w 0%nat))) /\
  expected <= holders w index cmd (length (cfg_rafts (w 0%nat))).
Proof.
  induction polls as [|look polls IH]; intros cfg w Hs; cbn [poll_agreement] in Hs; [done|].
  apply bind_Ok in Hs as ([nd cmd1] & Hn & Hs). apply nCommitted_spec in Hn as [-> _].
  destruct (_ && _) eqn:E; [|by eapply IH]. injection Hs as <-.
  apply andb_true_iff in E as [E Ecmd]. apply bool_decide_eq_true in Ecmd as ->. bool_to_prop. lia.
Qed.

(** The calls of [Start] that [one] makes, in order: the server called, which
    is connected, and the configuration at that moment. *)
Section Calls.
Context `{GobCodec}.

Fixpoint try_calls (cmd : iface) (pause : nat -> config -> config) (tries starts : nat) (cfg : config)
    : list (nat * config) :=
  match tries with
  | O => []
  | S tries =>
      let cfg := pause tries cfg in
      let starts := (starts + 1) mod cfg_n cfg in
      match is_connected cfg starts, cfg_rafts cfg !! starts with
      | Ok true, Some (Some rf) =>
          (starts, cfg) ::
          match Start cmd rf with
          | Some (rf, (_, _, false)) =>
              try_calls cmd pause tries starts (set_cfg_rafts (<[starts := Some rf]> (cfg_rafts cfg)) cfg)
          | _ => []
          end
      | _, _ => try_calls cmd pause tries starts cfg
      end
  end%nat.

Fixpoint one_calls (cmd : iface) (expectedServers : Z) (rounds : list Round) (starts : nat)
    (cfg : config) : list (nat * config) :=
  match rounds with
  | [] => []
  | r :: rounds =>
      try_calls cmd (r_pause r) (cfg_n cfg) starts cfg ++
      match try_servers cmd (r_pause r) (cfg_n cfg) starts cfg with
      | Ok (starts, index, cfg) =>
          if index =? -1 then one_calls cmd expectedServers rounds starts (r_idle r cfg) else
          match poll_agreement cmd expectedServers index (r_polls r) cfg with
          | Ok (false, v) => one_calls cmd expectedServers rounds starts (after_look v)
          | _ => []
          end
      | _ => []
      end
  end.

(** The last of these calls was accepted by a leader with this index. *)
Definition accepted_last (cmd : iface) (index : Z) (calls : list (nat * config)) : Prop :=
  exists pre i c rf rf' t, calls = pre ++ [(i, c)] /\ cfg_connected c !! i = Some true /\
    cfg_rafts c !! i = Some (Some rf) /\ role rf = Leader /\ Start cmd rf = Some (rf', (index, t, true)).

Lemma accepted_last_app cmd index pre calls :
  accepted_last cmd index calls -> accepted_last cmd index (pre ++ calls).
Proof. intros (p & i & c & rf & rf' & t & -> & ?). exists (pre ++ p), i, c, rf, rf', t. by rewrite <-app_assoc. Qed.

Lemma Start_accepts cmd rf rf' index t : Start cmd rf = Some (rf', (index, t, true)) -> role rf = Leader.
Proof.
  unfold Start, GetState, Start_locked. intros Hs. destruct (decide (role rf = Leader)) as [?|Hn]; [done|].
  rewrite bool_decide_false in Hs by done. destruct (lastLogTermIndex rf). by injection Hs.
Qed.

Lemma try_servers_spec cmd pause tries : forall starts cfg starts' index cfg',
  try_servers cmd pause tries starts cfg = Ok (starts', index, cfg') -> index <> -1 ->
  accepted_last cmd index (try_calls cmd pause tries starts cfg).
Proof.
  induction tries as [|tries IH]; intros starts cfg starts' index cfg' Hs Hi; cbn [try_servers try_calls] in *.
  { by injection Hs as <- <- <-. }
  set (i := ((starts + 1) mod cfg_n (pause tries cfg))%nat) in *.
  apply bind_Ok in Hs as (b & Hb & Hs). rewrite Hb. apply bind_Ok in Hs as (o & Ho & Hs).
  apply run_Ok in Hb. destruct b; [apply run_Ok in Ho; rewrite Ho|injection Ho as <-; exact (IH _ _ _ _ _ Hs Hi)].
  destruct o as [rf|]; [|exact (IH _ _ _ _ _ Hs Hi)].
  apply bind_Ok in Hs as ([rf' [[index1 t] ok]] & Hst & Hs). apply run_Ok in Hst. rewrite Hst.
  destruct ok; [|apply (accepted_last_app cmd index [_]); exact (IH _ _ _ _ _ Hs Hi)].
  injection Hs as <- <- <-. exists [], i, (pause tries cfg), rf, rf', t. split_and!; try done. by eapply Start_accepts.
Qed.

End Calls.

(** ** Claims *)

Section Claims.
Context `{GobCodec}.

(** C17. Partitions are exact.  After [make_config] and any sequence of
    [connect], [disconnect], [crash1], [start1] and changes of the network's
    mode that does not panic, the end from server [i] to server [j] leads to
    server [j], is enabled if and only if both are marked as connected, and is
    used for no other pair. *)
Theorem partition_exact (n : nat) (unreliable : bool) (names : nat -> nat -> Key) (rnds : nat -> Z)
    (ops : list TesterOp) (cfg0 cfg : config) (i j : nat) (e : Key) :
  make_config n unreliable names rnds = Ok cfg0 -> tester_exec ops cfg0 = Ok cfg ->
  end_of cfg i j = Some e ->
  n_connections (cfg_net cfg) !! e = Some (Some (server_name j)) /\
  n_enabled (cfg_net cfg) !! e = Some (conn cfg i && conn cfg j) /\
  forall i' j', end_of cfg i' j' = Some e -> i' = i /\ j' = j.
Proof.
  intros H0 Hs He. assert (Hok : conn_ok cfg) by (eapply tester_exec_ok, Hs; by eapply make_config_ok).
  destruct (ck_end _ Hok _ _ _ He) as (? & ? & _). split_and!; [done|done|].
  intros i' j' He'. by apply (ck_inj _ Hok _ _ _ _ _ He' He).
Qed.

(** C21. The check of applied commands is exact.  From empty logs, the
    goroutines that read the apply channels accept a sequence of messages if
    and only if every valid message agrees with all earlier ones of any
    server that have the same index and, unless its index is at most 1,
    follows a message of the same server with the index before it; the logs
    then hold exactly the commands that were sent.  Otherwise the tester
    fails. *)
Theorem apply_checker_exact (n : nat) (ms : list (nat * ApplyMsg)) (cfg : config) :
  cfg_logs cfg = replicate n ∅ -> Forall (fun x => (x.1 < n)%nat) ms ->
  match apply_msgs ms cfg with
  | Ok cfg' => all_in_order ms /\ logs_hold n ms (cfg_logs cfg')
  | Panic => ~ all_in_order ms
  | Disabled => False
  end.
Proof.
  apply apply_msgs_spec.
Qed.

End Claims.

Section Watched.
Context `{GobCodec} `{RaftCodec}.

(** A configuration that shows the servers at one moment of an execution. *)
Definition shows (n : nat) (s : RaftNet) (cfg : config) : Prop :=
  cfg_n cfg = n /\ length (cfg_connected cfg) = n /\
  forall i, cfg_connected cfg !! i = Some true ->
    exists nd, server_node s i = Some nd /\ cfg_rafts cfg !! i = Some (Some (raft nd)).

(** A view of the servers at successive moments of a clean execution of Raft
    over the RPC network. *)
Definition watched (n : nat) (v : View) : Prop :=
  exists ss : nat -> RaftNet,
    nclean_reachable n (ss 0%nat) /\ (forall i, nclean_steps n (ss i) (ss (S i))) /\
    forall i, shows n (ss i) (v i).

Lemma moments n (ss : nat -> RaftNet) i j :
  (forall i, nclean_steps n (ss i) (ss (S i))) -> (i <= j)%nat -> nclean_steps n (ss i) (ss j).
Proof.
  intros Hss. induction 1 as [|j _ IH]; [constructor|]. exact (nclean_trans n _ _ _ IH (Hss j)).
Qed.

Lemma watched_up n v : watched n v -> servers_up v.
Proof.
  intros (ss & Hr0 & Hss & Hs) i. destruct (Hs 0%nat) as (Hn & _), (Hs i) as (_ & Hlen & Hsee).
  split; [congruence|]. intros Hi. destruct (Hsee i Hi) as (nd & Hnd & Hrf). exists (raft nd). split; [done|].
  pose proof (nclean_trans n _ _ _ Hr0 (moments n ss 0 i Hss ltac:(lia))) as Hr.
  destruct (clean_sim_reachable n _ Hr) as (c & Hc & Hsim). apply clean_reachable_reachable in Hc.
  by apply (ro_term _ _ _ (no_raft _ _ _ (co_nodes _ _ (reachable_ok n c Hc) i nd (sim_server _ _ _ _ _ Hsim Hnd)))).
Qed.

Lemma watched_one_leader n v t i j : watched n v -> leader_seen v t i -> leader_seen v t j -> i = j.
Proof.
  intros (ss & Hr0 & Hss & Hs).
  assert (Hw : forall k, leader_seen v t k -> leads_net t (ss k) k = true).
  { intros k (Hk & rf & Hrf & Hst). destruct (Hs k) as (_ & _ & Hsee). destruct (Hsee k Hk) as (nd & Hnd & Hrf').
    rewrite Hrf in Hrf'. injection Hrf' as ->. injection Hst as <- Hst. unfold leads_net.
    by rewrite Hnd, Hst, Z.eqb_refl. }
  assert (Hord : forall k l, (k <= l)%nat -> leader_seen v t k -> leader_seen v t l -> k = l).
  { intros k l Hkl Hk%Hw Hl%Hw. refine (one_leader_per_term n _ _ k l t _ (moments n ss k l Hss Hkl) Hk Hl).
    exact (nclean_trans n _ _ _ Hr0 (moments n ss 0 k Hss ltac:(lia))). }
  intros Hi Hj. destruct (Nat.le_ge_cases i j); [by apply Hord|symmetry; by apply Hord].
Qed.

(** C30. [checkOneLeader] is right about the system.  If what it sees in each
    iteration are the connected servers of a clean execution of Raft over the
    RPC network, each at the moment it is looked at, it never fails because of
    two leaders: it returns a server that led when it was looked at, with the
    largest term of any that led then, the only one with that term, and it
    fails only if in none of the ten iterations a connected server led when it
    was looked at. *)
Theorem check_one_leader (n : nat) (sleep : nat -> config -> View) (cfg : config) :
  Forall (watched n) (slept 10 sleep cfg) ->
  match checkOneLeader sleep cfg with
  | Ok (i, v) => v ∈ slept 10 sleep cfg /\
      exists t, leader_at (v i) t i /\ forall t' j, leader_at (v j) t' j -> t' <= t /\ (t' = t -> j = i)
  | Panic => Forall (fun v => forall t i, ~ leader_at (v i) t i) (slept 10 sleep cfg)
  | Disabled => False
  end.
Proof.
  intros Hs. pose proof (one_leader_loop_spec 10 sleep cfg) as Hl. unfold checkOneLeader.
  assert (Hup : Forall servers_up (slept 10 sleep cfg)) by (eapply Forall_impl; [exact Hs|apply watched_up]).
  specialize (Hl Hup). destruct (one_leader_loop 10 sleep cfg) as [| |[i c]]; [done| |done].
  destruct Hl as [Hex|]; [|done]. exfalso. apply Exists_exists in Hex as (v & Hin & t & i & j & Hij & Hi & Hj).
  rewrite Forall_forall in Hs. by destruct Hij, (watched_one_leader n v t i j (Hs v Hin) Hi Hj).
Qed.

(** C40. What [one] returns has been agreed on: if it returns [index], the last
    server on which it called [Start] was connected and led at that moment and
    accepted the command with that index, and at least one server and at least
    [expectedServers] servers had applied exactly this command at [index] when
    they were looked at. *)
Theorem one_agreement (cmd : iface) (expectedServers : Z) (retry : bool)
    (rounds : list Round) (starts : nat) (cfg : config) (v : View) (index : Z) :
  one cmd expectedServers retry rounds starts cfg = Ok (index, v) ->
  accepted_last cmd index (one_calls cmd expectedServers rounds starts cfg) /\
  0 < holders v index cmd (length (cfg_rafts (v 0%nat))) /\
  expectedServers <= holders v index cmd (length (cfg_rafts (v 0%nat))).
Proof.
  revert starts cfg. induction rounds as [|r rounds IH]; intros starts cfg Hs; cbn [one one_calls] in *; [done|].
  apply bind_Ok in Hs as ([[starts' ix] c1] & Ht & Hs). rewrite Ht.
  destruct (ix =? -1) eqn:Eix; simpl in Hs.
  { destruct (IH _ _ Hs) as [? ?]. split; [by apply accepted_last_app|done]. }
  apply bind_Ok in Hs as ([agreed w] & Hp & Hs). rewrite Hp. destruct agreed.
  - injection Hs as -> ->. rewrite app_nil_r. split; [eapply try_servers_spec; [done|lia]|].
    by apply poll_agreement_spec in Hp.
  - destruct (negb retry); [done|]. destruct (IH _ _ Hs) as [? ?]. split; [by apply accepted_last_app|done].
Qed.
End Watched.

(** ** Witnesses *)

Definition of_ok {A} (d : A) (o : Outcome A) : A := match o with Ok x => x | _ => d end.

Lemma of_ok_eq {A} (d : A) (o : Outcome A) : is_ok o = true -> o = Ok (of_ok d o).
Proof. by destruct o. Qed.

Definition no_config : config := mkConfig MakeNetwork 0 [] [] [] [] [] [] 0 0 0 0 0 0.

(** Three servers; then server 2 is cut off, server 0 crashes and comes back. *)
Definition draw (round i j : nat) : Key := KInt (Z.of_nat (100 * round + 10 * i + j)).
Definition three : config :=
  of_ok no_config (make_config (H := Wire.gob_wire) 3 false (draw 1) (fun _ => 0)).
Definition some_ops : list TesterOp := [TDisconnect 2; TCrash 0; TStart 0 (draw 2 0) 5; TConnect 0].
Definition three_after : config := of_ok no_config (tester_exec (H := Wire.gob_wire) some_ops three).

Lemma three_made : make_config (H := Wire.gob_wire) 3 false (draw 1) (fun _ => 0) = Ok three.
Proof. unfold three. apply of_ok_eq. by vm_compute. Qed.
Lemma three_ran : tester_exec (H := Wire.gob_wire) some_ops three = Ok three_after.
Proof. unfold three_after. apply of_ok_eq. by vm_compute. Qed.
Lemma three_ends :
  end_of three_after 0 1 = Some (KInt 201) /\ conn three_after 0 && conn three_after 1 = true /\
  end_of three_after 0 2 = Some (KInt 202) /\ conn three_after 0 && conn three_after 2 = false.
Proof. split_and!; by vm_compute. Qed.

Lemma partition_exact_witness :
  n_enabled (cfg_net three_after) !! KInt 201 = Some true /\
  n_enabled (cfg_net three_after) !! KInt 202 = Some false.
Proof.
  destruct three_ends as (E1 & C1 & E2 & C2). rewrite <-C1, <-C2. split.
  - exact (proj1 (proj2 (partition_exact (H := Wire.gob_wire) 3 false (draw 1) (fun _ => 0) some_ops
      three three_after 0 1 (KInt 201) three_made three_ran E1))).
  - exact (proj1 (proj2 (partition_exact (H := Wire.gob_wire) 3 false (draw 1) (fun _ => 0) some_ops
      three three_after 0 2 (KInt 202) three_made three_ran E2))).
Defined.

(** What peers 0 and 1 of the execution [retransmission] apply. *)
Definition channels (evs : list Event) : list (nat * ApplyMsg) :=
  (pair 0%nat <$> applyCh (raft (node_of 3 evs 0))) ++ (pair 1%nat <$> applyCh (raft (node_of 3 evs 1))).

Lemma apply_checker_exact_witness :
  ~ all_in_order (channels retransmission) /\
  all_in_order (pair 0%nat <$> applyCh (raft (node_of 3 retransmission 0))).
Proof.
  split.
  - pose proof (apply_checker_exact 3 (channels retransmission) three) as Hc.
    assert (E : apply_msgs (channels retransmission) three = Panic) by (by vm_compute).
    rewrite E in Hc. apply Hc; [by vm_compute|]. vm_compute. repeat constructor.
  - pose proof (apply_checker_exact 3 (pair 0%nat <$> applyCh (raft (node_of 3 retransmission 0)))
      three) as Hc.
    assert (E : is_ok (apply_msgs (pair 0%nat <$> applyCh (raft (node_of 3 retransmission 0)))
      three) = true) by (by vm_compute).
    apply (of_ok_eq no_config) in E. rewrite E in Hc. apply Hc; [by vm_compute|]. vm_compute. repeat constructor.
Defined.

(** The servers of [s], all of them connected. *)
Definition show (s : RaftNet) (cfg : config) : config :=
  set_cfg_rafts ((fun i => raft <$> server_node s i) <$> seq 0 (cfg_n cfg))
    (set_cfg_connected (replicate (cfg_n cfg) true) cfg).

Definition all_up (n : nat) (s : RaftNet) : bool := forallb (fun i => bool_decide (is_Some (server_node s i))) (seq 0 n).

Lemma show_shows s cfg : all_up (cfg_n cfg) s = true -> shows (cfg_n cfg) s (show s cfg).
Proof.
  intros Hall. split_and!; [done|apply length_replicate|]. simpl. intros i Hi. apply lookup_replicate in Hi as [_ Hi].
  unfold all_up in Hall. rewrite forallb_forall in Hall.
  assert (Hin : List.In i (seq 0 (cfg_n cfg))) by (apply in_seq; lia).
  specialize (Hall i Hin). apply bool_decide_eq_true in Hall as [nd Hnd].
  exists nd. split; [done|]. rewrite list_lookup_fmap, lookup_seq_lt by lia. simpl. by rewrite Hnd.
Qed.

(** Server 0 is looked at when it has just won, the others after its heartbeats. *)
Definition moment (i : nat) : list NEvent := match i with O => [] | _ => heartbeats end.
Definition found : View := fun i => show (net_state (elected ++ moment i)) three.

Lemma found_watched : watched (H := Wire.gob_wire) (H0 := gob_raft_codec (H := Wire.gob_wire)) 3 found.
Proof.
  exists (fun i => net_state (elected ++ moment i)). split_and!.
  - apply (net_steps []). by vm_compute.
  - intros [|i]; [|constructor]. apply (net_steps elected heartbeats). by vm_compute.
  - intros [|i]; apply (show_shows _ three); by vm_compute.
Qed.

Lemma found_checked : checkOneLeader (fun _ _ => found) three = Ok (0%nat, found).
Proof.
  unfold checkOneLeader. cbn [one_leader_loop].
  assert (Hc : collect_leaders found = Ok {[ 1 := [0%nat] ]}) by (by vm_compute). rewrite Hc. done.
Qed.

Lemma check_one_leader_witness :
  exists t, leader_at (found 0%nat) t 0 /\
    forall t' j, leader_at (found j) t' j -> t' <= t /\ (t' = t -> j = 0%nat).
Proof.
  pose proof (check_one_leader (H := Wire.gob_wire) (H0 := gob_raft_codec (H := Wire.gob_wire)) 3
    (fun _ _ => found) three) as Hc.
  rewrite found_checked in Hc. apply Hc. unfold slept.
  repeat (constructor; [exact found_watched|]). constructor.
Defined.

(** One round: server 0 leads and accepts the command; server 1 is seen to
    have applied it, and a little later all three are. *)
Definition agreed_logs (k : nat) (cfg : config) : config :=
  set_cfg_logs (replicate k {[ 1 := IInt 7 ]} ++ replicate (3 - k) ∅) 1 cfg.
Definition one_round : Round :=
  mkRound (fun _ cfg => cfg) [fun cfg _ => agreed_logs 2 cfg; fun cfg _ => agreed_logs 3 cfg] id.

Definition after_one : View :=
  (of_ok (0, still no_config) (one (H := Wire.gob_wire) (IInt 7) 3 false [one_round] 0 (found 0%nat))).2.

Lemma one_ran :
  one (H := Wire.gob_wire) (IInt 7) 3 false [one_round] 0 (found 0%nat) = Ok (1, after_one).
Proof. by vm_compute. Qed.

Lemma one_agreement_witness :
  (exists i c rf, cfg_rafts c !! i = Some (Some rf) /\ role rf = Leader /\
     (i, c) ∈ one_calls (H := Wire.gob_wire) (IInt 7) 3 [one_round] 0 (found 0%nat)) /\
  3 <= holders after_one 1 (IInt 7) (length (cfg_rafts (after_one 0%nat))).
Proof.
  destruct (one_agreement (H := Wire.gob_wire) (IInt 7) 3 false [one_round] 0 (found 0%nat) after_one 1 one_ran)
    as ((pre & i & c & rf & rf' & t & Hc & _ & Hi & HL & _) & _ & Hh).
  split; [|exact Hh]. exists i, c, rf. split; [exact Hi|]. split; [exact HL|]. rewrite Hc. apply elem_of_app. right. by left.
Defined.
