(* ===== verification/TesterRun.v ===== *)
(** * The tester's operations run

    [TesterProps] says what holds after the tester's operations return; here:
    that they return.  The only thing that can go wrong is a name drawn twice,
    for which [MakeEnd] ends the program. *)

From S2P Require Import Prelude Gob GobWire Persister Raft LabRpc RandString Cluster Tester TesterProps.

(** ** The shape of the configuration *)

Definition named (cfg : config) (i : nat) : Prop := exists ns, cfg_endnames cfg !! i = Some (Some ns).

Record sized (cfg : config) : Prop := {
  sz_conn : length (cfg_connected cfg) = cfg_n cfg;
  sz_rafts : length (cfg_rafts cfg) = cfg_n cfg;
  sz_saved : length (cfg_saved cfg) = cfg_n cfg;
  sz_num : length (cfg_endnames cfg) = cfg_n cfg;
  sz_names i ns : cfg_endnames cfg !! i = Some (Some ns) -> length ns = cfg_n cfg;
  sz_up i : cfg_connected cfg !! i = Some true -> named cfg i;
}.

(** The ends made so far. *)
Definition ends_are (L : list Key) (cfg : config) : Prop :=
  forall e, is_Some (n_ends (cfg_net cfg) !! e) <-> e ∈ L.

Lemma assign_Ok {A} (l : list A) i x : (i < length l)%nat -> assign l i x = Ok (<[i := x]> l).
Proof. intros Hi. unfold assign. by rewrite (proj2 (Nat.ltb_lt _ _) Hi). Qed.

Lemma run_lookup {A} (l : list A) i : (i < length l)%nat -> exists x, l !! i = Some x /\ run (l !! i) = Ok x.
Proof. intros [x Hx]%lookup_lt_is_Some_2. exists x. by rewrite Hx. Qed.

(** A loop whose iterations return. *)
Lemma for_each_runs {S} (I : S -> Prop) (f : nat -> S -> Outcome S) js :
  (forall j s, j ∈ js -> I s -> exists s', f j s = Ok s' /\ I s') ->
  forall s, I s -> exists s', for_each f js s = Ok s' /\ I s'.
Proof.
  induction js as [|j js IH]; intros Hf s Hs; [by exists s|].
  destruct (Hf j s ltac:(left) Hs) as (s1 & E & Hs1). cbn [for_each]. rewrite E. cbn [mbind Outcome_bind].
  apply IH; [|done]. intros k t Hk. apply Hf. by right.
Qed.

Lemma endname_runs cfg i j :
  sized cfg -> named cfg i -> (j < cfg_n cfg)%nat -> exists e, endname_of cfg i j = Ok e.
Proof.
  intros Hs [ns Hns] Hj. destruct (lookup_lt_is_Some_2 ns j) as [e He]; [by rewrite (sz_names _ Hs _ _ Hns)|].
  exists e. unfold endname_of. by rewrite Hns; simpl; rewrite He.
Qed.

Lemma enable_runs cfg i j k rn :
  sized cfg -> (cfg_connected cfg !! k = Some true -> named cfg i) -> (k < cfg_n cfg)%nat -> (j < cfg_n cfg)%nat ->
  exists rn', enable_if_connected cfg i j k rn = Ok rn' /\ n_ends rn' = n_ends rn.
Proof.
  intros Hs Hup Hk Hj. unfold enable_if_connected.
  destruct (run_lookup (cfg_connected cfg) k) as (b & Hb & ->); [by rewrite (sz_conn _ Hs)|].
  cbn [mbind Outcome_bind]. destruct b; [|by exists rn].
  destruct (endname_runs cfg i j Hs (Hup Hb) Hj) as [e ->]. by eexists.
Qed.

Lemma disable_runs cfg i j rn :
  sized cfg -> (i < cfg_n cfg)%nat -> (j < cfg_n cfg)%nat ->
  exists rn', disable_if_made cfg i j rn = Ok rn' /\ n_ends rn' = n_ends rn.
Proof.
  intros Hs Hi Hj. unfold disable_if_made.
  destruct (run_lookup (cfg_endnames cfg) i) as (o & Ho & ->); [by rewrite (sz_num _ Hs)|].
  cbn [mbind Outcome_bind]. destruct o as [ns|]; [|by exists rn].
  destruct (endname_runs cfg i j Hs (ex_intro _ ns Ho) Hj) as [e ->]. by eexists.
Qed.

Lemma sized_conn cfg i b :
  sized cfg -> (b = true -> named cfg i) -> sized (set_cfg_connected (<[i := b]> (cfg_connected cfg)) cfg).
Proof.
  intros [H1 H2 H3 H4 H5 H6] Hb. split; simpl; try done; [by rewrite length_insert|].
  intros k Hk. destruct (decide (k = i)) as [->|Hne].
  - apply list_lookup_insert_Some in Hk as [(_ & -> & _)|(Hn & _)]; [by apply Hb|done].
  - rewrite list_lookup_insert_ne in Hk by done. by apply H6.
Qed.

Lemma connect_runs i cfg :
  sized cfg -> (i < cfg_n cfg)%nat -> named cfg i ->
  exists rn, connect i cfg = Ok (set_cfg_net rn (set_cfg_connected (<[i := true]> (cfg_connected cfg)) cfg)) /\
    n_ends rn = n_ends (cfg_net cfg).
Proof.
  intros Hs Hi Hn. unfold connect. rewrite assign_Ok by (by rewrite (sz_conn _ Hs)). cbn [mbind Outcome_bind].
  pose proof (sized_conn cfg i true Hs (fun _ => Hn)) as Hs'.
  set (cfg1 := set_cfg_connected _ cfg) in *. set (I := fun rn => n_ends rn = n_ends (cfg_net cfg)).
  destruct (for_each_runs I (fun j => enable_if_connected cfg1 i j j) (seq 0 (cfg_n cfg1))) with (s := cfg_net cfg1)
    as (rn1 & -> & Hrn1); [|done|].
  { intros j rn Hj%elem_of_seq Hrn. destruct (enable_runs cfg1 i j j rn Hs') as (rn' & E & Hrn'); [done|lia|lia|].
    exists rn'. split; [exact E|]. unfold I in *. congruence. }
  cbn [mbind Outcome_bind].
  destruct (for_each_runs I (fun j => enable_if_connected cfg1 j i j) (seq 0 (cfg_n cfg1))) with (s := rn1)
    as (rn2 & -> & Hrn2); [|done|].
  { intros j rn Hj%elem_of_seq Hrn. destruct (enable_runs cfg1 j i j rn Hs') as (rn' & E & Hrn'); [apply (sz_up _ Hs')|lia|exact Hi|].
    exists rn'. split; [exact E|]. unfold I in *. congruence. }
  by exists rn2.
Qed.

Lemma disconnect_runs i cfg :
  sized cfg -> (i < cfg_n cfg)%nat ->
  exists rn, disconnect i cfg = Ok (set_cfg_net rn (set_cfg_connected (<[i := false]> (cfg_connected cfg)) cfg)) /\
    n_ends rn = n_ends (cfg_net cfg).
Proof.
  intros Hs Hi. unfold disconnect. rewrite assign_Ok by (by rewrite (sz_conn _ Hs)). cbn [mbind Outcome_bind].
  pose proof (sized_conn cfg i false Hs ltac:(done)) as Hs'.
  set (cfg1 := set_cfg_connected _ cfg) in *. set (I := fun rn => n_ends rn = n_ends (cfg_net cfg)).
  assert (Hloop : forall (a c : nat -> nat), (forall j, (j < cfg_n cfg)%nat -> (a j < cfg_n cfg /\ c j < cfg_n cfg)%nat) ->
    forall rn, I rn -> exists rn', for_each (fun j => disable_if_made cfg1 (a j) (c j)) (seq 0 (cfg_n cfg1)) rn = Ok rn' /\ I rn').
  { intros a c Hac. apply (for_each_runs I). intros j rn Hj%elem_of_seq Hrn. destruct (Hac j ltac:(simpl in Hj; lia)) as [Ha Hc].
    destruct (disable_runs cfg1 (a j) (c j) rn Hs') as (rn' & E & Hrn'); [done|done|].
    exists rn'. split; [exact E|]. unfold I in *. congruence. }
  destruct (Hloop (fun _ => i) (fun j => j)) with (rn := cfg_net cfg1) as (rn1 & -> & Hrn1); [done|done|]. cbn [mbind Outcome_bind].
  destruct (Hloop (fun j => j) (fun _ => i)) with (rn := rn1) as (rn2 & -> & Hrn2); [done|done|]. by exists rn2.
Qed.

(** New ends: one name that exists already, and the program ends. *)
Lemma make_client_ends_runs names L : forall j rn,
  (forall e, is_Some (n_ends rn !! e) <-> e ∈ L) -> NoDup L ->
  (exists rn', make_client_ends j names rn = Ok rn' /\ NoDup (L ++ names) /\
     forall e, is_Some (n_ends rn' !! e) <-> e ∈ L ++ names) \/
  (make_client_ends j names rn = Panic /\ ~ NoDup (L ++ names)).
Proof.
  revert L. induction names as [|e names IH]; intros L j rn HL Hnd.
  { left. exists rn. by rewrite app_nil_r. }
  cbn [make_client_ends]. unfold MakeEnd. destruct (n_ends rn !! e) as [c|] eqn:He.
  - right. split; [done|]. intros (_ & Hdis & _)%NoDup_app. apply (Hdis e); [|by left]. apply HL. eauto.
  - cbn [mbind Outcome_bind]. assert (Hnew : e ∉ L) by (intros [c Hc]%HL; congruence).
    replace (L ++ e :: names) with ((L ++ [e]) ++ names) by (by rewrite <-app_assoc).
    apply IH.
    + intros e'. simpl. rewrite elem_of_app, list_elem_of_singleton, <-HL. destruct (decide (e = e')) as [->|Hne].
      * rewrite lookup_insert_eq. naive_solver.
      * rewrite lookup_insert_ne by done. naive_solver.
    + apply NoDup_app. split_and!; [done| |by apply NoDup_singleton]. set_solver.
Qed.

(** ** Crashing and starting *)

Section Run.
Context `{GobCodec}.

Lemma crash1_runs i cfg :
  sized cfg -> (i < cfg_n cfg)%nat ->
  exists cfg', crash1 i cfg = Ok cfg' /\ sized cfg' /\ cfg_n cfg' = cfg_n cfg /\
    cfg_endnames cfg' = cfg_endnames cfg /\ n_ends (cfg_net cfg') = n_ends (cfg_net cfg) /\
    cfg_connected cfg' = <[i := false]> (cfg_connected cfg).
Proof.
  intros Hs Hi. unfold crash1. destruct (disconnect_runs i cfg Hs Hi) as (rn & -> & Hrn). cbn [mbind Outcome_bind].
  pose proof (sized_conn cfg i false Hs ltac:(done)) as Hs'. unfold saved_content. simpl.
  destruct (run_lookup (cfg_saved cfg) i) as (o & Ho & ->); [by rewrite (sz_saved _ Hs)|].
  destruct (run_lookup (cfg_rafts cfg) i) as (rf & Hrf & ->); [by rewrite (sz_rafts _ Hs)|].
  cbn [mbind Outcome_bind]. rewrite (assign_Ok (cfg_rafts cfg)) by (by rewrite (sz_rafts _ Hs)). cbn [mbind Outcome_bind].
  rewrite (assign_Ok (cfg_saved cfg)) by (by rewrite (sz_saved _ Hs)). cbn [mbind Outcome_bind]. eexists. split; [reflexivity|].
  destruct Hs' as [H1 H2 H3 H4 H5 H6]. split_and!; [|done..]. split; simpl in *; try done; by rewrite length_insert.
Qed.

Lemma sized_named cfg cfg' i ns :
  sized cfg -> cfg_n cfg' = cfg_n cfg -> length ns = cfg_n cfg ->
  cfg_endnames cfg' = <[i := Some ns]> (cfg_endnames cfg) -> cfg_connected cfg' = cfg_connected cfg ->
  length (cfg_rafts cfg') = cfg_n cfg -> length (cfg_saved cfg') = cfg_n cfg -> sized cfg'.
Proof.
  intros [H1 H2 H3 H4 H5 H6] En Hns Ee Ec Er Es.
  split; rewrite ?En, ?Ec, ?Ee, ?length_insert; try done.
  - intros k ms [(_ & [= <-] & _)|(_ & Hk)]%list_lookup_insert_Some; [done|by eapply H5].
  - intros k Hk. destruct (H6 k Hk) as [ms Hms]. unfold named. rewrite Ee.
    destruct (decide (k = i)) as [->|Hne]; [|rewrite list_lookup_insert_ne by done; eauto].
    rewrite list_lookup_insert_eq by (by eapply lookup_lt_Some). eauto.
Qed.

Lemma start1_runs i names rnd cfg L :
  sized cfg -> (i < cfg_n cfg)%nat -> ends_are L cfg -> NoDup L ->
  let ns := names <$> seq 0 (cfg_n cfg) in
  (exists cfg', start1 i names rnd cfg = Ok cfg' /\ NoDup (L ++ ns) /\ sized cfg' /\ cfg_n cfg' = cfg_n cfg /\
     cfg_endnames cfg' = <[i := Some ns]> (cfg_endnames cfg) /\ ends_are (L ++ ns) cfg') \/
  (start1 i names rnd cfg = Panic /\ ~ NoDup (L ++ ns)).
Proof.
  intros Hs Hi HL Hnd ns. unfold start1.
  destruct (crash1_runs i cfg Hs Hi) as (c1 & -> & Hs1 & En & Ee & Ends & _). cbn [mbind Outcome_bind].
  rewrite En. fold ns. rewrite (assign_Ok (cfg_endnames c1)) by (by rewrite (sz_num _ Hs1), En). cbn [mbind Outcome_bind]. simpl.
  destruct (make_client_ends_runs ns L 0 (cfg_net c1)) as [(rn & -> & Hnew & Hrn)|[-> Hdup]];
    [by rewrite Ends|done| |by right].
  left. cbn [mbind Outcome_bind].
  destruct (run_lookup (cfg_saved c1) i) as (o & Ho & ->); [by rewrite (sz_saved _ Hs1), En|]. cbn [mbind Outcome_bind].
  rewrite (assign_Ok (cfg_saved c1)) by (by rewrite (sz_saved _ Hs1), En). cbn [mbind Outcome_bind].
  rewrite (assign_Ok (cfg_rafts c1)) by (by rewrite (sz_rafts _ Hs1), En). cbn [mbind Outcome_bind]. eexists. split; [reflexivity|].
  split; [done|]. split; [|by rewrite <-Ee].
  eapply (sized_named c1 _ i ns); simpl; try done; rewrite ?length_insert, ?En; [|by rewrite (sz_rafts _ Hs1)|by rewrite (sz_saved _ Hs1)].
  unfold ns. by rewrite length_fmap, length_seq.
Qed.

(** ** Sequences of operations *)

(** The servers are numbered below [n]. *)
Definition op_in (n : nat) (op : TesterOp) : bool :=
  match op with TConnect i | TDisconnect i | TCrash i | TStart i _ _ => Nat.ltb i n | _ => true end.

(** The names an operation draws. *)
Definition op_names (n : nat) (op : TesterOp) : list Key :=
  match op with TStart _ names _ => names <$> seq 0 n | _ => [] end.

(** A server must have been started before it is connected. *)
Definition op_fits (cfg : config) (op : TesterOp) : Prop :=
  op_in (cfg_n cfg) op = true /\ match op with TConnect i => named cfg i | _ => True end.

Lemma named_insert cfg cfg' i ns k :
  cfg_endnames cfg' = <[i := Some ns]> (cfg_endnames cfg) -> (i < length (cfg_endnames cfg))%nat ->
  named cfg k \/ k = i -> named cfg' k.
Proof.
  intros Ee Hi Hk. unfold named. rewrite Ee. destruct (decide (k = i)) as [->|Hne].
  - rewrite list_lookup_insert_eq by done. eauto.
  - rewrite list_lookup_insert_ne by done. by destruct Hk as [Hk|Hk].
Qed.

Lemma tester_step_runs op cfg L :
  sized cfg -> op_fits cfg op -> ends_are L cfg -> NoDup L ->
  (exists cfg', tester_step op cfg = Ok cfg' /\ NoDup (L ++ op_names (cfg_n cfg) op) /\ sized cfg' /\
     cfg_n cfg' = cfg_n cfg /\ (forall k, named cfg k -> named cfg' k) /\
     (forall i names rnd, op = TStart i names rnd -> named cfg' i) /\ ends_are (L ++ op_names (cfg_n cfg) op) cfg') \/
  (tester_step op cfg = Panic /\ ~ NoDup (L ++ op_names (cfg_n cfg) op)).
Proof.
  intros Hs [Hi Hfit] HL Hnd. destruct op as [i|i|i|i names rnd|b|b]; cbn [op_in op_names tester_step] in *;
    rewrite ?app_nil_r; try apply Nat.ltb_lt in Hi.
  - left. destruct (connect_runs i cfg Hs Hi Hfit) as (rn & -> & Hrn). eexists. split; [reflexivity|].
    destruct (sized_conn cfg i true Hs (fun _ => Hfit)) as [H1 H2 H3 H4 H5 H6].
    split_and!; try done. intros e. simpl. rewrite Hrn. apply HL.
  - left. destruct (disconnect_runs i cfg Hs Hi) as (rn & -> & Hrn). eexists. split; [reflexivity|].
    destruct (sized_conn cfg i false Hs ltac:(done)) as [H1 H2 H3 H4 H5 H6].
    split_and!; try done. intros e. simpl. rewrite Hrn. apply HL.
  - left. destruct (crash1_runs i cfg Hs Hi) as (c1 & -> & Hs1 & En & Ee & Ends & _). exists c1.
    split_and!; try done; [unfold named; by rewrite Ee|]. intros e. rewrite Ends. apply HL.
  - destruct (start1_runs i names rnd cfg L Hs Hi HL Hnd) as [(c1 & E & Hnew & Hs1 & En & Ee & Hends)|Hp]; [left|by right].
    exists c1. assert (Hlen : (i < length (cfg_endnames cfg))%nat) by (by rewrite (sz_num _ Hs)).
    split_and!; try done; [intros k Hk|intros ? ? ? [= <- _ _]]; eapply named_insert; eauto.
  - left. eexists. split; [reflexivity|]. destruct Hs. by split_and!.
  - left. eexists. split; [reflexivity|]. destruct Hs. by split_and!.
Qed.

(** A sequence of operations returns exactly if no name is drawn twice. *)
Lemma tester_exec_runs ops : forall cfg L,
  sized cfg -> Forall (op_fits cfg) ops -> ends_are L cfg -> NoDup L ->
  let all := L ++ concat (op_names (cfg_n cfg) <$> ops) in
  (exists cfg', tester_exec ops cfg = Ok cfg' /\ NoDup all /\ sized cfg' /\ cfg_n cfg' = cfg_n cfg /\
     (forall k, named cfg k -> named cfg' k) /\
     (forall i names rnd, TStart i names rnd ∈ ops -> named cfg' i) /\ ends_are all cfg') \/
  (tester_exec ops cfg = Panic /\ ~ NoDup all).
Proof.
  induction ops as [|op ops IH]; intros cfg L Hs Hfit HL Hnd all.
  { left. exists cfg. unfold all. cbn [fmap list_fmap concat]. rewrite app_nil_r. split_and!; try done. intros ? ? ? []%not_elem_of_nil. }
  apply Forall_cons in Hfit as [Hop Hops]. cbn [tester_exec]. unfold all. rewrite fmap_cons. cbn [concat]. rewrite app_assoc.
  destruct (tester_step_runs op cfg L Hs Hop HL Hnd) as [(c1 & -> & Hnew & Hs1 & En & Hnm & Hst & Hends)|[-> Hdup]];
    cbn [mbind Outcome_bind].
  - destruct (IH c1 (L ++ op_names (cfg_n cfg) op) Hs1) as [(c2 & E & Hall & Hs2 & En2 & Hnm2 & Hst2 & Hends2)|Hp];
      rewrite ?En in *; try done.
    + eapply Forall_impl; [exact Hops|]. intros op' [Hi Hf]. unfold op_fits. rewrite En. split; [done|].
      destruct op'; auto.
    + left. exists c2. split_and!; try done; [by auto|].
      intros i names rnd [<-|Hin]%elem_of_cons; eauto.
    + by right.
  - right. split; [done|]. intros Hn. apply Hdup. by apply NoDup_app in Hn as [? _].
Qed.
End Run.

(** ** The whole test *)

Lemma NoDup_fmap_iff {A B C} (f : A -> B) (g : A -> C) l :
  (forall x y, x ∈ l -> y ∈ l -> f x = f y <-> g x = g y) -> NoDup (f <$> l) <-> NoDup (g <$> l).
Proof.
  induction l as [|x l IH]; intros Hfg; [by split; constructor|]. rewrite !fmap_cons, !NoDup_cons, IH
    by (intros; apply Hfg; by right).
  assert (Hx : f x ∈ f <$> l <-> g x ∈ g <$> l).
  { assert (Hxy : forall y, y ∈ l -> f x = f y <-> g x = g y) by (intros y Hy; apply Hfg; [by left|by right]).
    rewrite !list_elem_of_fmap. split; intros (y & Hy & Hin); exists y; (split; [by apply Hxy|done]). }
  by rewrite Hx.
Qed.

Lemma tester_exec_app `{GobCodec} ops ops' cfg :
  tester_exec (ops ++ ops') cfg = (cfg ← tester_exec ops cfg; tester_exec ops' cfg).
Proof. revert cfg. induction ops as [|op ops IH]; intros cfg; [done|]. simpl. destruct (tester_step op cfg); [done..|apply IH]. Qed.

Lemma for_each_exec `{GobCodec} (op : nat -> TesterOp) js cfg :
  for_each (fun i => tester_step (op i)) js cfg = tester_exec (op <$> js) cfg.
Proof. revert cfg. induction js as [|j js IH]; intros cfg; [done|]. simpl. destruct (tester_step (op j) cfg); [done..|apply IH]. Qed.

(** The name of an end, drawn with [randstring(20)]. *)
Definition end_name (draw : list Z) : Key := KStr (randstring 20 draw).
Definition draw_ok (draw : list Z) : Prop := length draw = 40%nat /\ Forall byte_ok draw.

Lemma end_names_distinct ds : Forall draw_ok ds -> NoDup (end_name <$> ds) <-> NoDup (take 15 <$> ds).
Proof.
  intros Hds. rewrite Forall_forall in Hds. apply NoDup_fmap_iff. intros x y [Hx Hbx]%Hds [Hy Hby]%Hds.
  pose proof (randstring_eq 5 x y ltac:(lia) ltac:(lia) Hbx Hby) as He. change (4 * 5)%nat with 20%nat in He.
  change (3 * 5)%nat with 15%nat in He. rewrite <-He. unfold end_name. generalize (randstring 20 x), (randstring 20 y). clear. intros. split; congruence.
Qed.

(** What [make_config] draws. *)
Definition first_draws (n : nat) (draws : nat -> nat -> list Z) : list (list Z) :=
  concat ((fun i => draws i <$> seq 0 n) <$> seq 0 n).

Section Test.
Context `{GobCodec}.
Variables (n : nat) (unreliable : bool) (draws : nat -> nat -> list Z) (rnds : nat -> Z).

Definition config_start : config :=
  set_cfg_net (LongDelays true (Reliable (negb unreliable) MakeNetwork))
    (mkConfig MakeNetwork n (replicate n None) (replicate n "") (replicate n false)
       (replicate n None) (replicate n None) (replicate n ∅) 0 0 0 0 0 0).

Lemma config_start_ok : sized config_start /\ ends_are [] config_start.
Proof.
  split.
  - split; simpl; rewrite ?length_replicate; try done.
    + intros i ns [? _]%lookup_replicate. done.
    + intros i [? _]%lookup_replicate. done.
  - intros e. simpl. rewrite lookup_empty. split; [by intros [? ?]|by intros ?%not_elem_of_nil].
Qed.

Definition starts : list TesterOp := (fun i => TStart i (fun j => end_name (draws i j)) (rnds i)) <$> seq 0 n.

Lemma make_config_exec :
  make_config n unreliable (fun i j => end_name (draws i j)) rnds =
  tester_exec (starts ++ (TConnect <$> seq 0 n)) config_start.
Proof.
  rewrite tester_exec_app. unfold starts. rewrite <-for_each_exec. unfold make_config.
  change (set_cfg_net _ _) with config_start.
  destruct (for_each _ (seq 0 n) config_start) as [| |c]; [done..|]. apply (for_each_exec TConnect).
Qed.

Lemma starts_names : concat (op_names n <$> starts) = end_name <$> first_draws n draws.
Proof.
  unfold starts, first_draws. rewrite <-list_fmap_compose. generalize (seq 0 n) at 1 3. intros js.
  induction js as [|i js IH]; [done|]. rewrite !fmap_cons. cbn [concat]. rewrite fmap_app, <-IH.
  unfold compose at 1. cbn [op_names]. by rewrite <-list_fmap_compose.
Qed.

Lemma connects_names ops js :
  concat (op_names n <$> ((TConnect <$> js) ++ ops)) = concat (op_names n <$> ops).
Proof. by induction js as [|j js IH]. Qed.

(** C29. The tester runs.  Make a configuration of [n] servers and do any
    sequence of its operations on them: connect, disconnect, crash, start,
    change the network.  Every end is named by [randstring(20)] from 40 random
    bytes.  The operations all return, and none of them panics, exactly if no
    two of the draws agree in their first 15 bytes. *)
Theorem tester_runs (ops : list TesterOp) (ds : list (list Z)) :
  Forall (fun op => op_in n op = true) ops -> concat (op_names n <$> ops) = end_name <$> ds ->
  Forall draw_ok (first_draws n draws ++ ds) ->
  (exists cfg,
     (cfg ← make_config n unreliable (fun i j => end_name (draws i j)) rnds; tester_exec ops cfg) = Ok cfg) <->
  NoDup (take 15 <$> first_draws n draws ++ ds).
Proof.
  intros Hin Hds Hok. rewrite <-end_names_distinct, fmap_app, <-Hds, <-starts_names by done.
  destruct config_start_ok as [Hs HL]. rewrite make_config_exec, <-tester_exec_app, <-app_assoc, tester_exec_app.
  destruct (tester_exec_runs starts config_start [] Hs) as [(c1 & -> & Hnd & Hs1 & En & _ & Hst & Hends)|[-> Hdup]];
    cbn [mbind Outcome_bind]; [|done|by constructor| |].
  - unfold starts. apply Forall_fmap, Forall_forall. intros i Hi%elem_of_seq. split; [|done]. simpl. apply Nat.ltb_lt. lia.
  - change (cfg_n c1 = n) in En. rewrite app_nil_l in Hnd, Hends. change (cfg_n config_start) with n in Hnd, Hends.
    pose proof (tester_exec_runs ((TConnect <$> seq 0 n) ++ ops) c1) as Hrun. cbn zeta in Hrun.
    setoid_rewrite En in Hrun. setoid_rewrite connects_names in Hrun. destruct (Hrun (concat (op_names n <$> starts)) Hs1) as [(c2 & -> & Hall & _)|[-> Hdup]];
      [|done|done| |].
    + apply Forall_app. split.
      * apply Forall_fmap, Forall_forall. intros i Hi. split; simpl; rewrite ?En.
        -- apply elem_of_seq in Hi. apply Nat.ltb_lt. lia.
        -- eapply Hst. unfold starts. apply list_elem_of_fmap. by exists i.
      * eapply Forall_impl; [exact Hin|]. intros op Hop. split; [by rewrite En|]. destruct op as [i| | | | |]; try done.
        simpl in Hop. apply Nat.ltb_lt in Hop. eapply Hst. unfold starts. apply list_elem_of_fmap. exists i.
        split; [done|]. apply elem_of_seq. lia.
    + split; [done|]. by exists c2.
    + split; [by intros [? ?]|]. intros Hn. by destruct Hdup.
  - split; [by intros [? ?]|]. intros Hn. destruct Hdup. simpl in *. by apply NoDup_app in Hn as [? _].
Qed.
End Test.

(** Two servers; server 0 is killed and started again. *)
Definition two_draws (i j : nat) : list Z := replicate 40 (Z.of_nat (2 * i + j)).
Definition again (j : nat) : list Z := replicate 40 (Z.of_nat (100 + j)).
Definition again_ops : list TesterOp :=
  [TDisconnect 1; TCrash 0; TStart 0 (fun j => end_name (again j)) 5; TConnect 0; TUnreliable true; TConnect 1].

Lemma tester_runs_witness :
  exists cfg,
    (cfg ← make_config (H := Wire.gob_wire) 2 false (fun i j => end_name (two_draws i j)) (fun i => Z.of_nat i);
     tester_exec (H := Wire.gob_wire) again_ops cfg) = Ok cfg.
Proof.
  apply (tester_runs (H := Wire.gob_wire) 2 false two_draws (fun i => Z.of_nat i) again_ops [again 0; again 1]).
  - apply (bool_decide_unpack _). by vm_compute.
  - reflexivity.
  - unfold draw_ok, byte_ok. apply (bool_decide_unpack _). by vm_compute.
  - apply (bool_decide_unpack _). by vm_compute.
Defined.
