(* ===== verification/MrUtil.v ===== *)
(** * MapReduce: shared data and utilities

    [mr/util.go] and [mr/rpc.go], the key/value pairs of [mr/worker.go], and
    what the package uses of Go's [strconv], [hash/fnv] and [sort].

    Go strings are byte sequences, so they are [string]s; [<] on them is the
    byte-wise lexicographic order, which is [String.le] made strict.
    [uint32] values are integers below [2 ^ 32]. *)

From stdpp Require Import pretty.
From S2P Require Import Prelude.

(** ** Integers and decimal numerals *)

Definition uint32 (x : Z) : Z := x mod 2 ^ 32.

(** [strconv.Itoa], and [%d] of [fmt]. *)
Definition Itoa (z : Z) : string := pretty z.

Lemma uint32_range x : 0 <= uint32 x < 2 ^ 32.
Proof. apply Z.mod_pos_bound. lia. Qed.

Lemma uint32_small x : 0 <= x < 2 ^ 32 -> uint32 x = x.
Proof. apply Z.mod_small. Qed.

(** ** Strings *)

Lemma append_assoc s t u : (s +:+ t) +:+ u = s +:+ (t +:+ u).
Proof.
  induction s as [|c s IH]; [done|].
  change (String c ((s +:+ t) +:+ u) = String c (s +:+ (t +:+ u))). by rewrite IH.
Qed.

Lemma append_nil s : s +:+ "" = s.
Proof. induction s as [|c s IH]; [done|]. change (String c (s +:+ "") = String c s). by rewrite IH. Qed.

Lemma length_append s t : String.length (s +:+ t) = (String.length s + String.length t)%nat.
Proof. induction s as [|c s IH]; [done|]. change (S (String.length (s +:+ t)) = S (String.length s) + String.length t)%nat. by rewrite IH. Qed.

(** ** util.go *)

(** [make] panics on a negative length. *)
Definition makeRangeUint32 (min max : Z) : option (list Z) :=
  if max - min + 1 <? 0 then None
  else Some (map (fun i => uint32 (min + Z.of_nat i)) (seq 0 (Z.to_nat (max - min + 1)))).

Fixpoint inRangeUint32 (elem : Z) (l : list Z) : bool :=
  match l with
  | [] => false
  | v :: l => if v =? elem then true else inRangeUint32 elem l
  end.

(** Instants are integers. *)
Definition inTimeSpan (start end_ check : Z) : bool := (start <? check) && (check <? end_).

(** The bytes of a string. *)
Definition bytes (s : string) : list Z :=
  map (fun c => Z.of_N (Ascii.N_of_ascii c)) (String.list_ascii_of_string s).

(** FNV-1a with its 32-bit offset basis and prime. *)
Definition fnv32a (l : list Z) : Z :=
  fold_left (fun h b => uint32 (Z.lxor h b * 16777619)) l 2166136261.

Definition ihash (key : string) : Z := Z.land (fnv32a (bytes key)) 0x7fffffff.

(** Published test vectors of FNV-1a. *)
Example fnv_empty : fnv32a (bytes "") = 0x811c9dc5.
Proof. reflexivity. Qed.
Example fnv_a : fnv32a (bytes "a") = 0xe40c292c.
Proof. reflexivity. Qed.
Example fnv_foobar : fnv32a (bytes "foobar") = 0xbf9cf968.
Proof. reflexivity. Qed.

Lemma inRangeUint32_spec elem l : inRangeUint32 elem l = bool_decide (elem ∈ l).
Proof.
  induction l as [|v l IH]; simpl; [done|]. rewrite IH.
  destruct (Z.eqb_spec v elem) as [->|Hne]; symmetry.
  - apply bool_decide_true. by left.
  - apply bool_decide_ext. rewrite elem_of_cons. naive_solver.
Qed.

Lemma ihash_range key : 0 <= ihash key < 2 ^ 31.
Proof.
  unfold ihash. change 0x7fffffff with (Z.ones 31). rewrite Z.land_ones by lia. apply Z.mod_pos_bound. lia.
Qed.

(** The reduce bucket of a key is a legal index. *)
Lemma ihash_bucket key nReduce : 0 < nReduce -> 0 <= Z.rem (ihash key) nReduce < nReduce.
Proof. intros Hn. pose proof (ihash_range key). apply Z.rem_bound_pos; lia. Qed.

(** ** Key/value pairs and sorting *)

Record KeyValue := mkKV { Key : string; Value : string }.

#[export] Instance KeyValue_eq_dec : EqDecision KeyValue.
Proof. solve_decision. Defined.

(** [a < b] on Go strings. *)
Definition str_lt (a b : string) : bool := String.ltb a b.

(** [ByKey]'s [Less], on the elements it compares. *)
Definition Less (a b : KeyValue) : bool := str_lt (Key a) (Key b).

Definition key_le (a b : KeyValue) : Prop := String.le (Key a) (Key b).

Lemma str_lt_le a b : str_lt b a = false <-> String.le a b.
Proof.
  unfold str_lt, String.ltb, String.le, String.leb. rewrite (String.compare_antisym a b).
  destruct (String.compare b a); simpl; split; intros; try done; by exfalso.
Qed.

Lemma Less_key_le a b : Less b a = false <-> key_le a b.
Proof. apply str_lt_le. Qed.

#[export] Instance key_le_dec : RelDecision key_le := fun a b => String.le_dec (Key a) (Key b).
#[export] Instance key_le_trans : Transitive key_le.
Proof. intros a b c. unfold key_le. by etransitivity. Qed.
#[export] Instance key_le_total : Total key_le.
Proof. intros a b. apply (total String.le). Qed.

(** What the package documentation promises of [sort.Sort(ByKey(kvs))]: the
    same elements, in an order in which no later one is [Less] than an
    earlier one.  The order of pairs with equal keys is not specified. *)
Class GoSort := {
  sort_ByKey : list KeyValue -> list KeyValue;
  sort_ByKey_perm kvs : sort_ByKey kvs ≡ₚ kvs;
  sort_ByKey_sorted kvs : StronglySorted (fun a b => Less b a = false) (sort_ByKey kvs);
}.

(** One admissible sort. *)
#[export, refine] Instance merge_GoSort : GoSort := {| sort_ByKey := merge_sort key_le |}.
Proof.
  - apply merge_sort_Permutation.
  - intros kvs. pose proof (StronglySorted_merge_sort key_le kvs) as Hs.
    induction Hs as [|a l Hs IH Hf]; constructor; [done|].
    eapply Forall_impl; [exact Hf|]. intros b. by rewrite Less_key_le.
Defined.

(** [sort.Strings]: strings that compare equal are equal, so its result does
    not depend on the algorithm. *)
Definition sort_Strings (l : list string) : list string := merge_sort String.le l.

Lemma sort_Strings_perm l : sort_Strings l ≡ₚ l.
Proof. apply merge_sort_Permutation. Qed.

Lemma sort_Strings_ext l l' : l ≡ₚ l' -> sort_Strings l = sort_Strings l'.
Proof.
  intros Hp. apply (StronglySorted_unique String.le).
  - apply StronglySorted_merge_sort; apply _.
  - apply StronglySorted_merge_sort; apply _.
  - by rewrite !sort_Strings_perm.
Qed.

(** ** rpc.go *)

Inductive MRPhase := MapPhase | ReducePhase.
Inductive TaskState := TaskStateQueue | TaskStateSending | TaskStateRunning | TaskStateFinish | TaskStateErr.

#[export] Instance MRPhase_eq_dec : EqDecision MRPhase.
Proof. solve_decision. Defined.
#[export] Instance TaskState_eq_dec : EqDecision TaskState.
Proof. solve_decision. Defined.

Record MRTask := mkTask {
  WorkerID : Z; TaskID : Z; NReduce : Z; Phase : MRPhase; Filename : string;
  State : TaskState; BeatTime : Z }.

Record MRArgs := mkArgs { a_ID : Z; a_State : TaskState }.

(** [MRReply] holds a possibly nil pointer. *)
Record MRReply := mkReply { Task : option MRTask }.

Definition masterSock (uid : Z) : string := "/var/tmp/824-mr-" +:+ Itoa uid.
