(* ===== verification/MrApps.v ===== *)
(** * MapReduce applications

    The plugins of [mrapps/]: word count, indexer, the crashing application
    and its control, and the parts of the timing applications that do not
    look at the process table (the others are in [MrTiming]); with what they use of Go's [unicode] and
    [strings].  Every application has a [Map] and a [Reduce]; here they
    carry the name of their file. *)

From S2P Require Import Prelude Utf8 MrUtil.

(** ** Results of application code *)

(** Application code returns, panics, or leaves the process ([os.Exit]). *)
Inductive GoRun (A : Type) :=
  | Returns (a : A)
  | Panics
  | Exits.
Arguments Returns {A} a.
Arguments Panics {A}.
Arguments Exits {A}.

#[export] Instance GoRun_ret : MRet GoRun := fun A => Returns.
#[export] Instance GoRun_bind : MBind GoRun := fun A B k r =>
  match r with Returns a => k a | Panics => Panics | Exits => Exits end.

(** ** strings.FieldsFunc *)

(** The loop over the runes; [cur] is the field under construction
    ([start >= 0] in Go), the accumulator the finished ones. *)
Fixpoint fields_loop (f : Z -> bool) (cur : option (list Ascii.ascii))
    (l : list (Z * list Ascii.ascii)) : list (list Ascii.ascii) :=
  match l with
  | [] => match cur with Some w => [w] | None => [] end
  | (r, bs) :: l =>
      if f r then
        match cur with Some w => w :: fields_loop f None l | None => fields_loop f None l end
      else
        fields_loop f (Some (match cur with Some w => w ++ bs | None => bs end)) l
  end.

Definition FieldsFunc (s : string) (f : Z -> bool) : list string :=
  map String.string_of_list_ascii (fields_loop f None (runes s)).

(** Exactly the bytes of the runes outside the separators, in order. *)
Lemma fields_loop_concat f cur l :
  concat (fields_loop f cur l) = default [] cur ++ concat (snd <$> List.filter (fun x => negb (f x.1)) l).
Proof.
  revert cur. induction l as [|[r bs] l IH]; intros cur; simpl.
  - destruct cur; simpl; rewrite ?app_nil_r; done.
  - destruct (f r); simpl; [destruct cur; simpl|]; rewrite ?IH; [done..|].
    destruct cur; simpl; by rewrite ?app_assoc.
Qed.

Lemma FieldsFunc_concat s f :
  concat (map String.list_ascii_of_string (FieldsFunc s f)) =
  concat (snd <$> List.filter (fun x => negb (f x.1)) (runes s)).
Proof.
  unfold FieldsFunc. rewrite map_map.
  rewrite (map_ext _ id) by apply String.list_ascii_of_string_of_list_ascii. by rewrite map_id, fields_loop_concat.
Qed.

(** The reference: cut at every separator, drop the empty pieces. *)
Fixpoint cut_runes (f : Z -> bool) (l : list (Z * list Ascii.ascii)) : list (list (Z * list Ascii.ascii)) :=
  match l with
  | [] => [[]]
  | x :: l =>
      if f x.1 then [] :: cut_runes f l
      else match cut_runes f l with w :: ws => (x :: w) :: ws | [] => [[x]] end
  end.

Definition rune_bytes (w : list (Z * list Ascii.ascii)) : list Ascii.ascii := concat (snd <$> w).

Definition pieces (ws : list (list (Z * list Ascii.ascii))) : list (list Ascii.ascii) :=
  rune_bytes <$> filter (fun w => w <> []) ws.

Lemma fields_loop_cut f l cur :
  fields_loop f cur l =
  match cur, cut_runes f l with
  | Some c, w :: ws => (c ++ rune_bytes w) :: pieces ws
  | None, ws => pieces ws
  | Some c, [] => [c]
  end.
Proof.
  revert cur. induction l as [|[r bs] l IH]; intros cur.
  { destruct cur; simpl; [by rewrite app_nil_r|done]. }
  cbn [fields_loop cut_runes fst]. destruct (f r).
  - rewrite IH. destruct cur; [|done]. unfold rune_bytes at 1. simpl. by rewrite app_nil_r.
  - rewrite IH. destruct (cut_runes f l) as [|w ws]; destruct cur; unfold pieces, rune_bytes; simpl;
      by rewrite ?app_nil_r, <-?app_assoc.
Qed.

Lemma FieldsFunc_cut s f : FieldsFunc s f = map String.string_of_list_ascii (pieces (cut_runes f (runes s))).
Proof. unfold FieldsFunc. by rewrite fields_loop_cut. Qed.

(** ** unicode.IsLetter *)

(** The Unicode tables; on ASCII, the Latin letters. *)
Definition ascii_letter (r : Z) : bool := between 65 90 r || between 97 122 r.

Class Unicode := {
  IsLetter : Z -> bool;
  IsLetter_ascii r : 0 <= r < 0x80 -> IsLetter r = ascii_letter r;
}.

(** The tables restricted to the ASCII range. *)
#[export, refine] Instance ascii_Unicode : Unicode := {| IsLetter := ascii_letter |}.
Proof. done. Defined.

(** ** wc.go *)

Section Apps.
Context `{Unicode}.

Definition words (contents : string) : list string := FieldsFunc contents (fun r => negb (IsLetter r)).

Definition wc_Map (filename contents : string) : GoRun (list KeyValue) :=
  Returns (map (fun w => mkKV w "1") (words contents)).

Definition wc_Reduce (key : string) (values : list string) : GoRun string :=
  Returns (Itoa (zlen values)).

(** ** indexer.go *)

(** [order] is the iteration order of the map [m], which Go leaves open. *)
Definition indexer_Map (order : gset string -> list string) (document value : string) : GoRun (list KeyValue) :=
  let m : gset string := list_to_set (words value) in
  Returns (map (fun w => mkKV w document) (order m)).

Definition indexer_Reduce (key : string) (values : list string) : GoRun string :=
  let values := sort_Strings values in
  Returns (Itoa (zlen values) +:+ " " +:+ String.concat "," values).

End Apps.

(** ** crash.go *)

(** [rr] is the draw below 1000; a delay has no effect of its own. *)
Definition crash_maybeCrash (rr : Z) : GoRun unit := if rr <? 330 then Exits else Returns ().

Definition crash_pairs (filename contents : string) : list KeyValue :=
  [mkKV "a" filename; mkKV "b" (Itoa (Z.of_nat (String.length filename)));
   mkKV "c" (Itoa (Z.of_nat (String.length contents))); mkKV "d" "xyzzy"].

Definition crash_Map (rr : Z) (filename contents : string) : GoRun (list KeyValue) :=
  _ ← crash_maybeCrash rr; Returns (crash_pairs filename contents).

Definition crash_Reduce (rr : Z) (key : string) (values : list string) : GoRun string :=
  _ ← crash_maybeCrash rr;
  Returns (String.concat " " (sort_Strings values)).

(** ** nocrash.go *)

Definition nocrash_maybeCrash (rr : Z) : GoRun unit := if false && (rr <? 500) then Exits else Returns ().

Definition nocrash_Map (rr : Z) (filename contents : string) : GoRun (list KeyValue) :=
  _ ← nocrash_maybeCrash rr; Returns (crash_pairs filename contents).

Definition nocrash_Reduce (rr : Z) (key : string) (values : list string) : GoRun string :=
  _ ← nocrash_maybeCrash rr;
  Returns (String.concat " " (sort_Strings values)).

(** ** rtiming.go, mtiming.go *)

Definition rtiming_Map (filename contents : string) : GoRun (list KeyValue) :=
  Returns (map (fun k => mkKV k "1") ["a"; "b"; "c"; "d"; "e"; "f"; "g"; "h"; "i"; "j"]).

Definition mtiming_Reduce (key : string) (values : list string) : GoRun string :=
  Returns (String.concat " " (sort_Strings values)).

(** ** Order of values *)

(** The reduce functions that may be given their values in any order: the
    framework sorts pairs by key only, with an unstable sort. *)
Class OrderFree (reducef : string -> list string -> GoRun string) : Prop :=
  order_free k : forall vs vs', vs ≡ₚ vs' -> reducef k vs = reducef k vs'.

#[export] Instance wc_OrderFree : OrderFree wc_Reduce.
Proof. intros k vs vs' Hp. unfold wc_Reduce, zlen. by rewrite Hp. Qed.

#[export] Instance indexer_OrderFree : OrderFree indexer_Reduce.
Proof. intros k vs vs' Hp. unfold indexer_Reduce. by rewrite (sort_Strings_ext _ _ Hp). Qed.

#[export] Instance crash_OrderFree rr : OrderFree (crash_Reduce rr).
Proof. intros k vs vs' Hp. unfold crash_Reduce. by rewrite (sort_Strings_ext _ _ Hp). Qed.

#[export] Instance nocrash_OrderFree rr : OrderFree (nocrash_Reduce rr).
Proof. intros k vs vs' Hp. unfold nocrash_Reduce. by rewrite (sort_Strings_ext _ _ Hp). Qed.

#[export] Instance mtiming_OrderFree : OrderFree mtiming_Reduce.
Proof. intros k vs vs' Hp. unfold mtiming_Reduce. by rewrite (sort_Strings_ext _ _ Hp). Qed.

Example words_ascii : words "it was, it was." = ["it"; "was"; "it"; "was"].
Proof. reflexivity. Qed.
