(* ===== verification/MrJson.v ===== *)
(** * MapReduce: intermediate files

    [doMap] writes each bucket with [json.NewEncoder(f).Encode(&kvss)] and
    [doReduce] reads it back with [json.NewDecoder(f).Decode(&kvs)].
    [JsonCodec] is what the two rely on; [Json] writes out the format for
    plain strings (printable ASCII without the characters [encoding/json]
    escapes), where a nil slice is [null]. *)

From S2P Require Import Prelude MrUtil.

(** Strings that survive [encoding/json] are the valid UTF-8 ones; others are
    rewritten with replacement characters. *)
Class JsonCodec := {
  json_ok : string -> Prop;
  json_encode : list KeyValue -> string;
  json_decode : string -> option (list KeyValue);
  json_roundtrip l :
    Forall (fun kv => json_ok (Key kv) /\ json_ok (Value kv)) l -> json_decode (json_encode l) = Some l;
}.

(** ** The format *)

Module Json.

Definition quote : Ascii.ascii := Ascii.ascii_of_nat 34.
Definition newline : Ascii.ascii := Ascii.ascii_of_nat 10.

(** Characters written as they are: printable, not a quote, a backslash, or
    one of [<], [>], [&]. *)
Definition plain (c : Ascii.ascii) : bool :=
  let n := Ascii.nat_of_ascii c in
  (32 <=? n)%nat && (n <? 127)%nat && negb (existsb (Nat.eqb n) [34; 92; 60; 62; 38])%nat.

Definition plain_string (s : string) : bool := forallb plain (String.list_ascii_of_string s).

(** A quoted string, followed by [rest]. *)
Definition put_string (s rest : string) : string := String quote (s +:+ String quote rest).

Definition put_pair (kv : KeyValue) (rest : string) : string :=
  "{" +:+ put_string "Key" (":" +:+ put_string (Key kv)
    ("," +:+ put_string "Value" (":" +:+ put_string (Value kv) ("}" +:+ rest)))).

Fixpoint put_pairs (kv : KeyValue) (l : list KeyValue) (rest : string) : string :=
  match l with
  | [] => put_pair kv ("]" +:+ rest)
  | kv' :: l => put_pair kv ("," +:+ put_pairs kv' l rest)
  end.

Definition encode (l : list KeyValue) : string :=
  match l with
  | [] => "null" +:+ String newline ""
  | kv :: l => "[" +:+ put_pairs kv l (String newline "")
  end.

(** ** The parser *)

Fixpoint strip (p s : string) : option string :=
  match p, s with
  | "", _ => Some s
  | String a p, String b s => if Ascii.eqb a b then strip p s else None
  | String _ _, "" => None
  end.

(** The rest of a quoted string, after its opening quote. *)
Fixpoint get_rest (s : string) : option (string * string) :=
  match s with
  | "" => None
  | String c s =>
      if Ascii.eqb c quote then Some ("", s)
      else if plain c then '(t, s) ← get_rest s; Some (String c t, s) else None
  end.

Definition get_string (s : string) : option (string * string) :=
  s ← strip (String quote "") s; get_rest s.

Definition get_pair (s : string) : option (KeyValue * string) :=
  s ← strip "{" s;
  '(name, s) ← get_string s; guard (name = "Key");; s ← strip ":" s; '(k, s) ← get_string s;
  s ← strip "," s;
  '(name, s) ← get_string s; guard (name = "Value");; s ← strip ":" s; '(v, s) ← get_string s;
  s ← strip "}" s;
  Some (mkKV k v, s).

Fixpoint get_pairs (fuel : nat) (s : string) : option (list KeyValue) :=
  match fuel with
  | O => None
  | S fuel =>
      '(kv, s) ← get_pair s;
      match strip "," s with
      | Some s => l ← get_pairs fuel s; Some (kv :: l)
      | None => _ ← strip "]" s; Some [kv]
      end
  end.

Definition decode (s : string) : option (list KeyValue) :=
  match strip "null" s with
  | Some _ => Some []
  | None => s ← strip "[" s; get_pairs (String.length s) s
  end.

(** ** Round trip *)

Lemma strip_app p s : strip p (p +:+ s) = Some s.
Proof. induction p as [|a p IH]; [by destruct s|]. simpl. by rewrite Ascii.eqb_refl. Qed.

Lemma plain_quote c : plain c = true -> Ascii.eqb c quote = false.
Proof. intros Hp. apply Ascii.eqb_neq. by intros ->. Qed.

Lemma get_put_string s rest : plain_string s = true -> get_string (put_string s rest) = Some (s, rest).
Proof.
  intros Hs. unfold get_string, put_string.
  cbn [strip]. rewrite Ascii.eqb_refl. cbn [strip mbind option_bind].
  induction s as [|c s IH]; [done|]. unfold plain_string in Hs. simpl in Hs.
  apply andb_true_iff in Hs as [Hc Hs]. simpl. rewrite (plain_quote _ Hc), Hc, IH by done. done.
Qed.

Lemma get_put_pair kv rest :
  plain_string (Key kv) = true -> plain_string (Value kv) = true -> get_pair (put_pair kv rest) = Some (kv, rest).
Proof.
  intros Hk Hv. unfold get_pair, put_pair. rewrite strip_app. cbn [mbind option_bind].
  rewrite get_put_string by done. cbn [mbind option_bind]. rewrite option_guard_True by done.
  cbn [mbind option_bind]. rewrite strip_app. cbn [mbind option_bind]. rewrite get_put_string by done.
  cbn [mbind option_bind]. rewrite strip_app. cbn [mbind option_bind].
  rewrite get_put_string by done. cbn [mbind option_bind]. rewrite option_guard_True by done.
  cbn [mbind option_bind]. rewrite strip_app. cbn [mbind option_bind]. rewrite get_put_string by done.
  cbn [mbind option_bind]. rewrite strip_app. cbn [mbind option_bind]. by destruct kv.
Qed.

Lemma get_put_pairs l : forall kv rest fuel,
  Forall (fun kv => plain_string (Key kv) = true /\ plain_string (Value kv) = true) (kv :: l) ->
  (length l < fuel)%nat -> get_pairs fuel (put_pairs kv l rest) = Some (kv :: l).
Proof.
  induction l as [|kv' l IH]; intros kv rest [|fuel] Hl Hf; simpl in Hf; try lia;
    apply Forall_cons in Hl as [[Hk Hv] Hl]; cbn [get_pairs put_pairs]; rewrite get_put_pair by done;
    cbn [mbind option_bind].
  - cbn [String.append strip]. done.
  - rewrite strip_app. cbn [mbind option_bind]. rewrite IH by (done || lia). done.
Qed.

Lemma put_string_length s rest : (String.length rest < String.length (put_string s rest))%nat.
Proof. unfold put_string. simpl. rewrite length_append. simpl. lia. Qed.

Lemma put_pair_length kv rest : (String.length rest < String.length (put_pair kv rest))%nat.
Proof.
  unfold put_pair. rewrite length_append.
  pose proof (put_string_length (Value kv) ("}" +:+ rest)) as H1. rewrite length_append in H1.
  pose proof (put_string_length "Value" (":" +:+ put_string (Value kv) ("}" +:+ rest))) as H2.
  rewrite length_append in H2. set (r2 := put_string "Value" _) in *.
  pose proof (put_string_length (Key kv) ("," +:+ r2)) as H3. rewrite length_append in H3.
  pose proof (put_string_length "Key" (":" +:+ put_string (Key kv) ("," +:+ r2))) as H4.
  rewrite length_append in H4. lia.
Qed.

Lemma put_pairs_length l : forall kv rest, (length l < String.length (put_pairs kv l rest))%nat.
Proof.
  induction l as [|kv' l IH]; intros kv rest; cbn [put_pairs length].
  - pose proof (put_pair_length kv ("]" +:+ rest)). lia.
  - pose proof (put_pair_length kv ("," +:+ put_pairs kv' l rest)) as Hlt. specialize (IH kv' rest).
    rewrite length_append in Hlt. lia.
Qed.

Lemma decode_encode l :
  Forall (fun kv => plain_string (Key kv) = true /\ plain_string (Value kv) = true) l ->
  decode (encode l) = Some l.
Proof.
  destruct l as [|kv l]; [done|]. intros Hl. unfold decode, encode.
  set (t := put_pairs kv l _). rewrite strip_app. change (strip "null" ("[" +:+ t)) with (@None string).
  cbn [mbind option_bind]. apply get_put_pairs; [done|]. apply put_pairs_length.
Qed.

End Json.

#[export, refine] Instance json_plain : JsonCodec := {|
  json_ok s := Json.plain_string s = true; json_encode := Json.encode; json_decode := Json.decode |}.
Proof. apply Json.decode_encode. Defined.
