(* ===== verification/MrGroup.v ===== *)
(** * MapReduce: grouping sorted pairs

    The loop of [doReduce] ([mr/worker.go]), which [main/mrsequential.go]
    repeats: walk over the sorted pairs, collect the values of each run of
    equal keys, call [reducef], print a line.  [groups] and [lines] say what
    it computes without indices; [lines_buckets] says how it splits over
    buckets of keys. *)

From S2P Require Import Prelude MrUtil MrApps.

(** ** The loop *)

Definition newline : string := String (Ascii.ascii_of_nat 10) "".

(** [fmt.Fprintf(oFile, "%v %v\n", key, output)]. *)
Definition line (key output : string) : string := key +:+ " " +:+ output +:+ newline.

(** [for j < len(intermediate) && intermediate[j].Key == intermediate[i].Key
    { j++ }], where [rest] is [intermediate[j:]]. *)
Fixpoint group_end (key : string) (rest : list KeyValue) (j : Z) : Z :=
  match rest with
  | [] => j
  | kv :: rest => if bool_decide (Key kv = key) then group_end key rest (j + 1) else j
  end.

(** The loop from index [i] on; [out] is what has been printed.  The result
    is what has been printed when the loop ends or [reducef] does not return.
    [None] is out of fuel. *)
Fixpoint reduce_loop (fuel : nat) (reducef : string -> list string -> GoRun string)
    (l : list KeyValue) (i : Z) (out : string) : option (string * GoRun unit) :=
  match fuel with
  | O => None
  | S fuel =>
      if i <? zlen l then
        match zidx l i with
        | None => Some (out, Panics)
        | Some kv =>
            let j := group_end (Key kv) (drop (Z.to_nat (i + 1)) l) (i + 1) in
            match mapM (fun k => Value <$> zidx l k) (seqZ i (j - i)) with
            | None => Some (out, Panics)
            | Some values =>
                match reducef (Key kv) values with
                | Returns output => reduce_loop fuel reducef l j (out +:+ line (Key kv) output)
                | Panics => Some (out, Panics)
                | Exits => Some (out, Exits)
                end
            end
        end
      else Some (out, Returns ())
  end.

(** The whole loop; every round consumes at least one pair. *)
Definition reduce_all (reducef : string -> list string -> GoRun string) (l : list KeyValue)
    : option (string * GoRun unit) :=
  reduce_loop (S (length l)) reducef l 0 "".

(** ** What it computes *)

(** Runs of equal keys. *)
Fixpoint groups (l : list KeyValue) : list (string * list string) :=
  match l with
  | [] => []
  | kv :: l =>
      match groups l with
      | (k, vs) :: g =>
          if bool_decide (Key kv = k) then (k, Value kv :: vs) :: g
          else (Key kv, [Value kv]) :: (k, vs) :: g
      | [] => [(Key kv, [Value kv])]
      end
  end.

(** Printing the groups one after the other. *)
Fixpoint emit (reducef : string -> list string -> GoRun string) (g : list (string * list string))
    (out : string) : string * GoRun unit :=
  match g with
  | [] => (out, Returns ())
  | (k, vs) :: g =>
      match reducef k vs with
      | Returns output => emit reducef g (out +:+ line k output)
      | Panics => (out, Panics)
      | Exits => (out, Exits)
      end
  end.

Lemma group_end_app key ms rest j :
  Forall (fun kv => Key kv = key) ms -> (forall kv, head rest = Some kv -> Key kv <> key) ->
  group_end key (ms ++ rest) j = j + zlen ms.
Proof.
  intros Hms Hr. revert j. induction Hms as [|kv ms Hkv Hms IH]; intros j; simpl.
  - unfold zlen. simpl. destruct rest as [|kv rest]; simpl; [lia|].
    rewrite bool_decide_false by (by apply Hr). lia.
  - rewrite bool_decide_true, IH, zlen_cons by done. lia.
Qed.

(** The first run of a nonempty list. *)
Lemma groups_cons kv l :
  exists ms rest, l = ms ++ rest /\ Forall (fun a => Key a = Key kv) ms /\
    (forall a, head rest = Some a -> Key a <> Key kv) /\
    groups (kv :: l) = (Key kv, Value kv :: (Value <$> ms)) :: groups rest.
Proof.
  revert kv. induction l as [|a l IH]; intros kv.
  - by exists [], [].
  - destruct (IH a) as (ms & rest & -> & Hms & Hr & Hg).
    change (groups (kv :: a :: ms ++ rest)) with
      (match groups (a :: ms ++ rest) with
       | (k, vs) :: g => if bool_decide (Key kv = k) then (k, Value kv :: vs) :: g
                         else (Key kv, [Value kv]) :: (k, vs) :: g
       | [] => [(Key kv, [Value kv])] end).
    rewrite Hg. case_bool_decide as Hk.
    + exists (a :: ms), rest. rewrite Hk. split_and!; try done. by constructor.
    + exists [], (a :: ms ++ rest). split_and!; try done; [|by rewrite Hg].
      intros b [= <-]. naive_solver.
Qed.

Lemma zidx_middle {A} (pre post : list A) x : zidx (pre ++ x :: post) (zlen pre) = Some x.
Proof.
  apply zidx_Some. unfold zlen. rewrite length_app, Nat2Z.id. split; [simpl; lia|]. by apply list_lookup_middle.
Qed.

Lemma mapM_zidx (pre ms post : list KeyValue) :
  mapM (fun k => Value <$> zidx (pre ++ ms ++ post) k) (seqZ (zlen pre) (zlen ms)) = Some (Value <$> ms).
Proof.
  revert pre. induction ms as [|kv ms IH]; intros pre; [done|].
  rewrite zlen_cons, seqZ_cons by (pose proof (zlen_nonneg ms); lia). simpl.
  rewrite zidx_middle. simpl. specialize (IH (pre ++ [kv])). rewrite zlen_app in IH. unfold zlen in IH at 2. simpl in IH.
  rewrite <-app_assoc in IH. cbn [app] in IH.
  replace (Z.pred (zlen ms + 1)) with (zlen ms) by lia. rewrite Z.add_1_r in IH. by rewrite IH.
Qed.

(** One round of the loop. *)
Lemma round_spec pre kv ms rest :
  Forall (fun a => Key a = Key kv) ms -> (forall a, head rest = Some a -> Key a <> Key kv) ->
  let l := pre ++ kv :: ms ++ rest in
  (zlen pre <? zlen l) = true /\ zidx l (zlen pre) = Some kv /\
  group_end (Key kv) (drop (Z.to_nat (zlen pre + 1)) l) (zlen pre + 1) = zlen (pre ++ kv :: ms) /\
  mapM (fun k => Value <$> zidx l k) (seqZ (zlen pre) (zlen (pre ++ kv :: ms) - zlen pre)) =
    Some (Value kv :: (Value <$> ms)).
Proof.
  intros Hms Hr l. unfold l. pose proof (zlen_nonneg (ms ++ rest)). split_and!.
  - apply Z.ltb_lt. rewrite zlen_app, zlen_cons. lia.
  - apply zidx_middle.
  - assert (Hd : drop (Z.to_nat (zlen pre + 1)) (pre ++ kv :: ms ++ rest) = ms ++ rest).
    { unfold zlen. rewrite Z2Nat.inj_add, Nat2Z.id by lia. change (Z.to_nat 1) with 1%nat.
      rewrite Nat.add_1_r, (cons_middle kv pre), app_assoc, drop_app_length'; [done|].
      rewrite length_app. simpl. lia. }
    rewrite Hd, group_end_app, zlen_app, zlen_cons by done. lia.
  - replace (zlen (pre ++ kv :: ms) - zlen pre) with (zlen (kv :: ms)) by (rewrite zlen_app; lia).
    exact (mapM_zidx pre (kv :: ms) rest).
Qed.

Lemma reduce_loop_spec reducef fuel pre l out :
  (length l < fuel)%nat ->
  reduce_loop fuel reducef (pre ++ l) (zlen pre) out = Some (emit reducef (groups l) out).
Proof.
  revert pre l out. induction fuel as [|fuel IH]; intros pre l out Hf; [lia|].
  cbn [reduce_loop]. destruct l as [|kv l].
  { by rewrite app_nil_r, Z.ltb_irrefl. }
  destruct (groups_cons kv l) as (ms & rest & -> & Hms & Hr & ->).
  destruct (round_spec pre kv ms rest Hms Hr) as (-> & -> & -> & ->).
  cbn [emit]. destruct (reducef _ _) as [o| |]; [|done|done].
  specialize (IH (pre ++ kv :: ms) rest (out +:+ line (Key kv) o)).
  rewrite <-app_assoc in IH. apply IH. simpl in Hf. rewrite length_app in Hf. lia.
Qed.

Lemma reduce_all_spec reducef l : reduce_all reducef l = Some (emit reducef (groups l) "").
Proof. apply (reduce_loop_spec reducef (S (length l)) [] l ""). lia. Qed.

(** ** Sorted pairs: one group per key *)

(** The distinct keys in order, and the values of one key. *)
Definition keys_of (l : list KeyValue) : list string := sort_Strings (remove_dups (Key <$> l)).
Definition values_of (k : string) (l : list KeyValue) : list string :=
  Value <$> filter (fun kv => Key kv = k) l.

Lemma elem_of_keys_of k l : k ∈ keys_of l <-> k ∈ Key <$> l.
Proof. unfold keys_of. by rewrite sort_Strings_perm, elem_of_remove_dups. Qed.

Lemma NoDup_keys_of l : NoDup (keys_of l).
Proof. unfold keys_of. rewrite sort_Strings_perm. apply NoDup_remove_dups. Qed.

Lemma values_of_nil k l : k ∉ Key <$> l -> values_of k l = [].
Proof.
  intros Hk. unfold values_of. destruct (filter _ l) as [|a f] eqn:E; [done|]. exfalso. apply Hk.
  assert (Ha : a ∈ filter (fun kv => Key kv = k) l) by (rewrite E; by left).
  apply list_elem_of_filter in Ha as [<- Ha]. by apply list_elem_of_fmap_2.
Qed.

Lemma values_of_cons_eq kv l : values_of (Key kv) (kv :: l) = Value kv :: values_of (Key kv) l.
Proof. unfold values_of. by rewrite filter_cons_True. Qed.

Lemma values_of_cons_ne k kv l : k <> Key kv -> values_of k (kv :: l) = values_of k l.
Proof. intros Hne. unfold values_of. by rewrite filter_cons_False. Qed.

(** The groups of sorted pairs: keys in strictly ascending order, all of
    them, each with all its values. *)
Record grouped (l : list KeyValue) (g : list (string * list string)) : Prop := {
  gr_sorted : StronglySorted String.le g.*1;
  gr_nodup : NoDup g.*1;
  gr_keys : forall k, k ∈ g.*1 <-> k ∈ Key <$> l;
  gr_values : Forall (fun kvs => kvs.2 = values_of kvs.1 l) g;
}.

Lemma grouped_same kv l vs g :
  grouped l ((Key kv, vs) :: g) -> grouped (kv :: l) ((Key kv, Value kv :: vs) :: g).
Proof.
  intros [Hs Hn Hk Hv]. constructor; [done|done| |].
  - intros k. specialize (Hk k). simpl in *. rewrite !elem_of_cons in *. tauto.
  - apply Forall_cons in Hv as [Hv Hg]. simpl in Hv. constructor; simpl.
    + by rewrite values_of_cons_eq, Hv.
    + simpl in Hn. apply NoDup_cons in Hn as [Hn _]. rewrite Forall_forall in Hg |- *.
      intros [k ws] Hin. rewrite (Hg _ Hin). simpl. symmetry. apply values_of_cons_ne.
      intros ->. apply Hn. apply list_elem_of_fmap. by exists (Key kv, ws).
Qed.

Lemma grouped_new kv l g :
  grouped l g -> Key kv ∉ g.*1 -> Forall (String.le (Key kv)) g.*1 ->
  grouped (kv :: l) ((Key kv, [Value kv]) :: g).
Proof.
  intros [Hs Hn Hk Hv] Hnin Hle. constructor; simpl.
  - by constructor.
  - by constructor.
  - intros k. by rewrite !elem_of_cons, Hk.
  - constructor; simpl.
    + rewrite values_of_cons_eq, values_of_nil; [done|]. by rewrite <-Hk.
    + rewrite Forall_forall in Hv |- *. intros [k ws] Hin. rewrite (Hv _ Hin). simpl. symmetry.
      apply values_of_cons_ne. intros ->. apply Hnin. apply list_elem_of_fmap. by exists (Key kv, ws).
Qed.

Lemma groups_grouped l : StronglySorted key_le l -> grouped l (groups l).
Proof.
  induction 1 as [|kv l Hs IH Hle]; [by constructor; try constructor|].
  assert (Hkl : Forall (String.le (Key kv)) (groups l).*1).
  { apply Forall_forall. intros k Hk. rewrite (gr_keys _ _ IH) in Hk.
    apply list_elem_of_fmap in Hk as (a & -> & Ha). rewrite Forall_forall in Hle. by apply Hle. }
  cbn [groups]. destruct (groups l) as [|[k vs] g]; [by apply grouped_new; [|apply not_elem_of_nil|]|].
  case_bool_decide as Hk; [subst k; by apply grouped_same|]. apply grouped_new; [done| |done].
  simpl. intros [Heq|Hin]%elem_of_cons; [done|]. apply Hk.
  apply (anti_symm String.le); [by apply Forall_cons in Hkl as []|].
  pose proof (gr_sorted _ _ IH) as Hg. simpl in Hg. apply StronglySorted_inv in Hg as [_ Hg].
  rewrite Forall_forall in Hg. by apply Hg.
Qed.

Lemma grouped_unique l g : grouped l g -> g = map (fun k => (k, values_of k l)) (keys_of l).
Proof.
  intros [Hs Hn Hk Hv].
  assert (Hkeys : g.*1 = keys_of l).
  { apply (StronglySorted_unique String.le); [done|apply StronglySorted_merge_sort; apply _|].
    apply NoDup_Permutation; [done|apply NoDup_keys_of|]. intros k. by rewrite Hk, elem_of_keys_of. }
  rewrite <-Hkeys. clear Hs Hn Hk Hkeys. induction Hv as [|[k vs] g Hkv Hv IH]; [done|].
  simpl in Hkv. cbn. f_equal; [by rewrite Hkv|exact IH].
Qed.

Lemma groups_sorted l :
  StronglySorted key_le l -> groups l = map (fun k => (k, values_of k l)) (keys_of l).
Proof. intros Hs. by apply grouped_unique, groups_grouped. Qed.

(** ** Lines *)

(** The output lines for a multiset of pairs when [reducef] returns [f]. *)
Definition lines (f : string -> list string -> string) (l : list KeyValue) : list string :=
  map (fun k => line k (f k (values_of k l))) (keys_of l).

Lemma values_of_perm k l l' : l ≡ₚ l' -> values_of k l ≡ₚ values_of k l'.
Proof. intros Hp. unfold values_of. by rewrite Hp. Qed.

Lemma keys_of_perm l l' : l ≡ₚ l' -> keys_of l = keys_of l'.
Proof.
  intros Hp. apply sort_Strings_ext, NoDup_Permutation; [apply NoDup_remove_dups..|].
  intros k. by rewrite !elem_of_remove_dups, Hp.
Qed.

(** Text made of lines. *)
Definition text (ls : list string) : string := foldr String.append "" ls.

Lemma emit_text reducef f g out :
  (forall k vs, reducef k vs = Returns (f k vs)) ->
  emit reducef g out = (out +:+ text (map (fun kvs => line kvs.1 (f kvs.1 kvs.2)) g), Returns ()).
Proof.
  intros Hf. revert out. induction g as [|[k vs] g IH]; intros out; [cbn; by rewrite append_nil|].
  cbn [emit map]. rewrite Hf, IH, append_assoc. done.
Qed.

Lemma reduce_loop_total reducef f l :
  (forall k vs, reducef k vs = Returns (f k vs)) -> exists out, reduce_all reducef l = Some (out, Returns ()).
Proof. intros Hf. rewrite reduce_all_spec, (emit_text _ _ _ _ Hf). eauto. Qed.

(** Reducing any sorted arrangement of the pairs prints the same lines. *)
Lemma reduce_all_lines reducef f l l' :
  (forall k vs, reducef k vs = Returns (f k vs)) -> (forall k vs vs', vs ≡ₚ vs' -> f k vs = f k vs') ->
  StronglySorted key_le l -> l ≡ₚ l' -> reduce_all reducef l = Some (text (lines f l'), Returns ()).
Proof.
  intros Hr Hf Hs Hp. rewrite reduce_all_spec, (emit_text _ _ _ _ Hr), groups_sorted by done. simpl.
  rewrite map_map. unfold lines. rewrite (keys_of_perm _ _ Hp). simpl.
  assert (E : forall s t : string, s = t -> Some ("" +:+ s, Returns ()) = Some (t, Returns ())) by (by intros s t ->).
  apply E. f_equal. apply map_ext. intros k. by rewrite (Hf _ _ _ (values_of_perm k _ _ Hp)).
Qed.

(** ** Buckets *)

Lemma concat_buckets {A} (b : A -> Z) (n : nat) (l : list A) :
  Forall (fun a => 0 <= b a < Z.of_nat n) l ->
  concat (map (fun i => filter (fun a => b a = i) l) (seqZ 0 (Z.of_nat n))) ≡ₚ l.
Proof.
  induction 1 as [|a l Ha Hl IH].
  - induction (seqZ 0 (Z.of_nat n)) as [|i is_ IHi]; [done|]. simpl. by rewrite IHi.
  - etrans; [|apply Permutation_cons; [reflexivity|exact IH]]. clear IH Hl.
    assert (Hin : b a ∈ seqZ 0 (Z.of_nat n)) by (apply elem_of_seqZ; lia).
    pose proof (NoDup_seqZ 0 (Z.of_nat n)) as Hnd. clear Ha.
    induction (seqZ 0 (Z.of_nat n)) as [|i is_ IHi]; [by apply not_elem_of_nil in Hin|].
    apply NoDup_cons in Hnd as [Hni Hnd]. simpl. apply elem_of_cons in Hin as [<-|Hin].
    + rewrite filter_cons_True by done. simpl. apply Permutation_cons; [done|]. apply Permutation_app_head.
      clear IHi Hnd. induction is_ as [|j js IHj]; [done|]. simpl. apply not_elem_of_cons in Hni as [Hne Hni].
      rewrite filter_cons_False by done. by rewrite IHj.
    + rewrite filter_cons_False by (intros Heq; by rewrite Heq in Hin). rewrite IHi by done. by rewrite Permutation_middle.
Qed.

Lemma keys_of_filter (b : string -> Z) i l :
  keys_of (filter (fun kv => b (Key kv) = i) l) ≡ₚ filter (fun k => b k = i) (keys_of l).
Proof.
  apply NoDup_Permutation; [apply NoDup_keys_of|apply NoDup_filter, NoDup_keys_of|]. intros k.
  rewrite elem_of_keys_of, list_elem_of_filter, elem_of_keys_of, !list_elem_of_fmap. split.
  - intros (a & -> & Ha). apply list_elem_of_filter in Ha as [Hb Ha]. eauto.
  - intros (Hb & a & -> & Ha). exists a. split; [done|]. by apply list_elem_of_filter.
Qed.

Lemma values_of_filter (b : string -> Z) k l :
  values_of k (filter (fun kv => b (Key kv) = b k) l) = values_of k l.
Proof.
  induction l as [|kv l IH]; [done|]. destruct (decide (k = Key kv)) as [->|Hne].
  - rewrite filter_cons_True by done. by rewrite !values_of_cons_eq, IH.
  - rewrite (values_of_cons_ne _ kv l) by done. destruct (decide (b (Key kv) = b k)).
    + by rewrite filter_cons_True, values_of_cons_ne by done.
    + by rewrite filter_cons_False by done.
Qed.

(** Reducing bucket by bucket prints the same lines as reducing everything. *)
Lemma lines_buckets f (b : string -> Z) (n : nat) l :
  (forall k, 0 <= b k < Z.of_nat n) ->
  concat (map (fun i => lines f (filter (fun kv => b (Key kv) = i) l)) (seqZ 0 (Z.of_nat n))) ≡ₚ lines f l.
Proof.
  intros Hb. set (h := fun k => line k (f k (values_of k l))).
  assert (Hi : forall i, lines f (filter (fun kv => b (Key kv) = i) l) ≡ₚ map h (filter (fun k => b k = i) (keys_of l))).
  { intros i. unfold lines. rewrite (keys_of_filter b).
    rewrite (map_ext_in _ h); [done|]. intros k Hk. apply list_elem_of_In, list_elem_of_filter in Hk as [<- _].
    unfold h. by rewrite values_of_filter. }
  etrans; [|apply (Permutation_map h), (concat_buckets b n (keys_of l)), Forall_forall; auto].
  rewrite concat_map, map_map. induction (seqZ 0 (Z.of_nat n)) as [|i is_ IHi]; [done|].
  simpl. by rewrite Hi, IHi.
Qed.
