(* ===== verification/MrFiles.v ===== *)
(** * MapReduce: the working directory

    The file names of [mr/worker.go] and [mr/master.go], the glob patterns of
    the reduce tasks, and the directory the workers share: a finite map from
    names to contents. *)

From stdpp Require Import pretty.
From S2P Require Import Prelude MrUtil.

Notation FS := (gmap string string).

(** ** Names *)

(** [fmt.Sprintf("mr-%d-%d", t.TaskID, idx)]. *)
Definition mid_name (taskID idx : Z) : string := "mr-" +:+ Itoa taskID +:+ "-" +:+ Itoa idx.

(** [fmt.Sprintf("mr-*-%d", i)], the [Filename] of reduce task [i]. *)
Definition reduce_pattern (i : Z) : string := "mr-*-" +:+ Itoa i.

Definition out_name (idx : string) : string := "mr-out." +:+ idx.

(** [strings.Split(s, "-")]; never empty. *)
Definition dash : Ascii.ascii := Ascii.ascii_of_nat 45.
Definition star : Ascii.ascii := Ascii.ascii_of_nat 42.
Definition slash : Ascii.ascii := Ascii.ascii_of_nat 47.

Fixpoint split_dash (s : string) : list string :=
  match s with
  | "" => [""]
  | String c s =>
      if Ascii.eqb c dash then "" :: split_dash s
      else match split_dash s with
           | w :: ws => String c w :: ws
           | [] => [String c ""]
           end
  end.

(** [split[len(split)-1]]. *)
Definition last_field (s : string) : option string := last (split_dash s).

(** ** Globs *)

(** [filepath.Match] for patterns whose only special character is [*], which
    matches any sequence of characters but the separator. *)
Fixpoint glob_match (p : string) : string -> bool :=
  match p with
  | "" => fun s => match s with "" => true | _ => false end
  | String c p =>
      if Ascii.eqb c star then
        fix any (s : string) : bool :=
          glob_match p s ||
          match s with "" => false | String d s => negb (Ascii.eqb d slash) && any s end
      else fun s => match s with "" => false | String d s => Ascii.eqb c d && glob_match p s end
  end.

(** [filepath.Glob] in the working directory: the matching names, sorted. *)
Definition Glob (p : string) (fs : FS) : list string :=
  sort_Strings (List.filter (glob_match p) (map_to_list fs).*1).

Lemma elem_of_Glob p fs s : s ∈ Glob p fs <-> is_Some (fs !! s) /\ glob_match p s = true.
Proof.
  unfold Glob. rewrite sort_Strings_perm, list_elem_of_In, List.filter_In, <-list_elem_of_In, list_elem_of_fmap.
  split.
  - intros [([k v] & -> & Hkv) Hm]. apply elem_of_map_to_list in Hkv. simpl in *. eauto.
  - intros [[v Hv] Hm]. split; [|done]. exists (s, v). by rewrite elem_of_map_to_list.
Qed.

Lemma NoDup_Glob p fs : NoDup (Glob p fs).
Proof.
  unfold Glob. rewrite sort_Strings_perm. apply NoDup_ListNoDup, List.NoDup_filter, NoDup_ListNoDup, NoDup_fst_map_to_list.
Qed.

(** ** Characters of a string *)

Fixpoint chars (f : Ascii.ascii -> bool) (s : string) : bool :=
  match s with "" => true | String c s => f c && chars f s end.

Definition is_digit (c : Ascii.ascii) : bool :=
  let n := Ascii.nat_of_ascii c in (48 <=? n)%nat && (n <=? 57)%nat.

Lemma chars_app f s t : chars f (s +:+ t) = chars f s && chars f t.
Proof.
  induction s as [|c s IH]; [done|]. change (f c && chars f (s +:+ t) = f c && chars f s && chars f t).
  rewrite IH. by rewrite andb_assoc.
Qed.

Lemma pretty_digit n : is_digit (pretty_N_char n) = true.
Proof. unfold pretty_N_char. by repeat case_match. Qed.

Lemma pretty_N_digits (x : N) : chars is_digit (pretty x) = true.
Proof.
  assert (Hgo : forall s, chars is_digit s = true -> chars is_digit (pretty_N_go x s) = true).
  { induction (N.lt_wf_0 x) as [x _ IH]; intros s Hs. destruct (decide (x = 0)%N) as [->|Hx]; [by rewrite pretty_N_go_0|].
    rewrite pretty_N_go_step by lia. apply IH; [apply N.div_lt; lia|]. simpl. by rewrite Hs, pretty_digit. }
  unfold pretty, pretty_N. destruct (decide (x = 0)%N); [done|]. by apply Hgo.
Qed.

Lemma Itoa_digits z : 0 <= z -> chars is_digit (Itoa z) = true.
Proof. intros Hz. unfold Itoa. destruct z; [done| |lia]. apply pretty_N_digits. Qed.

Lemma Itoa_inj a b : Itoa a = Itoa b -> a = b.
Proof. apply (inj pretty). Qed.

(** ** Which names a reduce task reads *)

(** Patterns [pre*post] without further stars. *)
Lemma glob_star_post post s :
  glob_match (String star post) s = true <->
  exists m t, s = m +:+ t /\ chars (fun c => negb (Ascii.eqb c slash)) m = true /\ glob_match post t = true.
Proof.
  induction s as [|d s IH].
  - change (glob_match post "" || false = true <-> exists m t, "" = m +:+ t /\ chars (fun c => negb (Ascii.eqb c slash)) m = true /\ glob_match post t = true).
    rewrite orb_false_r. split; [by exists "", ""|]. intros (m & t & Heq & _ & Hm). by destruct m, t.
  - change (glob_match (String star post) (String d s)) with
      (glob_match post (String d s) || (negb (Ascii.eqb d slash) && glob_match (String star post) s)).
    rewrite orb_true_iff, andb_true_iff, IH. split.
    + intros [Hm|(Hd & m & t & -> & Hm & Ht)]; [by exists "", (String d s)|].
      exists (String d m), t. split_and!; [done| |done]. simpl. by rewrite Hd.
    + intros ([|c m] & t & Heq & Hm & Ht); [left; change (String d s = t) in Heq; by subst t|right].
      injection Heq as -> ->. simpl in Hm. apply andb_true_iff in Hm as [Hc Hm]. eauto 10.
Qed.

Lemma glob_prefix pre p s :
  chars (fun c => negb (Ascii.eqb c star)) pre = true ->
  glob_match (pre +:+ p) s = true <-> exists t, s = pre +:+ t /\ glob_match p t = true.
Proof.
  revert s. induction pre as [|c pre IH]; intros s Hp.
  { split; [by exists s|]. by intros (t & -> & Ht). }
  simpl in Hp. apply andb_true_iff in Hp as [Hc Hp].
  change (String c pre +:+ p) with (String c (pre +:+ p)). cbn [glob_match].
  rewrite (proj1 (negb_true_iff _) Hc). destruct s as [|d s]; [split; [done|by intros (t & ? & _)]|].
  rewrite andb_true_iff, Ascii.eqb_eq, IH by done. split.
  - intros (-> & t & -> & Ht). by exists t.
  - intros (t & [= -> ->] & Ht). eauto.
Qed.

Lemma chars_impl (f g : Ascii.ascii -> bool) s :
  (forall c, f c = true -> g c = true) -> chars f s = true -> chars g s = true.
Proof. intros Hfg. induction s as [|c s IH]; [done|]. simpl. rewrite !andb_true_iff. naive_solver. Qed.

Lemma digit_ne (c d : Ascii.ascii) : is_digit d = false -> is_digit c = true -> negb (Ascii.eqb c d) = true.
Proof. intros Hd Hc. apply negb_true_iff, Ascii.eqb_neq. intros ->. congruence. Qed.

Definition no_char (d : Ascii.ascii) (s : string) : bool := chars (fun c => negb (Ascii.eqb c d)) s.

Lemma Itoa_no_char d z : is_digit d = false -> 0 <= z -> no_char d (Itoa z) = true.
Proof.
  intros Hd Hz. eapply chars_impl; [|by apply Itoa_digits]. intros c Hc. simpl. by apply digit_ne.
Qed.

(** A reduce pattern matches [mr-X-Y] names only by their last field. *)
Lemma reduce_pattern_spec i s :
  0 <= i -> glob_match (reduce_pattern i) s = true <->
  exists m, s = "mr-" +:+ m +:+ "-" +:+ Itoa i /\ no_char slash m = true.
Proof.
  intros Hi. unfold reduce_pattern.
  change ("mr-*-" +:+ Itoa i) with ("mr-" +:+ String star ("-" +:+ Itoa i)).
  rewrite glob_prefix by done. setoid_rewrite glob_star_post.
  assert (Hlit : forall t, glob_match ("-" +:+ Itoa i) t = true <-> t = "-" +:+ Itoa i).
  { intros t. rewrite <-(append_nil ("-" +:+ Itoa i)) at 1. rewrite glob_prefix.
    - split; [intros (u & -> & Hu); destruct u; by rewrite ?append_nil|intros ->; exists ""; by rewrite append_nil].
    - by apply (Itoa_no_char star). }
  setoid_rewrite Hlit. split.
  - intros (t & -> & m & t' & -> & Hm & ->). by exists m.
  - intros (m & -> & Hm). exists (m +:+ "-" +:+ Itoa i). split; [done|]. by exists m, ("-" +:+ Itoa i).
Qed.

(** The last field is unique. *)
Lemma split_last m n s t :
  no_char dash s = true -> no_char dash t = true -> m +:+ "-" +:+ s = n +:+ "-" +:+ t -> m = n /\ s = t.
Proof.
  intros Hs Ht. revert n. induction m as [|c m IH]; intros [|d n] Heq.
  - change (String dash s = String dash t) in Heq. by injection Heq.
  - exfalso. change (String dash s = String d (n +:+ "-" +:+ t)) in Heq. injection Heq as _ Heq.
    rewrite Heq in Hs. unfold no_char in Hs. rewrite chars_app in Hs. by apply andb_true_iff in Hs as [_ Hs].
  - exfalso. change (String c (m +:+ "-" +:+ s) = String dash t) in Heq. injection Heq as _ Heq.
    rewrite <-Heq in Ht. unfold no_char in Ht. rewrite chars_app in Ht. by apply andb_true_iff in Ht as [_ Ht].
  - change (String c (m +:+ "-" +:+ s) = String d (n +:+ "-" +:+ t)) in Heq. injection Heq as -> Heq.
    by destruct (IH n Heq) as [-> ->].
Qed.

Lemma glob_mid_name i x y :
  0 <= i -> 0 <= x -> 0 <= y -> glob_match (reduce_pattern i) (mid_name x y) = true <-> y = i.
Proof.
  intros Hi Hx Hy. rewrite reduce_pattern_spec by done. unfold mid_name. split.
  - intros (m & Heq & _). injection Heq as Heq.
    apply split_last in Heq as [_ Heq]; [by apply Itoa_inj|by apply Itoa_no_char..].
  - intros ->. exists (Itoa x). split; [done|]. by apply Itoa_no_char.
Qed.

Lemma mid_name_inj x y x' y' :
  0 <= y -> 0 <= y' -> mid_name x y = mid_name x' y' -> x = x' /\ y = y'.
Proof.
  intros Hy Hy' Heq. injection Heq as Heq. apply split_last in Heq as [H1 H2]; [|by apply Itoa_no_char..].
  split; by apply Itoa_inj.
Qed.

(** ** The index of a reduce task *)

Lemma split_dash_app s t :
  exists ws, split_dash (s +:+ "-" +:+ t) = ws ++ split_dash t /\ ws <> [].
Proof.
  induction s as [|c s IH]; [by exists [""]|].
  change (String c s +:+ "-" +:+ t) with (String c (s +:+ "-" +:+ t)). destruct IH as (ws & Heq & Hne).
  cbn [split_dash]. rewrite Heq. destruct (Ascii.eqb c dash); [by exists ("" :: ws)|].
  destruct ws as [|w ws]; [done|]. by exists (String c w :: ws).
Qed.

Lemma split_dash_plain s : no_char dash s = true -> split_dash s = [s].
Proof.
  induction s as [|c s IH]; [done|]. intros [Hc Hs]%andb_true_iff. cbn [split_dash].
  rewrite (proj1 (negb_true_iff _) Hc), (IH Hs). done.
Qed.

Lemma last_field_pattern i : 0 <= i -> last_field (reduce_pattern i) = Some (Itoa i).
Proof.
  intros Hi. unfold last_field, reduce_pattern.
  change ("mr-*-" +:+ Itoa i) with ("mr-*" +:+ "-" +:+ Itoa i).
  destruct (split_dash_app "mr-*" (Itoa i)) as (ws & -> & _).
  rewrite split_dash_plain by (by apply Itoa_no_char). apply last_snoc.
Qed.

(** ** Output names are neither intermediate files nor matched by a pattern *)

Lemma out_has_dash i m s : 0 <= i -> out_name (Itoa i) <> "mr-" +:+ m +:+ "-" +:+ s.
Proof.
  intros Hi Heq. change (out_name (Itoa i)) with ("mr-" +:+ "out." +:+ Itoa i) in Heq.
  injection Heq as Heq. pose proof (Itoa_no_char dash i eq_refl Hi) as Hd. unfold no_char in Hd.
  assert (Hc : chars (fun c => negb (Ascii.eqb c dash)) ("out." +:+ Itoa i) = true) by (by rewrite chars_app, Hd).
  change ("out." +:+ Itoa i = m +:+ "-" +:+ s) in Heq.
  rewrite Heq, chars_app in Hc. by apply andb_true_iff in Hc as [_ Hc].
Qed.

Lemma out_mid_ne i x y : 0 <= i -> out_name (Itoa i) <> mid_name x y.
Proof. intros Hi. by apply out_has_dash. Qed.

Lemma out_not_matched i j : 0 <= i -> 0 <= j -> glob_match (reduce_pattern j) (out_name (Itoa i)) = false.
Proof.
  intros Hi Hj. apply not_true_iff_false. rewrite reduce_pattern_spec by done.
  intros (m & Heq & _). by apply (out_has_dash i m (Itoa j)) in Heq.
Qed.

Lemma out_name_inj i j : out_name (Itoa i) = out_name (Itoa j) -> i = j.
Proof. intros Heq. injection Heq as Heq. by apply Itoa_inj. Qed.
