(* ===== verification/MrTiming.v ===== *)
(** * MapReduce: the timing applications

    [mrapps/mtiming.go] and [mrapps/rtiming.go] find out how many workers run
    at the same time: [nparallel] leaves a marker file named after the process,
    lists the directory, asks the kernel about every process that has a marker,
    sleeps a second, and removes its own marker.  Any number of processes do so
    at once, and they may be killed at any point, which leaves their markers
    behind; every system call is a step of its own.

    Of the standard library: [fmt.Sscanf] for a literal followed by [%d], on
    the runes of the name. *)

From stdpp Require Import pretty.
From S2P Require Import Prelude Utf8 MrUtil MrApps MrFiles.

(** ** fmt.Sscanf with "literal%d" *)

(** The table [space] of [fmt/scan.go]. *)
Definition isSpace (r : Z) : bool :=
  between 0x9 0xd r || (r =? 0x20) || (r =? 0x85) || (r =? 0xa0) || (r =? 0x1680) || between 0x2000 0x200a r ||
  between 0x2028 0x2029 r || (r =? 0x202f) || (r =? 0x205f) || (r =? 0x3000).

(** The literal part of the format. *)
Fixpoint scan_literal (p s : list Z) : option (list Z) :=
  match p, s with
  | [], s => Some s
  | c :: p, d :: s => if c =? d then scan_literal p s else None
  | _ :: _, [] => None
  end.

(** [SkipSpace] for [Sscanf]: a newline is an error. *)
Fixpoint skip_space (s : list Z) : option (list Z) :=
  match s with
  | [] => Some []
  | r :: s' => if r =? 0xa then None else if isSpace r then skip_space s' else Some s
  end.

Definition digit_rune (r : Z) : bool := between 0x30 0x39 r.

(** The digits at the front, most significant first. *)
Fixpoint scan_digits (s : list Z) (acc : Z) : Z :=
  match s with
  | r :: s' => if digit_rune r then scan_digits s' (10 * acc + (r - 0x30)) else acc
  | [] => acc
  end.

(** [strconv.ParseInt] with its range check. *)
Definition in_int64 (z : Z) : bool := (- 2 ^ 63 <=? z) && (z <? 2 ^ 63).

Definition scan_int (s : list Z) : option Z :=
  s ← skip_space s;
  let '(sign, s) :=
    match s with
    | r :: s' => if r =? 0x2b then (1, s') else if r =? 0x2d then (-1, s') else (1, s)
    | [] => (1, s)
    end in
  match s with
  | r :: _ =>
      if digit_rune r then
        let z := sign * scan_digits s 0 in if in_int64 z then Some z else None
      else None
  | [] => None
  end.

(** [fmt.Sscanf(name, pre + "%d", &x)]: the value if [n == 1 && err == nil];
    what follows the number is not looked at. *)
Definition Sscanf_d (pre name : string) : option Z :=
  s ← scan_literal (runes pre).*1 (runes name).*1; scan_int s.

(** ** nparallel *)

(** [fmt.Sprintf("mr-worker-%s-", phase)] *)
Definition marker_prefix (phase : string) : string := "mr-worker-" +:+ phase +:+ "-".
Definition myfilename (phase : string) (pid : Z) : string := marker_prefix phase +:+ Itoa pid.

(** At most [k] names in the order of the directory. *)
Definition Readdirnames (k : Z) (dir : list string) : list string :=
  if zlen dir <=? k then dir else take (Z.to_nat k) dir.

(** Where a call of [nparallel] is. *)
Inductive NPc :=
  | NBegin
  | NWritten                                  (** the marker is there *)
  | NScan (names : list string) (ret : Z)     (** the names still to look at *)
  | NSleep (ret : Z)
  | NDone (ret : Z)
  | NPanic.

(** The directory and the processes for which [kill(pid, 0)] succeeds. *)
Record Machine := mkMachine { m_files : FS; m_procs : gset Z }.

(** One step of the call of process [pid].  [ok]: the system call succeeds;
    [dir]: the order in which the directory lists its names. *)
Definition nparallel (phase : string) (pid : Z) (ok : bool) (dir : list string) (pc : NPc) (m : Machine)
    : option (NPc * Machine) :=
  match pc with
  | NBegin =>
      if ok then Some (NWritten, mkMachine (<[myfilename phase pid := "x"]> (m_files m)) (m_procs m))
      else Some (NPanic, m)
  | NWritten =>
      guard (dir ≡ₚ (map_to_list (m_files m)).*1);;
      if ok then Some (NScan (Readdirnames 1000000 dir) 0, m) else Some (NPanic, m)
  | NScan [] ret => Some (NSleep ret, m)
  | NScan (name :: names) ret =>
      match Sscanf_d (marker_prefix phase) name with
      | Some xpid => Some (NScan names (if bool_decide (xpid ∈ m_procs m) then ret + 1 else ret), m)
      | None => Some (NScan names ret, m)
      end
  | NSleep ret =>
      (* a marker that is gone cannot be removed *)
      match m_files m !! myfilename phase pid with
      | Some _ =>
          if ok then Some (NDone ret, mkMachine (delete (myfilename phase pid) (m_files m)) (m_procs m))
          else Some (NPanic, m)
      | None => Some (NPanic, m)
      end
  | NDone _ | NPanic => None
  end.

(** [rtiming.go] has a copy of it. *)
Definition rtiming_nparallel := nparallel.

(** ** Map and Reduce *)

(** [ts] is the start time as [%.1f] prints it, [n] the result of [nparallel("map")]. *)
Definition mtiming_Map (pid : Z) (ts : string) (n : GoRun Z) (filename contents : string) : GoRun (list KeyValue) :=
  n ← n;
  Returns [mkKV ("times-" +:+ Itoa pid) ts; mkKV ("parallel-" +:+ Itoa pid) (Itoa n)].

(** [n] is the result of [nparallel("reduce")]. *)
Definition rtiming_Reduce (n : GoRun Z) (key : string) (values : list string) : GoRun string :=
  n ← n; Returns (Itoa n).

(** What a call of [nparallel] returns to them. *)
Definition nparallel_result (pc : NPc) : option (GoRun Z) :=
  match pc with NDone ret => Some (Returns ret) | NPanic => Some Panics | _ => None end.

(** ** Processes side by side *)

Record Workers := mkWorkers { w_machine : Machine; w_calls : gmap Z NPc }.

Inductive TEvent :=
  | TSpawn (pid : Z)                                (** a process starts *)
  | TCall (pid : Z)                                 (** and calls [nparallel] *)
  | TStep (pid : Z) (ok : bool) (dir : list string)
  | TKill (pid : Z)                                 (** a process dies *)
  | TWrite (name : string) (content : string).      (** some other file is written *)

Definition tstep (phase : string) (ev : TEvent) (s : Workers) : option Workers :=
  let m := w_machine s in
  match ev with
  | TSpawn pid => Some (mkWorkers (mkMachine (m_files m) ({[pid]} ∪ m_procs m)) (w_calls s))
  | TCall pid =>
      guard (pid ∈ m_procs m);;
      match w_calls s !! pid with
      | None | Some (NDone _) => Some (mkWorkers m (<[pid := NBegin]> (w_calls s)))
      | _ => None
      end
  | TStep pid ok dir =>
      guard (pid ∈ m_procs m);;
      pc ← w_calls s !! pid;
      '(pc, m) ← nparallel phase pid ok dir pc m;
      Some (mkWorkers m (<[pid := pc]> (w_calls s)))
  | TKill pid => Some (mkWorkers (mkMachine (m_files m) (m_procs m ∖ {[pid]})) (delete pid (w_calls s)))
  | TWrite name content => Some (mkWorkers (mkMachine (<[name := content]> (m_files m)) (m_procs m)) (w_calls s))
  end.

Fixpoint texec (phase : string) (evs : list TEvent) (s : Workers) : option Workers :=
  match evs with
  | [] => Some s
  | ev :: evs => s ← tstep phase ev s; texec phase evs s
  end.

Inductive treachable (phase : string) : Workers -> Prop :=
  | treach_init fs : treachable phase (mkWorkers (mkMachine fs ∅) ∅)
  | treach_step s ev s' : treachable phase s -> tstep phase ev s = Some s' -> treachable phase s'.

(** ** Scanning a marker's name *)

Definition codes (s : string) : list Z :=
  map (fun c => Z.of_N (Ascii.N_of_ascii c)) (String.list_ascii_of_string s).

Definition is_ascii (c : Ascii.ascii) : bool := Z.of_N (Ascii.N_of_ascii c) <? 0x80.

Lemma codes_app s t : codes (s +:+ t) = codes s ++ codes t.
Proof. induction s as [|c s IH]; [done|]. change (codes (String c s +:+ t)) with (Z.of_N (Ascii.N_of_ascii c) :: codes (s +:+ t)). by rewrite IH. Qed.

Lemma runes_ascii s : chars is_ascii s = true -> (runes s).*1 = codes s.
Proof.
  unfold runes, codes. induction s as [|c s IH]; [done|]. intros [Hc Hs]%andb_true_iff.
  cbn [String.list_ascii_of_string length runes_loop map decode_rune]. unfold is_ascii in Hc. rewrite Hc.
  simpl. f_equal. by apply IH.
Qed.

Lemma digit_ascii c : is_digit c = true -> is_ascii c = true.
Proof.
  unfold is_digit, is_ascii. intros [_ Hc]%andb_true_iff. apply Nat.leb_le in Hc.
  unfold Ascii.nat_of_ascii in Hc. apply Z.ltb_lt. lia.
Qed.

Lemma scan_literal_app p s : scan_literal p (p ++ s) = Some s.
Proof. induction p as [|c p IH]; [done|]. simpl. by rewrite Z.eqb_refl. Qed.

Lemma pretty_char_code x : (x < 10)%N -> Z.of_N (Ascii.N_of_ascii (pretty_N_char x)) = 0x30 + Z.of_N x.
Proof.
  intros Hx. assert (Hin : x ∈ [0; 1; 2; 3; 4; 5; 6; 7; 8; 9]%N).
  { destruct (decide (x ∈ [0; 1; 2; 3; 4; 5; 6; 7; 8; 9]%N)) as [|Hn]; [done|].
    repeat (apply not_elem_of_cons in Hn as [? Hn]). lia. }
  repeat (apply elem_of_cons in Hin as [->|Hin]; [done|]). by apply not_elem_of_nil in Hin.
Qed.

(** The digits of [x] before those of [s]. *)
Lemma scan_pretty x : forall s, scan_digits (codes (pretty_N_go x s)) 0 = scan_digits (codes s) (Z.of_N x).
Proof.
  induction (N.lt_wf_0 x) as [x _ IH]; intros s. destruct (decide (x = 0)%N) as [->|Hx]; [by rewrite pretty_N_go_0|].
  rewrite pretty_N_go_step by lia. rewrite IH by (apply N.div_lt; lia). unfold codes. cbn [String.list_ascii_of_string map scan_digits].
  rewrite pretty_char_code by (apply N.mod_lt; lia).
  assert (Hd : digit_rune (48 + Z.of_N (x mod 10)) = true).
  { unfold digit_rune, between. pose proof (N.mod_lt x 10 ltac:(lia)) as Hm. revert Hm.
    generalize (x mod 10)%N. intros d Hm. apply andb_true_iff. lia. }
  rewrite Hd. f_equal. pose proof (N.div_mod' x 10) as Hdm. revert Hdm.
  generalize (x mod 10)%N, (x / 10)%N. intros. lia.
Qed.

Lemma Itoa_scan z : 0 <= z -> scan_digits (codes (Itoa z)) 0 = z.
Proof.
  intros Hz. destruct z as [|p|p]; [done| |lia]. change (Itoa (Z.pos p)) with (pretty (N.pos p)).
  unfold pretty, pretty_N. destruct (decide _) as [?|_]; [done|]. rewrite scan_pretty. done.
Qed.

Lemma Itoa_head z : 0 <= z -> exists r s, codes (Itoa z) = r :: s /\ digit_rune r = true.
Proof.
  intros Hz. pose proof (Itoa_digits z Hz) as Hd.
  destruct (Itoa z) as [|c s] eqn:E.
  { exfalso. pose proof (Itoa_scan z Hz) as Hs. rewrite E in Hs. simpl in Hs. subst z. done. }
  apply andb_true_iff in Hd as [Hc _]. exists (Z.of_N (Ascii.N_of_ascii c)), (codes s). split; [done|].
  unfold is_digit, digit_rune, between in *. apply andb_true_iff in Hc as [H1 H2].
  apply Nat.leb_le in H1, H2. unfold Ascii.nat_of_ascii in *. apply andb_true_iff. lia.
Qed.

(** A process finds its own marker, and any other. *)
Lemma Sscanf_marker phase pid :
  chars is_ascii phase = true -> 0 <= pid < 2 ^ 63 ->
  Sscanf_d (marker_prefix phase) (myfilename phase pid) = Some pid.
Proof.
  intros Hph Hpid. assert (Hpre : chars is_ascii (marker_prefix phase) = true).
  { unfold marker_prefix. by rewrite !chars_app, Hph. }
  assert (Hid : chars is_ascii (Itoa pid) = true)
    by (eapply chars_impl; [apply digit_ascii|apply Itoa_digits; lia]).
  unfold Sscanf_d, myfilename. rewrite !runes_ascii by (by rewrite ?chars_app, ?Hpre, ?Hid).
  rewrite codes_app, scan_literal_app. cbn [mbind option_bind].
  pose proof (Itoa_scan pid ltac:(lia)) as Hscan. destruct (Itoa_head pid ltac:(lia)) as (r & s & E & Hr).
  rewrite E in *. unfold scan_int. assert (Hrange : 0x30 <= r <= 0x39) by (unfold digit_rune, between in Hr; lia).
  cbn [skip_space]. rewrite (proj2 (Z.eqb_neq r 0xa)) by lia.
  assert (Hsp : isSpace r = false).
  { unfold isSpace, between. repeat (apply orb_false_iff; split); try (apply andb_false_iff); lia. }
  rewrite Hsp. cbn [mbind option_bind]. rewrite (proj2 (Z.eqb_neq r 0x2b)), (proj2 (Z.eqb_neq r 0x2d)) by lia.
  rewrite Hr, Hscan, Z.mul_1_l. unfold in_int64.
  replace ((- 2 ^ 63 <=? pid) && (pid <? 2 ^ 63)) with true; [done|]. symmetry. apply andb_true_iff. lia.
Qed.

Lemma myfilename_inj phase : Inj (=) (=) (myfilename phase).
Proof.
  intros a b Heq. unfold myfilename in Heq. apply Itoa_inj.
  assert (Happ : forall p s t : string, p +:+ s = p +:+ t -> s = t).
  { induction p as [|c p IH]; intros s t Hst; [done|].
    change (String c (p +:+ s) = String c (p +:+ t)) in Hst. injection Hst. apply IH. }
  by eapply Happ.
Qed.

(** ** What the calls leave in the directory *)

(** The call has left its marker and not removed it. *)
Definition marked (pc : NPc) : bool := match pc with NWritten | NScan _ _ | NSleep _ => true | _ => false end.

Section Counting.
Variable phase : string.
Hypothesis phase_ascii : chars is_ascii phase = true.

Record workers_ok (s : Workers) : Prop := {
  wo_alive : forall pid pc, w_calls s !! pid = Some pc -> pid ∈ m_procs (w_machine s);
  wo_marker : forall pid pc, w_calls s !! pid = Some pc -> marked pc = true ->
    is_Some (m_files (w_machine s) !! myfilename phase pid);
}.

(** A step of one call: its own marker, and nobody else's, may come or go. *)
Lemma nparallel_files pid ok dir pc m pc' m' :
  nparallel phase pid ok dir pc m = Some (pc', m') ->
  m_procs m' = m_procs m /\
  (forall q, q <> pid -> m_files m' !! myfilename phase q = m_files m !! myfilename phase q) /\
  (marked pc' = true -> (marked pc = true -> is_Some (m_files m !! myfilename phase pid)) ->
   is_Some (m_files m' !! myfilename phase pid)).
Proof.
  assert (Hne : forall q, q <> pid -> myfilename phase pid <> myfilename phase q).
  { intros q Hq Heq. by apply Hq, (myfilename_inj phase). }
  intros Hs. destruct pc as [| |[|name names] ret|ret|ret|]; simpl in Hs; try done.
  - destruct ok; injection Hs as <- <-; simpl; split_and!; try done.
    + intros q Hq. apply lookup_insert_ne. auto.
    + intros _ _. rewrite lookup_insert_eq. eauto.
  - case_guard; [|done]. simpl in Hs. destruct ok; injection Hs as <- <-; simpl; split_and!; auto.
  - injection Hs as <- <-. simpl. split_and!; auto.
  - destruct (Sscanf_d _ _); injection Hs as <- <-; simpl; split_and!; auto.
  - destruct (m_files m !! myfilename phase pid) as [c|] eqn:E; [destruct ok|]; injection Hs as <- <-; simpl; split_and!; auto;
      try done. intros q Hq. apply lookup_delete_ne. auto.
Qed.

Lemma workers_ok_step ev s s' : workers_ok s -> tstep phase ev s = Some s' -> workers_ok s'.
Proof.
  intros [Ha Hm] Hs. destruct ev as [pid|pid|pid ok dir|pid|name content]; simpl in Hs.
  - injection Hs as <-. constructor; simpl; [|done]. intros q pc Hq. apply elem_of_union_r. eauto.
  - case_guard as Hp; [|done]. simpl in Hs.
    assert (Hs' : s' = mkWorkers (w_machine s) (<[pid := NBegin]> (w_calls s))).
    { destruct (w_calls s !! pid) as [[]|]; try done; by injection Hs as <-. }
    subst s'. constructor; simpl; intros q pc [[<- <-]|[_ Hq]]%lookup_insert_Some; try done; eauto.
  - case_guard as Hp; [|done]. simpl in Hs. destruct (w_calls s !! pid) as [pc|] eqn:Hc; [|done]. simpl in Hs.
    destruct (nparallel _ _ _ _ _ _) as [[pc' m']|] eqn:Hn; [|done]. simpl in Hs. injection Hs as <-.
    destruct (nparallel_files _ _ _ _ _ _ _ Hn) as (Hpr & Hother & Hown).
    constructor; simpl; intros q pcq [[<- <-]|[Hne Hq]]%lookup_insert_Some; rewrite ?Hpr; eauto.
    intros Hmk. rewrite Hother by done. eauto.
  - injection Hs as <-. constructor; simpl; intros q pc [Hne Hq]%lookup_delete_Some; [|by eauto].
    apply elem_of_difference. split; [by eauto|]. by apply not_elem_of_singleton.
  - injection Hs as <-. constructor; simpl; [done|]. intros q pc Hq Hmk.
    destruct (decide (name = myfilename phase q)) as [->|]; [rewrite lookup_insert_eq; eauto|].
    rewrite lookup_insert_ne by done. eauto.
Qed.

Lemma workers_ok_reachable s : treachable phase s -> workers_ok s.
Proof.
  induction 1 as [fs|s ev s' _ IH Hs]; [by constructor|by eapply workers_ok_step].
Qed.

(** ** Counting *)

Definition from (Q : list Z) (name : string) : bool := bool_decide (name ∈ (myfilename phase <$> Q)).

(** The name of a marker of one of the processes [A]. *)
Definition marks (A : gset Z) (name : string) : bool :=
  match Sscanf_d (marker_prefix phase) name with Some x => bool_decide (x ∈ A) | None => false end.

(** [Q]: processes that stay alive; [A]: those that are alive at some time;
    [b]: how many names of the listing are markers of the latter. *)
Definition scan_inv (Q : list Z) (A : gset Z) (b : Z) (pc : NPc) : Prop :=
  match pc with
  | NScan names ret =>
      zlen Q <= ret + zlen (List.filter (from Q) names) /\ ret + zlen (List.filter (marks A) names) <= b
  | NSleep ret | NDone ret => zlen Q <= ret <= b
  | NPanic => True
  | _ => False
  end.

Lemma listing_from Q names :
  NoDup Q -> (forall q, q ∈ Q -> myfilename phase q ∈ names) -> zlen Q <= zlen (List.filter (from Q) names).
Proof.
  intros Hnd Hin. unfold zlen. apply inj_le. rewrite <-(length_fmap (myfilename phase) Q).
  apply submseteq_length, NoDup_submseteq; [apply NoDup_fmap; [apply myfilename_inj|done]|].
  intros x Hx. pose proof Hx as (q & -> & Hq)%list_elem_of_fmap.
  apply list_elem_of_In, List.filter_In. split; [by apply list_elem_of_In, Hin|].
  unfold from. by apply bool_decide_eq_true.
Qed.

Lemma scan_step Q A b pid ok dir pc m pc' m' :
  Forall (fun q => 0 <= q < 2 ^ 63) Q -> (forall q, q ∈ Q -> q ∈ m_procs m) -> m_procs m ⊆ A ->
  scan_inv Q A b pc -> nparallel phase pid ok dir pc m = Some (pc', m') -> scan_inv Q A b pc'.
Proof.
  intros HQ Halive HA Hi Hs. destruct pc as [| |[|name names] ret|ret|ret|]; simpl in Hs, Hi; try done.
  - injection Hs as <- _. simpl. unfold zlen in *. simpl in *. lia.
  - assert (Hfrom : from Q name = true -> exists q, q ∈ m_procs m /\ Sscanf_d (marker_prefix phase) name = Some q).
    { intros (q & -> & Hq)%bool_decide_eq_true%list_elem_of_fmap. exists q. split; [auto|].
      rewrite Forall_forall in HQ. by apply Sscanf_marker; [|apply HQ]. }
    unfold marks at 1 in Hi. destruct (Sscanf_d (marker_prefix phase) name) as [x|] eqn:E; injection Hs as <- _; simpl.
    + destruct (bool_decide_reflect (x ∈ m_procs m)) as [Hx|Hx].
      * rewrite bool_decide_eq_true_2, zlen_cons in Hi by set_solver.
        destruct (from Q name); rewrite ?zlen_cons in Hi; lia.
      * destruct (from Q name); [by destruct (Hfrom eq_refl) as (q & Hq & [= ->])|].
        case_bool_decide; rewrite ?zlen_cons in Hi; lia.
    + destruct (from Q name); [by destruct (Hfrom eq_refl) as (? & _ & ?)|]. lia.
  - destruct (m_files m !! _); [destruct ok|]; injection Hs as <- _; simpl; done.
Qed.

(** No process of [Q] dies, no process outside [A] starts, and [p] does not call again. *)
Definition keeps (Q : list Z) (A : gset Z) (p : Z) (ev : TEvent) : bool :=
  match ev with
  | TSpawn q => bool_decide (q ∈ A)
  | TKill q => bool_decide (q ∉ Q)
  | TCall q => negb (q =? p)
  | _ => true
  end.

Lemma scan_exec Q A b p evs : forall s s' pc,
  Forall (fun q => 0 <= q < 2 ^ 63) Q -> p ∈ Q -> (forall q, q ∈ Q -> q ∈ m_procs (w_machine s)) ->
  m_procs (w_machine s) ⊆ A -> w_calls s !! p = Some pc -> scan_inv Q A b pc -> forallb (keeps Q A p) evs = true ->
  texec phase evs s = Some s' -> exists pc', w_calls s' !! p = Some pc' /\ scan_inv Q A b pc'.
Proof.
  induction evs as [|ev evs IH]; intros s s' pc HQ Hp Halive HA Hc Hi Hk He; simpl in He; [injection He as <-; eauto|].
  simpl in Hk. apply andb_true_iff in Hk as [Hev Hk]. destruct (tstep phase ev s) as [s1|] eqn:Hs; [|done]. simpl in He.
  enough (exists pc1, w_calls s1 !! p = Some pc1 /\ scan_inv Q A b pc1 /\
    (forall q, q ∈ Q -> q ∈ m_procs (w_machine s1)) /\ m_procs (w_machine s1) ⊆ A) as (pc1 & Hc1 & Hi1 & Ha1 & HA1) by (by eapply IH).
  destruct ev as [pid|pid|pid ok dir|pid|name content]; simpl in Hs, Hev.
  - injection Hs as <-. exists pc. apply bool_decide_eq_true in Hev. split_and!; try done; simpl; [|set_solver].
    intros q Hq. apply elem_of_union_r. auto.
  - case_guard; [|done]. simpl in Hs. bool_to_prop.
    assert (s1 = mkWorkers (w_machine s) (<[pid := NBegin]> (w_calls s))) as ->.
    { destruct (w_calls s !! pid) as [[]|]; try done; by injection Hs as <-. }
    exists pc. simpl. rewrite lookup_insert_ne by done. done.
  - case_guard; [|done]. simpl in Hs. destruct (w_calls s !! pid) as [pcp|] eqn:Hcp; [|done]. simpl in Hs.
    destruct (nparallel _ _ _ _ _ _) as [[pc' m']|] eqn:Hn; [|done]. simpl in Hs. injection Hs as <-. simpl.
    destruct (nparallel_files _ _ _ _ _ _ _ Hn) as (Hpr & _). rewrite Hpr.
    destruct (decide (pid = p)) as [->|Hne].
    + rewrite Hc in Hcp. injection Hcp as <-. exists pc'. rewrite lookup_insert_eq. split_and!; try done.
      by eapply scan_step.
    + exists pc. by rewrite lookup_insert_ne.
  - injection Hs as <-. exists pc. simpl. apply bool_decide_eq_true in Hev.
    assert (pid <> p) by (by intros ->). rewrite lookup_delete_ne by done. split_and!; try done; [|set_solver].
    intros q Hq. apply elem_of_difference. split; [auto|]. apply not_elem_of_singleton. by intros ->.
  - injection Hs as <-. by exists pc.
Qed.

Lemma nparallel_count s s1 s2 p dir Q A evs ret :
  treachable phase s -> w_calls s !! p = Some NWritten -> zlen dir <= 1000000 ->
  tstep phase (TStep p true dir) s = Some s1 ->
  NoDup Q -> p ∈ Q -> Forall (fun q => 0 <= q < 2 ^ 63) Q ->
  (forall q, q ∈ Q -> exists pc, w_calls s !! q = Some pc /\ marked pc = true) ->
  m_procs (w_machine s) ⊆ A -> forallb (keeps Q A p) evs = true -> texec phase evs s1 = Some s2 ->
  w_calls s2 !! p = Some (NDone ret) -> zlen Q <= ret <= zlen (List.filter (marks A) dir).
Proof.
  intros Hr Hp Hdir Hs Hnd HpQ HQ Hmk HA Hk He Hret. apply workers_ok_reachable in Hr as [Ha Hm].
  simpl in Hs. case_guard as Hpp; [|done]. simpl in Hs. rewrite Hp in Hs. simpl in Hs.
  case_guard as Hperm; [|done]. simpl in Hs. injection Hs as <-.
  set (s1 := mkWorkers _ _) in He.
  destruct (scan_exec Q A (zlen (List.filter (marks A) dir)) p evs s1 s2 (NScan (Readdirnames 1000000 dir) 0)
    HQ HpQ) as (pc' & Hc' & Hi'); try done.
  - simpl. intros q Hq. destruct (Hmk q Hq) as (pc & Hc & _). eauto.
  - simpl. apply lookup_insert_eq.
  - unfold Readdirnames. rewrite (proj2 (Z.leb_le _ _) Hdir). simpl. split; [|lia].
    apply listing_from; [done|]. intros q Hq. destruct (Hmk q Hq) as (pc & Hc & Hmq).
    destruct (Hm q pc Hc Hmq) as [c Hf]. rewrite Hperm. apply list_elem_of_fmap.
    exists (myfilename phase q, c). split; [done|]. by apply elem_of_map_to_list.
  - rewrite Hret in Hc'. injection Hc' as <-. exact Hi'.
Qed.
End Counting.
