(* ===== verification/MrWorker.v ===== *)
(** * MapReduce: the worker

    [mr/worker.go].  A worker program reads and writes the shared directory
    and reports task states to the master.  [Prog] is the monad of such
    programs: it threads the directory, collects the [Master.SetTaskState]
    calls in order, and may return, panic or exit.  What the disk does when a
    file is created is a parameter. *)

From S2P Require Import Prelude MrUtil MrApps MrJson MrGroup MrFiles.

(** ** Programs of a worker *)

Definition Prog (A : Type) : Type := FS -> FS * list MRArgs * GoRun A.

#[export] Instance Prog_ret : MRet Prog := fun A a fs => (fs, [], Returns a).
#[export] Instance Prog_bind : MBind Prog := fun A B k m fs =>
  match m fs with
  | (fs, calls, Returns a) => let '(fs, calls', r) := k a fs in (fs, calls ++ calls', r)
  | (fs, calls, Panics) => (fs, calls, Panics)
  | (fs, calls, Exits) => (fs, calls, Exits)
  end.

Definition lift {A} (r : GoRun A) : Prog A := fun fs => (fs, [], r).

(** Run-time errors (index out of range, division by zero) panic. *)
Definition lift_opt {A} (o : option A) : Prog A :=
  lift (match o with Some a => Returns a | None => Panics end).

Definition get_fs : Prog FS := fun fs => (fs, [], Returns fs).
Definition write (name content : string) : Prog unit := fun fs => (<[name := content]> fs, [], Returns ()).

(** [defer func() { if e := recover(); e != nil { h } }()]: after a panic the
    handler runs and the function returns its zero result. *)
Definition recovering {A} (h : Prog unit) (zero : A) (m : Prog A) : Prog A := fun fs =>
  match m fs with
  | (fs, calls, Panics) => let '(fs, calls', r) := (_ ← h; mret zero) fs in (fs, calls ++ calls', r)
  | r => r
  end.

(** [w.setTaskState]; a failed call is only logged. *)
Definition setTaskState (taskID : Z) (state : TaskState) : Prog unit :=
  fun fs => (fs, [mkArgs taskID state], Returns ()).

(** Creating and writing a file succeeds, fails, or leaves the file with
    some other content. *)
Inductive Disk := DiskOk | CreateFails | WriteFails (content : string).

Section Worker.
Context `{GoSort} `{JsonCodec}.
Variable disk : string -> Disk.

(** ** doMap *)

(** [reduces[idx] = append(reduces[idx], kv)] for every pair. *)
Fixpoint partition_loop (nReduce : Z) (kvs : list KeyValue) (reduces : list (list KeyValue))
    : option (list (list KeyValue)) :=
  match kvs with
  | [] => Some reduces
  | kv :: kvs =>
      guard (nReduce <> 0);;
      let idx := Z.rem (ihash (Key kv)) nReduce in
      old ← zidx reduces idx;
      reduces ← zset reduces idx (old ++ [kv]);
      partition_loop nReduce kvs reduces
  end.

(** One file per bucket, from bucket [idx] on. *)
Fixpoint write_loop (taskID idx : Z) (reduces : list (list KeyValue)) (reduceNames : list string)
    : Prog (list string * bool) :=
  match reduces with
  | [] => mret (reduceNames, false)
  | kvss :: reduces =>
      let reduceName := mid_name taskID idx in
      let reduceNames := reduceNames ++ [reduceName] in
      match disk reduceName with
      | CreateFails => _ ← setTaskState taskID TaskStateErr; mret (reduceNames, true)
      | WriteFails content =>
          _ ← write reduceName content; _ ← setTaskState taskID TaskStateErr; mret (reduceNames, true)
      | DiskOk => _ ← write reduceName (json_encode kvss); write_loop taskID (idx + 1) reduces reduceNames
      end
  end.

(** The result is the file names and whether the error is non-nil. *)
Definition doMap (mapf : string -> string -> GoRun (list KeyValue)) (t : MRTask) : Prog (list string * bool) :=
  recovering (setTaskState (TaskID t) TaskStateErr) ([], false)
    (_ ← lift (if NReduce t <? 0 then Panics else Returns ());
     let reduces := replicate (Z.to_nat (NReduce t)) [] in
     fs ← get_fs;
     match (fs : FS) !! Filename t with
     | None => _ ← setTaskState (TaskID t) TaskStateErr; mret ([], true)
     | Some content =>
         kvs ← lift (mapf (Filename t) content);
         reduces ← lift_opt (partition_loop (NReduce t) (sort_ByKey kvs) reduces);
         write_loop (TaskID t) 0 reduces []
     end).

(** ** doReduce *)

(** Reading the intermediate files; a decoding error ends the loop without
    an error ([break]). *)
Fixpoint read_loop (taskID : Z) (files : list string) (intermediate : list KeyValue)
    : Prog (list KeyValue * bool) :=
  match files with
  | [] => mret (intermediate, false)
  | filename :: files =>
      fs ← get_fs;
      match (fs : FS) !! filename with
      | None => _ ← setTaskState taskID TaskStateErr; mret (intermediate, true)
      | Some content =>
          match json_decode content with
          | None => mret (intermediate, false)
          | Some kvs => read_loop taskID files (intermediate ++ kvs)
          end
      end
  end.

(** The error of [os.Create] is dropped, and so are those of [Fprintf]. *)
Definition write_output (name out : string) : Prog unit :=
  match disk name with
  | CreateFails => mret ()
  | WriteFails content => write name content
  | DiskOk => write name out
  end.

(** The result is whether the error is non-nil.  [reduce_all] never runs out
    of fuel ([reduce_all_spec]). *)
Definition doReduce (reducef : string -> list string -> GoRun string) (t : MRTask) : Prog bool :=
  recovering (setTaskState (TaskID t) TaskStateErr) false
    (idx ← lift_opt (last_field (Filename t));
     fs ← get_fs;
     '(intermediate, err) ← read_loop (TaskID t) (Glob (Filename t) fs) [];
     if (err : bool) then mret true
     else
       '(out, r) ← lift_opt (reduce_all reducef (sort_ByKey intermediate));
       _ ← write_output (out_name idx) out;
       _ ← lift r;
       mret false).

(** ** The loop of Worker *)

Variable mapf : string -> string -> GoRun (list KeyValue).
Variable reducef : string -> list string -> GoRun string.

(** What a round does after it has reported that the task is running;
    [log.Fatalf] exits. *)
Definition task_body (task : MRTask) : Prog unit :=
  match Phase task with
  | MapPhase =>
      '(_, err) ← doMap mapf task;
      if (err : bool) then _ ← setTaskState (TaskID task) TaskStateErr; lift Exits
      else setTaskState (TaskID task) TaskStateFinish
  | ReducePhase =>
      err ← doReduce reducef task;
      if (err : bool) then _ ← setTaskState (TaskID task) TaskStateErr; lift Exits
      else setTaskState (TaskID task) TaskStateFinish
  end.

(** One round, after [getTask] has returned a task. *)
Definition run_task (task : MRTask) : Prog unit :=
  _ ← setTaskState (TaskID task) TaskStateRunning; task_body task.

(** The tasks [getTask] hands out, until it returns nil. *)
Fixpoint worker_loop (tasks : list MRTask) : Prog unit :=
  match tasks with
  | [] => mret ()
  | task :: tasks => _ ← run_task task; worker_loop tasks
  end.

End Worker.

(** ** Running programs *)

Section Specs.
Context `{GoSort} `{JsonCodec}.

(** The bucket of a key, and the pairs of one bucket. *)
Definition bucket_of (nReduce : Z) (k : string) : Z := Z.rem (ihash k) nReduce.
Definition bucket (nReduce i : Z) (kvs : list KeyValue) : list KeyValue :=
  filter (fun kv => bucket_of nReduce (Key kv) = i) kvs.

Lemma bucket_snoc nReduce i kvs kv :
  bucket nReduce i (kvs ++ [kv]) =
  bucket nReduce i kvs ++ (if bool_decide (bucket_of nReduce (Key kv) = i) then [kv] else []).
Proof.
  unfold bucket. rewrite filter_app. f_equal. case_bool_decide.
  - by rewrite filter_cons_True.
  - by rewrite filter_cons_False.
Qed.

(** The buckets after some pairs have been distributed. *)
Definition buckets (nReduce : Z) (kvs : list KeyValue) : list (list KeyValue) :=
  (fun i => bucket nReduce i kvs) <$> seqZ 0 nReduce.

Lemma buckets_nil nReduce : buckets nReduce [] = replicate (Z.to_nat nReduce) [].
Proof.
  unfold buckets. rewrite (const_fmap _ _ []) by done. by rewrite length_seqZ.
Qed.

Lemma buckets_lookup nReduce kvs i :
  0 <= i < nReduce -> buckets nReduce kvs !! Z.to_nat i = Some (bucket nReduce i kvs).
Proof.
  intros Hi. unfold buckets. rewrite list_lookup_fmap, lookup_seqZ_lt by lia.
  simpl. do 2 f_equal. lia.
Qed.

Lemma length_buckets nReduce kvs : length (buckets nReduce kvs) = Z.to_nat nReduce.
Proof. unfold buckets. by rewrite length_fmap, length_seqZ. Qed.

Lemma partition_loop_spec nReduce done_ kvs :
  0 < nReduce -> partition_loop nReduce kvs (buckets nReduce done_) = Some (buckets nReduce (done_ ++ kvs)).
Proof.
  intros Hn. revert done_. induction kvs as [|kv kvs IH]; intros done_; [by rewrite app_nil_r|].
  cbn [partition_loop]. rewrite option_guard_True by lia. cbn [mbind option_bind].
  pose proof (ihash_bucket (Key kv) nReduce Hn) as Hb.
  assert (Hz : zidx (buckets nReduce done_) (Z.rem (ihash (Key kv)) nReduce) =
    Some (bucket nReduce (bucket_of nReduce (Key kv)) done_)).
  { apply zidx_Some. unfold zlen. rewrite length_buckets. split; [lia|]. by apply buckets_lookup. }
  rewrite Hz. cbn [mbind option_bind].
  assert (Hs : zset (buckets nReduce done_) (Z.rem (ihash (Key kv)) nReduce)
      (bucket nReduce (bucket_of nReduce (Key kv)) done_ ++ [kv]) = Some (buckets nReduce (done_ ++ [kv]))).
  { apply zset_Some. unfold zlen. rewrite length_buckets. split; [lia|].
    apply list_eq. intros j. destruct (decide (j < Z.to_nat nReduce)%nat) as [Hj|Hj].
    - assert (Hjz : j = Z.to_nat (Z.of_nat j)) by lia. rewrite Hjz, buckets_lookup, bucket_snoc by lia.
      case_bool_decide as He.
      + rewrite <-He. unfold bucket_of. rewrite list_lookup_insert_eq by (rewrite length_buckets; lia). done.
      + rewrite list_lookup_insert_ne, buckets_lookup, app_nil_r; [done|lia|]. unfold bucket_of in He. lia.
    - rewrite !lookup_ge_None_2; [done|rewrite ?length_insert, length_buckets; lia..]. }
  rewrite Hs. cbn [mbind option_bind]. rewrite IH. by rewrite <-app_assoc.
Qed.

Lemma partition_loop_all nReduce kvs :
  0 < nReduce ->
  partition_loop nReduce kvs (replicate (Z.to_nat nReduce) []) = Some (buckets nReduce kvs).
Proof. intros Hn. rewrite <-buckets_nil. by apply (partition_loop_spec nReduce [] kvs). Qed.

End Specs.
