(* ===== verification/MrJob.v ===== *)
(** * MapReduce: a whole job

    The sequential program of [main/mrsequential.go], and jobs run by any
    number of workers that may crash and repeat tasks: every attempt at a map
    task may use another order of the pairs and may stop after any number of
    files, reduce tasks may run several times and together with late map
    attempts.  The result is compared with the sequential one. *)

From S2P Require Import Prelude MrUtil MrApps MrJson MrGroup MrFiles MrWorker.

(** ** mrsequential.go *)

Section Sequential.
Context `{GoSort}.
Variable disk : string -> Disk.
Variable mapf : string -> string -> GoRun (list KeyValue).
Variable reducef : string -> list string -> GoRun string.

(** Reading and mapping the input files; a missing file is fatal. *)
Fixpoint seq_map (files : list string) (intermediate : list KeyValue) : Prog (list KeyValue) :=
  match files with
  | [] => mret intermediate
  | filename :: files =>
      fs ← get_fs;
      match (fs : FS) !! filename with
      | None => lift Exits
      | Some content => kva ← lift (mapf filename content); seq_map files (intermediate ++ kva)
      end
  end.

Definition mrsequential (files : list string) : Prog unit :=
  intermediate ← seq_map files [];
  '(out, r) ← lift_opt (reduce_all reducef (sort_ByKey intermediate));
  _ ← write_output disk "mr-out-0" out;
  lift r.

(** All files readable: the pairs of all of them. *)
Lemma seq_map_total (m : string -> string -> list KeyValue) (content : string -> string) fs l : forall acc,
  (forall name, name ∈ l -> fs !! name = Some (content name) /\
     mapf name (content name) = Returns (m name (content name))) ->
  seq_map l acc fs = (fs, [], Returns (acc ++ concat ((fun name => m name (content name)) <$> l))).
Proof.
  induction l as [|name l IH]; intros acc Hl; [simpl; by rewrite app_nil_r|].
  destruct (Hl name) as [Hc Hm]; [by left|]. cbn [fmap list_fmap seq_map].
  unfold mbind, Prog_bind, get_fs, lift at 1. rewrite Hc, Hm.
  rewrite IH by (intros x Hx; apply Hl; by right). simpl. by rewrite <-app_assoc.
Qed.

End Sequential.

(** ** Files written by a map task *)

Definition write_all (ws : list (string * string)) (fs : FS) : FS :=
  foldl (fun fs w => <[w.1 := w.2]> fs) fs ws.

Lemma write_all_app ws ws' fs : write_all (ws ++ ws') fs = write_all ws' (write_all ws fs).
Proof. apply foldl_app. Qed.

Lemma write_all_other ws fs name : name ∉ ws.*1 -> write_all ws fs !! name = fs !! name.
Proof.
  revert fs. induction ws as [|w ws IH]; intros fs Hn; [done|]. simpl in *.
  apply not_elem_of_cons in Hn as [Hne Hn]. rewrite IH by done. by apply lookup_insert_ne.
Qed.

(** What a written name holds was written by one of the writes. *)
Lemma write_all_in ws fs name c :
  write_all ws fs !! name = Some c -> (name, c) ∈ ws \/ (name ∉ ws.*1 /\ fs !! name = Some c).
Proof.
  revert fs. induction ws as [|[n c'] ws IH]; intros fs Hl; simpl in *.
  - right. split; [apply not_elem_of_nil|done].
  - destruct (IH _ Hl) as [Hin|[Hni Hfs]]; [left; by right|].
    destruct (decide (n = name)) as [->|Hne].
    + rewrite lookup_insert_eq in Hfs. injection Hfs as ->. left. by left.
    + rewrite lookup_insert_ne in Hfs by done. right. split; [|done]. by apply not_elem_of_cons.
Qed.

Lemma write_all_has ws fs name : name ∈ ws.*1 -> is_Some (write_all ws fs !! name).
Proof.
  revert fs. induction ws as [|[n c'] ws IH]; intros fs Hin; simpl in *; [by apply not_elem_of_nil in Hin|].
  destruct (decide (name ∈ ws.*1)) as [Hin'|Hni]; [by apply IH|].
  apply elem_of_cons in Hin as [->|Hin]; [|done]. rewrite write_all_other by done. rewrite lookup_insert_eq. eauto.
Qed.

Lemma write_all_mono ws fs name : is_Some (fs !! name) -> is_Some (write_all ws fs !! name).
Proof.
  intros Hs. destruct (decide (name ∈ ws.*1)); [by apply write_all_has|by rewrite write_all_other].
Qed.

Section Files.
Context `{GoSort} `{JsonCodec}.

(** The files of map task [t] for the pairs [kvs], in writing order. *)
Definition map_files (t : MRTask) (kvs : list KeyValue) : list (string * string) :=
  (fun i => (mid_name (TaskID t) i, json_encode (bucket (NReduce t) i (sort_ByKey kvs)))) <$> seqZ 0 (NReduce t).

Definition disk_fine : string -> Disk := fun _ => DiskOk.

Lemma write_loop_ok taskID (f : Z -> list KeyValue) (m : nat) : forall idx names fs,
  write_loop disk_fine taskID idx (f <$> seqZ idx (Z.of_nat m)) names fs =
  (write_all ((fun i => (mid_name taskID i, json_encode (f i))) <$> seqZ idx (Z.of_nat m)) fs, [],
   Returns (names ++ (mid_name taskID <$> seqZ idx (Z.of_nat m)), false)).
Proof.
  induction m as [|m IH]; intros idx names fs; [simpl; by rewrite app_nil_r|].
  rewrite seqZ_cons by lia. replace (Z.pred (Z.of_nat (S m))) with (Z.of_nat m) by lia.
  cbn [fmap list_fmap write_loop disk_fine]. unfold mbind, Prog_bind at 1, write.
  rewrite Z.add_1_r, IH. simpl. by rewrite <-app_assoc.
Qed.

(** A map task on a disk that works, with an application that returns. *)
Lemma doMap_ok mapf t fs content kvs :
  0 < NReduce t -> fs !! Filename t = Some content -> mapf (Filename t) content = Returns kvs ->
  doMap disk_fine mapf t fs =
  (write_all (map_files t kvs) fs, [], Returns (mid_name (TaskID t) <$> seqZ 0 (NReduce t), false)).
Proof.
  intros Hn Hf Hm. unfold doMap, recovering, lift_opt, lift, get_fs, mbind, Prog_bind.
  rewrite (proj2 (Z.ltb_ge _ _)) by lia. rewrite Hf, Hm, partition_loop_all by done.
  unfold buckets. pose proof (write_loop_ok (TaskID t) (fun i => bucket (NReduce t) i (sort_ByKey kvs))
    (Z.to_nat (NReduce t)) 0 [] fs) as Hw. rewrite Z2Nat.id in Hw by lia. rewrite Hw. done.
Qed.

(** ** Reading the intermediate files *)

Lemma read_loop_ok taskID (files : list string) (g : string -> list KeyValue) : forall acc fs,
  (forall name, name ∈ files -> exists c, fs !! name = Some c /\ json_decode c = Some (g name)) ->
  read_loop taskID files acc fs = (fs, [], Returns (acc ++ concat (g <$> files), false)).
Proof.
  induction files as [|name files IH]; intros acc fs Hg; [simpl; by rewrite app_nil_r|].
  destruct (Hg name) as (c & Hc & Hd); [by left|]. cbn [read_loop].
  unfold mbind, Prog_bind at 1, get_fs. rewrite Hc, Hd, IH by (intros n Hn; apply Hg; by right).
  simpl. by rewrite <-app_assoc.
Qed.

(** A file that does not decode ends the loop. *)
Lemma read_loop_break taskID before after bad c (g : string -> list KeyValue) fs : forall acc,
  (forall name, name ∈ before -> exists c, fs !! name = Some c /\ json_decode c = Some (g name)) ->
  fs !! bad = Some c -> json_decode c = None ->
  read_loop taskID (before ++ bad :: after) acc fs = (fs, [], Returns (acc ++ concat (g <$> before), false)).
Proof.
  induction before as [|name before IH]; intros acc Hb Hbad Hd.
  - cbn [app read_loop]. unfold mbind, Prog_bind, get_fs. rewrite Hbad, Hd. simpl. by rewrite app_nil_r.
  - destruct (Hb name) as (c' & Hc' & Hd'); [by left|]. cbn [app read_loop].
    unfold mbind, Prog_bind at 1, get_fs. rewrite Hc', Hd', IH; [|intros x Hx; apply Hb; by right|done|done].
    simpl. by rewrite <-app_assoc.
Qed.

Lemma sort_ByKey_le kvs : StronglySorted key_le (sort_ByKey kvs).
Proof.
  induction (sort_ByKey_sorted kvs) as [|a l Hs IH Hf]; constructor; [done|].
  eapply Forall_impl; [exact Hf|]. intros b Hb. by apply Less_key_le.
Qed.

(** A reduce task whose files all decode. *)
Lemma doReduce_ok reducef f t i fs (g : string -> list KeyValue) all :
  (forall k vs, reducef k vs = Returns (f k vs)) -> (forall k vs vs', vs ≡ₚ vs' -> f k vs = f k vs') ->
  0 <= i -> Filename t = reduce_pattern i ->
  (forall name, name ∈ Glob (reduce_pattern i) fs ->
     exists c, fs !! name = Some c /\ json_decode c = Some (g name)) ->
  concat (g <$> Glob (reduce_pattern i) fs) ≡ₚ all ->
  doReduce disk_fine reducef t fs =
  (<[out_name (Itoa i) := text (lines f all)]> fs, [], Returns false).
Proof.
  intros Hr Hf Hi Ht Hg Hall. unfold doReduce, recovering, lift_opt, lift, get_fs, mbind, Prog_bind.
  rewrite Ht, last_field_pattern by done. rewrite (read_loop_ok _ _ g) by done. simpl.
  rewrite (reduce_all_lines reducef f _ all Hr Hf (sort_ByKey_le _)); [done|].
  by rewrite sort_ByKey_perm.
Qed.

End Files.

(** ** Jobs *)

Section Job.
Context `{GoSort} `{JsonCodec}.

(** The application: what [Map] produces up to order, what [Reduce] returns. *)
Variable m : string -> string -> list KeyValue.
Variable reducef : string -> list string -> GoRun string.
Variable f : string -> list string -> string.

(** The number of reduce tasks, the directory, the map tasks. *)
Variable n : Z.
Variable fs0 : FS.
Variable ts : list MRTask.

(** The pairs of a map task, and of the job. *)
Definition pairs (t : MRTask) : list KeyValue := m (Filename t) (default "" (fs0 !! Filename t)).
Definition all_pairs : list KeyValue := concat (pairs <$> ts).

Record job_ok : Prop := {
  jo_reduce : forall k vs, reducef k vs = Returns (f k vs);
  jo_order : OrderFree reducef;
  jo_n : 0 < n;
  (** No file of the directory has one of the names the job uses. *)
  jo_dir : forall s, fs0 !! ("mr-" +:+ s) = None;
  jo_ids : NoDup (TaskID <$> ts);
  jo_pos : forall t, t ∈ ts -> 0 <= TaskID t;
  jo_nReduce : forall t, t ∈ ts -> NReduce t = n;
  jo_files : forall t, t ∈ ts -> is_Some (fs0 !! Filename t);
  jo_json : forall t, t ∈ ts -> Forall (fun kv => json_ok (Key kv) /\ json_ok (Value kv)) (pairs t);
}.

(** A complete attempt at a map task, one whose worker dies after [k] files,
    and an attempt at a reduce task. *)
Inductive JobEvent :=
  | JMap (mapf : string -> string -> GoRun (list KeyValue)) (t : MRTask)
  | JMapCrash (kvs : list KeyValue) (t : MRTask) (k : nat)
  | JReduce (t : MRTask).

Definition job_step (fs : FS) (ev : JobEvent) : FS :=
  match ev with
  | JMap mapf t => (doMap disk_fine mapf t fs).1.1
  | JMapCrash kvs t k => write_all (take k (map_files t kvs)) fs
  | JReduce t => (doReduce disk_fine reducef t fs).1.1
  end.

Definition run_job (evs : list JobEvent) (fs : FS) : FS := foldl job_step fs evs.

(** Attempts are at tasks of the job and see the application's pairs. *)
Definition event_ok (ev : JobEvent) : Prop :=
  match ev with
  | JMap mapf t => t ∈ ts /\ exists kvs, kvs ≡ₚ pairs t /\
      mapf (Filename t) (default "" (fs0 !! Filename t)) = Returns kvs
  | JMapCrash kvs t k => t ∈ ts /\ kvs ≡ₚ pairs t
  | JReduce t => exists i, 0 <= i < n /\ Filename t = reduce_pattern i
  end.

(** The directory during the job. *)
Record dir_ok (fs : FS) : Prop := {
  do_input : forall t, t ∈ ts -> fs !! Filename t = fs0 !! Filename t;
  do_mid : forall t i c, t ∈ ts -> 0 <= i < n -> fs !! mid_name (TaskID t) i = Some c ->
    exists b, c = json_encode b /\ b ≡ₚ bucket n i (pairs t);
  do_names : forall name, is_Some (fs !! name) ->
    is_Some (fs0 !! name) \/ (exists t i, t ∈ ts /\ 0 <= i < n /\ name = mid_name (TaskID t) i) \/
    (exists i, 0 <= i < n /\ name = out_name (Itoa i));
}.

(** All map tasks have left all their files. *)
Definition full (fs : FS) : Prop :=
  forall t i, t ∈ ts -> 0 <= i < n -> is_Some (fs !! mid_name (TaskID t) i).

(** The output files hold what they should. *)
Definition outs_ok (fs : FS) : Prop :=
  forall i c, 0 <= i < n -> fs !! out_name (Itoa i) = Some c -> c = text (lines f (bucket n i all_pairs)).

Hypothesis Hjob : job_ok.

Lemma f_order k vs vs' : vs ≡ₚ vs' -> f k vs = f k vs'.
Proof.
  intros Hp. pose proof (jo_order Hjob k vs vs' Hp) as Heq. rewrite !(jo_reduce Hjob) in Heq. by injection Heq.
Qed.

Lemma task_id_inj t t' : t ∈ ts -> t' ∈ ts -> TaskID t = TaskID t' -> t = t'.
Proof.
  intros Ht Ht' Heq. apply list_elem_of_lookup in Ht as [a Ha], Ht' as [b Hb].
  assert (Hab : a = b); [|by simplify_eq].
  apply (NoDup_lookup (TaskID <$> ts) a b (TaskID t)); [apply jo_ids, Hjob|..]; rewrite list_lookup_fmap.
  - by rewrite Ha.
  - by rewrite Hb, Heq.
Qed.

Lemma input_not_mr t s : t ∈ ts -> Filename t <> "mr-" +:+ s.
Proof.
  intros Ht Heq. destruct (jo_files Hjob t Ht) as [c Hc]. rewrite Heq, (jo_dir Hjob) in Hc. done.
Qed.

Lemma elem_of_map_files t kvs name c :
  (name, c) ∈ map_files t kvs <->
  exists i, 0 <= i < NReduce t /\ name = mid_name (TaskID t) i /\ c = json_encode (bucket (NReduce t) i (sort_ByKey kvs)).
Proof.
  unfold map_files. rewrite list_elem_of_fmap. split.
  - intros (i & [= -> ->] & Hi). apply elem_of_seqZ in Hi. exists i. split_and!; [lia|lia|done|done].
  - intros (i & Hi & -> & ->). exists i. rewrite elem_of_seqZ. split; [done|lia].
Qed.

(** Any attempt at a map task keeps the directory in order. *)
Lemma map_writes_ok fs t kvs ws :
  dir_ok fs -> t ∈ ts -> kvs ≡ₚ pairs t -> (forall w, w ∈ ws -> w ∈ map_files t kvs) ->
  dir_ok (write_all ws fs).
Proof.
  intros [Hin Hmid Hnm] Ht Hkvs Hws. pose proof (jo_nReduce Hjob t Ht) as Hn.
  assert (Hnames : forall name, name ∈ ws.*1 -> exists i, 0 <= i < n /\ name = mid_name (TaskID t) i).
  { intros name Hname. apply list_elem_of_fmap in Hname as ([x c] & -> & Hw).
    apply Hws, elem_of_map_files in Hw as (i & Hi & -> & _). rewrite Hn in Hi. eauto. }
  constructor.
  - intros t' Ht'. rewrite write_all_other; [by apply Hin|]. intros Hc.
    destruct (Hnames _ Hc) as (i & _ & Heq). by apply (input_not_mr t' _ Ht') in Heq.
  - intros t' i c Ht' Hi Hc. apply write_all_in in Hc as [Hc|[_ Hc]]; [|by apply Hmid].
    apply Hws, elem_of_map_files in Hc as (j & Hj & Heq & ->). rewrite Hn in *.
    apply mid_name_inj in Heq as [Heq ->]; [|lia..]. apply task_id_inj in Heq as ->; [|done..].
    eexists. split; [done|]. unfold bucket. by rewrite sort_ByKey_perm, Hkvs.
  - intros name [c Hc]. apply write_all_in in Hc as [Hc|[_ Hc]]; [|by apply Hnm].
    right. left. assert (Hc' : name ∈ ws.*1) by (apply list_elem_of_fmap; by exists (name, c)).
    destruct (Hnames _ Hc') as (i & Hi & ->). by exists t, i.
Qed.

Lemma map_writes_outs fs t kvs ws :
  outs_ok fs -> (forall w, w ∈ ws -> w ∈ map_files t kvs) -> outs_ok (write_all ws fs).
Proof.
  intros Ho Hws i c Hi Hc. apply (Ho i c Hi). rewrite <-Hc. symmetry. apply write_all_other.
  intros Hin. apply list_elem_of_fmap in Hin as ([x d] & Heq & Hw). simpl in Heq.
  apply Hws, elem_of_map_files in Hw as (j & _ & -> & _). by apply out_mid_ne in Heq; [|lia].
Qed.

Lemma job_doMap fs mapf t kvs :
  dir_ok fs -> t ∈ ts -> mapf (Filename t) (default "" (fs0 !! Filename t)) = Returns kvs ->
  (doMap disk_fine mapf t fs).1.1 = write_all (map_files t kvs) fs.
Proof.
  intros Hd Ht Hm. destruct (jo_files Hjob t Ht) as [c Hc]. rewrite Hc in Hm. simpl in Hm.
  rewrite (doMap_ok mapf t fs c kvs); [done| | |done].
  - rewrite (jo_nReduce Hjob t Ht). apply Hjob.
  - by rewrite (do_input _ Hd t Ht).
Qed.

(** ** Reduce tasks *)

(** A reduce task of a full directory finds one file per map task. *)
Lemma job_Glob fs i :
  dir_ok fs -> full fs -> 0 <= i < n ->
  Glob (reduce_pattern i) fs ≡ₚ (fun t => mid_name (TaskID t) i) <$> ts.
Proof.
  intros Hd Hfull Hi. apply NoDup_Permutation; [apply NoDup_Glob| |].
  - rewrite (list_fmap_compose TaskID (fun x => mid_name x i)). apply NoDup_fmap_2_strong, Hjob.
    intros x y _ _ Heq. by apply mid_name_inj in Heq as [? _]; [|lia..].
  - intros name. rewrite elem_of_Glob, list_elem_of_fmap. split.
    + intros [Hs Hm]. destruct (do_names _ Hd name Hs) as [[c Hc]|[(t & j & Ht & Hj & ->)|(j & Hj & ->)]].
      * apply reduce_pattern_spec in Hm as (x & -> & _); [|lia]. by rewrite (jo_dir Hjob) in Hc.
      * pose proof (jo_pos Hjob t Ht). apply glob_mid_name in Hm as ->; [by exists t|lia..].
      * rewrite out_not_matched in Hm by lia. done.
    + intros (t & -> & Ht). pose proof (jo_pos Hjob t Ht). split; [by apply Hfull|].
      by apply glob_mid_name; [lia..|].
Qed.

(** What a name decodes to. *)
Definition decoded (fs : FS) (name : string) : list KeyValue := default [] (fs !! name ≫= json_decode).

Lemma job_decoded fs t i :
  dir_ok fs -> full fs -> t ∈ ts -> 0 <= i < n ->
  (exists c, fs !! mid_name (TaskID t) i = Some c /\ json_decode c = Some (decoded fs (mid_name (TaskID t) i))) /\
  decoded fs (mid_name (TaskID t) i) ≡ₚ bucket n i (pairs t).
Proof.
  intros Hd Hfull Ht Hi. destruct (Hfull t i Ht Hi) as [c Hc].
  destruct (do_mid _ Hd t i c Ht Hi Hc) as (b & -> & Hb).
  assert (Hok : json_decode (json_encode b) = Some b).
  { apply json_roundtrip. rewrite Hb. unfold bucket.
    apply Forall_forall. intros kv [_ Hkv]%list_elem_of_filter.
    by apply (proj1 (Forall_forall _ _) (jo_json Hjob t Ht)). }
  unfold decoded. rewrite Hc. simpl. rewrite Hok. simpl. eauto.
Qed.

Lemma bucket_concat i (l : list (list KeyValue)) : bucket n i (concat l) = concat (bucket n i <$> l).
Proof. induction l as [|x l IH]; [done|]. simpl. unfold bucket in *. by rewrite filter_app, IH. Qed.

Lemma job_doReduce fs t i :
  dir_ok fs -> full fs -> 0 <= i < n -> Filename t = reduce_pattern i ->
  doReduce disk_fine reducef t fs =
  (<[out_name (Itoa i) := text (lines f (bucket n i all_pairs))]> fs, [], Returns false).
Proof.
  intros Hd Hfull Hi Ht. pose proof (job_Glob fs i Hd Hfull Hi) as Hg.
  rewrite (doReduce_ok reducef f t i fs (decoded fs) (bucket n i all_pairs)); [done|apply Hjob|apply f_order|lia|done| |].
  - intros name Hname. rewrite Hg in Hname. apply list_elem_of_fmap in Hname as (t' & -> & Ht').
    by apply job_decoded.
  - rewrite Hg. unfold all_pairs. rewrite bucket_concat, <-!list_fmap_compose. clear Hg.
    assert (Hsub : forall t', t' ∈ ts -> t' ∈ ts) by done. revert Hsub. generalize ts at 1 3 4 as l.
    induction l as [|x l IH]; intros Hsub; [done|]. simpl. rewrite IH by (intros y Hy; apply Hsub; by right).
    apply Permutation_app_tail. apply job_decoded; auto. apply Hsub. by left.
Qed.

Lemma reduce_write_ok fs i c :
  dir_ok fs -> 0 <= i < n -> dir_ok (<[out_name (Itoa i) := c]> fs).
Proof.
  intros [Hin Hmid Hnm] Hi. constructor.
  - intros t Ht. rewrite lookup_insert_ne; [by apply Hin|]. intros Heq. symmetry in Heq.
    by apply (input_not_mr t ("out." +:+ Itoa i) Ht) in Heq.
  - intros t j d Ht Hj Hd. rewrite lookup_insert_ne in Hd by (apply out_mid_ne; lia). by apply Hmid.
  - intros name Hs. destruct (decide (out_name (Itoa i) = name)) as [<-|Hne]; [eauto|].
    rewrite lookup_insert_ne in Hs by done. by apply Hnm.
Qed.

(** ** Runs *)

Definition is_map (ev : JobEvent) : bool := match ev with JReduce _ => false | _ => true end.

(** One event keeps everything in order, provided reduce tasks run on a full
    directory, and removes no intermediate file. *)
Lemma job_step_ok fs ev :
  dir_ok fs -> event_ok ev -> (is_map ev = false -> full fs) ->
  dir_ok (job_step fs ev) /\ (outs_ok fs -> outs_ok (job_step fs ev)) /\
  (forall name, is_Some (fs !! name) -> is_Some (job_step fs ev !! name)).
Proof.
  intros Hd Hev Hfull. destruct ev as [mapf t|kvs t k|t]; simpl in *.
  - destruct Hev as (Ht & kvs & Hkvs & Hm). rewrite (job_doMap fs mapf t kvs) by done. split_and!.
    + by eapply map_writes_ok.
    + intros Ho. by eapply map_writes_outs.
    + intros name. apply write_all_mono.
  - destruct Hev as [Ht Hkvs]. assert (Hsub : forall w, w ∈ take k (map_files t kvs) -> w ∈ map_files t kvs).
    { intros w Hw. rewrite <-(take_drop k (map_files t kvs)). apply elem_of_app. by left. }
    split_and!; [by eapply map_writes_ok|intros Ho; by eapply map_writes_outs|].
    intros name. apply write_all_mono.
  - destruct Hev as (i & Hi & Ht). rewrite (job_doReduce fs t i) by auto. cbn [fst]. split_and!.
    + by apply reduce_write_ok.
    + intros Ho j c Hj Hc. destruct (decide (i = j)) as [<-|Hne].
      * rewrite lookup_insert_eq in Hc. by injection Hc.
      * rewrite lookup_insert_ne in Hc; [by apply Ho|]. by intros Heq%out_name_inj.
    + intros name Hs. destruct (decide (out_name (Itoa i) = name)) as [<-|Hne].
      * rewrite lookup_insert_eq. eauto.
      * by rewrite lookup_insert_ne.
Qed.

Lemma run_job_ok evs : forall fs,
  dir_ok fs -> Forall event_ok evs -> (full fs \/ Forall (fun ev => is_map ev = true) evs) ->
  dir_ok (run_job evs fs) /\ (outs_ok fs -> outs_ok (run_job evs fs)) /\
  (forall name, is_Some (fs !! name) -> is_Some (run_job evs fs !! name)).
Proof.
  induction evs as [|ev evs IH]; intros fs Hd Hevs Hor; [done|].
  apply Forall_cons in Hevs as [Hev Hevs]. destruct (job_step_ok fs ev Hd Hev) as (Hd' & Ho & Hn).
  { intros Hr. destruct Hor as [Hfull|Hm]; [done|]. apply Forall_cons in Hm as [Hm _]. congruence. }
  destruct (IH (job_step fs ev) Hd' Hevs) as (H1 & H2 & H3).
  { destruct Hor as [Hfull|Hm]; [left|right; by apply Forall_cons in Hm as [_ Hm]].
    intros t i Ht Hi. by apply Hn, Hfull. }
  split_and!; [done|auto|auto].
Qed.

Lemma run_job_app evs evs' fs : run_job (evs ++ evs') fs = run_job evs' (run_job evs fs).
Proof. apply foldl_app. Qed.

(** Once every map task has completed an attempt, the directory is full. *)
Lemma run_job_full evs fs :
  dir_ok fs -> Forall event_ok evs -> Forall (fun ev => is_map ev = true) evs ->
  (forall t, t ∈ ts -> exists mapf, JMap mapf t ∈ evs) -> full (run_job evs fs).
Proof.
  intros Hd Hevs Hm Hall t i Ht Hi. destruct (Hall t Ht) as [mapf Hin].
  apply list_elem_of_split in Hin as (l1 & l2 & ->). apply Forall_app in Hevs as [Hev1 Hev2].
  apply Forall_app in Hm as [Hm1 Hm2]. apply Forall_cons in Hev2 as [Hev Hev2], Hm2 as [_ Hm2].
  destruct (run_job_ok l1 fs Hd Hev1) as (Hd1 & _); [by right|].
  rewrite run_job_app. simpl. set (fs1 := run_job l1 fs) in *.
  destruct (job_step_ok fs1 (JMap mapf t) Hd1 Hev) as (Hd2 & _); [done|].
  apply (run_job_ok l2 _ Hd2 Hev2); [by right|]. simpl.
  destruct Hev as (_ & kvs & Hkvs & Hmap). rewrite (job_doMap fs1 mapf t kvs) by done.
  apply write_all_has, list_elem_of_fmap. eexists (_, _). split; [|apply elem_of_map_files; by exists i; rewrite (jo_nReduce Hjob t Ht)].
  done.
Qed.

Lemma dir_ok_init : dir_ok fs0.
Proof.
  constructor; [done| |by left]. intros t i c Ht Hi Hc.
  by rewrite (jo_dir Hjob _ : fs0 !! mid_name (TaskID t) i = None) in Hc.
Qed.

Lemma outs_ok_init : outs_ok fs0.
Proof. intros i c Hi Hc. by rewrite (jo_dir Hjob _ : fs0 !! out_name (Itoa i) = None) in Hc. Qed.

(** The outputs of a job. *)
Lemma run_job_outs evs1 evs2 i :
  Forall event_ok evs1 -> Forall (fun ev => is_map ev = true) evs1 ->
  (forall t, t ∈ ts -> exists mapf, JMap mapf t ∈ evs1) ->
  Forall event_ok evs2 -> 0 <= i < n -> (exists t, Filename t = reduce_pattern i /\ JReduce t ∈ evs2) ->
  run_job (evs1 ++ evs2) fs0 !! out_name (Itoa i) = Some (text (lines f (bucket n i all_pairs))).
Proof.
  intros He1 Hm Hall He2 Hi (t & Ht & Hin).
  destruct (run_job_ok evs1 fs0 dir_ok_init He1) as (Hd & Ho & _); [by right|].
  pose proof (run_job_full evs1 fs0 dir_ok_init He1 Hm Hall) as Hfull. specialize (Ho outs_ok_init).
  rewrite run_job_app. set (fs1 := run_job evs1 fs0) in *. clearbody fs1.
  apply list_elem_of_split in Hin as (l1 & l2 & ->). apply Forall_app in He2 as [He2 He3].
  apply Forall_cons in He3 as [Her He3].
  destruct (run_job_ok l1 fs1 Hd He2) as (Hd1 & Ho1 & Hn1); [by left|]. specialize (Ho1 Ho).
  assert (Hfull1 : full (run_job l1 fs1)) by (intros t' j Ht' Hj; by apply Hn1, Hfull).
  rewrite run_job_app. set (fs2 := run_job l1 fs1) in *. clearbody fs2. simpl.
  destruct (job_step_ok fs2 (JReduce t) Hd1 Her) as (Hd3 & Ho3 & Hn3); [done|]. specialize (Ho3 Ho1).
  destruct (run_job_ok l2 _ Hd3 He3) as (_ & Ho4 & Hn4).
  { left. intros t' j Ht' Hj. by apply Hn3, Hfull1. }
  specialize (Ho4 Ho3). simpl in *. destruct (Hn4 (out_name (Itoa i))) as [c Hc].
  { rewrite (job_doReduce fs2 t i) by done. cbn [fst]. rewrite lookup_insert_eq. eauto. }
  rewrite Hc. f_equal. by apply Ho4.
Qed.

(** ** The sequential program on the same input *)

Lemma seq_map_ok mapf l acc :
  (forall t, t ∈ l -> t ∈ ts) ->
  (forall t, t ∈ ts -> mapf (Filename t) (default "" (fs0 !! Filename t)) = Returns (pairs t)) ->
  seq_map mapf (Filename <$> l) acc fs0 = (fs0, [], Returns (acc ++ concat (pairs <$> l))).
Proof.
  intros Hsub Hm. rewrite (seq_map_total _ m (fun name => default "" (fs0 !! name))).
  - by rewrite <-list_fmap_compose.
  - intros name (t & -> & Ht)%list_elem_of_fmap. apply Hsub in Ht. split; [|by apply Hm].
    destruct (jo_files Hjob t Ht) as [c Hc]. by rewrite Hc.
Qed.

Lemma sequential_ok mapf l :
  l ≡ₚ ts -> (forall t, t ∈ ts -> mapf (Filename t) (default "" (fs0 !! Filename t)) = Returns (pairs t)) ->
  mrsequential disk_fine mapf reducef (Filename <$> l) fs0 =
  (<["mr-out-0" := text (lines f all_pairs)]> fs0, [], Returns ()).
Proof.
  intros Hl Hm. unfold mrsequential, mbind, Prog_bind, lift_opt, lift.
  rewrite seq_map_ok; [|intros t Ht; by rewrite <-Hl|done]. simpl.
  rewrite (reduce_all_lines reducef f _ all_pairs); [done|apply Hjob|apply f_order|apply sort_ByKey_le|].
  rewrite sort_ByKey_perm. unfold all_pairs. by rewrite Hl.
Qed.

(** The output of a job is a distribution of the sequential output's lines. *)
Lemma job_lines :
  concat ((fun i => lines f (bucket n i all_pairs)) <$> seqZ 0 n) ≡ₚ lines f all_pairs.
Proof.
  pose proof (jo_n Hjob) as Hn. pose proof (lines_buckets f (bucket_of n) (Z.to_nat n) all_pairs) as Hb.
  rewrite Z2Nat.id in Hb by lia. apply Hb. intros k. by apply ihash_bucket.
Qed.

End Job.
