(* ===== verification/MrActions.v ===== *)
(** * MapReduce: tasks one system call at a time

    [MrWorker] gives a task as one function on the directory.  Other processes
    use the directory while a task runs, so here a task is a tree of actions
    ([Act]): every call of the operating system is a node, and what follows
    depends on its result.  [run_act] runs a tree without interruption, and
    then does what [MrWorker] says ([run_task_act]).

    A file is truncated when it is created, and filled by one [Write] per
    [Encode] or [Fprintf] at the position of the file descriptor: another
    process may have truncated the file meanwhile, then the write leaves a
    hole of zero bytes.  A file is read in one piece. *)

From S2P Require Import Prelude MrUtil MrApps MrJson MrGroup MrFiles MrWorker MrJob.

(** ** Actions *)

Inductive Act (A : Type) :=
  | ARet (r : GoRun A)                                         (** returns, panics or exits *)
  | ACall (args : MRArgs) (k : Act A)                          (** [w.setTaskState] *)
  | ARead (name : string) (k : option string -> Act A)         (** the content, if it can be read *)
  | AGlob (pattern : string) (k : list string -> Act A)
  | ACreate (name : string) (k : bool -> Act A)                (** whether it succeeds *)
  | AWrite (name : string) (off : nat) (chunk : string) (k : bool -> Act A).
Arguments ARet {A} r.
Arguments ACall {A} args k.
Arguments ARead {A} name k.
Arguments AGlob {A} pattern k.
Arguments ACreate {A} name k.
Arguments AWrite {A} name off chunk k.

#[export] Instance Act_ret : MRet Act := fun A a => ARet (Returns a).
#[export] Instance Act_bind : MBind Act := fun A B f =>
  fix go (a : Act A) : Act B :=
    match a with
    | ARet (Returns x) => f x
    | ARet Panics => ARet Panics
    | ARet Exits => ARet Exits
    | ACall args k => ACall args (go k)
    | ARead name k => ARead name (fun o => go (k o))
    | AGlob pattern k => AGlob pattern (fun l => go (k l))
    | ACreate name k => ACreate name (fun b => go (k b))
    | AWrite name off chunk k => AWrite name off chunk (fun b => go (k b))
    end.

Definition act_opt {A} (o : option A) : Act A := ARet (match o with Some a => Returns a | None => Panics end).

(** [defer] with [recover], as [recovering]. *)
Fixpoint act_recovering {A} (args : MRArgs) (zero : A) (a : Act A) : Act A :=
  match a with
  | ARet Panics => ACall args (ARet (Returns zero))
  | ARet r => ARet r
  | ACall args' k => ACall args' (act_recovering args zero k)
  | ARead name k => ARead name (fun o => act_recovering args zero (k o))
  | AGlob pattern k => AGlob pattern (fun l => act_recovering args zero (k l))
  | ACreate name k => ACreate name (fun b => act_recovering args zero (k b))
  | AWrite name off chunk k => AWrite name off chunk (fun b => act_recovering args zero (k b))
  end.

(** ** The tasks *)

Section Tasks.
Context `{GoSort} `{JsonCodec}.

(** The loop over [reduces] in [doMap]. *)
Fixpoint write_act (taskID idx : Z) (reduces : list (list KeyValue)) (reduceNames : list string)
    : Act (list string * bool) :=
  match reduces with
  | [] => mret (reduceNames, false)
  | kvss :: reduces =>
      let reduceName := mid_name taskID idx in
      let reduceNames := reduceNames ++ [reduceName] in
      ACreate reduceName (fun ok =>
        if ok then
          AWrite reduceName 0 (json_encode kvss) (fun ok =>
            if ok then write_act taskID (idx + 1) reduces reduceNames
            else ACall (mkArgs taskID TaskStateErr) (mret (reduceNames, true)))
        else ACall (mkArgs taskID TaskStateErr) (mret (reduceNames, true)))
  end.

Definition doMap_act (mapf : string -> string -> GoRun (list KeyValue)) (t : MRTask) : Act (list string * bool) :=
  act_recovering (mkArgs (TaskID t) TaskStateErr) ([], false)
    (_ ← ARet (if NReduce t <? 0 then Panics else Returns ());
     let reduces := replicate (Z.to_nat (NReduce t)) [] in
     ARead (Filename t) (fun o =>
       match o with
       | None => ACall (mkArgs (TaskID t) TaskStateErr) (mret ([], true))
       | Some content =>
           kvs ← ARet (mapf (Filename t) content);
           reduces ← act_opt (partition_loop (NReduce t) (sort_ByKey kvs) reduces);
           write_act (TaskID t) 0 reduces []
       end)).

(** The loop over [files] in [doReduce]. *)
Fixpoint read_act (taskID : Z) (files : list string) (intermediate : list KeyValue)
    : Act (list KeyValue * bool) :=
  match files with
  | [] => mret (intermediate, false)
  | filename :: files =>
      ARead filename (fun o =>
        match o with
        | None => ACall (mkArgs taskID TaskStateErr) (mret (intermediate, true))
        | Some content =>
            match json_decode content with
            | None => mret (intermediate, false)
            | Some kvs => read_act taskID files (intermediate ++ kvs)
            end
        end)
  end.

(** The grouping loop of [doReduce], from index [i] on, with [off] bytes
    printed; [opened]: [os.Create] has succeeded, otherwise [Fprintf] does
    nothing.  Running out of fuel is excluded ([reduce_act_spec]). *)
Fixpoint reduce_act (fuel : nat) (reducef : string -> list string -> GoRun string) (l : list KeyValue)
    (opened : bool) (name : string) (i : Z) (off : nat) : Act unit :=
  match fuel with
  | O => ARet Panics
  | S fuel =>
      if i <? zlen l then
        match zidx l i with
        | None => ARet Panics
        | Some kv =>
            let j := group_end (Key kv) (drop (Z.to_nat (i + 1)) l) (i + 1) in
            match mapM (fun k => Value <$> zidx l k) (seqZ i (j - i)) with
            | None => ARet Panics
            | Some values =>
                match reducef (Key kv) values with
                | Returns output =>
                    let s := line (Key kv) output in
                    if opened then AWrite name off s (fun _ => reduce_act fuel reducef l opened name j (off + String.length s))
                    else reduce_act fuel reducef l opened name j off
                | Panics => ARet Panics
                | Exits => ARet Exits
                end
            end
        end
      else ARet (Returns ())
  end.

Definition doReduce_act (reducef : string -> list string -> GoRun string) (t : MRTask) : Act bool :=
  act_recovering (mkArgs (TaskID t) TaskStateErr) false
    (idx ← act_opt (last_field (Filename t));
     AGlob (Filename t) (fun files =>
       '(intermediate, err) ← read_act (TaskID t) files [];
       if (err : bool) then mret true
       else
         let intermediate := sort_ByKey intermediate in
         ACreate (out_name idx) (fun opened =>
           _ ← reduce_act (S (length intermediate)) reducef intermediate opened (out_name idx) 0 0;
           mret false))).

(** What [Worker] does with a task. *)
Definition task_act (mapf : string -> string -> GoRun (list KeyValue)) (reducef : string -> list string -> GoRun string)
    (task : MRTask) : Act unit :=
  let finish (err : bool) : Act unit :=
    if err then ACall (mkArgs (TaskID task) TaskStateErr) (ARet Exits)
    else ACall (mkArgs (TaskID task) TaskStateFinish) (mret ()) in
  match Phase task with
  | MapPhase => '(_, err) ← doMap_act mapf task; finish err
  | ReducePhase => err ← doReduce_act reducef task; finish err
  end.
End Tasks.

(** ** Files *)

(** The bytes of [chunk] in place of the first bytes of [file]. *)
Fixpoint overwrite (chunk file : string) : string :=
  match chunk with
  | "" => file
  | String c chunk => String c (overwrite chunk (match file with String _ file => file | "" => "" end))
  end.

(** [write(2)] at position [off]. *)
Fixpoint splice (off : nat) (chunk file : string) : string :=
  match off with
  | O => overwrite chunk file
  | S off =>
      match file with
      | String c file => String c (splice off chunk file)
      | "" => String Ascii.zero (splice off chunk "")
      end
  end.

(** The whole tree, with nobody else in the directory and a disk that works. *)
Fixpoint run_act {A} (a : Act A) (fs : FS) : FS * list MRArgs * GoRun A :=
  match a with
  | ARet r => (fs, [], r)
  | ACall args k => let '(fs, calls, r) := run_act k fs in (fs, args :: calls, r)
  | ARead name k => run_act (k (fs !! name)) fs
  | AGlob pattern k => run_act (k (Glob pattern fs)) fs
  | ACreate name k => run_act (k true) (<[name := ""]> fs)
  | AWrite name off chunk k => run_act (k true) (<[name := splice off chunk (default "" (fs !! name))]> fs)
  end.

Lemma overwrite_nil chunk : overwrite chunk "" = chunk.
Proof. induction chunk as [|c chunk IH]; [done|]. simpl. by rewrite IH. Qed.

Lemma splice_end chunk file : splice (String.length file) chunk file = file +:+ chunk.
Proof.
  induction file as [|c file IH]; [apply overwrite_nil|].
  change (String c (splice (String.length file) chunk file) = String c (file +:+ chunk)). by rewrite IH.
Qed.

(** ** Uninterrupted runs *)

Lemma run_bind {A B} (f : A -> Act B) (a : Act A) fs :
  run_act (a ≫= f) fs =
  match run_act a fs with
  | (fs, calls, Returns x) => let '(fs, calls', r) := run_act (f x) fs in (fs, calls ++ calls', r)
  | (fs, calls, Panics) => (fs, calls, Panics)
  | (fs, calls, Exits) => (fs, calls, Exits)
  end.
Proof.
  revert fs. induction a as [[x| |]|args a IH|name k IH|pattern k IH|name k IH|name off chunk k IH]; intros fs;
    try done; try (exact (IH _ fs) || exact (IH true _)).
  - simpl. by destruct (run_act (f x) fs) as [[? ?] ?].
  - simpl. rewrite IH. destruct (run_act a fs) as [[fs1 calls] [x| |]]; [|done..].
    by destruct (run_act (f x) fs1) as [[? ?] ?].
Qed.

Lemma run_recovering {A} args (zero : A) (a : Act A) fs :
  run_act (act_recovering args zero a) fs =
  match run_act a fs with
  | (fs, calls, Panics) => (fs, calls ++ [args], Returns zero)
  | r => r
  end.
Proof.
  revert fs. induction a as [[x| |]|args' a IH|name k IH|pattern k IH|name k IH|name off chunk k IH]; intros fs;
    try done; try (exact (IH _ fs) || exact (IH true _)).
  simpl. rewrite IH. by destruct (run_act a fs) as [[fs1 calls] [x| |]].
Qed.

(** Printing the groups one after the other. *)
Fixpoint emit_act (reducef : string -> list string -> GoRun string) (g : list (string * list string))
    (opened : bool) (name : string) (off : nat) : Act unit :=
  match g with
  | [] => ARet (Returns ())
  | (k, vs) :: g =>
      match reducef k vs with
      | Returns output =>
          let s := line k output in
          if opened then AWrite name off s (fun _ => emit_act reducef g opened name (off + String.length s))
          else emit_act reducef g opened name off
      | Panics => ARet Panics
      | Exits => ARet Exits
      end
  end.

Lemma reduce_act_loop reducef fuel opened name : forall pre l off,
  (length l < fuel)%nat ->
  reduce_act fuel reducef (pre ++ l) opened name (zlen pre) off = emit_act reducef (groups l) opened name off.
Proof.
  induction fuel as [|fuel IH]; intros pre l off Hf; [lia|]. cbn [reduce_act]. destruct l as [|kv l].
  { by rewrite app_nil_r, Z.ltb_irrefl. }
  destruct (groups_cons kv l) as (ms & rest & -> & Hms & Hr & ->).
  destruct (round_spec pre kv ms rest Hms Hr) as (-> & -> & -> & ->).
  cbn [emit_act]. destruct (reducef _ _) as [o| |]; [|done|done].
  assert (Hl : (length rest < fuel)%nat) by (simpl in Hf; rewrite length_app in Hf; lia).
  replace (pre ++ kv :: ms ++ rest) with ((pre ++ kv :: ms) ++ rest) by (by rewrite <-app_assoc).
  destruct opened; by rewrite IH.
Qed.

(** The whole loop. *)
Lemma reduce_act_spec reducef l opened name :
  reduce_act (S (length l)) reducef l opened name 0 0 = emit_act reducef (groups l) opened name 0.
Proof. apply (reduce_act_loop reducef (S (length l)) opened name [] l 0). lia. Qed.

Section Runs.
Context `{GoSort} `{JsonCodec}.

Lemma run_emit reducef g name fs : forall out,
  run_act (emit_act reducef g true name (String.length out)) (<[name := out]> fs) =
  let '(out, r) := emit reducef g out in (<[name := out]> fs, [], r).
Proof.
  induction g as [|[k vs] g IH]; intros out; [done|]. cbn [emit_act emit].
  destruct (reducef k vs) as [o| |]; [|done..]. cbn [run_act]. rewrite lookup_insert_eq, insert_insert_eq. cbn [default].
  rewrite splice_end, <-length_append. apply IH.
Qed.

Lemma run_write taskID reduces : forall idx names fs,
  run_act (write_act taskID idx reduces names) fs = write_loop disk_fine taskID idx reduces names fs.
Proof.
  induction reduces as [|kvss reduces IH]; intros idx names fs; [done|].
  cbn [write_act write_loop disk_fine run_act]. rewrite lookup_insert_eq, insert_insert_eq, IH. cbn [default splice].
  rewrite overwrite_nil. unfold mbind, Prog_bind, write.
  by destruct (write_loop disk_fine taskID (idx + 1) reduces _ _) as [[? ?] ?].
Qed.

Lemma run_read taskID files : forall acc fs,
  run_act (read_act taskID files acc) fs = read_loop taskID files acc fs.
Proof.
  induction files as [|name files IH]; intros acc fs; [done|].
  cbn [read_act read_loop run_act]. unfold mbind, Prog_bind, get_fs. destruct (fs !! name) as [c|]; [|done].
  destruct (json_decode c) as [kvs|]; [|done]. rewrite IH. by destruct (read_loop taskID files _ fs) as [[? ?] ?].
Qed.

Lemma prog_bind {A B} (k : A -> Prog B) (m : Prog A) fs :
  (m ≫= k) fs =
  match m fs with
  | (fs, calls, Returns a) => let '(fs, calls', r) := k a fs in (fs, calls ++ calls', r)
  | (fs, calls, Panics) => (fs, calls, Panics)
  | (fs, calls, Exits) => (fs, calls, Exits)
  end.
Proof. done. Qed.

Lemma run_doMap mapf t fs : run_act (doMap_act mapf t) fs = doMap disk_fine mapf t fs.
Proof.
  unfold doMap_act, doMap, recovering. rewrite run_recovering, run_bind, prog_bind. cbn [run_act lift].
  destruct (NReduce t <? 0); [done|]. cbn [run_act]. rewrite prog_bind. cbn [get_fs].
  destruct (fs !! Filename t) as [c|]; [|done]. rewrite run_bind, prog_bind. cbn [run_act lift].
  destruct (mapf (Filename t) c) as [kvs| |]; [|done..]. rewrite run_bind, prog_bind. cbn [run_act act_opt lift_opt lift].
  destruct (partition_loop _ _ _) as [reduces|]; [|done]. rewrite run_write.
  by destruct (write_loop _ _ _ _ _ _) as [[? ?] [? | |]].
Qed.

Lemma run_doReduce reducef t fs : run_act (doReduce_act reducef t) fs = doReduce disk_fine reducef t fs.
Proof.
  unfold doReduce_act, doReduce, recovering. rewrite run_recovering, run_bind, prog_bind.
  cbn [run_act act_opt lift_opt lift]. destruct (last_field (Filename t)) as [idx|]; [|done].
  cbn [run_act]. rewrite prog_bind. cbn [get_fs]. rewrite run_bind, run_read, prog_bind.
  destruct (read_loop _ _ _ _) as [[fs1 calls] [[inter err]| |]]; [|done..].
  destruct err; [done|]. cbn [run_act]. rewrite run_bind, reduce_act_spec. rewrite (run_emit _ _ _ _ "").
  rewrite prog_bind. cbn [lift_opt lift]. rewrite reduce_all_spec. destruct (emit _ _ _) as [out r].
  rewrite prog_bind. cbn [write_output disk_fine write]. rewrite prog_bind. by destruct r as [[]| |].
Qed.

(** A task that nobody interferes with does what [MrWorker] says. *)
Lemma run_task_act mapf reducef t fs : run_act (task_act mapf reducef t) fs = task_body disk_fine mapf reducef t fs.
Proof.
  unfold task_act, task_body. destruct (Phase t).
  - rewrite run_bind, run_doMap, prog_bind. by destruct (doMap _ _ _ _) as [[? ?] [[? []]| |]].
  - rewrite run_bind, run_doReduce, prog_bind. by destruct (doReduce _ _ _ _) as [[? ?] [[]| |]].
Qed.
End Runs.
