(* ===== verification/MrMaster.v ===== *)
(** * MapReduce: the master

    [mr/master.go]: the RPC handlers and the goroutines [schedule] and
    [handleHeartbeat], which run concurrently.  The tasks are in a [sync.Map],
    which the handlers read and write without a lock: [WorkerHeartBeat],
    [SetTaskState], the sweep and [GetTask] load or visit a task in one step
    and store it in another, and anything may happen in between, so that a
    store can undo another one (a finished task goes back to error, say).
    [stores] holds what the handlers under way are about to store, [errs] the
    tasks the sweep has decided to put in error and not loaded yet.

    The handlers are also given as functions, which is what they do when
    nothing else runs ([steps_of_SetTaskState] and the lemmas after it);
    [handle] has their steps.  [GetTask] blocks on the task channel: it looks
    for a task to retry, receives a file name, reads the phase, and takes an ID
    and stores the new task; the last two are one step, so IDs are numbered in
    the order in which the tasks are stored.

    The tasks [sync.Map.Range] visits are part of the event, in their order,
    and so is the time.  [GetTask] visits them in one step, but for any list of
    tasks: a visit that lasts and finds task [k] in error is the step that
    visits [k] alone at that moment, and one that finds none visits nothing.
    Durations are in seconds. *)

From S2P Require Import Prelude MrUtil MrFiles.

(** ** State and handlers *)

Record Master := mkMaster {
  mrPhase : MRPhase;
  mdone : bool;
  workerIDs : list Z;
  taskSeq : Z;
  tasks : gmap Z MRTask;
  files : list string;
  reduceFiles : list string;
  nReduce : Z;
  waitTaskTimeout : Z;
}.

Definition set_mrPhase (x : MRPhase) (m : Master) : Master :=
  mkMaster x (mdone m) (workerIDs m) (taskSeq m) (tasks m) (files m) (reduceFiles m) (nReduce m) (waitTaskTimeout m).
Definition set_mdone (x : bool) (m : Master) : Master :=
  mkMaster (mrPhase m) x (workerIDs m) (taskSeq m) (tasks m) (files m) (reduceFiles m) (nReduce m) (waitTaskTimeout m).
Definition set_workerIDs (x : list Z) (m : Master) : Master :=
  mkMaster (mrPhase m) (mdone m) x (taskSeq m) (tasks m) (files m) (reduceFiles m) (nReduce m) (waitTaskTimeout m).
Definition set_taskSeq (x : Z) (m : Master) : Master :=
  mkMaster (mrPhase m) (mdone m) (workerIDs m) x (tasks m) (files m) (reduceFiles m) (nReduce m) (waitTaskTimeout m).
Definition set_tasks (x : gmap Z MRTask) (m : Master) : Master :=
  mkMaster (mrPhase m) (mdone m) (workerIDs m) (taskSeq m) x (files m) (reduceFiles m) (nReduce m) (waitTaskTimeout m).
Definition set_reduceFiles (x : list string) (m : Master) : Master :=
  mkMaster (mrPhase m) (mdone m) (workerIDs m) (taskSeq m) (tasks m) (files m) x (nReduce m) (waitTaskTimeout m).

(** [nil] when the number of reduce tasks is not positive. *)
Definition MakeMaster (fs : list string) (nReduce : Z) : option Master :=
  let workerMaxNum := 10 in
  if nReduce <=? 0 then None
  else
    ids ← makeRangeUint32 1 workerMaxNum;
    Some (mkMaster MapPhase false ids 0 ∅ fs [] nReduce 300).

Definition Done (m : Master) : bool := mdone m.

(** [atomic.AddUint32] wraps around. *)
Definition genTaskID (m : Master) : Master * Z :=
  let id := uint32 (taskSeq m + 1) in (set_taskSeq id m, id).

Definition isTasksDone (m : Master) : bool :=
  bool_decide (map_Forall (fun _ t => State t = TaskStateFinish) (tasks m)).

(** Handlers return the value and whether the error is non-nil. *)
Definition getWorkerID (m : Master) : Master * (Z * bool) :=
  match workerIDs m with
  | [] => (m, (0, true))
  | id :: ids => (set_workerIDs ids m, (id, false))
  end.

Definition putWorkerID (id : Z) (m : Master) : Master * (Z * bool) :=
  if inRangeUint32 id (workerIDs m) then (m, (id, false))
  else (set_workerIDs (workerIDs m ++ [id]) m, (id, false)).

Definition RegWorker (m : Master) : Master * (Z * bool) := getWorkerID m.
Definition DeRegWorker (id : Z) (m : Master) : Master * (Z * bool) := putWorkerID id m.

Definition with_beat (now : Z) (t : MRTask) : MRTask :=
  mkTask (WorkerID t) (TaskID t) (NReduce t) (Phase t) (Filename t) (State t) now.
Definition with_state (state : TaskState) (now : Z) (t : MRTask) : MRTask :=
  mkTask (WorkerID t) (TaskID t) (NReduce t) (Phase t) (Filename t) state now.
Definition reassigned (worker now : Z) (t : MRTask) : MRTask :=
  mkTask worker (TaskID t) (NReduce t) (Phase t) (Filename t) TaskStateSending now.

(** The handlers below assign to the local variable [reply] instead of to
    [*reply]: the caller's value is returned unchanged. *)
Definition WorkerHeartBeat (args : MRTask) (now : Z) (reply : bool) (m : Master) : Master * (bool * bool) :=
  if TaskID args =? 0 then (m, (reply, false))
  else match tasks m !! TaskID args with
       | None => (m, (reply, true))
       | Some task => (set_tasks (<[TaskID args := with_beat now task]> (tasks m)) m, (reply, false))
       end.

Definition AddReduceTask (fs : list string) (reply : bool) (m : Master) : Master * (bool * bool) :=
  (set_reduceFiles (reduceFiles m ++ fs) m, (reply, false)).

Definition SetTaskState (args : MRArgs) (now : Z) (reply : bool) (m : Master) : Master * (bool * bool) :=
  match tasks m !! a_ID args with
  | None => (m, (reply, true))
  | Some value => (set_tasks (<[a_ID args := with_state (a_State args) now value]> (tasks m)) m, (reply, false))
  end.

(** [GetTask], its first part: the first task in error in the order [ks] of
    the visit is handed out again. *)
Fixpoint find_err (ks : list Z) (ts : gmap Z MRTask) : option MRTask :=
  match ks with
  | [] => None
  | k :: ks =>
      match ts !! k with
      | Some t => if bool_decide (State t = TaskStateErr) then Some t else find_err ks ts
      | None => find_err ks ts
      end
  end.

Definition GetTask_retry (worker : Z) (ks : list Z) (now : Z) (m : Master) : option (Master * MRTask) :=
  t ← find_err ks (tasks m);
  let task := reassigned worker now t in
  Some (set_tasks (<[TaskID task := task]> (tasks m)) m, task).

(** Its last part, for a file name received from the channel and the phase
    read after that. *)
Definition GetTask_new (worker : Z) (phase : MRPhase) (file : string) (now : Z) (m : Master) : Master * MRTask :=
  let '(m, id) := genTaskID m in
  let task := mkTask worker id (nReduce m) phase file TaskStateSending now in
  (set_tasks (<[id := task]> (tasks m)) m, task).

(** The whole handler, when nothing else runs; [recv] is what the channel
    yields ([None]: it is closed). *)
Definition GetTask (worker : Z) (ks : list Z) (recv : option string) (now : Z) (m : Master) : Master * MRReply :=
  match GetTask_retry worker ks now m with
  | Some (m, task) => (m, mkReply (Some task))
  | None =>
      match recv with
      | None => (m, mkReply None)
      | Some file => let '(m, task) := GetTask_new worker (mrPhase m) file now m in (m, mkReply (Some task))
      end
  end.

(** [handleHeartbeat] on one task: ten seconds of silence. *)
Definition heartbeat_task (now : Z) (m : Master) (k : Z) : Master :=
  match tasks m !! k with
  | None => m
  | Some value =>
      if 10 <? now - BeatTime value then
        let m1 := if bool_decide (State value = TaskStateFinish) then m
                  else (SetTaskState (mkArgs (TaskID value) TaskStateErr) now false m).1 in
        (DeRegWorker (WorkerID value) m1).1
      else m
  end.

(** One round of [handleHeartbeat]. *)
Definition handleHeartbeat (ks : list Z) (now : Z) (m : Master) : Master := foldl (heartbeat_task now) m ks.

(** ** The master and its goroutines *)

(** Where [schedule] is: before its first statement, sending the files that
    are left, waiting for the map tasks (iteration [i]), setting the phase,
    sending the reduce task [i], waiting for all tasks, setting [done],
    returned, or having ended the process. *)
Inductive SchedPc :=
  | SStart
  | SSend (rest : list string)
  | SWait (i : Z)
  | SSetPhase
  | SSendReduce (i : Z)
  | SWaitReduce (i : Z)
  | SSetDone
  | SEnd
  | SExit.

(** A file name received by a [GetTask] that has not created its task yet, and
    the phase, once it has read it. *)
Record Got := mkGot { g_worker : Z; g_file : string; g_phase : option MRPhase }.

(** A call of [tasks.Store] that is about to be made: key and task, but for its
    [BeatTime], which is set when it is stored; for the sweep, the worker ID
    that is returned to the pool after it. *)
Record Store := mkStore { st_key : Z; st_task : MRTask; st_dereg : option Z }.

(** [waiting]: workers whose [GetTask] blocks on the channel. *)
Record System := mkSystem {
  master : Master; pc : SchedPc; closed : bool; waiting : list Z; got : list Got;
  stores : list Store; errs : list (Z * Z) }.

Inductive MEvent :=
  | MRegWorker
  | MDeRegWorker (id : Z)
  | MBeat (args : MRTask) (now : Z)    (** [WorkerHeartBeat] up to its [Store] *)
  | MSetState (args : MRArgs)          (** [SetTaskState] up to its [Store] *)
  | MAddReduce (fs : list string)
  | MGetTask (worker : Z) (ks : list Z)  (** [GetTask] up to the [Store] of a task to retry, or to the channel *)
  | MRecv (k : nat)          (** the k-th blocked [GetTask] receives or sees the channel closed *)
  | MPhase (k : nat)         (** the k-th [GetTask] that has received reads the phase *)
  | MCreate (k : nat) (now : Z)  (** ... and creates its task *)
  | MSched                   (** [schedule] makes a step *)
  | MSweep (k : Z) (now : Z)   (** [handleHeartbeat] visits task [k] *)
  | MErr (k : nat)           (** its [SetTaskState] up to the [Store] *)
  | MStore (k : nat) (now : Z).  (** the k-th [Store] *)

(** What [schedule] sends next. *)
Definition sending (s : System) : option (string * SchedPc) :=
  match pc s with
  | SSend (file :: rest) => Some (file, SSend rest)
  | SSendReduce i => if i <? nReduce (master s) then Some (reduce_pattern i, SSendReduce (i + 1)) else None
  | _ => None
  end.

Definition schedule (s : System) : option System :=
  let m := master s in
  let goto m p := Some (mkSystem m p (closed s) (waiting s) (got s) (stores s) (errs s)) in
  match pc s with
  | SStart => goto (match files m with [] => set_mdone true m | _ => m end) (SSend (files m))
  | SSend [] => goto m (SWait 0)
  | SSend (_ :: _) => None
  | SWait i =>
      if isTasksDone m then goto m SSetPhase
      else goto m (if waitTaskTimeout m <? i + 1 then SExit else SWait (i + 1))
  | SSetPhase => goto (set_mrPhase ReducePhase m) (SSendReduce 0)
  | SSendReduce i =>
      if i <? nReduce m then None else Some (mkSystem m (SWaitReduce 0) true (waiting s) (got s) (stores s) (errs s))
  | SWaitReduce i =>
      if isTasksDone m then goto m SSetDone
      else goto m (if waitTaskTimeout m <? i + 1 then SExit else SWaitReduce (i + 1))
  | SSetDone => goto (set_mdone true m) SEnd
  | SEnd | SExit => None
  end.

Definition with_master (m : Master) (s : System) : System :=
  mkSystem m (pc s) (closed s) (waiting s) (got s) (stores s) (errs s).
Definition with_got (l : list Got) (s : System) : System :=
  mkSystem (master s) (pc s) (closed s) (waiting s) l (stores s) (errs s).
Definition with_waiting (l : list Z) (s : System) : System :=
  mkSystem (master s) (pc s) (closed s) l (got s) (stores s) (errs s).
Definition with_stores (l : list Store) (s : System) : System :=
  mkSystem (master s) (pc s) (closed s) (waiting s) (got s) l (errs s).
Definition with_errs (l : list (Z * Z)) (s : System) : System :=
  mkSystem (master s) (pc s) (closed s) (waiting s) (got s) (stores s) l.
Definition push_store (key : Z) (t : MRTask) (dereg : option Z) (s : System) : System :=
  with_stores (stores s ++ [mkStore key t dereg]) s.

(** What [WorkerHeartBeat] does up to its [Store]: [BeatTime] is assigned to
    the object in the map; the same object is stored afterwards. *)
Definition load_beat (args : MRTask) (now : Z) (s : System) : System :=
  if TaskID args =? 0 then s
  else match tasks (master s) !! TaskID args with
       | None => s
       | Some task =>
           push_store (TaskID args) task None
             (with_master (set_tasks (<[TaskID args := with_beat now task]> (tasks (master s))) (master s)) s)
       end.

(** [SetTaskState] up to its [Store]. *)
Definition load_state (args : MRArgs) (dereg : option Z) (s : System) : System :=
  match tasks (master s) !! a_ID args with
  | None => match dereg with
            | None => s
            | Some w => with_master (DeRegWorker w (master s)).1 s
            end
  | Some value => push_store (a_ID args) (with_state (a_State args) (BeatTime value) value) dereg s
  end.

(** [GetTask] up to the [Store] of a task to retry. *)
Definition find_retry (worker : Z) (ks : list Z) (s : System) : option MRTask :=
  t ← find_err ks (tasks (master s)); Some (reassigned worker (BeatTime t) t).

(** The visit of [handleHeartbeat] to one task, up to its call of
    [SetTaskState]. *)
Definition sweep_task (k now : Z) (s : System) : System :=
  match tasks (master s) !! k with
  | None => s
  | Some value =>
      if 10 <? now - BeatTime value then
        if bool_decide (State value = TaskStateFinish)
        then with_master (DeRegWorker (WorkerID value) (master s)).1 s
        else with_errs (errs s ++ [(TaskID value, WorkerID value)]) s
      else s
  end.

(** [tasks.Store] at time [now], and for the sweep [DeRegWorker]. *)
Definition do_store (st : Store) (now : Z) (m : Master) : Master :=
  let m := set_tasks (<[st_key st := with_beat now (st_task st)]> (tasks m)) m in
  match st_dereg st with None => m | Some w => (DeRegWorker w m).1 end.

(** A step of the running process. *)
Definition handle (ev : MEvent) (s : System) : option System :=
  match ev with
  | MRegWorker => Some (with_master (RegWorker (master s)).1 s)
  | MDeRegWorker id => Some (with_master (DeRegWorker id (master s)).1 s)
  | MBeat args now => Some (load_beat args now s)
  | MSetState args => Some (load_state args None s)
  | MAddReduce fs => Some (with_master (AddReduceTask fs false (master s)).1 s)
  | MGetTask worker ks =>
      match find_retry worker ks s with
      | Some t => Some (push_store (TaskID t) t None s)
      | None => Some (with_waiting (waiting s ++ [worker]) s)
      end
  | MRecv k =>
      worker ← waiting s !! k;
      match sending s with
      | Some (file, p) =>
          Some (mkSystem (master s) p (closed s) (delete k (waiting s)) (got s ++ [mkGot worker file None])
                  (stores s) (errs s))
      | None => if closed s then Some (with_waiting (delete k (waiting s)) s) else None
      end
  | MPhase k =>
      g ← got s !! k;
      match g_phase g with
      | None => Some (with_got (<[k := mkGot (g_worker g) (g_file g) (Some (mrPhase (master s)))]> (got s)) s)
      | Some _ => None
      end
  | MCreate k now =>
      g ← got s !! k;
      phase ← g_phase g;
      Some (with_got (delete k (got s))
              (with_master (GetTask_new (g_worker g) phase (g_file g) now (master s)).1 s))
  | MSched => schedule s
  | MSweep k now => Some (sweep_task k now s)
  | MErr k =>
      '(id, worker) ← errs s !! k;
      Some (load_state (mkArgs id TaskStateErr) (Some worker) (with_errs (delete k (errs s)) s))
  | MStore k now =>
      st ← stores s !! k;
      Some (with_stores (delete k (stores s)) (with_master (do_store st now (master s)) s))
  end.

(** [os.Exit] ends everything. *)
Definition exited (s : System) : bool := match pc s with SExit => true | _ => false end.
Definition mstep (ev : MEvent) (s : System) : option System := if exited s then None else handle ev s.

Definition start_system (m : Master) : System := mkSystem m SStart false [] [] [] [].

Inductive mreachable (fs : list string) (n : Z) : System -> Prop :=
  | mreach_init m : MakeMaster fs n = Some m -> mreachable fs n (start_system m)
  | mreach_step s ev s' : mreachable fs n s -> mstep ev s = Some s' -> mreachable fs n s'.

Fixpoint mexec (evs : list MEvent) (s : System) : option System :=
  match evs with
  | [] => Some s
  | ev :: evs => s ← mstep ev s; mexec evs s
  end.

(** ** The handlers, when nothing else runs *)

(** A handler that loads a task and stores it at once does what the function
    says; the store is the last one in [stores]. *)
Lemma store_last key t d s now :
  handle (MStore (length (stores s)) now) (push_store key t d s) =
  Some (with_master (do_store (mkStore key t d) now (master s)) s).
Proof.
  unfold handle, push_store, with_stores. cbn [stores master pc closed waiting got errs with_master].
  rewrite (list_lookup_middle _ []) by done. cbn [mbind option_bind]. unfold with_stores, with_master.
  cbn [stores master pc closed waiting got errs]. do 2 f_equal. rewrite delete_middle. apply app_nil_r.
Qed.

Lemma steps_of_SetTaskState args now s :
  is_Some (tasks (master s) !! a_ID args) ->
  (s1 ← handle (MSetState args) s; handle (MStore (length (stores s)) now) s1) =
  Some (with_master (SetTaskState args now false (master s)).1 s).
Proof.
  intros [t Ht]. change (handle (MSetState args) s) with (Some (load_state args None s)). cbn [mbind option_bind].
  unfold load_state. rewrite Ht, store_last.
  unfold SetTaskState. by rewrite Ht.
Qed.

Lemma steps_of_WorkerHeartBeat args now s :
  TaskID args <> 0 -> is_Some (tasks (master s) !! TaskID args) ->
  (s1 ← handle (MBeat args now) s; handle (MStore (length (stores s)) now) s1) =
  Some (with_master (WorkerHeartBeat args now false (master s)).1 s).
Proof.
  intros Hid [t Ht]. change (handle (MBeat args now) s) with (Some (load_beat args now s)). cbn [mbind option_bind].
  unfold load_beat, WorkerHeartBeat.
  rewrite (proj2 (Z.eqb_neq _ _) Hid), Ht.
  rewrite (store_last _ _ _ (with_master (set_tasks (<[TaskID args := with_beat now t]> (tasks (master s))) (master s)) s)).
  unfold do_store, with_master. cbn [stores master pc closed waiting got errs st_key st_task st_dereg set_tasks tasks fst].
  by rewrite insert_insert_eq.
Qed.

Lemma steps_of_retry worker ks now s m t :
  GetTask_retry worker ks now (master s) = Some (m, t) ->
  (s1 ← handle (MGetTask worker ks) s; handle (MStore (length (stores s)) now) s1) = Some (with_master m s).
Proof.
  unfold GetTask_retry. destruct (find_err ks (tasks (master s))) as [t0|] eqn:Hf; [|done].
  cbn [mbind option_bind]. intros [= <- <-].
  assert (H1 : handle (MGetTask worker ks) s = Some (push_store (TaskID t0) (reassigned worker (BeatTime t0) t0) None s))
    by (cbn [handle]; unfold find_retry; by rewrite Hf).
  rewrite H1. cbn [mbind option_bind]. by rewrite store_last.
Qed.

Lemma delete_insert_same {A} (l : list A) k x : delete k (<[k := x]> l) = delete k l.
Proof. revert k. induction l as [|y l IH]; intros [|k]; [done..|]. simpl. by rewrite IH. Qed.

Lemma steps_of_GetTask_new k g now s :
  got s !! k = Some g -> g_phase g = None ->
  (s1 ← handle (MPhase k) s; handle (MCreate k now) s1) =
  Some (with_got (delete k (got s))
          (with_master (GetTask_new (g_worker g) (mrPhase (master s)) (g_file g) now (master s)).1 s)).
Proof.
  intros Hk Hp. assert (H1 : handle (MPhase k) s =
    Some (with_got (<[k := mkGot (g_worker g) (g_file g) (Some (mrPhase (master s)))]> (got s)) s))
    by (cbn [handle]; rewrite Hk; cbn [mbind option_bind]; by rewrite Hp).
  rewrite H1. cbn [handle mbind option_bind with_got got].
  rewrite list_lookup_insert_eq by (by eapply lookup_lt_Some). cbn [mbind option_bind g_phase g_worker g_file].
  unfold with_got, with_master. cbn [stores master pc closed waiting got errs]. do 2 f_equal. apply delete_insert_same.
Qed.

(** A visit of the sweep that is not disturbed. *)
Lemma steps_of_sweep k now s value :
  tasks (master s) !! k = Some value -> TaskID value = k -> 10 < now - BeatTime value ->
  State value <> TaskStateFinish ->
  (s1 ← handle (MSweep k now) s; s2 ← handle (MErr (length (errs s))) s1;
   handle (MStore (length (stores s)) now) s2) =
  Some (with_master (heartbeat_task now (master s) k) s).
Proof.
  intros Hk Hid Hb Hf.
  assert (H1 : handle (MSweep k now) s = Some (with_errs (errs s ++ [(k, WorkerID value)]) s)).
  { cbn [handle]. unfold sweep_task. by rewrite Hk, (proj2 (Z.ltb_lt _ _)), bool_decide_false, Hid by done. }
  rewrite H1. cbn [mbind option_bind].
  assert (H2 : handle (MErr (length (errs s))) (with_errs (errs s ++ [(k, WorkerID value)]) s) =
    Some (push_store k (with_state TaskStateErr (BeatTime value) value) (Some (WorkerID value)) s)).
  { cbn [handle with_errs errs]. rewrite (list_lookup_middle _ []) by done. cbn [mbind option_bind].
    unfold load_state, push_store, with_errs, with_stores. cbn [master a_ID a_State stores pc closed waiting got errs].
    rewrite Hk, delete_middle, app_nil_r. by destruct s. }
  rewrite H2. cbn [mbind option_bind]. rewrite store_last. do 2 f_equal.
  unfold heartbeat_task. rewrite Hk, (proj2 (Z.ltb_lt _ _)), bool_decide_false by done.
  unfold SetTaskState. cbn [a_ID a_State]. by rewrite Hid, Hk.
Qed.
