(* ===== verification/MrMasterInv.v ===== *)
(** * MapReduce: invariants of the master

    No input file and no reduce task is lost or handed to two task IDs,
    whatever the workers and the heartbeat sweep do; and in executions in
    which no [GetTask] is caught between receiving a file name and creating
    its task when the map phase ends, every task carries the right phase. *)

From S2P Require Import Prelude MrUtil MrFiles MrMaster.

(** ** The part of a task that never changes *)

Definition core (t : MRTask) : Z * Z * MRPhase * string := (TaskID t, NReduce t, Phase t, Filename t).
Definition cores (m : Master) : gmap Z (Z * Z * MRPhase * string) := core <$> tasks m.

(** What has been handed out: phases and file names. *)
Definition work (m : Master) : list (MRPhase * string) :=
  (fun c => (c.2.1.2, c.2.2)) <$> map_to_list (cores m).

Lemma elem_of_work m k t : tasks m !! k = Some t -> (Phase t, Filename t) ∈ work m.
Proof.
  intros Ht. unfold work, cores. apply list_elem_of_fmap. exists (k, core t). split; [done|].
  apply elem_of_map_to_list. by rewrite lookup_fmap, Ht.
Qed.

(** Updates that keep the cores of all tasks and the course of the job. *)
Record same_job (m m' : Master) : Prop := {
  sj_cores : cores m' = cores m;
  sj_phase : mrPhase m' = mrPhase m;
  sj_seq : taskSeq m' = taskSeq m;
  sj_files : files m' = files m;
  sj_n : nReduce m' = nReduce m;
}.

#[export] Instance same_job_refl : Reflexive same_job.
Proof. by constructor. Qed.

#[export] Instance same_job_trans : Transitive same_job.
Proof. intros m1 m2 m3 [] []. constructor; congruence. Qed.

Lemma same_job_work m m' : same_job m m' -> work m' = work m.
Proof. intros []. unfold work. congruence. Qed.

Lemma same_job_update m k t t' :
  tasks m !! k = Some t -> core t' = core t -> same_job m (set_tasks (<[k := t']> (tasks m)) m).
Proof.
  intros Hk Hc. constructor; try done. unfold cores. simpl. rewrite fmap_insert, Hc. apply insert_id.
  by rewrite lookup_fmap, Hk.
Qed.

Lemma same_job_ids m ids : same_job m (set_workerIDs ids m).
Proof. by constructor. Qed.

Lemma same_job_RegWorker m : same_job m (RegWorker m).1.
Proof. unfold RegWorker, getWorkerID. destruct (workerIDs m); [reflexivity|apply same_job_ids]. Qed.

Lemma same_job_DeRegWorker id m : same_job m (DeRegWorker id m).1.
Proof. unfold DeRegWorker, putWorkerID. destruct (inRangeUint32 _ _); [reflexivity|apply same_job_ids]. Qed.

Lemma same_job_beat args now r m : same_job m (WorkerHeartBeat args now r m).1.
Proof.
  unfold WorkerHeartBeat. destruct (_ =? _); [reflexivity|]. destruct (tasks m !! _) as [t|] eqn:E; [|reflexivity].
  by eapply same_job_update.
Qed.

Lemma same_job_SetTaskState args now r m : same_job m (SetTaskState args now r m).1.
Proof.
  unfold SetTaskState. destruct (tasks m !! _) as [t|] eqn:E; [|reflexivity]. by eapply same_job_update.
Qed.

Lemma same_job_AddReduceTask fs r m : same_job m (AddReduceTask fs r m).1.
Proof. by constructor. Qed.

Lemma find_err_Some ks ts t :
  find_err ks ts = Some t -> State t = TaskStateErr /\ exists k, k ∈ ks /\ ts !! k = Some t.
Proof.
  induction ks as [|k ks IH]; simpl; [done|]. destruct (ts !! k) as [t'|] eqn:E.
  - case_bool_decide as Hs.
    + intros [= <-]. split; [done|]. exists k. split; [by left|done].
    + intros Hf. destruct (IH Hf) as (? & k' & ? & ?). split; [done|]. exists k'. split; [by right|done].
  - intros Hf. destruct (IH Hf) as (? & k' & ? & ?). split; [done|]. exists k'. split; [by right|done].
Qed.

(** Keys are task IDs. *)
Definition keyed (m : Master) : Prop := forall k t, tasks m !! k = Some t -> TaskID t = k.

Lemma same_job_retry worker ks now m m' t :
  keyed m -> GetTask_retry worker ks now m = Some (m', t) -> same_job m m'.
Proof.
  intros Hk. unfold GetTask_retry. destruct (find_err ks (tasks m)) as [t0|] eqn:E; [|done]. simpl.
  intros [= <- <-]. apply find_err_Some in E as (_ & k & _ & Hl). pose proof (Hk _ _ Hl) as Hid.
  apply (same_job_update m _ t0); [by rewrite Hid|done].
Qed.

Lemma same_job_heartbeat now ks m : same_job m (handleHeartbeat ks now m).
Proof.
  revert m. induction ks as [|k ks IH]; intros m; [reflexivity|]. simpl. etransitivity; [|apply IH].
  unfold heartbeat_task. destruct (tasks m !! k) as [t|]; [|reflexivity]. destruct (_ <? _); [|reflexivity].
  etransitivity; [|apply same_job_DeRegWorker]. case_bool_decide; [reflexivity|apply same_job_SetTaskState].
Qed.

(** ** Stores under way *)

(** The tasks about to be stored are tasks of the map, with another state. *)
Definition stores_in (m : Master) (l : list Store) : Prop :=
  forall st, st ∈ l -> exists t, tasks m !! st_key st = Some t /\ core (st_task st) = core t.

Lemma same_job_sym m m' : same_job m m' -> same_job m' m.
Proof. intros []. by constructor. Qed.

Lemma same_job_task m m' k t' :
  same_job m m' -> tasks m' !! k = Some t' -> exists t, tasks m !! k = Some t /\ core t' = core t.
Proof.
  intros Hj Hk. pose proof (f_equal (lookup k) (sj_cores _ _ Hj)) as Hc. unfold cores in Hc.
  rewrite !lookup_fmap, Hk in Hc. destruct (tasks m !! k) as [t|]; [|done]. simpl in Hc. injection Hc as Hc.
  exists t. split; [done|]. unfold core. congruence.
Qed.

Lemma stores_in_same m m' l : same_job m m' -> stores_in m l -> stores_in m' l.
Proof.
  intros Hj Hl st Hst. destruct (Hl st Hst) as (t & Ht & Hc).
  destruct (same_job_task m' m _ t (same_job_sym _ _ Hj) Ht) as (t' & Ht' & Hc'). exists t'. split; [done|congruence].
Qed.

Lemma stores_in_push m l key t d t0 :
  stores_in m l -> tasks m !! key = Some t0 -> core t = core t0 -> stores_in m (l ++ [mkStore key t d]).
Proof.
  intros Hl Ht Hc st [Hst|Hst%list_elem_of_singleton]%elem_of_app; [by apply Hl|]. subst st. eauto.
Qed.

Lemma stores_in_sub m l l' : (forall st, st ∈ l' -> st ∈ l) -> stores_in m l -> stores_in m l'.
Proof. intros Hs Hl st Hst. by apply Hl, Hs. Qed.

Lemma same_job_store st now m :
  (exists t, tasks m !! st_key st = Some t /\ core (st_task st) = core t) -> same_job m (do_store st now m).
Proof.
  intros (t & Ht & Hc). unfold do_store.
  assert (Hj : same_job m (set_tasks (<[st_key st := with_beat now (st_task st)]> (tasks m)) m))
    by (eapply same_job_update; [exact Ht|]; rewrite <-Hc; done).
  destruct (st_dereg st); [|done]. etransitivity; [exact Hj|apply same_job_DeRegWorker].
Qed.

Lemma find_retry_Some worker ks s t :
  keyed (master s) -> find_retry worker ks s = Some t ->
  State t = TaskStateSending /\ exists t0, tasks (master s) !! TaskID t = Some t0 /\ core t = core t0.
Proof.
  intros Hk. unfold find_retry. destruct (find_err ks (tasks (master s))) as [t0|] eqn:E; [|done].
  cbn [mbind option_bind]. intros [= <-]. apply find_err_Some in E as (_ & k & _ & Hl). split; [done|].
  exists t0. pose proof (Hk _ _ Hl) as Hid. simpl. by rewrite Hid.
Qed.

(** ** The plan *)

Section Plan.
Variable fs : list string.
Variable n : Z.

(** The file names of the reduce tasks from [i] on. *)
Definition pats (i : Z) : list string := reduce_pattern <$> seqZ i (n - i).

Definition tag (p : MRPhase) (l : list string) : list (MRPhase * string) := pair p <$> l.

#[local] Instance tag_perm p : Proper (Permutation ==> Permutation) (tag p).
Proof. intros l l' Hl. unfold tag. by rewrite Hl. Qed.

Definition planned : list (MRPhase * string) := tag MapPhase fs ++ tag ReducePhase (pats 0).

(** What [schedule] has still to send. *)
Definition to_send (p : SchedPc) : list (MRPhase * string) :=
  match p with
  | SStart => planned
  | SSend rest => tag MapPhase rest ++ tag ReducePhase (pats 0)
  | SWait _ | SSetPhase => tag ReducePhase (pats 0)
  | SSendReduce i => tag ReducePhase (pats i)
  | _ => []
  end.

(** Everything: handed out, received, to be sent.  A received name becomes a
    task of the phase that has been read, or of the one that will be. *)
Definition received (p : MRPhase) (l : list Got) : list (MRPhase * string) :=
  (fun g => (default p (g_phase g), g_file g)) <$> l.

Definition everything (s : System) : list (MRPhase * string) :=
  work (master s) ++ received (mrPhase (master s)) (got s) ++ to_send (pc s).

Lemma received_snd p l : (received p l).*2 = g_file <$> l.
Proof. unfold received. by rewrite <-list_fmap_compose. Qed.

Definition map_side (p : SchedPc) : bool :=
  match p with SStart | SSend _ | SWait _ | SSetPhase => true | _ => false end.

(** The facts that hold until the process exits. *)
Record sys_ok (s : System) : Prop := {
  so_files : files (master s) = fs;
  so_n : nReduce (master s) = n;
  so_phase : mrPhase (master s) = if map_side (pc s) then MapPhase else ReducePhase;
  so_index : forall i, pc s = SSendReduce i -> 0 <= i <= n;
  so_nReduce : forall k t, tasks (master s) !! k = Some t -> NReduce t = n;
  so_ids : forall k t, tasks (master s) !! k = Some t -> TaskID t = k /\ 1 <= k <= taskSeq (master s);
  so_seq : taskSeq (master s) = Z.of_nat (size (tasks (master s)));
  so_names : (everything s).*2 ≡ₚ planned.*2;
  so_stores : stores_in (master s) (stores s);
}.

Hypothesis Hn : 0 < n.
Hypothesis Hsmall : Z.of_nat (length fs) + n < 2 ^ 32.

Lemma length_planned : Z.of_nat (length planned) = Z.of_nat (length fs) + n.
Proof. unfold planned, tag, pats. rewrite length_app, !length_fmap, length_seqZ. lia. Qed.

Lemma length_work m : length (work m) = size (tasks m).
Proof. unfold work, cores. by rewrite length_fmap, length_map_to_list, map_size_fmap. Qed.

Lemma sys_ok_keyed s : sys_ok s -> keyed (master s).
Proof. intros Hs k t Hk. by apply (so_ids _ Hs). Qed.

(** Room for the task of a received name. *)
Lemma sys_ok_room s k g :
  sys_ok s -> got s !! k = Some g -> taskSeq (master s) + 1 < 2 ^ 32.
Proof.
  intros Hs Hg. pose proof (Permutation_length (so_names _ Hs)) as Hl.
  rewrite !length_fmap in Hl. unfold everything, received in Hl. rewrite !length_app, !length_fmap, length_work in Hl.
  apply lookup_lt_Some in Hg. pose proof length_planned. rewrite (so_seq _ Hs). lia.
Qed.

(** ** Steps that keep the job *)

(** Steps that keep cores, place and names. *)
Lemma everything_same s s' :
  same_job (master s) (master s') -> pc s' = pc s ->
  received (mrPhase (master s)) (got s') = received (mrPhase (master s)) (got s) -> everything s' = everything s.
Proof.
  intros Hj Hp Hg. unfold everything. by rewrite (same_job_work _ _ Hj), (sj_phase _ _ Hj), Hp, Hg.
Qed.

Lemma sys_ok_same s s' :
  sys_ok s -> same_job (master s) (master s') -> pc s' = pc s ->
  received (mrPhase (master s)) (got s') = received (mrPhase (master s)) (got s) ->
  stores_in (master s) (stores s') -> sys_ok s'.
Proof.
  intros [] Hj Hp Hg Hst. pose proof (everything_same s s' Hj Hp Hg) as Hev.
  constructor; rewrite ?Hp.
  - by rewrite (sj_files _ _ Hj).
  - by rewrite (sj_n _ _ Hj).
  - by rewrite (sj_phase _ _ Hj).
  - done.
  - intros k t' Hk. destruct (same_job_task _ _ _ _ Hj Hk) as (t & Ht & [= _ -> _ _]). eauto.
  - intros k t' Hk. destruct (same_job_task _ _ _ _ Hj Hk) as (t & Ht & [= -> _ _ _]).
    rewrite (sj_seq _ _ Hj). eauto.
  - pose proof (f_equal size (sj_cores _ _ Hj)) as Hsz. unfold cores in Hsz. rewrite !map_size_fmap in Hsz.
    by rewrite (sj_seq _ _ Hj), so_seq0, Hsz.
  - by rewrite Hev.
  - by eapply stores_in_same.
Qed.

(** ** Creating a task *)

Lemma pats_cons i : 0 <= i < n -> pats i = reduce_pattern i :: pats (i + 1).
Proof.
  intros Hi. unfold pats. rewrite seqZ_cons by lia. simpl. rewrite Z.add_1_r. do 3 f_equal. lia.
Qed.

Lemma pats_end i : n <= i -> pats i = [].
Proof. intros Hi. unfold pats. by rewrite seqZ_nil by lia. Qed.

Lemma tag_snd p l : (tag p l).*2 = l.
Proof. unfold tag. rewrite <-list_fmap_compose. apply list_fmap_id. Qed.

(** The new task gets a fresh ID. *)
Lemma GetTask_new_eq s worker phase file now :
  sys_ok s -> taskSeq (master s) + 1 < 2 ^ 32 ->
  let id := taskSeq (master s) + 1 in
  let task := mkTask worker id n phase file TaskStateSending now in
  tasks (master s) !! id = None /\
  (GetTask_new worker phase file now (master s)).1 =
    set_tasks (<[id := task]> (tasks (master s))) (set_taskSeq id (master s)).
Proof.
  intros Hs Hlt id task.
  assert (Hid : uint32 (taskSeq (master s) + 1) = id).
  { apply uint32_small. pose proof (so_seq _ Hs). lia. }
  split.
  - destruct (tasks (master s) !! id) as [t|] eqn:E; [|done]. apply (so_ids _ Hs) in E as [_ E]. lia.
  - unfold GetTask_new, genTaskID. rewrite Hid. cbn [fst]. unfold task. rewrite <-(so_n _ Hs). done.
Qed.

Lemma work_insert m k t :
  tasks m !! k = None -> work (set_tasks (<[k := t]> (tasks m)) m) ≡ₚ (Phase t, Filename t) :: work m.
Proof.
  intros Hk. unfold work, cores. cbn [set_tasks tasks]. rewrite fmap_insert, map_to_list_insert; [done|].
  by rewrite lookup_fmap, Hk.
Qed.

Definition created (k : nat) (g : Got) (phase : MRPhase) (now : Z) (s : System) : System :=
  with_got (delete k (got s)) (with_master (GetTask_new (g_worker g) phase (g_file g) now (master s)).1 s).

Lemma everything_create s k g phase now :
  sys_ok s -> got s !! k = Some g -> g_phase g = Some phase -> everything (created k g phase now s) ≡ₚ everything s.
Proof.
  intros Hs Hg Hph. pose proof (sys_ok_room _ _ _ Hs Hg) as Hlt.
  destruct (GetTask_new_eq s (g_worker g) phase (g_file g) now Hs Hlt) as [Hnone Heq].
  unfold everything, created. cbn [with_got with_master master pc got]. rewrite Heq.
  cbn [set_tasks mrPhase set_taskSeq].
  rewrite (work_insert (set_taskSeq (taskSeq (master s) + 1) (master s)) _ _ Hnone). cbn [Phase Filename].
  assert (Hr : received (mrPhase (master s)) (got s) ≡ₚ
    (phase, g_file g) :: received (mrPhase (master s)) (delete k (got s))).
  { unfold received. rewrite (delete_Permutation (got s) k g Hg) at 1. simpl. by rewrite Hph. }
  rewrite Hr. simpl. apply (Permutation_middle (work (master s)) (received _ _ ++ _) (phase, g_file g)).
Qed.

Lemma sys_ok_create s k g phase now :
  sys_ok s -> got s !! k = Some g -> g_phase g = Some phase -> sys_ok (created k g phase now s).
Proof.
  intros Hs Hg Hph. pose proof (everything_create s k g phase now Hs Hg Hph) as Hev.
  pose proof (sys_ok_room _ _ _ Hs Hg) as Hlt. unfold created in *.
  destruct (GetTask_new_eq s (g_worker g) phase (g_file g) now Hs Hlt) as [Hnone Heq]. rewrite Heq in *.
  constructor; cbn [with_got with_master master pc set_tasks set_taskSeq files nReduce mrPhase tasks taskSeq stores];
    try apply Hs.
  - intros j t Hj. apply lookup_insert_Some in Hj as [[<- <-]|[_ Hj]]; [done|]. by apply (so_nReduce _ Hs) in Hj.
  - intros j t Hj. pose proof (so_seq _ Hs). apply lookup_insert_Some in Hj as [[<- <-]|[_ Hj]]; [simpl; lia|].
    apply (so_ids _ Hs) in Hj as [? ?]. lia.
  - rewrite map_size_insert_None by done. rewrite (so_seq _ Hs). lia.
  - rewrite Hev. apply Hs.
  - intros st Hst. destruct (so_stores _ Hs st Hst) as (t & Ht & Hc). exists t. split; [|done].
    cbn [set_tasks tasks]. rewrite lookup_insert_ne; [done|]. intros He. rewrite He in Hnone. congruence.
Qed.

(** ** Receiving a name *)

Lemma sending_spec s file p :
  sys_ok s -> sending s = Some (file, p) ->
  to_send (pc s) = (mrPhase (master s), file) :: to_send p /\ map_side p = map_side (pc s) /\
  p <> SExit /\ p <> SSetPhase /\ (forall i, p = SSendReduce i -> 0 <= i <= n).
Proof.
  intros Hs. pose proof (so_phase _ Hs) as Hp. unfold sending.
  destruct (pc s) as [|[|f rest]|i| |i|i| | |] eqn:E; try done; simpl in Hp.
  - intros [= -> <-]. rewrite Hp. done.
  - destruct (Z.ltb_spec i (nReduce (master s))) as [Hlt|]; [|done]. intros [= <- <-].
    pose proof (so_index _ Hs i E). rewrite (so_n _ Hs) in Hlt. rewrite Hp. simpl. rewrite (pats_cons i) by lia.
    split_and!; try done. intros j [= <-]. lia.
Qed.

Definition recvd (k : nat) (worker : Z) (file : string) (p : SchedPc) (s : System) : System :=
  mkSystem (master s) p (closed s) (delete k (waiting s)) (got s ++ [mkGot worker file None]) (stores s) (errs s).

Lemma everything_recv s k worker file p :
  sys_ok s -> sending s = Some (file, p) -> everything (recvd k worker file p s) ≡ₚ everything s.
Proof.
  intros Hs Hp. destruct (sending_spec _ _ _ Hs Hp) as (Hts & _). unfold everything. cbn [recvd master pc got].
  rewrite Hts. unfold received. rewrite !fmap_app. simpl. rewrite <-!app_assoc. done.
Qed.

Lemma sys_ok_recv s k worker file p :
  sys_ok s -> sending s = Some (file, p) -> sys_ok (recvd k worker file p s).
Proof.
  intros Hs Hp. pose proof (everything_recv s k worker file p Hs Hp) as Hev.
  destruct (sending_spec _ _ _ Hs Hp) as (_ & Hms & _ & _ & Hi).
  constructor; cbn [recvd master pc stores]; try apply Hs; [|done|].
  - rewrite Hms. apply Hs.
  - rewrite Hev. apply Hs.
Qed.

(** ** The steps of schedule *)

(** [schedule] moves, keeping the job, or sets the phase. *)
Lemma schedule_cases s s' :
  sys_ok s -> schedule s = Some s' -> pc s' <> SExit ->
  got s' = got s /\ stores s' = stores s /\
  (forall i, pc s' = SSendReduce i -> 0 <= i <= n) /\
  ((same_job (master s) (master s') /\ map_side (pc s') = map_side (pc s) /\ to_send (pc s') = to_send (pc s)) \/
   (pc s = SSetPhase /\ pc s' = SSendReduce 0 /\ master s' = set_mrPhase ReducePhase (master s))).
Proof.
  intros Hs Hsch Hne. unfold schedule in Hsch.
  destruct (pc s) as [|[|f rest]|i| |i|i| | |] eqn:E; try done.
  - injection Hsch as <-. cbn [got stores pc master]. split_and!; try done. left.
    rewrite (so_files _ Hs). split_and!; try done. destruct fs; by constructor.
  - injection Hsch as <-. split_and!; try done. left. done.
  - destruct (isTasksDone (master s)); [|destruct (_ <? _)]; injection Hsch as <-; try done;
      (split_and!; [done..|left; done]).
  - injection Hsch as <-. split_and!; try done; [|by right]. intros i [= <-]. lia.
  - destruct (Z.ltb_spec i (nReduce (master s))) as [|Hge]; [done|]. injection Hsch as <-.
    split_and!; try done. left. split_and!; try done. simpl. rewrite (so_n _ Hs) in Hge. by rewrite pats_end.
  - destruct (isTasksDone (master s)); [|destruct (_ <? _)]; injection Hsch as <-; try done;
      (split_and!; [done..|left; done]).
  - injection Hsch as <-. split_and!; try done. left. split_and!; try done; by constructor.
Qed.

(** ** Every step *)

(** A file name is between channel and task when the phase is set. *)
Definition caught (ev : MEvent) (s : System) : Prop := ev = MSched /\ pc s = SSetPhase /\ got s <> [].

Lemma sched_ok s s' :
  sys_ok s -> schedule s = Some s' -> pc s' <> SExit ->
  sys_ok s' /\ (everything s' ≡ₚ everything s \/ caught MSched s).
Proof.
  intros Hs Hsch Hne. destruct (schedule_cases s s' Hs Hsch Hne) as (Hg & Hw & Hi & [(Hj & Hms & Hts)|(Hp & Hp' & Hm)]).
  - assert (Hev : everything s' = everything s).
    { unfold everything. by rewrite Hg, Hts, (same_job_work _ _ Hj), (sj_phase _ _ Hj). }
    split; [|left; by rewrite Hev].
    assert (Hok : sys_ok (with_master (master s') s)) by (eapply (sys_ok_same s); try done; apply Hs).
    destruct Hok. constructor; rewrite ?Hms, ?Hw, ?Hev; try done. apply Hs.
  - assert (Hev : (everything s').*2 = (everything s).*2).
    { unfold everything. rewrite Hg, Hp, Hp', Hm, !fmap_app, !received_snd. done. }
    split.
    + constructor; rewrite ?Hm, ?Hp', ?Hw; cbn [set_mrPhase files nReduce mrPhase tasks taskSeq]; try apply Hs.
      * done.
      * intros i [= <-]. lia.
      * rewrite Hev. apply Hs.
    + destruct (decide (got s = [])) as [He|He]; [left|by right].
      unfold everything. rewrite Hg, He, Hp, Hp', Hm. done.
Qed.

(** All events but those of [schedule], of the channel and the creation of a
    task. *)
Definition quiet (ev : MEvent) : bool :=
  match ev with MRecv _ | MCreate _ _ | MSched => false | _ => true end.

Record quiet_step (s s' : System) : Prop := {
  qs_job : same_job (master s) (master s');
  qs_done : mdone (master s') = mdone (master s);
  qs_pc : pc s' = pc s;
  qs_got : got s' = got s \/
    exists k g, got s !! k = Some g /\ g_phase g = None /\
      got s' = <[k := mkGot (g_worker g) (g_file g) (Some (mrPhase (master s)))]> (got s);
  qs_stores : stores_in (master s) (stores s');
}.

Lemma mdone_DeReg id m : mdone (DeRegWorker id m).1 = mdone m.
Proof. unfold DeRegWorker, putWorkerID. by destruct (inRangeUint32 _ _). Qed.

Lemma quiet_master s m :
  sys_ok s -> same_job (master s) m -> mdone m = mdone (master s) -> quiet_step s (with_master m s).
Proof. intros Hs Hj Hd. split; try done; [by left|apply Hs]. Qed.

Lemma quiet_load_state args d s : sys_ok s -> quiet_step s (load_state args d s).
Proof.
  intros Hs. unfold load_state. destruct (tasks (master s) !! a_ID args) as [t|] eqn:E.
  - split; try done; [by left|]. simpl. eapply stores_in_push; [apply Hs|exact E|done].
  - destruct d; [|split; try done; [by left|apply Hs]].
    apply quiet_master; [done|apply same_job_DeRegWorker|apply mdone_DeReg].
Qed.

Lemma quiet_load_beat args now s : sys_ok s -> quiet_step s (load_beat args now s).
Proof.
  intros Hs. unfold load_beat. destruct (_ =? _); [split; try done; [by left|apply Hs]|].
  destruct (tasks (master s) !! TaskID args) as [t|] eqn:E; [|split; try done; [by left|apply Hs]].
  split; try done; [by eapply same_job_update|by left|]. simpl. eapply stores_in_push; [apply Hs|exact E|done].
Qed.

Lemma quiet_sweep k now s : sys_ok s -> quiet_step s (sweep_task k now s).
Proof.
  intros Hs. unfold sweep_task. destruct (tasks (master s) !! k) as [t|]; [|split; try done; [by left|apply Hs]].
  destruct (_ <? _); [|split; try done; [by left|apply Hs]]. case_bool_decide.
  - apply quiet_master; [done|apply same_job_DeRegWorker|apply mdone_DeReg].
  - split; try done; [by left|apply Hs].
Qed.

Lemma quiet_retry worker ks s s' :
  sys_ok s -> handle (MGetTask worker ks) s = Some s' -> quiet_step s s'.
Proof.
  intros Hs Hst. cbn [handle] in Hst. destruct (find_retry worker ks s) as [t|] eqn:E; injection Hst as <-;
    (split; try done; [by left|]); [|apply Hs].
  destruct (find_retry_Some _ _ _ _ (sys_ok_keyed _ Hs) E) as (_ & t0 & Ht0 & Hc).
  simpl. eapply stores_in_push; [apply Hs|exact Ht0|done].
Qed.

Lemma quiet_store k now s s' : sys_ok s -> handle (MStore k now) s = Some s' -> quiet_step s s'.
Proof.
  intros Hs Hst. cbn [handle] in Hst. destruct (stores s !! k) as [st|] eqn:E; [|done]. cbn [mbind option_bind] in Hst.
  injection Hst as <-. split; try done.
  - simpl. apply same_job_store, (so_stores _ Hs). by eapply list_elem_of_lookup_2.
  - simpl. unfold do_store. by destruct (st_dereg st); rewrite ?mdone_DeReg.
  - by left.
  - simpl. eapply stores_in_sub; [|apply Hs]. intros x. apply list_elem_of_delete_inv.
Qed.

Lemma mstep_quiet ev s s' : sys_ok s -> mstep ev s = Some s' -> quiet ev = true -> quiet_step s s'.
Proof.
  intros Hs Hst Hq. unfold mstep in Hst. destruct (exited s); [done|].
  destruct ev as [|id|args now|args|l|w ks|k|k|k now| |k now|k|k now]; try done;
    try (by eapply quiet_retry); try (by eapply quiet_store); cbn [handle] in Hst.
  - injection Hst as <-. apply quiet_master; [done|apply same_job_RegWorker|].
    unfold RegWorker, getWorkerID. by destruct (workerIDs (master s)).
  - injection Hst as <-. apply quiet_master; [done|apply same_job_DeRegWorker|apply mdone_DeReg].
  - injection Hst as <-. by apply quiet_load_beat.
  - injection Hst as <-. by apply quiet_load_state.
  - injection Hst as <-. apply quiet_master; [done|apply (same_job_AddReduceTask l false)|done].
  - destruct (got s !! k) as [g|] eqn:E; [|done]. cbn [mbind option_bind] in Hst. destruct (g_phase g) eqn:Eg; [done|].
    injection Hst as <-. split; try done; [by right; eauto|apply Hs].
  - injection Hst as <-. by apply quiet_sweep.
  - destruct (errs s !! k) as [[id w]|]; [|done]. cbn [mbind option_bind] in Hst. injection Hst as <-.
    assert (Hs' : sys_ok (with_errs (delete k (errs s)) s)) by (destruct Hs; by constructor).
    by destruct (quiet_load_state (mkArgs id TaskStateErr) (Some w) _ Hs').
Qed.

Lemma quiet_received s s' :
  quiet_step s s' -> received (mrPhase (master s)) (got s') = received (mrPhase (master s)) (got s).
Proof.
  intros [_ _ _ [->|(k & g & Hk & Hp & ->)] _]; [done|]. unfold received. rewrite list_fmap_insert. simpl.
  apply list_insert_id. by rewrite list_lookup_fmap, Hk; simpl; rewrite Hp.
Qed.

Lemma mstep_ok ev s s' :
  sys_ok s -> mstep ev s = Some s' -> exited s' = false ->
  sys_ok s' /\ (everything s' ≡ₚ everything s \/ caught ev s).
Proof.
  intros Hs Hst Hne. destruct (quiet ev) eqn:Hq.
  { pose proof (mstep_quiet ev s s' Hs Hst Hq) as Hqs. pose proof (quiet_received _ _ Hqs) as Hr. destruct Hqs.
    split; [by eapply sys_ok_same|]. left. by rewrite (everything_same s s'). }
  unfold mstep in Hst. destruct (exited s); [done|].
  destruct ev as [|id|args now|args|l|w ks|k|k|k now| |k now|k|k now]; try done; cbn [handle] in Hst.
  - destruct (waiting s !! k) as [w|]; [|done]. cbn [mbind option_bind] in Hst.
    destruct (sending s) as [[file p]|] eqn:E; [|destruct (closed s); [|done]]; injection Hst as <-.
    + split; [by apply sys_ok_recv|]. left. by apply everything_recv.
    + split; [by destruct Hs; constructor|by left].
  - destruct (got s !! k) as [g|] eqn:E; [|done]. cbn [mbind option_bind] in Hst.
    destruct (g_phase g) as [ph|] eqn:Ep; [|done]. cbn [mbind option_bind] in Hst. injection Hst as <-.
    split; [by apply sys_ok_create|]. left. by apply everything_create.
  - apply sched_ok; [done|done|]. intros He. unfold exited in Hne. by rewrite He in Hne.
Qed.

Lemma makeRange_10 : makeRangeUint32 1 10 = Some (seqZ 1 10).
Proof. done. Qed.

Lemma sys_ok_init m : MakeMaster fs n = Some m -> sys_ok (start_system m) /\ everything (start_system m) = planned.
Proof.
  unfold MakeMaster. rewrite (proj2 (Z.leb_gt _ _)) by lia. rewrite makeRange_10. simpl. intros [= <-].
  assert (He : everything (start_system (mkMaster MapPhase false (seqZ 1 10) 0 ∅ fs [] n 300)) = planned).
  { unfold everything, work, cores. simpl. by rewrite fmap_empty, map_to_list_empty. }
  split; [|done]. constructor; try done; rewrite ?He; try done; intros st Hst; by apply not_elem_of_nil in Hst.
Qed.

(** ** Reachable states *)

Lemma mreachable_ok s : mreachable fs n s -> exited s = false -> sys_ok s.
Proof.
  induction 1 as [m Hm|s ev s' Hr IH Hst]; intros Hne; [by apply sys_ok_init|].
  eapply mstep_ok; [apply IH|done|done]. unfold mstep in Hst. by destruct (exited s).
Qed.

(** Executions in which the five seconds [schedule] sleeps are enough: when
    it sees all map tasks done, no [GetTask] holds a name without a task. *)
Definition punctual (ev : MEvent) (s : System) : Prop :=
  ev = MSched -> map_side (pc s) = true -> isTasksDone (master s) = true -> (forall i, pc s = SWait i -> got s = []).

Inductive preachable : System -> Prop :=
  | preach_init m : MakeMaster fs n = Some m -> preachable (start_system m)
  | preach_step s ev s' : preachable s -> punctual ev s -> mstep ev s = Some s' -> preachable s'.

Lemma preachable_mreachable s : preachable s -> mreachable fs n s.
Proof. induction 1; econstructor; eauto. Qed.

(** Every task has the phase its file name asks for. *)
Lemma task_planned s k t :
  everything s ≡ₚ planned -> tasks (master s) !! k = Some t ->
  (Phase t = MapPhase /\ Filename t ∈ fs) \/
  (Phase t = ReducePhase /\ exists i, 0 <= i < n /\ Filename t = reduce_pattern i).
Proof.
  intros He Ht. assert (Hp : (Phase t, Filename t) ∈ planned).
  { rewrite <-He. unfold everything. apply elem_of_app. left. by eapply elem_of_work. }
  unfold planned, pats in Hp. apply elem_of_app in Hp as [Hp|Hp];
    apply list_elem_of_fmap in Hp as (f & [= -> ->] & Hf); [by left|right].
  split; [done|]. apply list_elem_of_fmap in Hf as (i & -> & Hi). apply elem_of_seqZ in Hi. exists i. split; [lia|done].
Qed.

(** Nothing is received while the phase is being set. *)
Lemma set_phase_got ev s s' :
  sys_ok s -> punctual ev s -> mstep ev s = Some s' -> pc s' = SSetPhase -> (pc s = SSetPhase -> got s = []) ->
  got s' = [].
Proof.
  intros Hs Hp Hst Hpc Hold. destruct (quiet ev) eqn:Hq.
  { destruct (mstep_quiet ev s s' Hs Hst Hq) as [_ _ Hpc' Hg _]. rewrite Hpc' in Hpc. specialize (Hold Hpc).
    destruct Hg as [->|(k & g & Hk & _)]; [done|]. by rewrite Hold in Hk. }
  unfold mstep in Hst. destruct (exited s); [done|].
  destruct ev as [|id|args now|args|l|w ks|k|k|k now| |k now|k|k now]; try done; cbn [handle] in Hst.
  - destruct (waiting s !! k) as [w|]; [|done]. cbn [mbind option_bind] in Hst.
    destruct (sending s) as [[file p]|] eqn:E; [|destruct (closed s); [|done]]; injection Hst as <-; [|auto].
    apply sending_spec in E as (_ & _ & _ & Hne & _); done.
  - destruct (got s !! k) as [g|] eqn:E; [|done]. cbn [mbind option_bind] in Hst. destruct (g_phase g); [|done].
    cbn [mbind option_bind] in Hst. injection Hst as <-. by rewrite Hold in E.
  - unfold schedule in Hst. destruct (pc s) as [|[|f rest]|i| |i|i| | |] eqn:Ep; try done;
      try (injection Hst as <-; done).
    + destruct (isTasksDone (master s)) eqn:Ed; [|destruct (_ <? _)]; injection Hst as <-; try done.
      simpl. apply (Hp eq_refl) with i; by rewrite ?Ep.
    + destruct (_ <? _); [done|]. injection Hst as <-. done.
    + destruct (isTasksDone (master s)); [|destruct (_ <? _)]; injection Hst as <-; done.
Qed.

(** A phase that has been read is still the current one. *)
Definition phases_read (s : System) : Prop :=
  Forall (fun g => g_phase g = None \/ g_phase g = Some (mrPhase (master s))) (got s).

Lemma phases_read_step ev s s' :
  sys_ok s -> mstep ev s = Some s' -> exited s' = false -> (pc s = SSetPhase -> got s = []) ->
  phases_read s -> phases_read s'.
Proof.
  intros Hs Hst Hne Hset Hph. unfold phases_read in *. destruct (quiet ev) eqn:Hq.
  { destruct (mstep_quiet ev s s' Hs Hst Hq) as [Hj _ _ Hg _]. rewrite (sj_phase _ _ Hj).
    destruct Hg as [->|(k & g & Hk & _ & ->)]; [done|]. apply Forall_insert; [done|by right]. }
  unfold mstep in Hst. destruct (exited s); [done|].
  destruct ev as [|id|args now|args|l|w ks|k|k|k now| |k now|k|k now]; try done; cbn [handle] in Hst.
  - destruct (waiting s !! k) as [w|]; [|done]. cbn [mbind option_bind] in Hst.
    destruct (sending s) as [[file p]|] eqn:E; [|destruct (closed s); [|done]]; injection Hst as <-; [|done].
    simpl. apply Forall_app. split; [done|]. constructor; [by left|constructor].
  - destruct (got s !! k) as [g|] eqn:E; [|done]. cbn [mbind option_bind] in Hst. destruct (g_phase g) as [ph|]; [|done].
    cbn [mbind option_bind] in Hst. injection Hst as <-. simpl. by apply Forall_delete.
  - destruct (schedule_cases s s' Hs Hst) as (Hg & _ & _ & Hor); [intros He; unfold exited in Hne; by rewrite He in Hne|].
    rewrite Hg. destruct Hor as [(Hj & _)|(Hp & _ & _)]; [by rewrite (sj_phase _ _ Hj)|]. rewrite (Hset Hp). constructor.
Qed.

Lemma preachable_ok s :
  preachable s -> exited s = false ->
  sys_ok s /\ everything s ≡ₚ planned /\ (pc s = SSetPhase -> got s = []) /\ phases_read s.
Proof.
  induction 1 as [m Hm|s ev s' Hr IH Hp Hst]; intros Hne.
  - destruct (sys_ok_init m Hm) as [Hok He]. split; [done|]. split; [by rewrite He|]. split; [done|constructor].
  - assert (Hex : exited s = false) by (unfold mstep in Hst; by destruct (exited s)).
    destruct (IH Hex) as (Hs & He & Hg & Hph). destruct (mstep_ok ev s s' Hs Hst Hne) as [Hs' [He'|(Hev & Hpc & Hgot)]].
    + pose proof (phases_read_step ev s s' Hs Hst Hne Hg Hph) as Hph'. split_and!; [done|by rewrite He'| |done].
      intros Hpc. exact (set_phase_got ev s s' Hs Hp Hst Hpc Hg).
    + by rewrite Hg in Hgot.
Qed.

End Plan.
