(* ===== verification/MrSystem.v ===== *)
(** * MapReduce: master and workers together

    The whole job: the master ([MrMaster]), worker processes that call it
    ([Worker] and the methods of [worker] in [mr/worker.go]), and the
    directory they share.  A process is started at any time and may be killed
    at any time.

    [call] waits at most ten seconds for a reply, but the request is handled
    by the master whether or not the caller still waits: [lost] says that the
    reply comes too late.  A call of [SetTaskState] is put into [reports] and
    handled at some later time, in any order, since its caller goes on after a
    time-out and does not look at the result.  The calls are handled in the
    steps of [MrMaster]; [waitp] and [gotp] are the processes whose [GetTask]
    is in [waiting] and [got], and [storep] has, for each of [stores], the
    process whose [GetTask] replies after it ([None]: another handler).  When the master has ended, dialing fails and ends
    the caller.

    The directory is changed by a task in one piece, or, when a process dies
    during a map task, by any number of complete files.  [MrFine] is the same
    system with tasks that run one system call at a time. *)

From S2P Require Import Prelude MrUtil MrApps MrJson MrGroup MrFiles MrWorker MrJob MrMaster.

(** ** Processes *)

(** Where [Worker] is. *)
Inductive PPc :=
  | PReg                                       (** calls [RegWorker] *)
  | PLoop                                      (** about to call [GetTask] *)
  | PAsked                                     (** waits for the reply of [GetTask] *)
  | PStart (t : MRTask)                        (** about to report that [t] is running *)
  | PWork (t : MRTask)                         (** about to run [t] *)
  | PReport (calls : list MRArgs) (r : GoRun unit)  (** reports, then goes on *)
  | PClose                                     (** the deferred [close] *)
  | PGone.                                     (** the process has ended *)

(** The record [worker]; [p_task] is [w.Task]. *)
Record Proc := mkProc { p_id : Z; p_task : option MRTask; p_pc : PPc }.

Definition set_ppc (pc : PPc) (pr : Proc) : Proc := mkProc (p_id pr) (p_task pr) pc.

Definition new_proc : Proc := mkProc 0 None PReg.

(** The result of [call]: false after ten seconds or if the handler returned
    an error. *)
Definition call (lost err : bool) : bool := negb lost && negb err.

(** [regWorker] and what [Worker] does with its result: exit, or set
    [w.Task] to a task that only carries the ID. *)
Definition registered (lost : bool) (res : Z * bool) (pr : Proc) : Proc :=
  let '(id, err) := res in
  if call lost err then
    if id =? 0 then set_ppc PGone (mkProc id None PReg)
    else mkProc id (Some (mkTask id 0 0 MapPhase "" TaskStateQueue 0)) PLoop
  else set_ppc PGone pr.

(** [getTask], when the reply arrives, and the test for [nil]. *)
Definition got_task (o : option MRTask) (pr : Proc) : Proc :=
  match o with
  | Some t => mkProc (p_id pr) (Some t) (PStart t)
  | None => mkProc (p_id pr) None PClose
  end.

(** [heartbeat], for the result of its call; an error ends the process. *)
Definition beaten (lost err : bool) (pr : Proc) : Proc :=
  if call lost err then pr else set_ppc PGone pr.

(** After the last report: the next round, or the end of the process. *)
Definition after_task (r : GoRun unit) : PPc :=
  match r with
  | Returns _ => PLoop
  | Panics => PClose
  | Exits => PGone
  end.

Definition running (pr : Proc) : bool := match p_pc pr with PGone => false | _ => true end.

(** ** The system *)

Record MRSystem := mkMR {
  sys : System;
  procs : list Proc;
  waitp : list nat;
  gotp : list nat;
  storep : list (option nat);
  reports : list MRArgs;
  dir : FS;
}.

Inductive WEvent :=
  | WSpawn                                   (** a worker is started *)
  | WRegister (p : nat) (lost : bool)
  | WGet (p : nat) (ks : list Z)             (** [GetTask] looks for a task to retry *)
  | WRecv (k : nat)                          (** a [GetTask] receives from the channel *)
  | WPhase (k : nat)                         (** a [GetTask] reads the phase *)
  | WCreate (k : nat) (now : Z)              (** a [GetTask] creates its task and replies *)
  | WTimeout (p : nat)                       (** ten seconds without a reply to [GetTask] *)
  | WRunning (p : nat)                       (** [setTaskState] before the task *)
  | WExec (p : nat)                          (** [doMap] or [doReduce] *)
  | WReport (p : nat)                        (** the next [setTaskState] *)
  | WNext (p : nat)                          (** the round is over *)
  | WDeliver (k : nat)                       (** the master handles a [SetTaskState], up to its [Store] *)
  | WBeat (p : nat) (lost : bool) (now : Z)  (** the heartbeat goroutine *)
  | WClose (p : nat)                         (** [deRegWorker] *)
  | WCrash (p : nat) (k : nat)               (** the process dies, after [k] files of a map task *)
  | WDial (p : nat)                          (** the master is gone *)
  | WSched                                   (** [schedule] *)
  | WSweep (k : Z) (now : Z)                 (** [handleHeartbeat] visits a task *)
  | WErr (k : nat)                           (** ... and calls [SetTaskState] *)
  | WStore (k : nat) (now : Z).              (** a handler stores its task; [GetTask] replies *)

Definition set_sys (x : System) (s : MRSystem) : MRSystem :=
  mkMR x (procs s) (waitp s) (gotp s) (storep s) (reports s) (dir s).
Definition set_proc (p : nat) (pr : Proc) (s : MRSystem) : MRSystem :=
  mkMR (sys s) (<[p := pr]> (procs s)) (waitp s) (gotp s) (storep s) (reports s) (dir s).
Definition set_queues (w g : list nat) (s : MRSystem) : MRSystem :=
  mkMR (sys s) (procs s) w g (storep s) (reports s) (dir s).
Definition set_reports (x : list MRArgs) (s : MRSystem) : MRSystem :=
  mkMR (sys s) (procs s) (waitp s) (gotp s) (storep s) x (dir s).
Definition set_storep (x : list (option nat)) (s : MRSystem) : MRSystem :=
  mkMR (sys s) (procs s) (waitp s) (gotp s) x (reports s) (dir s).
Definition set_dir (x : FS) (s : MRSystem) : MRSystem :=
  mkMR (sys s) (procs s) (waitp s) (gotp s) (storep s) (reports s) x.

(** The master has made a step of a call by [who]; if the handler is about to
    store a task, the entry of [storep]. *)
Definition called (who : option nat) (x : System) (s : MRSystem) : MRSystem :=
  set_storep (storep s ++ replicate (length (stores x) - length (stores (sys s))) who) (set_sys x s).

(** The process gets the reply of [GetTask], unless it has given up. *)
Definition deliver_reply (p : nat) (o : option MRTask) (s : MRSystem) : MRSystem :=
  match procs s !! p with
  | Some pr => match p_pc pr with PAsked => set_proc p (got_task o pr) s | _ => s end
  | None => s
  end.

Section MRSystem.
Context `{GoSort} `{JsonCodec}.
Variable disk : string -> Disk.
Variable mapf : string -> string -> GoRun (list KeyValue).
Variable reducef : string -> list string -> GoRun string.

Definition step_register (p : nat) (lost : bool) (s : MRSystem) : option MRSystem :=
  pr ← procs s !! p;
  match p_pc pr with
  | PReg =>
      s' ← mstep MRegWorker (sys s);
      Some (set_proc p (registered lost (RegWorker (master (sys s))).2 pr) (set_sys s' s))
  | _ => None
  end.

Definition step_get (p : nat) (ks : list Z) (s : MRSystem) : option MRSystem :=
  pr ← procs s !! p;
  match p_pc pr with
  | PLoop =>
      s' ← mstep (MGetTask (p_id pr) ks) (sys s);
      let s1 := set_proc p (set_ppc PAsked pr) (called (Some p) s' s) in
      match find_retry (p_id pr) ks (sys s) with
      | Some _ => Some s1
      | None => Some (set_queues (waitp s ++ [p]) (gotp s) s1)
      end
  | _ => None
  end.

Definition step_recv (k : nat) (s : MRSystem) : option MRSystem :=
  s' ← mstep (MRecv k) (sys s);
  p ← waitp s !! k;
  match sending (sys s) with
  | Some _ => Some (set_queues (delete k (waitp s)) (gotp s ++ [p]) (set_sys s' s))
  | None => Some (deliver_reply p None (set_queues (delete k (waitp s)) (gotp s) (set_sys s' s)))
  end.

Definition step_create (k : nat) (now : Z) (s : MRSystem) : option MRSystem :=
  g ← got (sys s) !! k;
  phase ← g_phase g;
  s' ← mstep (MCreate k now) (sys s);
  p ← gotp s !! k;
  let t := (GetTask_new (g_worker g) phase (g_file g) now (master (sys s))).2 in
  Some (deliver_reply p (Some t) (set_queues (waitp s) (delete k (gotp s)) (set_sys s' s))).

(** [tasks.Store]; after it [GetTask] returns the task it has stored. *)
Definition step_store (k : nat) (now : Z) (s : MRSystem) : option MRSystem :=
  st ← stores (sys s) !! k;
  s' ← mstep (MStore k now) (sys s);
  who ← storep s !! k;
  let s1 := set_storep (delete k (storep s)) (set_sys s' s) in
  Some (match who with
        | Some p => deliver_reply p (Some (with_beat now (st_task st))) s1
        | None => s1
        end).

Definition step_timeout (p : nat) (s : MRSystem) : option MRSystem :=
  pr ← procs s !! p;
  match p_pc pr with
  | PAsked => Some (set_proc p (set_ppc PGone pr) s)
  | _ => None
  end.

Definition step_running (p : nat) (s : MRSystem) : option MRSystem :=
  pr ← procs s !! p;
  match p_pc pr with
  | PStart t =>
      Some (set_proc p (set_ppc (PWork t) pr) (set_reports (reports s ++ [mkArgs (TaskID t) TaskStateRunning]) s))
  | _ => None
  end.

Definition step_exec (p : nat) (s : MRSystem) : option MRSystem :=
  pr ← procs s !! p;
  match p_pc pr with
  | PWork t =>
      let '(fs, calls, r) := task_body disk mapf reducef t (dir s) in
      Some (set_proc p (set_ppc (PReport calls r) pr) (set_dir fs s))
  | _ => None
  end.

Definition step_report (p : nat) (s : MRSystem) : option MRSystem :=
  pr ← procs s !! p;
  match p_pc pr with
  | PReport (a :: calls) r =>
      Some (set_proc p (set_ppc (PReport calls r) pr) (set_reports (reports s ++ [a]) s))
  | _ => None
  end.

Definition step_next (p : nat) (s : MRSystem) : option MRSystem :=
  pr ← procs s !! p;
  match p_pc pr with
  | PReport [] r => Some (set_proc p (set_ppc (after_task r) pr) s)
  | _ => None
  end.

Definition step_deliver (k : nat) (s : MRSystem) : option MRSystem :=
  a ← reports s !! k;
  s' ← mstep (MSetState a) (sys s);
  Some (set_reports (delete k (reports s)) (called None s' s)).

(** [heartbeat] with [w.Task] nil does nothing. *)
Definition step_beat (p : nat) (lost : bool) (now : Z) (s : MRSystem) : option MRSystem :=
  pr ← procs s !! p;
  guard (running pr = true);;
  args ← p_task pr;
  s' ← mstep (MBeat args now) (sys s);
  let err := (WorkerHeartBeat args now false (master (sys s))).2.2 in
  Some (set_proc p (beaten lost err pr) (called None s' s)).

(** [close] and [os.Exit], whatever [deRegWorker] returns. *)
Definition step_close (p : nat) (s : MRSystem) : option MRSystem :=
  pr ← procs s !! p;
  match p_pc pr with
  | PClose =>
      s' ← mstep (MDeRegWorker (p_id pr)) (sys s);
      Some (set_proc p (set_ppc PGone pr) (set_sys s' s))
  | _ => None
  end.

(** [putReduceTask], which nothing calls. *)
Definition putReduceTask (p : nat) (lost : bool) (reduceFiles : list string) (s : MRSystem) : option MRSystem :=
  pr ← procs s !! p;
  s' ← mstep (MAddReduce reduceFiles) (sys s);
  let err := (AddReduceTask reduceFiles false (master (sys s))).2.2 in
  Some (set_proc p (if call lost err then pr else set_ppc PGone pr) (set_sys s' s)).

(** What a process that dies leaves behind. *)
Definition crash_dir (k : nat) (pr : Proc) (fs : FS) : FS :=
  match p_pc pr with
  | PWork t =>
      match Phase t, mapf (Filename t) (default "" (fs !! Filename t)) with
      | MapPhase, Returns kvs => write_all (take k (map_files t kvs)) fs
      | _, _ => fs
      end
  | _ => fs
  end.

Definition step_crash (p k : nat) (s : MRSystem) : option MRSystem :=
  pr ← procs s !! p;
  Some (set_proc p (set_ppc PGone pr) (set_dir (crash_dir k pr (dir s)) s)).

Definition step_dial (p : nat) (s : MRSystem) : option MRSystem :=
  pr ← procs s !! p;
  guard (exited (sys s) = true);;
  Some (set_proc p (set_ppc PGone pr) s).

Definition wstep (ev : WEvent) (s : MRSystem) : option MRSystem :=
  match ev with
  | WSpawn => Some (mkMR (sys s) (procs s ++ [new_proc]) (waitp s) (gotp s) (storep s) (reports s) (dir s))
  | WRegister p lost => step_register p lost s
  | WGet p ks => step_get p ks s
  | WRecv k => step_recv k s
  | WPhase k => s' ← mstep (MPhase k) (sys s); Some (set_sys s' s)
  | WCreate k now => step_create k now s
  | WTimeout p => step_timeout p s
  | WRunning p => step_running p s
  | WExec p => step_exec p s
  | WReport p => step_report p s
  | WNext p => step_next p s
  | WDeliver k => step_deliver k s
  | WBeat p lost now => step_beat p lost now s
  | WClose p => step_close p s
  | WCrash p k => step_crash p k s
  | WDial p => step_dial p s
  | WSched => s' ← mstep MSched (sys s); Some (set_sys s' s)
  | WSweep k now => s' ← mstep (MSweep k now) (sys s); Some (set_sys s' s)
  | WErr k => s' ← mstep (MErr k) (sys s); Some (called None s' s)
  | WStore k now => step_store k now s
  end.

Fixpoint wexec (evs : list WEvent) (s : MRSystem) : option MRSystem :=
  match evs with
  | [] => Some s
  | ev :: evs => s ← wstep ev s; wexec evs s
  end.

Definition start_job (m : Master) (fs : FS) : MRSystem := mkMR (start_system m) [] [] [] [] [] fs.
End MRSystem.
