(* ===== verification/MrSystemInv.v ===== *)
(** * MapReduce: invariants of the whole job

    For an application that returns, on a disk that works, every execution of
    master, workers and directory keeps the directory in order: what a
    finished task should have written is there ([sys_inv], [winv]). *)

From S2P Require Import Prelude MrUtil MrApps MrJson MrGroup MrFiles MrWorker MrJob MrMaster MrMasterInv MrSystem.

(** ** The map tasks of a master *)

(** A task without the fields that change. *)
Definition canon (t : MRTask) : MRTask :=
  mkTask 0 (TaskID t) (NReduce t) (Phase t) (Filename t) TaskStateQueue 0.

Definition as_map (t : MRTask) : option MRTask :=
  if bool_decide (Phase t = MapPhase) then Some (canon t) else None.

(** In the order of their IDs. *)
Definition map_tasks (m : Master) : list MRTask :=
  omap (fun k => tasks m !! k ≫= as_map) (seqZ 1 (taskSeq m)).

Lemma core_canon t t' : core t = core t' -> canon t = canon t'.
Proof. unfold core, canon. by intros [= -> -> -> ->]. Qed.

Lemma core_as_map t t' : core t = core t' -> as_map t = as_map t'.
Proof. intros Hc. unfold as_map. rewrite (core_canon _ _ Hc). unfold core in Hc. by injection Hc as _ _ -> _. Qed.

Lemma as_map_Some t u : as_map t = Some u <-> Phase t = MapPhase /\ u = canon t.
Proof. unfold as_map. case_bool_decide; naive_solver. Qed.

(** The tasks of [m] are still there in [m']. *)
Definition ext (m m' : Master) : Prop :=
  forall k t, tasks m !! k = Some t -> exists t', tasks m' !! k = Some t' /\ core t' = core t.

#[export] Instance ext_refl : Reflexive ext.
Proof. intros m k t Ht. eauto. Qed.

Lemma same_job_lookup m m' k : same_job m m' -> core <$> tasks m' !! k = core <$> tasks m !! k.
Proof. intros Hj. pose proof (f_equal (lookup k) (sj_cores _ _ Hj)) as Hc. unfold cores in Hc. by rewrite !lookup_fmap in Hc. Qed.

Lemma same_job_ext m m' : same_job m m' -> ext m m'.
Proof.
  intros Hj k t Ht. pose proof (same_job_lookup _ _ k Hj) as Hc. rewrite Ht in Hc.
  destruct (tasks m' !! k) as [t'|]; [|done]. injection Hc as Hc. exists t'. split; [done|]. unfold core. congruence.
Qed.

Lemma omap_ext_in {A B} (f g : A -> option B) (l : list A) : (forall x, x ∈ l -> f x = g x) -> omap f l = omap g l.
Proof.
  induction l as [|x l IH]; intros Hfg; [done|]. cbn. rewrite (Hfg x) by set_solver.
  rewrite IH; [done|]. intros y Hy. apply Hfg. set_solver.
Qed.

Lemma map_tasks_same m m' : same_job m m' -> map_tasks m' = map_tasks m.
Proof.
  intros Hj. unfold map_tasks. rewrite (sj_seq _ _ Hj). apply omap_ext_in. intros k _.
  pose proof (same_job_lookup _ _ k Hj) as Hc. destruct (tasks m' !! k) as [t'|], (tasks m !! k) as [t|]; try done.
  simpl. apply core_as_map. unfold core in *. simpl in Hc. congruence.
Qed.

(** A new task with the next ID. *)
Lemma map_tasks_new m t :
  0 <= taskSeq m ->
  (forall k t, tasks m !! k = Some t -> 1 <= k <= taskSeq m) ->
  map_tasks (set_tasks (<[taskSeq m + 1 := t]> (tasks m)) (set_taskSeq (taskSeq m + 1) m)) =
  map_tasks m ++ match as_map t with Some u => [u] | None => [] end.
Proof.
  intros Hseq Hids. unfold map_tasks. cbn [set_tasks set_taskSeq tasks taskSeq].
  replace (seqZ 1 (taskSeq m + 1)) with (seqZ 1 (taskSeq m) ++ [taskSeq m + 1]).
  2: { rewrite (seqZ_app 1 (taskSeq m) 1) by lia. f_equal. rewrite seqZ_cons by lia. simpl. f_equal. lia. }
  rewrite omap_app. f_equal.
  - apply omap_ext_in. intros k Hk. apply elem_of_seqZ in Hk. by rewrite lookup_insert_ne by lia.
  - cbn. rewrite lookup_insert_eq. simpl. by destruct (as_map t).
Qed.

Section Members.
Variable fs : list string.
Variable n : Z.

Lemma elem_of_map_tasks s u :
  sys_ok fs n s ->
  u ∈ map_tasks (master s) <-> exists k t, tasks (master s) !! k = Some t /\ Phase t = MapPhase /\ u = canon t.
Proof.
  intros Hs. unfold map_tasks. rewrite list_elem_of_omap. split.
  - intros (k & _ & Hk). destruct (tasks (master s) !! k) as [t|] eqn:E; [|done].
    simpl in Hk. apply as_map_Some in Hk as [? ?]. eauto.
  - intros (k & t & Ht & Hu). exists k. rewrite Ht. split; [|by apply as_map_Some].
    apply elem_of_seqZ. pose proof (so_ids _ _ _ Hs k t Ht). lia.
Qed.

Lemma map_tasks_ids s : sys_ok fs n s -> NoDup (TaskID <$> map_tasks (master s)).
Proof.
  intros Hs. unfold map_tasks. pose proof (NoDup_seqZ 1 (taskSeq (master s))) as Hnd.
  induction (seqZ 1 (taskSeq (master s))) as [|k ks IH]; [constructor|].
  apply NoDup_cons in Hnd as [Hk Hnd]. cbn.
  destruct (tasks (master s) !! k) as [t|] eqn:E; simpl; [|by apply IH].
  destruct (as_map t) as [u|] eqn:Eu; simpl; [|by apply IH].
  constructor; [|by apply IH]. intros Hin. apply list_elem_of_fmap in Hin as (v & Hid & Hv).
  apply list_elem_of_omap in Hv as (k' & Hk' & Hv).
  destruct (tasks (master s) !! k') as [t'|] eqn:E'; [|done]. simpl in Hv.
  apply as_map_Some in Eu as [_ ->], Hv as [_ ->]. simpl in Hid.
  pose proof (so_ids _ _ _ Hs k t E). pose proof (so_ids _ _ _ Hs k' t' E').
  destruct Hk. by replace k with k' by lia.
Qed.

(** All tasks, in the order of their IDs. *)
Lemma map_tasks_work s :
  sys_ok fs n s ->
  Filename <$> map_tasks (master s) ≡ₚ (filter (fun x => x.1 = MapPhase) (work (master s))).*2.
Proof.
  intros Hs. set (M := master s).
  set (entries := omap (fun k => pair k <$> tasks M !! k) (seqZ 1 (taskSeq M))).
  assert (Hp : entries ≡ₚ map_to_list (tasks M)).
  { apply NoDup_Permutation; [|apply NoDup_map_to_list|].
    - unfold entries. pose proof (NoDup_seqZ 1 (taskSeq M)) as Hnd.
      induction (seqZ 1 (taskSeq M)) as [|k ks IH]; [constructor|].
      apply NoDup_cons in Hnd as [Hk Hnd]. cbn. destruct (tasks M !! k) as [t|]; simpl; [|by apply IH].
      constructor; [|by apply IH]. intros (k' & Hk' & Ht')%list_elem_of_omap.
      destruct (tasks M !! k'); [|done]. simpl in Ht'. naive_solver.
    - intros [k t]. unfold entries. rewrite list_elem_of_omap, elem_of_map_to_list. split.
      + intros (k' & _ & Ht). destruct (tasks M !! k') eqn:E; [|done]. simpl in Ht. naive_solver.
      + intros Ht. exists k. rewrite Ht. split; [|done]. apply elem_of_seqZ.
        pose proof (so_ids _ _ _ Hs k t Ht). unfold M. lia. }
  assert (Hm : Filename <$> map_tasks M =
    (filter (fun x => x.1 = MapPhase) ((fun x => (Phase x.2, Filename x.2)) <$> entries)).*2).
  { clear Hp. unfold map_tasks. subst entries. induction (seqZ 1 (taskSeq M)) as [|k ks IH]; [done|]. cbn.
    destruct (tasks M !! k) as [t|]; simpl; [|exact IH]. unfold as_map at 1.
    rewrite filter_cons. simpl. case_bool_decide as Hph; simpl.
    - rewrite decide_True by done. simpl. f_equal. exact IH.
    - rewrite decide_False by done. exact IH. }
  rewrite Hm, Hp. unfold work, cores. rewrite map_to_list_fmap, <-list_fmap_compose. done.
Qed.
End Members.

(** ** Where finished tasks come from *)

Lemma tasks_DeReg id m : tasks (DeRegWorker id m).1 = tasks m.
Proof. unfold DeRegWorker, putWorkerID. by destruct (inRangeUint32 _ _). Qed.

Lemma tasks_load_state args d s : tasks (master (load_state args d s)) = tasks (master s).
Proof.
  unfold load_state. destruct (tasks (master s) !! a_ID args); [done|]. destruct d; [|done].
  cbn [with_master master]. by rewrite tasks_DeReg.
Qed.

Lemma tasks_sweep k now s : tasks (master (sweep_task k now s)) = tasks (master s).
Proof.
  unfold sweep_task. destruct (tasks (master s) !! k); [|done]. destruct (_ <? _); [|done].
  case_bool_decide; [|done]. cbn [with_master master]. by rewrite tasks_DeReg.
Qed.

Lemma tasks_do_store st now m :
  tasks (do_store st now m) = <[st_key st := with_beat now (st_task st)]> (tasks m).
Proof. unfold do_store. destruct (st_dereg st); [|done]. by rewrite tasks_DeReg. Qed.

(** A finished task was finished before, or a handler stores it. *)
Lemma finish_origin ev s s' k t' :
  mstep ev s = Some s' -> tasks (master s') !! k = Some t' -> State t' = TaskStateFinish ->
  (exists t, tasks (master s) !! k = Some t /\ State t = TaskStateFinish) \/
  (exists st, st ∈ stores s /\ State (st_task st) = TaskStateFinish /\ core t' = core (st_task st)).
Proof.
  intros Hst Hk Hf. unfold mstep in Hst. destruct (exited s); [done|].
  destruct ev as [|id|args now|args|l|w ks|j|j|j now| |j now|j|j now]; cbn [handle] in Hst.
  - injection Hst as <-. left. unfold RegWorker, getWorkerID in Hk. simpl in Hk. destruct (workerIDs (master s)); eauto.
  - injection Hst as <-. left. simpl in Hk. rewrite tasks_DeReg in Hk. eauto.
  - injection Hst as <-. left. unfold load_beat in Hk. destruct (_ =? _); [eauto|].
    destruct (tasks (master s) !! TaskID args) as [u|] eqn:E; [|eauto].
    simpl in Hk. apply lookup_insert_Some in Hk as [[<- <-]|[_ Hk]]; eauto.
  - injection Hst as <-. rewrite tasks_load_state in Hk. eauto.
  - injection Hst as <-. eauto.
  - left. destruct (find_retry w ks s); injection Hst as <-; eauto.
  - left. destruct (waiting s !! j); [|done]. simpl in Hst.
    destruct (sending s) as [[file p]|]; [|destruct (closed s); [|done]]; injection Hst as <-; eauto.
  - left. destruct (got s !! j) as [g|]; [|done]. simpl in Hst. destruct (g_phase g); [done|]. injection Hst as <-. eauto.
  - left. destruct (got s !! j) as [g|]; [|done]. simpl in Hst. destruct (g_phase g); [|done]. injection Hst as <-.
    simpl in Hk. apply lookup_insert_Some in Hk as [[_ <-]|[_ Hk]]; [done|eauto].
  - left. unfold schedule in Hst. destruct (pc s) as [|[|x rest]|i| |i|i| | |]; try done;
      repeat case_match; try done; injection Hst as <-; eauto.
  - left. injection Hst as <-. rewrite tasks_sweep in Hk. eauto.
  - left. destruct (errs s !! j) as [[id w]|]; [|done]. simpl in Hst. injection Hst as <-.
    rewrite tasks_load_state in Hk. eauto.
  - destruct (stores s !! j) as [st|] eqn:E; [|done]. simpl in Hst. injection Hst as <-. simpl in Hk.
    rewrite tasks_do_store in Hk. apply lookup_insert_Some in Hk as [[_ <-]|[_ Hk]]; [right|eauto].
    exists st. split; [by eapply list_elem_of_lookup_2|done].
Qed.

(** A store of a finished task: it was under way, the task was finished
    before, or this step is its report. *)
Lemma store_origin ev s s' st :
  mstep ev s = Some s' -> st ∈ stores s' -> State (st_task st) = TaskStateFinish ->
  st ∈ stores s \/
  (exists t, tasks (master s) !! st_key st = Some t /\ core (st_task st) = core t /\ State t = TaskStateFinish) \/
  (exists a t, ev = MSetState a /\ a_State a = TaskStateFinish /\ tasks (master s) !! a_ID a = Some t /\
     core (st_task st) = core t).
Proof.
  intros Hst Hk Hf. unfold mstep in Hst. destruct (exited s); [done|].
  destruct ev as [|id|args now|args|l|w ks|j|j|j now| |j now|j|j now]; cbn [handle] in Hst.
  - injection Hst as <-. by left.
  - injection Hst as <-. by left.
  - injection Hst as <-. unfold load_beat in Hk. destruct (_ =? _); [by left|].
    destruct (tasks (master s) !! TaskID args) as [u|] eqn:E; [|by left].
    simpl in Hk. apply elem_of_app in Hk as [Hk|Hk%list_elem_of_singleton]; [by left|subst st]. right; left. eauto.
  - injection Hst as <-. unfold load_state in Hk. destruct (tasks (master s) !! a_ID args) as [u|] eqn:E; [|by left].
    simpl in Hk. apply elem_of_app in Hk as [Hk|Hk%list_elem_of_singleton]; [by left|subst st]. right; right.
    exists args, u. done.
  - injection Hst as <-. by left.
  - unfold find_retry in Hst. destruct (find_err ks (tasks (master s))) as [t|]; injection Hst as <-; [|by left].
    simpl in Hk. apply elem_of_app in Hk as [Hk|Hk%list_elem_of_singleton]; [by left|by subst st].
  - destruct (waiting s !! j); [|done]. simpl in Hst.
    destruct (sending s) as [[file p]|]; [|destruct (closed s); [|done]]; injection Hst as <-; by left.
  - destruct (got s !! j) as [g|]; [|done]. simpl in Hst. destruct (g_phase g); [done|]. injection Hst as <-. by left.
  - destruct (got s !! j) as [g|]; [|done]. simpl in Hst. destruct (g_phase g); [|done]. injection Hst as <-. by left.
  - left. unfold schedule in Hst. destruct (pc s) as [|[|x rest]|i| |i|i| | |]; try done;
      repeat case_match; try done; injection Hst as <-; done.
  - left. injection Hst as <-. unfold sweep_task in Hk. destruct (tasks (master s) !! j); [|done].
    destruct (_ <? _); [|done]. by case_bool_decide.
  - left. destruct (errs s !! j) as [[id w]|]; [|done]. simpl in Hst. injection Hst as <-.
    unfold load_state in Hk. simpl in Hk. destruct (tasks (master s) !! id) as [u|] eqn:E; [|done].
    simpl in Hk. apply elem_of_app in Hk as [Hk|Hk%list_elem_of_singleton]; [done|by subst st].
  - left. destruct (stores s !! j) as [st'|] eqn:E; [|done]. simpl in Hst. injection Hst as <-.
    simpl in Hk. by apply list_elem_of_delete_inv in Hk.
Qed.

(** ** The invariant *)

Section Inv.
Context `{GoSort} `{JsonCodec}.
Variable fs : list string.
Variable n : Z.
Variable m : string -> string -> list KeyValue.
Variable mapf : string -> string -> GoRun (list KeyValue).
Variable reducef : string -> list string -> GoRun string.
Variable f : string -> list string -> string.
Variable fs0 : FS.

(** The application and the input. *)
Record app_ok : Prop := {
  ap_n : 0 < n;
  ap_small : Z.of_nat (length fs) + n < 2 ^ 32;
  ap_reduce : forall k vs, reducef k vs = Returns (f k vs);
  ap_order : OrderFree reducef;
  (** no file of the directory has one of the names the job uses *)
  ap_dir : forall s, fs0 !! ("mr-" +:+ s) = None;
  ap_files : forall file, file ∈ fs -> is_Some (fs0 !! file);
  ap_map : forall file, file ∈ fs ->
    mapf file (default "" (fs0 !! file)) = Returns (m file (default "" (fs0 !! file)));
  ap_json : forall file, file ∈ fs ->
    Forall (fun kv => json_ok (Key kv) /\ json_ok (Value kv)) (m file (default "" (fs0 !! file)));
}.

(** What a task leaves in the directory. *)
Definition completed (d : FS) (t : MRTask) : Prop :=
  match Phase t with
  | MapPhase => forall i, 0 <= i < n -> is_Some (d !! mid_name (TaskID t) i)
  | ReducePhase => forall i, 0 <= i < n -> Filename t = reduce_pattern i -> is_Some (d !! out_name (Itoa i))
  end.

Lemma completed_mono d d' t t' :
  (forall name, is_Some (d !! name) -> is_Some (d' !! name)) -> core t' = core t ->
  completed d t -> completed d' t'.
Proof.
  unfold core, completed. intros Hd [= -> _ -> ->]. destruct (Phase t); eauto.
Qed.

(** Master and directory. *)
Record sys_inv (S : System) (d : FS) : Prop := {
  si_pre : preachable fs n S;
  si_dir : dir_ok m n fs0 (map_tasks (master S)) d;
  si_input : forall file, file ∈ fs -> d !! file = fs0 !! file;
  si_outs : outs_ok m f n fs0 (map_tasks (master S)) d;
  si_early : map_side (pc S) = true -> forall i, 0 <= i < n -> d !! out_name (Itoa i) = None;
  si_fin : forall k t, tasks (master S) !! k = Some t -> State t = TaskStateFinish -> completed d t;
  si_stores : forall st, st ∈ stores S -> State (st_task st) = TaskStateFinish -> completed d (st_task st);
  si_phase : forall k t, tasks (master S) !! k = Some t -> Phase t = ReducePhase -> map_side (pc S) = false;
  si_full : map_side (pc S) = false \/ pc S = SSetPhase -> full n (map_tasks (master S)) d;
  si_done : pc S = SSetDone \/ pc S = SEnd -> got S = [] /\
    forall i, 0 <= i < n -> is_Some (d !! out_name (Itoa i));
  si_mdone : mdone (master S) = true -> fs = [] \/ pc S = SEnd;
}.

Hypothesis Happ : app_ok.

Lemma sys_facts S :
  preachable fs n S -> exited S = false ->
  sys_ok fs n S /\ everything fs n S ≡ₚ planned fs n /\ (pc S = SSetPhase -> got S = []) /\ phases_read S.
Proof. apply preachable_ok; apply Happ. Qed.

Lemma job_ok_sys S :
  preachable fs n S -> exited S = false -> job_ok m reducef f n fs0 (map_tasks (master S)).
Proof.
  intros Hr Hex. destruct (sys_facts S Hr Hex) as (Hs & He & _).
  assert (Hin : forall u, u ∈ map_tasks (master S) ->
    exists k t, tasks (master S) !! k = Some t /\ u = canon t /\ Filename u ∈ fs).
  { intros u (k & t & Ht & Hp & ->)%(elem_of_map_tasks fs n S u Hs). exists k, t. split_and!; [done..|].
    destruct (task_planned fs n S k t He Ht) as [[_ ?]|[? _]]; [done|congruence]. }
  constructor; try apply Happ.
  - by apply (map_tasks_ids fs n).
  - intros u (k & t & Ht & -> & _)%Hin. simpl. pose proof (so_ids _ _ _ Hs k t Ht). lia.
  - intros u (k & t & Ht & -> & _)%Hin. simpl. by apply (so_nReduce _ _ _ Hs k).
  - intros u (k & t & Ht & _ & Hu)%Hin. by apply (ap_files Happ).
  - intros u (k & t & Ht & _ & Hu)%Hin. unfold pairs. by apply (ap_json Happ).
Qed.

(** ** Steps of the master *)

(** All steps but those of [schedule] and the creation of a task. *)
Lemma mstep_other ev S S' :
  sys_ok fs n S -> mstep ev S = Some S' -> ev <> MSched -> (forall k now, ev <> MCreate k now) ->
  same_job (master S) (master S') /\ mdone (master S') = mdone (master S) /\
  ((pc S' = pc S /\ (got S = [] -> got S' = [])) \/ exists file, sending S = Some (file, pc S')).
Proof.
  intros Hs Hst Hne Hnc. destruct (quiet ev) eqn:Hq.
  { destruct (mstep_quiet fs n ev S S' Hs Hst Hq) as [Hj Hd Hp Hg _]. split_and!; [done..|]. left. split; [done|].
    intros Hgot. destruct Hg as [->|(k & g & Hk & _)]; [done|]. by rewrite Hgot in Hk. }
  destruct ev as [| | | | | |j| |j now| | | |]; try done; [|by destruct (Hnc j now)].
  unfold mstep in Hst. destruct (exited S); [done|]. cbn [handle] in Hst.
  destruct (waiting S !! j); [|done]. simpl in Hst.
  destruct (sending S) as [[file p]|]; [|destruct (closed S); [|done]]; injection Hst as <-;
    (split_and!; [reflexivity|done|]); [right; eauto|by left].
Qed.

Lemma sending_pc S file p :
  sending S = Some (file, p) -> p <> SSetDone /\ p <> SEnd /\ pc S <> SSetDone /\ pc S <> SEnd.
Proof. unfold sending. destruct (pc S) as [|[|? ?]|?| |?|?| | |]; repeat case_match; naive_solver. Qed.

Lemma inv_other ev S S' d :
  sys_inv S d -> mstep ev S = Some S' -> exited S = false -> ev <> MSched -> (forall k now, ev <> MCreate k now) ->
  (forall a, ev = MSetState a -> a_State a = TaskStateFinish ->
     exists t, tasks (master S) !! a_ID a = Some t /\ completed d t) ->
  sys_inv S' d /\ ext (master S) (master S').
Proof.
  intros Hi Hst Hex Hne Hnc Hrep. destruct (sys_facts S (si_pre _ _ Hi) Hex) as (Hs & _ & _ & _).
  destruct (mstep_other ev S S' Hs Hst Hne Hnc) as (Hj & Hmd & Hpc).
  pose proof (map_tasks_same _ _ Hj) as Hmt. split; [|by apply same_job_ext].
  assert (Hside : map_side (pc S') = map_side (pc S) /\ (pc S' = SSetPhase -> pc S = SSetPhase) /\
                  (pc S' = SSetDone \/ pc S' = SEnd -> pc S' = pc S /\ (got S = [] -> got S' = [])) /\
                  (pc S = SEnd -> pc S' = SEnd)).
  { destruct Hpc as [[Hp Hg]|[file Hsend]]; [rewrite Hp; auto|].
    destruct (sending_spec fs n S file (pc S') Hs Hsend) as (_ & ? & _ & ? & _).
    destruct (sending_pc S file _ Hsend) as (? & ? & ? & ?). split_and!; naive_solver. }
  destruct Hside as (Hms & Hsp & Hd & Hend). destruct Hi as [Ipre Idir Iin Iouts Iearly Ifin Ist Iph Ifull Idone Imd].
  split; rewrite ?Hmt; try done.
  - eapply preach_step; [exact Ipre| |exact Hst]. intros ->. done.
  - rewrite Hms. exact Iearly.
  - intros k t' Hk Hf. destruct (finish_origin _ _ _ _ _ Hst Hk Hf) as [(t & Ht & Htf)|(st & Hin & Hsf & Hc)].
    + destruct (same_job_task _ _ _ _ Hj Hk) as (t0 & Ht0 & Hc). rewrite Ht in Ht0. injection Ht0 as <-.
      by apply (completed_mono d d t t'); eauto.
    + by apply (completed_mono d d (st_task st) t'); eauto.
  - intros st Hin Hf.
    destruct (store_origin _ _ _ _ Hst Hin Hf) as [?|[(t & Ht & Hc & Htf)|(a & t & -> & Ha & Ht & Hc)]]; [by apply Ist|..].
    + by apply (completed_mono d d t); eauto.
    + destruct (Hrep a eq_refl Ha) as (t0 & Ht0 & Hc0). rewrite Ht in Ht0. injection Ht0 as <-.
      by apply (completed_mono d d t); eauto.
  - intros k t' Hk Hp. rewrite Hms. destruct (same_job_task _ _ _ _ Hj Hk) as (t0 & Ht0 & [= _ _ Hph _]).
    apply (Iph k t0 Ht0). congruence.
  - rewrite Hms. intros [?|?%Hsp]; auto.
  - intros Hp. destruct (Hd Hp) as [Hpp Hg]. rewrite Hpp in Hp. destruct (Idone Hp). auto.
  - rewrite Hmd. intros Hm. destruct (Imd Hm); auto.
Qed.

(** A new map task finds nothing of its own in the directory. *)
Lemma dir_ok_new ts u d :
  dir_ok m n fs0 ts d -> d !! Filename u = fs0 !! Filename u -> 0 <= TaskID u ->
  (forall t, t ∈ ts -> 0 <= TaskID t /\ TaskID t <> TaskID u) -> dir_ok m n fs0 (ts ++ [u]) d.
Proof.
  intros [Hin Hmid Hnm] Hu Hid Hne. split.
  - intros t [Ht|Ht%list_elem_of_singleton]%elem_of_app; [by apply Hin|by subst].
  - intros t i c [Ht|Ht%list_elem_of_singleton]%elem_of_app Hi Hc; [by eapply Hmid|]. subst t.
    destruct (Hnm (mid_name (TaskID u) i)) as [[c' Hc']|[(t & j & Ht & Hj & Heq)|(j & Hj & Heq)]]; [eauto|..].
    + by rewrite (ap_dir Happ _ : fs0 !! mid_name (TaskID u) i = None) in Hc'.
    + destruct (Hne t Ht). apply mid_name_inj in Heq as [Heq _]; lia.
    + symmetry in Heq. by apply out_mid_ne in Heq; [|lia].
  - intros name Hs. destruct (Hnm name Hs) as [?|[(t & j & Ht & Hj & ->)|?]]; [by left|right; left|by right; right].
    exists t, j. split_and!; [apply elem_of_app; by left|lia|lia|done].
Qed.

(** What the creation of a task changes. *)
Lemma create_shape k now S S' :
  sys_ok fs n S -> phases_read S -> mstep (MCreate k now) S = Some S' -> exited S = false ->
  exists u, State u = TaskStateSending /\ Phase u = mrPhase (master S) /\ TaskID u = taskSeq (master S) + 1 /\
    tasks (master S) !! TaskID u = None /\ tasks (master S') = <[TaskID u := u]> (tasks (master S)) /\
    map_tasks (master S') = map_tasks (master S) ++ match as_map u with Some v => [v] | None => [] end /\
    mdone (master S') = mdone (master S) /\ pc S' = pc S /\ got S <> [] /\ stores S' = stores S.
Proof.
  intros Hs Hph Hst Hex. unfold mstep in Hst. rewrite Hex in Hst. cbn [handle] in Hst.
  destruct (got S !! k) as [g|] eqn:Eg; [|done]. cbn [mbind option_bind] in Hst.
  destruct (g_phase g) as [ph|] eqn:Ep; [|done]. cbn [mbind option_bind] in Hst. apply (inj Some) in Hst as <-.
  assert (ph = mrPhase (master S)) as ->.
  { unfold phases_read in Hph. rewrite Forall_forall in Hph. destruct (Hph g); [by eapply list_elem_of_lookup_2|congruence..]. }
  pose proof (sys_ok_room fs n (ap_n Happ) (ap_small Happ) _ _ _ Hs Eg) as Hlt.
  destruct (GetTask_new_eq fs n S (g_worker g) (mrPhase (master S)) (g_file g) now Hs Hlt) as [Hnone Heq].
  pose proof (so_seq _ _ _ Hs) as Hseq.
  eexists (mkTask (g_worker g) (taskSeq (master S) + 1) n (mrPhase (master S)) (g_file g) TaskStateSending now).
  cbn [with_got with_master master pc stores]. rewrite Heq. split_and!; try done.
  - apply map_tasks_new; [lia|]. intros j t Hj. by apply (so_ids _ _ _ Hs j t).
  - intros Hg. by rewrite Hg in Eg.
Qed.

Lemma inv_create k now S S' d :
  sys_inv S d -> mstep (MCreate k now) S = Some S' -> exited S = false ->
  sys_inv S' d /\ ext (master S) (master S').
Proof.
  intros Hi Hst Hex. destruct (sys_facts S (si_pre _ _ Hi) Hex) as (Hs & Hev & Hgot & Hread).
  assert (Hpre : preachable fs n S') by (eapply preach_step; [apply (si_pre _ _ Hi)| |exact Hst]; by intros).
  destruct (create_shape k now S S' Hs Hread Hst Hex) as (u & Hsend & Hph & Hid & Hnone & Hts & Hmt & Hmd & Hpc & Hne & Hsts).
  assert (Hex' : exited S' = false) by (unfold exited in *; by rewrite Hpc).
  destruct (sys_facts S' Hpre Hex') as (_ & Hev' & _).
  assert (Hut : tasks (master S') !! TaskID u = Some u) by (rewrite Hts; apply lookup_insert_eq).
  assert (Hnew : forall j t, tasks (master S') !! j = Some t -> t = u \/ tasks (master S) !! j = Some t).
  { rewrite Hts. intros j t Hj. apply lookup_insert_Some in Hj as [[_ <-]|[_ Hj]]; auto. }
  assert (Hext : ext (master S) (master S')).
  { intros j t Hj. exists t. split; [|done]. rewrite Hts, lookup_insert_ne; [done|]. intros <-. congruence. }
  pose proof (so_phase _ _ _ Hs) as Hmp. rewrite <-Hph in Hmp.
  destruct Hi as [Ipre Idir Iin Iouts Iearly Ifin Ist Iph Ifull Idone Imd].
  assert (Hfin : forall j t, tasks (master S') !! j = Some t -> State t = TaskStateFinish -> completed d t).
  { intros j t [->|Hj]%Hnew Hf; [congruence|]. by apply (Ifin j). }
  assert (Hdone : pc S <> SSetDone /\ pc S <> SEnd) by (split; intros Hp; destruct Hne; apply Idone; auto).
  assert (Hsp : pc S <> SSetPhase) by (intros Hp; by rewrite (Hgot Hp) in Hne).
  assert (Hnd : (pc S = SSetDone \/ pc S = SEnd) -> got S' = [] /\ forall i, 0 <= i < n -> is_Some (d !! out_name (Itoa i)))
    by (intros [?|?]; by destruct Hdone).
  split; [|done].
  destruct (task_planned fs n S' (TaskID u) u Hev' Hut) as [[Hp Hfile]|[Hp Hfile]]; rewrite Hp in Hmp;
    unfold as_map in Hmt.
  - rewrite bool_decide_true in Hmt by done.
    assert (Hms : map_side (pc S) = true) by (by destruct (map_side (pc S))).
    split; rewrite ?Hpc, ?Hmd, ?Hmt, ?Hsts; try done.
    + apply dir_ok_new; [done|by apply Iin|simpl; pose proof (so_seq _ _ _ Hs); lia|].
      intros t (j & t' & Ht' & _ & ->)%(elem_of_map_tasks fs n S t Hs). simpl.
      pose proof (so_ids _ _ _ Hs j t' Ht'). lia.
    + intros i c Hi0 Hc. by rewrite Iearly in Hc.
    + intros j t [->|Hj]%Hnew Hr; [congruence|]. by apply (Iph j t).
    + intros [Hc|Hc]; [congruence|done].
  - rewrite bool_decide_false, app_nil_r in Hmt by congruence.
    assert (Hms : map_side (pc S) = false) by (by destruct (map_side (pc S))).
    split; rewrite ?Hpc, ?Hmd, ?Hmt, ?Hsts; done.
Qed.

Lemma work_task M ph name :
  (ph, name) ∈ work M -> exists k t, tasks M !! k = Some t /\ Phase t = ph /\ Filename t = name.
Proof.
  unfold work, cores. intros ([k c] & Heq & Hin)%list_elem_of_fmap. apply elem_of_map_to_list in Hin.
  rewrite lookup_fmap in Hin. destruct (tasks M !! k) as [t|] eqn:E; [|done]. simpl in Hin. injection Hin as <-.
  exists k, t. simpl in Heq. by injection Heq as -> ->.
Qed.

Lemma tasks_done S k t :
  isTasksDone (master S) = true -> tasks (master S) !! k = Some t -> State t = TaskStateFinish.
Proof. unfold isTasksDone. intros Hd%bool_decide_eq_true Hk. by apply (Hd k). Qed.

(** All map tasks finished: their files are there. *)
Lemma done_full S d :
  sys_inv S d -> exited S = false -> isTasksDone (master S) = true -> full n (map_tasks (master S)) d.
Proof.
  intros Hi Hex Hd u i Hu Hi0. destruct (sys_facts S (si_pre _ _ Hi) Hex) as (Hs & _ & _ & _).
  apply (elem_of_map_tasks fs n S u Hs) in Hu as (k & t & Ht & Hp & ->).
  pose proof (si_fin _ _ Hi k t Ht (tasks_done _ _ _ Hd Ht)) as Hc. unfold completed in Hc. rewrite Hp in Hc. by apply Hc.
Qed.

(** All tasks finished at the end: the outputs are there. *)
Lemma done_outs S d j :
  sys_inv S d -> exited S = false -> pc S = SWaitReduce j -> isTasksDone (master S) = true -> got S = [] ->
  forall i, 0 <= i < n -> is_Some (d !! out_name (Itoa i)).
Proof.
  intros Hi Hex Hpc Hd Hg i Hi0. destruct (sys_facts S (si_pre _ _ Hi) Hex) as (Hs & Hev & _).
  assert (Hw : (ReducePhase, reduce_pattern i) ∈ work (master S)).
  { assert (Hp : (ReducePhase, reduce_pattern i) ∈ everything fs n S).
    { rewrite Hev. unfold planned. apply elem_of_app. right. apply list_elem_of_fmap. eexists. split; [done|].
      unfold pats. apply list_elem_of_fmap. exists i. split; [done|]. apply elem_of_seqZ. lia. }
    unfold everything in Hp. rewrite Hg, Hpc in Hp. simpl in Hp. by rewrite app_nil_r in Hp. }
  apply work_task in Hw as (k & t & Ht & Hp & Hfile).
  pose proof (si_fin _ _ Hi k t Ht (tasks_done _ _ _ Hd Ht)) as Hc. unfold completed in Hc. rewrite Hp in Hc. by apply Hc.
Qed.

(** The steps of [schedule], as far as they matter here. *)
Lemma sched_shape S S' :
  sys_ok fs n S -> schedule S = Some S' -> exited S' = false ->
  tasks (master S') = tasks (master S) /\ taskSeq (master S') = taskSeq (master S) /\ got S' = got S /\ stores S' = stores S /\
  (mdone (master S') = true -> mdone (master S) = true \/ fs = [] \/ pc S' = SEnd) /\ pc S <> SEnd /\
  (map_side (pc S') = true -> map_side (pc S) = true) /\
  (map_side (pc S') = false -> map_side (pc S) = false \/ pc S = SSetPhase) /\
  (pc S' = SSetPhase -> exists i, pc S = SWait i /\ isTasksDone (master S) = true) /\
  (pc S' = SSetDone -> exists i, pc S = SWaitReduce i /\ isTasksDone (master S) = true) /\
  (pc S' = SEnd -> pc S = SSetDone).
Proof.
  intros Hs Hst Hex. pose proof (so_files _ _ _ Hs) as Hf. unfold schedule in Hst.
  destruct (pc S) as [|[|x rest]|i| |i|i| | |] eqn:E; try done.
  - injection Hst as <-. cbn [master pc got]. rewrite Hf. destruct fs; split_and!; eauto; done.
  - injection Hst as <-. split_and!; eauto; done.
  - destruct (isTasksDone (master S)); [|destruct (_ <? _)]; injection Hst as <-; try done; split_and!; eauto; done.
  - injection Hst as <-. split_and!; eauto; done.
  - destruct (_ <? _); [done|]. injection Hst as <-. split_and!; eauto; done.
  - destruct (isTasksDone (master S)); [|destruct (_ <? _)]; injection Hst as <-; try done; split_and!; eauto; done.
  - injection Hst as <-. split_and!; eauto; done.
Qed.

(** The sleeps of [schedule] are long enough. *)
Definition in_time (S : System) : Prop :=
  isTasksDone (master S) = true -> forall i, pc S = SWait i \/ pc S = SWaitReduce i -> got S = [].

Lemma inv_sched S S' d :
  sys_inv S d -> mstep MSched S = Some S' -> exited S' = false -> in_time S ->
  sys_inv S' d /\ ext (master S) (master S').
Proof.
  intros Hi Hst Hex' Hin.
  assert (Hex : exited S = false) by (unfold mstep in Hst; by destruct (exited S)).
  destruct (sys_facts S (si_pre _ _ Hi) Hex) as (Hs & Hev & Hgot & _).
  assert (Hpre : preachable fs n S').
  { eapply preach_step; [apply (si_pre _ _ Hi)| |exact Hst]. intros _ _ Hd i Hp. eapply Hin; eauto. }
  unfold mstep in Hst. rewrite Hex in Hst. cbn [handle] in Hst.
  destruct (sched_shape S S' Hs Hst Hex') as (Ht & Hsq & Hg & Hsts & Hmd & Hne & Hms & Hmf & Hsp & Hsd & Hse).
  pose proof (done_full S d Hi Hex) as Hfull. pose proof (done_outs S d) as Houts.
  assert (Hmt : map_tasks (master S') = map_tasks (master S)) by (unfold map_tasks; by rewrite Ht, Hsq).
  split; [|intros k t Hk; exists t; by rewrite Ht].
  pose proof Hi as Hi0. destruct Hi as [Ipre Idir Iin Iouts Iearly Ifin Ist Iph Ifull Idone Imd].
  split; rewrite ?Hmt, ?Ht, ?Hg, ?Hsts; try done.
  - intros Hc%Hms. by apply Iearly.
  - intros k t Hk Hr. pose proof (Iph k t Hk Hr). destruct (map_side (pc S')) eqn:Em; [|done]. by rewrite Hms in H1.
  - intros [[Hc|Hc]%Hmf|(i & _ & Hd)%Hsp]; auto.
  - intros [(i & Hp & Hd)%Hsd|Hp%Hse]; [|apply Idone; by left].
    assert (Hg0 : got S = []) by (eapply Hin; eauto). split; [done|]. by eapply Houts.
  - intros [Hm|[Hm|Hm]]%Hmd; auto. destruct (Imd Hm) as [?|?]; [by left|done].
Qed.

(** What a step of the master does to its tasks: none disappears, and in the
    reduce phase no map task is added. *)
Lemma mstep_tasks ev S S' :
  sys_ok fs n S -> phases_read S -> mstep ev S = Some S' -> exited S' = false ->
  ext (master S) (master S') /\ (map_side (pc S) = false -> map_tasks (master S') = map_tasks (master S)).
Proof.
  intros Hs Hread Hst Hex'. assert (Hex : exited S = false) by (unfold mstep in Hst; by destruct (exited S)).
  assert (Hoth : ev <> MSched -> (forall k now, ev <> MCreate k now) ->
    ext (master S) (master S') /\ (map_side (pc S) = false -> map_tasks (master S') = map_tasks (master S))).
  { intros Hne Hnc. destruct (mstep_other ev S S' Hs Hst Hne Hnc) as (Hj & _).
    split; [by apply same_job_ext|]. intros _. by apply map_tasks_same. }
  destruct ev; try (by apply Hoth).
  - destruct (create_shape k now S S' Hs Hread Hst Hex) as (u & _ & Hph & Hid & Hnone & Hts & Hmt & _). split.
    + intros j t Hj. exists t. split; [|done]. rewrite Hts, lookup_insert_ne; [done|]. intros <-. congruence.
    + intros Hms. pose proof (so_phase _ _ _ Hs) as Hmp. rewrite Hms in Hmp. rewrite Hmt. unfold as_map.
      rewrite bool_decide_false, app_nil_r by congruence. done.
  - unfold mstep in Hst. rewrite Hex in Hst. cbn [handle] in Hst.
    destruct (sched_shape S S' Hs Hst Hex') as (Ht & Hsq & _).
    split; [intros j t Hj; exists t; by rewrite Ht|]. intros _. unfold map_tasks. by rewrite Ht, Hsq.
Qed.

(** Any step of the master. *)
Lemma inv_mstep ev S S' d :
  sys_inv S d -> mstep ev S = Some S' -> exited S' = false -> (ev = MSched -> in_time S) ->
  (forall a, ev = MSetState a -> a_State a = TaskStateFinish ->
     exists t, tasks (master S) !! a_ID a = Some t /\ completed d t) ->
  sys_inv S' d /\ ext (master S) (master S').
Proof.
  intros Hi Hst Hex Ht Hrep. assert (Hex0 : exited S = false) by (unfold mstep in Hst; by destruct (exited S)).
  destruct ev; try (by eapply inv_other); [by eapply inv_create|]. apply inv_sched; auto.
Qed.

(** ** What tasks do to the directory *)

(** A task that the master has, in whatever state. *)
Definition known (M : Master) (t : MRTask) : Prop :=
  exists t0, tasks M !! TaskID t = Some t0 /\ core t0 = core t.

Definition grows (d d' : FS) : Prop := forall name, is_Some (d !! name) -> is_Some (d' !! name).

Lemma inv_dir S d d' :
  sys_inv S d -> grows d d' -> dir_ok m n fs0 (map_tasks (master S)) d' ->
  (forall file, file ∈ fs -> d' !! file = d !! file) -> outs_ok m f n fs0 (map_tasks (master S)) d' ->
  (map_side (pc S) = true -> forall i, 0 <= i < n -> d' !! out_name (Itoa i) = d !! out_name (Itoa i)) ->
  sys_inv S d'.
Proof.
  intros [Ipre Idir Iin Iouts Iearly Ifin Ist Iph Ifull Idone Imd] Hg Hd Hin Ho He. split; try done.
  - intros file Hf. rewrite Hin; auto.
  - intros Hm i Hi. rewrite He; auto.
  - intros k t Hk Hf. apply (completed_mono d d' t t); eauto.
  - intros st Hst Hf. apply (completed_mono d d' (st_task st) (st_task st)); eauto.
  - intros Hp t i Ht Hi. by apply Hg, Ifull.
  - intros Hp. destruct (Idone Hp) as [? Hs]. split; [done|]. intros i Hi. by apply Hg, Hs.
Qed.

Lemma input_not_used file s : file ∈ fs -> file <> "mr-" +:+ s.
Proof. intros Hf ->. destruct (ap_files Happ _ Hf) as [c Hc]. by rewrite (ap_dir Happ) in Hc. Qed.

(** A known map task, as the job sees it. *)
Lemma known_map S t :
  preachable fs n S -> exited S = false -> known (master S) t -> Phase t = MapPhase ->
  canon t ∈ map_tasks (master S) /\ NReduce t = n /\ Filename t ∈ fs /\ 0 <= TaskID t.
Proof.
  intros Hr Hex (t0 & Ht0 & Hc) Hp. destruct (sys_facts S Hr Hex) as (Hs & Hev & _).
  pose proof (so_nReduce _ _ _ Hs _ _ Ht0) as Hn. pose proof (so_ids _ _ _ Hs _ _ Ht0) as Hid.
  destruct (task_planned fs n S _ t0 Hev Ht0) as [[Hp0 Hf]|[Hp0 _]]; unfold core in Hc; injection Hc as E1 E2 E3 E4;
    [|congruence].
  split_and!; [|congruence|congruence|lia]. apply (elem_of_map_tasks fs n S _ Hs). exists (TaskID t), t0.
  split_and!; [done|done|]. apply core_canon. unfold core. congruence.
Qed.

(** Writing some of the files of a map task. *)
Lemma inv_map_writes S d t ws :
  sys_inv S d -> exited S = false -> known (master S) t -> Phase t = MapPhase ->
  (forall w, w ∈ ws -> w ∈ map_files t (m (Filename t) (default "" (fs0 !! Filename t)))) ->
  sys_inv S (write_all ws d).
Proof.
  intros Hi Hex Hk Hp Hws. destruct (known_map S t (si_pre _ _ Hi) Hex Hk Hp) as (Hin & Hn & Hf & Hid).
  pose proof (job_ok_sys S (si_pre _ _ Hi) Hex) as Hjob.
  assert (Hnames : forall name, name ∈ ws.*1 -> exists i, 0 <= i < n /\ name = mid_name (TaskID t) i).
  { intros name Hname. apply list_elem_of_fmap in Hname as ([x c] & -> & Hw).
    apply Hws, elem_of_map_files in Hw as (i & Hi0 & -> & _). rewrite Hn in Hi0. eauto. }
  apply (inv_dir S d); [done| | | | |].
  - intros name. apply write_all_mono.
  - apply (map_writes_ok m reducef f n fs0 (map_tasks (master S)) Hjob d (canon t)
      (pairs m fs0 (canon t)) ws); [by apply (si_dir _ _ Hi)|done|done|exact Hws].
  - intros file Hfile. apply write_all_other. intros (i & _ & Heq)%Hnames. by apply (input_not_used file _ Hfile) in Heq.
  - eapply (map_writes_outs m f n fs0 _ d (canon t)); [by apply (si_outs _ _ Hi)|exact Hws].
  - intros _ i Hi0. apply write_all_other. intros (j & Hj & Heq)%Hnames. by apply out_mid_ne in Heq; [|lia].
Qed.

Lemma body_map S d t :
  sys_inv S d -> exited S = false -> known (master S) t -> Phase t = MapPhase ->
  exists d', task_body disk_fine mapf reducef t d = (d', [mkArgs (TaskID t) TaskStateFinish], Returns ()) /\
    sys_inv S d' /\ grows d d' /\ completed d' t.
Proof.
  intros Hi Hex Hk Hp. destruct (known_map S t (si_pre _ _ Hi) Hex Hk Hp) as (Hin & Hn & Hf & Hid).
  set (kvs := m (Filename t) (default "" (fs0 !! Filename t))).
  exists (write_all (map_files t kvs) d). destruct (ap_files Happ _ Hf) as [c Hc]. pose proof (ap_map Happ _ Hf) as Hm.
  fold kvs in Hm. rewrite Hc in Hm. simpl in Hm. split_and!.
  - unfold task_body. rewrite Hp. unfold mbind, Prog_bind. rewrite (doMap_ok mapf t d c kvs); [done|..|done].
    + rewrite Hn. apply Happ.
    + by rewrite (si_input _ _ Hi).
  - by apply (inv_map_writes S d t).
  - intros name. apply write_all_mono.
  - unfold completed. rewrite Hp. intros i Hi0. apply write_all_has, list_elem_of_fmap. eexists (_, _).
    split; [|apply elem_of_map_files; by exists i; rewrite Hn]. done.
Qed.

Lemma body_reduce S d t :
  sys_inv S d -> exited S = false -> known (master S) t -> Phase t = ReducePhase ->
  exists d', task_body disk_fine mapf reducef t d = (d', [mkArgs (TaskID t) TaskStateFinish], Returns ()) /\
    sys_inv S d' /\ grows d d' /\ completed d' t.
Proof.
  intros Hi Hex (t0 & Ht0 & Hc) Hp. destruct (sys_facts S (si_pre _ _ Hi) Hex) as (Hs & Hev & _).
  pose proof (job_ok_sys S (si_pre _ _ Hi) Hex) as Hjob. injection Hc as E1 E2 E3 E4.
  assert (Hms : map_side (pc S) = false) by (eapply (si_phase _ _ Hi); [exact Ht0|congruence]).
  destruct (task_planned fs n S _ t0 Hev Ht0) as [[? _]|[_ (i & Hi0 & Hfile)]]; [congruence|]. rewrite E4 in Hfile.
  pose proof (si_full _ _ Hi (or_introl Hms)) as Hfull. pose proof (si_dir _ _ Hi) as Hdir.
  pose proof (job_doReduce m reducef f n fs0 _ Hjob d t i Hdir Hfull Hi0 Hfile) as Hrun.
  destruct (job_step_ok m reducef f n fs0 _ Hjob d (JReduce t) Hdir) as (Hd & Ho & Hg); [by exists i|done|].
  simpl in Hd, Ho, Hg. rewrite Hrun in Hd, Ho, Hg. simpl in Hd, Ho, Hg. eexists. split_and!.
  - unfold task_body. rewrite Hp. unfold mbind, Prog_bind. rewrite Hrun. done.
  - apply (inv_dir S d); [done|exact Hg|exact Hd| |apply Ho, (si_outs _ _ Hi)|congruence].
    intros file Hf. apply lookup_insert_ne. intros Heq. symmetry in Heq.
    by apply (input_not_used file ("out." +:+ Itoa i) Hf) in Heq.
  - exact Hg.
  - unfold completed. rewrite Hp. intros j Hj Hpat. destruct (decide (i = j)) as [<-|Hne].
    + rewrite lookup_insert_eq. eauto.
    + exfalso. apply Hne. rewrite Hfile in Hpat. injection Hpat as Hpat. by apply Itoa_inj.
Qed.

(** ** The whole system *)

(** A report of a finished task is true. *)
Definition ok_report (M : Master) (d : FS) (a : MRArgs) : Prop :=
  a_State a = TaskStateFinish -> exists t, tasks M !! a_ID a = Some t /\ completed d t.

Definition proc_ok (M : Master) (d : FS) (pr : Proc) : Prop :=
  match p_pc pr with
  | PStart t | PWork t => known M t
  | PReport calls _ => Forall (ok_report M d) calls
  | _ => True
  end.

Record winv (s : MRSystem) : Prop := {
  wi_sys : sys_inv (sys s) (dir s);
  wi_procs : Forall (proc_ok (master (sys s)) (dir s)) (procs s);
  wi_reports : Forall (ok_report (master (sys s)) (dir s)) (reports s);
}.

Lemma ok_report_mono M M' d d' a : ext M M' -> grows d d' -> ok_report M d a -> ok_report M' d' a.
Proof.
  intros He Hg Ha Hf. destruct (Ha Hf) as (t & Ht & Hc). destruct (He _ _ Ht) as (t' & Ht' & Hc').
  exists t'. split; [done|]. by apply (completed_mono d d' t t').
Qed.

Lemma known_mono M M' t : ext M M' -> known M t -> known M' t.
Proof.
  intros He (t0 & Ht & Hc). destruct (He _ _ Ht) as (t' & Ht' & Hc'). exists t'. split; [done|congruence].
Qed.

Lemma proc_ok_mono M M' d d' pr : ext M M' -> grows d d' -> proc_ok M d pr -> proc_ok M' d' pr.
Proof.
  intros He Hg. unfold proc_ok. destruct (p_pc pr); eauto using known_mono.
  intros Hf. eapply Forall_impl; [exact Hf|]. intros a. by apply ok_report_mono.
Qed.

Lemma grows_refl d : grows d d.
Proof. by intros name. Qed.

(** After a step of the master. *)
Lemma winv_storep l s : winv s -> winv (set_storep l s).
Proof. by intros []. Qed.

Lemma winv_sys ev s S' :
  winv s -> mstep ev (sys s) = Some S' -> exited S' = false -> (ev = MSched -> in_time (sys s)) ->
  (forall a, ev = MSetState a -> a ∈ reports s) -> winv (set_sys S' s) /\ ext (master (sys s)) (master S').
Proof.
  intros [Hi Hp Hr] Hst Hex Ht Hrep. destruct (inv_mstep ev (sys s) S' (dir s) Hi Hst Hex Ht) as [Hi' He].
  { intros a -> Hf. rewrite Forall_forall in Hr. by apply (Hr a); [eapply Hrep|]. }
  split; [|done]. split; cbn [set_sys sys dir procs reports]; [done| |].
  - eapply Forall_impl; [exact Hp|]. intros pr. apply proc_ok_mono; [done|apply grows_refl].
  - eapply Forall_impl; [exact Hr|]. intros a. apply ok_report_mono; [done|apply grows_refl].
Qed.

Lemma winv_proc p pr s :
  winv s -> proc_ok (master (sys s)) (dir s) pr -> winv (set_proc p pr s).
Proof. intros [Hi Hp Hr] Hok. split; [done| |done]. by apply Forall_insert. Qed.

Lemma winv_queues w g s : winv s -> winv (set_queues w g s).
Proof. by intros []. Qed.

Lemma winv_reports l s :
  winv s -> (forall a, a ∈ l -> a ∈ reports s \/ ok_report (master (sys s)) (dir s) a) -> winv (set_reports l s).
Proof.
  intros [Hi Hp Hr] Hl. split; [done|done|]. apply Forall_forall. intros a Ha.
  destruct (Hl a Ha) as [Hin|]; [|done]. rewrite Forall_forall in Hr. by apply Hr.
Qed.

Lemma winv_dir d s : winv s -> sys_inv (sys s) d -> grows (dir s) d -> winv (set_dir d s).
Proof.
  intros [Hi Hp Hr] Hd Hg. split; [done|..].
  - eapply Forall_impl; [exact Hp|]. intros pr. apply proc_ok_mono; [reflexivity|done].
  - eapply Forall_impl; [exact Hr|]. intros a. apply ok_report_mono; [reflexivity|done].
Qed.

Lemma winv_lookup s p pr : winv s -> procs s !! p = Some pr -> proc_ok (master (sys s)) (dir s) pr.
Proof. intros [_ Hp _] Hl. rewrite Forall_forall in Hp. apply Hp. by eapply list_elem_of_lookup_2. Qed.

Lemma winv_reply p o s :
  winv s -> (forall t, o = Some t -> known (master (sys s)) t) -> winv (deliver_reply p o s).
Proof.
  intros Hi Ho. unfold deliver_reply. destruct (procs s !! p) as [pr|]; [|done]. destruct (p_pc pr); try done.
  apply winv_proc; [done|]. destruct o as [t|]; [by apply Ho|done].
Qed.

Definition wpunctual (ev : WEvent) (s : MRSystem) : Prop := ev = WSched -> in_time (sys s).

Lemma exited_before ev S S' : mstep ev S = Some S' -> exited S = false.
Proof. unfold mstep. by destruct (exited S). Qed.

Lemma winv_get p ks s s' :
  winv s -> step_get p ks s = Some s' -> exited (sys s') = false -> winv s'.
Proof.
  intros Hi Hst Hex. unfold step_get in Hst. destruct (procs s !! p) as [pr|]; [|done]. simpl in Hst.
  destruct (p_pc pr); try done. destruct (mstep (MGetTask (p_id pr) ks) (sys s)) as [S'|] eqn:E; [|done].
  simpl in Hst. assert (Hex' : exited S' = false) by (destruct (find_retry _ _ _); by injection Hst as <-).
  destruct (winv_sys _ s S' Hi E Hex') as [Hi' _]; [done|done|].
  assert (Hi'' : winv (set_proc p (set_ppc PAsked pr) (called (Some p) S' s)))
    by (apply winv_proc; [by apply winv_storep|done]).
  destruct (find_retry _ _ _) as [t|]; injection Hst as <-; [done|by apply winv_queues].
Qed.

Lemma exited_reply p o s : exited (sys (deliver_reply p o s)) = exited (sys s).
Proof. unfold deliver_reply. by destruct (procs s !! p) as [[? ? []]|]. Qed.

Lemma winv_store k now s s' :
  winv s -> step_store k now s = Some s' -> exited (sys s') = false -> winv s'.
Proof.
  intros Hi Hst Hex. unfold step_store in Hst. destruct (stores (sys s) !! k) as [st|] eqn:Es; [|done].
  cbn [mbind option_bind] in Hst. destruct (mstep (MStore k now) (sys s)) as [S'|] eqn:E; [|done].
  destruct (storep s !! k) as [who|]; [|done]. apply (inj Some) in Hst as <-.
  assert (Hex' : exited S' = false) by (destruct who; [by rewrite exited_reply in Hex|done]).
  destruct (winv_sys _ s S' Hi E Hex') as [Hi' _]; [done|done|].
  destruct who as [p|]; [|by apply winv_storep]. apply winv_reply; [by apply winv_storep|]. intros t [= <-].
  cbn [set_storep set_sys sys].
  destruct (sys_facts (sys s) (si_pre _ _ (wi_sys _ Hi)) (exited_before _ _ _ E)) as (Hs & _).
  destruct (so_stores _ _ _ Hs st) as (t0 & Ht0 & Hc); [by eapply list_elem_of_lookup_2|].
  assert (Hid : TaskID (st_task st) = st_key st).
  { pose proof (sys_ok_keyed _ _ _ Hs _ _ Ht0) as Hk. injection Hc as Hc _ _ _. congruence. }
  unfold mstep in E. rewrite (exited_before _ _ _ E) in E. cbn [handle] in E. rewrite Es in E.
  cbn [mbind option_bind] in E. apply (inj Some) in E as <-. cbn [with_stores with_master master].
  exists (with_beat now (st_task st)). split; [|done]. rewrite tasks_do_store. simpl. rewrite Hid. apply lookup_insert_eq.
Qed.

Lemma winv_create k now s s' :
  winv s -> step_create k now s = Some s' -> exited (sys s') = false -> winv s'.
Proof.
  intros Hi Hst Hex. unfold step_create in Hst. destruct (got (sys s) !! k) as [g|] eqn:Eg; [|done].
  cbn [mbind option_bind] in Hst. destruct (g_phase g) as [ph|] eqn:Ep; [|done]. cbn [mbind option_bind] in Hst.
  destruct (mstep (MCreate k now) (sys s)) as [S'|] eqn:E; [|done].
  destruct (gotp s !! k) as [p|]; [|done]. apply (inj Some) in Hst as <-.
  assert (Hex' : exited S' = false) by (by rewrite exited_reply in Hex).
  destruct (winv_sys _ s S' Hi E Hex') as [Hi' _]; [done|done|].
  apply winv_reply; [by apply winv_queues|]. intros t [= <-]. cbn [set_queues set_sys sys].
  unfold mstep in E. rewrite (exited_before _ _ _ E) in E. cbn [handle] in E. rewrite Eg in E.
  cbn [mbind option_bind] in E. rewrite Ep in E. cbn [mbind option_bind] in E.
  apply (inj Some) in E as <-. unfold known, GetTask_new, genTaskID. cbn.
  rewrite lookup_insert_eq. eauto.
Qed.

Lemma winv_recv k s s' :
  winv s -> step_recv k s = Some s' -> exited (sys s') = false -> winv s'.
Proof.
  intros Hi Hst Hex. unfold step_recv in Hst. destruct (mstep (MRecv k) (sys s)) as [S'|] eqn:E; [|done].
  simpl in Hst. destruct (waitp s !! k) as [p|]; [|done]. simpl in Hst.
  assert (Hex' : exited S' = false).
  { destruct (sending (sys s)); injection Hst as <-; [done|]. revert Hex. unfold deliver_reply. simpl.
    by destruct (procs s !! p) as [[? ? []]|]. }
  destruct (winv_sys _ s S' Hi E Hex') as [Hi' _]; [done|done|].
  destruct (sending (sys s)); injection Hst as <-; [by apply winv_queues|].
  apply winv_reply; [by apply winv_queues|done].
Qed.

Lemma winv_exec p s s' :
  winv s -> step_exec disk_fine mapf reducef p s = Some s' -> exited (sys s) = false -> winv s'.
Proof.
  intros Hi Hst Hex. unfold step_exec in Hst. destruct (procs s !! p) as [pr|] eqn:Ep; [|done]. simpl in Hst.
  destruct (p_pc pr) as [| | | |t|? ?| |] eqn:Epc; try done.
  pose proof (winv_lookup s p pr Hi Ep) as Hk. unfold proc_ok in Hk. rewrite Epc in Hk.
  assert (Hb : exists d', task_body disk_fine mapf reducef t (dir s) = (d', [mkArgs (TaskID t) TaskStateFinish], Returns ()) /\
    sys_inv (sys s) d' /\ grows (dir s) d' /\ completed d' t).
  { destruct (Phase t) eqn:Eph; [apply body_map|apply body_reduce]; auto; by apply wi_sys. }
  destruct Hb as (d' & Hrun & Hi' & Hg & Hc). rewrite Hrun in Hst. injection Hst as <-.
  apply winv_proc; [by apply winv_dir|]. cbn. constructor; [|constructor]. intros _.
  destruct Hk as (t0 & Ht0 & Hc0). exists t0. split; [done|]. by apply (completed_mono d' d' t t0).
Qed.

Lemma winv_crash p k s s' :
  winv s -> step_crash mapf p k s = Some s' -> exited (sys s) = false -> winv s'.
Proof.
  intros Hi Hst Hex. unfold step_crash in Hst. destruct (procs s !! p) as [pr|] eqn:Ep; [|done]. injection Hst as <-.
  apply winv_proc; [|done].
  pose proof (winv_lookup s p pr Hi Ep) as Hk. unfold proc_ok in Hk. unfold crash_dir.
  assert (Hsame : winv (set_dir (dir s) s)) by (apply winv_dir; [done|by apply wi_sys|apply grows_refl]).
  destruct (p_pc pr) as [| | | |t|? ?| |]; try done. destruct (Phase t) eqn:Eph; [|done].
  destruct (known_map (sys s) t (si_pre _ _ (wi_sys _ Hi)) Hex Hk Eph) as (_ & _ & Hf & _).
  rewrite (si_input _ _ (wi_sys _ Hi) _ Hf), (ap_map Happ _ Hf).
  apply winv_dir; [done| |intros name; apply write_all_mono].
  apply (inv_map_writes (sys s) (dir s) t); [by apply wi_sys|done..|].
  intros w Hw. rewrite <-(take_drop k (map_files t _)). apply elem_of_app. by left.
Qed.

(** The steps of a process that neither call the master nor run a task. *)
Lemma winv_own s s' p :
  winv s ->
  step_timeout p s = Some s' \/ step_running p s = Some s' \/ step_report p s = Some s' \/
  step_next p s = Some s' \/ step_dial p s = Some s' -> winv s'.
Proof.
  intros Hi Hst. unfold step_timeout, step_running, step_report, step_next, step_dial in Hst.
  destruct (procs s !! p) as [pr|] eqn:Ep; [|naive_solver]. cbn [mbind option_bind] in Hst.
  pose proof (winv_lookup s p pr Hi Ep) as Hk. unfold proc_ok in Hk.
  destruct Hst as [Hst|[Hst|[Hst|[Hst|Hst]]]].
  - destruct (p_pc pr); try done. injection Hst as <-. by apply winv_proc.
  - destruct (p_pc pr) as [| | |t| |? ?| |]; try done. injection Hst as <-. apply winv_proc; [|done].
    apply winv_reports; [done|]. intros a [Ha|Ha%list_elem_of_singleton]%elem_of_app; [by left|right]. by subst.
  - destruct (p_pc pr) as [| | | | |[|a l] r| |]; try done. apply Forall_cons in Hk as [Ha Hl].
    injection Hst as <-. apply winv_proc; [|done]. apply winv_reports; [done|].
    intros b [Hb|Hb%list_elem_of_singleton]%elem_of_app; [by left|right]. by subst.
  - destruct (p_pc pr) as [| | | | |[|a l] r| |]; try done. injection Hst as <-. apply winv_proc; [done|]. by destruct r.
  - case_guard; [|done]. injection Hst as <-. by apply winv_proc.
Qed.

Lemma winv_register p lost s s' :
  winv s -> step_register p lost s = Some s' -> exited (sys s') = false -> winv s'.
Proof.
  intros Hi Hst Hex. unfold step_register in Hst. destruct (procs s !! p) as [pr|]; [|done]. simpl in Hst.
  destruct (p_pc pr); try done. destruct (mstep _ _) as [S'|] eqn:E; [|done]. injection Hst as <-.
  destruct (winv_sys _ s S' Hi E Hex) as [Hi' _]; [done|done|]. apply winv_proc; [done|].
  unfold registered. destruct (RegWorker _).2 as [id err]. destruct (call lost err); [by destruct (id =? 0)|done].
Qed.

Lemma winv_deliver k s s' :
  winv s -> step_deliver k s = Some s' -> exited (sys s') = false -> winv s'.
Proof.
  intros Hi Hst Hex. unfold step_deliver in Hst. destruct (reports s !! k) as [a|] eqn:Ea; [|done]. simpl in Hst.
  destruct (mstep _ _) as [S'|] eqn:E; [|done]. injection Hst as <-.
  destruct (winv_sys _ s S' Hi E Hex) as [Hi' _]; [done| |].
  { intros b [= <-]. by eapply list_elem_of_lookup_2. }
  apply winv_reports; [by apply winv_storep|]. intros b Hb. left. cbn. rewrite delete_take_drop in Hb.
  rewrite <-(take_drop k (reports s)). apply elem_of_app in Hb as [Hb|Hb]; apply elem_of_app; [by left|right].
  rewrite (drop_S _ _ _ Ea). by right.
Qed.

Lemma winv_beat p lost now s s' :
  winv s -> step_beat p lost now s = Some s' -> exited (sys s') = false -> winv s'.
Proof.
  intros Hi Hst Hex. unfold step_beat in Hst. destruct (procs s !! p) as [pr|] eqn:Ep; [|done]. simpl in Hst.
  case_guard; [|done]. simpl in Hst. destruct (p_task pr) as [args|]; [|done]. simpl in Hst.
  destruct (mstep _ _) as [S'|] eqn:E; [|done]. injection Hst as <-.
  destruct (winv_sys _ s S' Hi E Hex) as [Hi' He]; [done|done|]. apply winv_proc; [by apply winv_storep|].
  unfold beaten. destruct (call _ _); [|done]. by apply (winv_lookup _ p pr Hi').
Qed.

Lemma winv_close p s s' :
  winv s -> step_close p s = Some s' -> exited (sys s') = false -> winv s'.
Proof.
  intros Hi Hst Hex. unfold step_close in Hst. destruct (procs s !! p) as [pr|]; [|done]. simpl in Hst.
  destruct (p_pc pr); try done. destruct (mstep _ _) as [S'|] eqn:E; [|done]. injection Hst as <-.
  destruct (winv_sys _ s S' Hi E Hex) as [Hi' _]; [done|done|]. by apply winv_proc.
Qed.

Lemma exec_sys p s s' : step_exec disk_fine mapf reducef p s = Some s' -> sys s' = sys s.
Proof.
  unfold step_exec. destruct (procs s !! p) as [pr|]; [|done]. simpl. destruct (p_pc pr); try done.
  destruct (task_body _ _ _ _ _) as [[? ?] ?]. by intros [= <-].
Qed.

Lemma crash_sys p k s s' : step_crash mapf p k s = Some s' -> sys s' = sys s.
Proof. unfold step_crash. destruct (procs s !! p); [|done]. by intros [= <-]. Qed.

(** Every step keeps the invariant, until the master exits. *)
Lemma winv_step ev s s' :
  winv s -> wpunctual ev s -> wstep disk_fine mapf reducef ev s = Some s' -> exited (sys s') = false -> winv s'.
Proof.
  intros Hi Hp Hst Hex. destruct ev; cbn [wstep] in Hst;
    try (by eapply (winv_own s s' p); [done|]; auto 6); try (by eapply winv_get + eapply winv_recv + eapply winv_create + eapply winv_store);
    try (by eapply winv_register + eapply winv_deliver + eapply winv_beat + eapply winv_close).
  - injection Hst as <-. destruct Hi as [Hi1 Hi2 Hi3]. split; [done| |done]. apply Forall_app. split; [done|].
    by constructor.
  - destruct (mstep _ _) as [S'|] eqn:E; [|done]. injection Hst as <-. by eapply (winv_sys (MPhase k)).
  - eapply winv_exec; eauto. by rewrite <-(exec_sys _ _ _ Hst).
  - eapply winv_crash; eauto. by rewrite <-(crash_sys _ _ _ _ Hst).
  - destruct (mstep _ _) as [S'|] eqn:E; [|done]. injection Hst as <-.
    eapply (winv_sys MSched); [done|exact E|done|intros _; by apply Hp|done].
  - destruct (mstep _ _) as [S'|] eqn:E; [|done]. injection Hst as <-. by eapply (winv_sys (MSweep k now)).
  - destruct (mstep _ _) as [S'|] eqn:E; [|done]. injection Hst as <-. apply winv_storep. by eapply (winv_sys (MErr k)).
Qed.

(** ** Reachable states *)

Inductive wreachable : MRSystem -> Prop :=
  | wreach_init M : MakeMaster fs n = Some M -> wreachable (start_job M fs0)
  | wreach_step s ev s' : wreachable s -> wpunctual ev s ->
      wstep disk_fine mapf reducef ev s = Some s' -> wreachable s'.

Lemma wstep_sys ev s s' :
  wstep disk_fine mapf reducef ev s = Some s' -> sys s' = sys s \/ exists ev', mstep ev' (sys s) = Some (sys s').
Proof.
  assert (Hrep : forall p o s0, sys (deliver_reply p o s0) = sys s0).
  { intros p o s0. unfold deliver_reply. by destruct (procs s0 !! p) as [[? ? []]|]. }
  destruct ev; cbn [wstep]; intros Hst.
  - by injection Hst as <-; left.
  - unfold step_register in Hst. destruct (procs s !! p); [|done]. simpl in Hst. destruct (p_pc _); try done.
    destruct (mstep _ _) eqn:E; [|done]. injection Hst as <-. eauto.
  - unfold step_get in Hst. destruct (procs s !! p); [|done]. simpl in Hst. destruct (p_pc _); try done.
    destruct (mstep _ _) eqn:E; [|done]. simpl in Hst. destruct (find_retry _ _ _); injection Hst as <-; eauto.
  - unfold step_recv in Hst. destruct (mstep _ _) eqn:E; [|done]. simpl in Hst. destruct (waitp s !! k); [|done].
    simpl in Hst. destruct (sending _); injection Hst as <-; rewrite ?Hrep; eauto.
  - destruct (mstep _ _) eqn:E; [|done]. injection Hst as <-. eauto.
  - unfold step_create in Hst. destruct (got (sys s) !! k) as [g|]; [|done]. cbn [mbind option_bind] in Hst.
    destruct (g_phase g); [|done]. cbn [mbind option_bind] in Hst.
    destruct (mstep _ _) eqn:E; [|done]. destruct (gotp s !! k); [|done]. apply (inj Some) in Hst as <-. rewrite Hrep. eauto.
  - unfold step_timeout in Hst. destruct (procs s !! p); [|done]. simpl in Hst. destruct (p_pc _); try done. injection Hst as <-. by left.
  - unfold step_running in Hst. destruct (procs s !! p); [|done]. simpl in Hst. destruct (p_pc _); try done. injection Hst as <-. by left.
  - left. by eapply exec_sys.
  - unfold step_report in Hst. destruct (procs s !! p); [|done]. simpl in Hst. destruct (p_pc _) as [| | | | |[|? ?] ?| |]; try done.
    injection Hst as <-. by left.
  - unfold step_next in Hst. destruct (procs s !! p); [|done]. simpl in Hst. destruct (p_pc _) as [| | | | |[|? ?] ?| |]; try done.
    injection Hst as <-. by left.
  - unfold step_deliver in Hst. destruct (reports s !! k); [|done]. simpl in Hst. destruct (mstep _ _) eqn:E; [|done].
    injection Hst as <-. eauto.
  - unfold step_beat in Hst. destruct (procs s !! p); [|done]. simpl in Hst. case_guard; [|done]. simpl in Hst.
    destruct (p_task _); [|done]. simpl in Hst. destruct (mstep _ _) eqn:E; [|done]. injection Hst as <-. eauto.
  - unfold step_close in Hst. destruct (procs s !! p); [|done]. simpl in Hst. destruct (p_pc _); try done.
    destruct (mstep _ _) eqn:E; [|done]. injection Hst as <-. eauto.
  - left. by eapply crash_sys.
  - unfold step_dial in Hst. destruct (procs s !! p); [|done]. simpl in Hst. case_guard; [|done]. injection Hst as <-. by left.
  - destruct (mstep _ _) eqn:E; [|done]. injection Hst as <-. eauto.
  - destruct (mstep _ _) eqn:E; [|done]. injection Hst as <-. eauto.
  - destruct (mstep _ _) eqn:E; [|done]. injection Hst as <-. eauto.
  - unfold step_store in Hst. destruct (stores (sys s) !! k); [|done]. cbn [mbind option_bind] in Hst.
    destruct (mstep _ _) eqn:E; [|done]. destruct (storep s !! k) as [who|]; [|done]. apply (inj Some) in Hst as <-.
    destruct who; rewrite ?Hrep; eauto.
Qed.

(** Only [schedule] exits, and it does not touch the master then. *)
Lemma exit_step ev S S' :
  mstep ev S = Some S' -> exited S' = true -> master S' = master S /\ pc S <> SEnd.
Proof.
  intros Hst Hex. unfold mstep in Hst. destruct (exited S) eqn:Ex; [done|].
  assert (Hp : pc S' <> pc S) by (intros Hp; unfold exited in *; rewrite Hp in Hex; congruence).
  destruct ev as [|id|args now|args|l|w ks|j|j|j now| |j now|j|j now]; cbn [handle] in Hst;
    try (injection Hst as <-; destruct Hp; done).
  - injection Hst as <-. destruct Hp. unfold load_beat. by repeat case_match.
  - injection Hst as <-. destruct Hp. unfold load_state. by repeat case_match.
  - destruct (find_retry _ _ _); injection Hst as <-; by destruct Hp.
  - destruct (waiting S !! j); [|done]. simpl in Hst.
    destruct (sending S) as [[file p]|] eqn:E; [|destruct (closed S); [|done]]; injection Hst as <-; [|by destruct Hp].
    unfold exited in Hex. simpl in Hex.
    unfold sending in E. destruct (pc S) as [|[|? ?]|?| |?|?| | |]; repeat case_match; by simplify_eq.
  - destruct (got S !! j) as [g|]; [|done]. simpl in Hst. destruct (g_phase g); [done|]. by injection Hst as <-.
  - destruct (got S !! j) as [g|]; [|done]. simpl in Hst. destruct (g_phase g); [|done]. by injection Hst as <-.
  - unfold schedule in Hst. destruct (pc S) as [|[|x rest]|i| |i|i| | |]; try done;
      repeat case_match; try done; by injection Hst as <-.
  - injection Hst as <-. destruct Hp. unfold sweep_task. by repeat case_match.
  - destruct (errs S !! j) as [[id w]|]; [|done]. simpl in Hst. injection Hst as <-. destruct Hp.
    unfold load_state. by repeat case_match.
  - destruct (stores S !! j); [|done]. simpl in Hst. injection Hst as <-. by destruct Hp.
Qed.

Lemma winv_start M : MakeMaster fs n = Some M -> winv (start_job M fs0).
Proof.
  intros HM. pose proof (preach_init fs n M HM) as Hpre.
  assert (Ht : tasks M = ∅ /\ taskSeq M = 0 /\ mdone M = false).
  { unfold MakeMaster in HM. destruct (_ <=? _); [done|]. rewrite makeRange_10 in HM. by injection HM as <-. }
  destruct Ht as (Ht & Hsq & Hmd).
  assert (Hmt : map_tasks M = []) by (unfold map_tasks; by rewrite Hsq).
  assert (Hout : forall i : Z, fs0 !! out_name (Itoa i) = None) by (intros i; apply (ap_dir Happ)).
  split; [|constructor..]. split; cbn [start_job sys start_system master pc dir got]; rewrite ?Hmt, ?Ht; try done.
  - split; [set_solver|set_solver|by left].
  - intros i c _ Hc. by rewrite Hout in Hc.
  - intros st Hin. by apply not_elem_of_nil in Hin.
  - by intros [?|?].
  - by intros [?|?].
  - by rewrite Hmd.
Qed.

Lemma wreachable_inv s :
  wreachable s -> (exited (sys s) = false -> winv s) /\ (mdone (master (sys s)) = true -> fs = [] \/ pc (sys s) = SEnd).
Proof.
  induction 1 as [M HM|s ev s' Hr [IH1 IH2] Hp Hst].
  { pose proof (winv_start M HM) as Hi. split; [done|]. apply (si_mdone _ _ (wi_sys _ Hi)). }
  assert (Hex : exited (sys s') = false -> exited (sys s) = false).
  { intros Hex. destruct (wstep_sys ev s s' Hst) as [He|[ev' He]]; [by rewrite <-He|by apply exited_before in He]. }
  assert (Hi : exited (sys s') = false -> winv s') by (intros He; eapply winv_step; eauto).
  split; [done|]. intros Hm. destruct (exited (sys s')) eqn:Ex; [|by apply (si_mdone _ _ (wi_sys _ (Hi eq_refl)))].
  destruct (wstep_sys ev s s' Hst) as [He|[ev' He]]; [rewrite He in *; by apply IH2|].
  destruct (exit_step ev' _ _ He Ex) as [HM Hne]. rewrite HM in Hm. destruct (IH2 Hm); [by left|done].
Qed.

(** The input files are those of the map tasks, once everything is sent. *)
Lemma map_tasks_files S :
  sys_ok fs n S -> everything fs n S ≡ₚ planned fs n -> pc S = SEnd -> got S = [] ->
  Filename <$> map_tasks (master S) ≡ₚ fs.
Proof.
  intros Hs Hev Hpc Hg. rewrite (map_tasks_work fs n S Hs). unfold everything in Hev. rewrite Hpc, Hg in Hev.
  simpl in Hev. rewrite app_nil_r in Hev. rewrite Hev. unfold planned. rewrite filter_app, fmap_app.
  assert (Hm : filter (fun x : MRPhase * string => x.1 = MapPhase) (tag MapPhase fs) = tag MapPhase fs).
  { clear. unfold tag. induction fs as [|x l IH]; [done|]. cbn [fmap list_fmap]. by rewrite filter_cons_True, IH. }
  assert (Hr : forall l, filter (fun x : MRPhase * string => x.1 = MapPhase) (tag ReducePhase l) = []).
  { clear. unfold tag. induction l as [|x l IH]; [done|]. cbn [fmap list_fmap]. by rewrite filter_cons_False, IH. }
  by rewrite Hm, Hr, tag_snd, app_nil_r.
Qed.

(** The result of the job, at the end of [schedule]. *)
Lemma job_result_inv s :
  winv s -> pc (sys s) = SEnd ->
  exists ts l, job_ok m reducef f n fs0 ts /\ l ≡ₚ ts /\ Filename <$> l = fs /\
    (forall t, t ∈ ts -> mapf (Filename t) (default "" (fs0 !! Filename t)) = Returns (pairs m fs0 t)) /\
    forall i, 0 <= i < n -> dir s !! out_name (Itoa i) = Some (text (lines f (bucket n i (all_pairs m fs0 ts)))).
Proof.
  intros Hi Hpc. assert (Hex : exited (sys s) = false) by (unfold exited; by rewrite Hpc).
  pose proof (wi_sys _ Hi) as Hsys. pose proof (si_pre _ _ Hsys) as Hpre.
  destruct (sys_facts _ Hpre Hex) as (Hs & Hev & _). destruct (si_done _ _ Hsys (or_intror Hpc)) as [Hg Houts].
  pose proof (job_ok_sys _ Hpre Hex) as Hjob.
  pose proof (map_tasks_files _ Hs Hev Hpc Hg) as Hfiles. symmetry in Hfiles.
  destruct (Permutation_map_inv _ _ Hfiles) as (l & Hl & Hp).
  exists (map_tasks (master (sys s))), l. split_and!; [done|by symmetry|by symmetry| |].
  - intros t Ht. apply (ap_map Happ). rewrite Hfiles. apply list_elem_of_fmap. eauto.
  - intros i Hi0. destruct (Houts i Hi0) as [c Hc]. rewrite Hc. f_equal. by apply (si_outs _ _ Hsys).
Qed.

Lemma job_result s :
  wreachable s -> fs <> [] -> Done (master (sys s)) = true ->
  exists ts l, job_ok m reducef f n fs0 ts /\ l ≡ₚ ts /\ Filename <$> l = fs /\
    (forall t, t ∈ ts -> mapf (Filename t) (default "" (fs0 !! Filename t)) = Returns (pairs m fs0 t)) /\
    forall i, 0 <= i < n -> dir s !! out_name (Itoa i) = Some (text (lines f (bucket n i (all_pairs m fs0 ts)))).
Proof.
  intros Hr Hne Hd. destruct (wreachable_inv s Hr) as [Hi Hm].
  assert (Hpc : pc (sys s) = SEnd) by (by destruct (Hm Hd)).
  apply job_result_inv; [|done]. apply Hi. unfold exited. by rewrite Hpc.
Qed.
End Inv.
