(* ===== verification/MrFine.v ===== *)
(** * MapReduce: the whole job, one system call at a time

    [MrSystem] with tasks that run in pieces: a process in the middle of a
    task has a tree of actions ([MrActions]) left to do, every action is a
    step, and a process may die between any two of them.  What a dead process
    had left to do stays in [facts].  [fowner] is the process that created a
    file last. *)

From S2P Require Import Prelude MrUtil MrApps MrJson MrGroup MrFiles MrWorker MrJob MrActions MrMaster MrSystem.

Record FineSystem := mkFine {
  fbase : MRSystem;
  facts : gmap nat (Act unit);
  fowner : gmap string nat;
}.

Inductive FEvent :=
  | FBase (ev : WEvent)             (** everything that is not part of a task *)
  | FStart (p : nat)                (** a process starts its task *)
  | FAct (p : nat) (ok : bool)      (** the next action; whether the call succeeds *)
  | FCrash (p : nat).               (** a process dies *)

(** The events of [MrSystem] that stay as they are. *)
Definition base_event (ev : WEvent) : bool :=
  match ev with WExec _ | WCrash _ _ => false | _ => true end.

(** The file an act is writing. *)
Definition writing (a : Act unit) : option string :=
  match a with AWrite name _ _ _ => Some name | _ => None end.

(** The last process that created the file is not in the middle of writing it. *)
Definition whole (s : FineSystem) (name : string) : bool :=
  match p ← fowner s !! name; facts s !! p with
  | Some a => bool_decide (writing a <> Some name)
  | None => true
  end.

Section Fine.
Context `{GoSort} `{JsonCodec}.
Variable mapf : string -> string -> GoRun (list KeyValue).
Variable reducef : string -> list string -> GoRun string.

Definition set_fact (p : nat) (a : Act unit) (s : FineSystem) : FineSystem :=
  mkFine (fbase s) (<[p := a]> (facts s)) (fowner s).

(** The next action of process [p]. *)
Definition act_step (p : nat) (pr : Proc) (ok : bool) (a : Act unit) (s : FineSystem) : FineSystem :=
  let b := fbase s in
  match a with
  | ARet r => mkFine (set_proc p (set_ppc (PReport [] r) pr) b) (delete p (facts s)) (fowner s)
  | ACall args k => mkFine (set_reports (reports b ++ [args]) b) (<[p := k]> (facts s)) (fowner s)
  | ARead name k => set_fact p (k (if ok then dir b !! name else None)) s
  | AGlob pattern k => set_fact p (k (Glob pattern (dir b))) s
  | ACreate name k =>
      if ok then
        mkFine (set_dir (<[name := ""]> (dir b)) b) (<[p := k true]> (facts s)) (<[name := p]> (fowner s))
      else set_fact p (k false) s
  | AWrite name off chunk k =>
      if ok then
        mkFine (set_dir (<[name := splice off chunk (default "" (dir b !! name))]> (dir b)) b)
          (<[p := k true]> (facts s)) (fowner s)
      else set_fact p (k false) s
  end.

Definition fstep (ev : FEvent) (s : FineSystem) : option FineSystem :=
  match ev with
  | FBase ev =>
      guard (base_event ev = true);;
      b ← wstep disk_fine mapf reducef ev (fbase s);
      Some (mkFine b (facts s) (fowner s))
  | FStart p =>
      pr ← procs (fbase s) !! p;
      match p_pc pr, facts s !! p with
      | PWork t, None => Some (set_fact p (task_act mapf reducef t) s)
      | _, _ => None
      end
  | FAct p ok =>
      pr ← procs (fbase s) !! p;
      match p_pc pr with
      | PWork _ => a ← facts s !! p; Some (act_step p pr ok a s)
      | _ => None
      end
  | FCrash p =>
      pr ← procs (fbase s) !! p;
      Some (mkFine (set_proc p (set_ppc PGone pr) (fbase s)) (facts s) (fowner s))
  end.

Definition start_fine (m : Master) (fs : FS) : FineSystem := mkFine (start_job m fs) ∅ ∅.

(** System calls succeed, and no file is read while it is being written:
    [doReduce] would take a file that does not decode for the end of its input. *)
Definition fclean (ev : FEvent) (s : FineSystem) : bool :=
  match ev with
  | FAct p ok =>
      ok && match facts s !! p with Some (ARead name _) => whole s name | _ => true end
  | _ => true
  end.
End Fine.

(** ** Agreement with the content a file is to have *)

(** [c] has at most the length of [t], and the same first [k] characters. *)
Fixpoint agree (k : nat) (c t : string) : Prop :=
  match k, c, t with
  | O, _, _ => (String.length c <= String.length t)%nat
  | S k, String a c, String b t => a = b /\ agree k c t
  | _, _, _ => False
  end.

Lemma agree_length k : forall c t, agree k c t -> (String.length c <= String.length t)%nat.
Proof.
  induction k as [|k IH]; intros c t Hc; [done|]. destruct c as [|a c], t as [|b t]; simpl in *; try done.
  destruct Hc as [_ Hc%IH]. lia.
Qed.

Lemma agree_all t c : agree (String.length t) c t -> c = t.
Proof.
  revert c. induction t as [|b t IH]; intros [|a c] Hc; simpl in Hc; try done; [lia|].
  destruct Hc as [-> Hc]. by rewrite (IH c Hc).
Qed.

Lemma agree_refl t : agree (String.length t) t t.
Proof. induction t as [|b t IH]; [simpl; lia|]. by split. Qed.

Lemma overwrite_length chunk t : forall c,
  (String.length c <= String.length (chunk +:+ t))%nat -> (String.length (overwrite chunk c) <= String.length (chunk +:+ t))%nat.
Proof.
  induction chunk as [|a chunk IH]; intros c Hc; [done|].
  change (String.length (String a chunk +:+ t)) with (S (String.length (chunk +:+ t))) in *.
  cbn [overwrite String.length]. apply le_n_S, IH. destruct c; simpl in *; lia.
Qed.

Lemma splice_length q chunk t : forall c,
  (String.length c <= String.length (q +:+ chunk +:+ t))%nat ->
  (String.length (splice (String.length q) chunk c) <= String.length (q +:+ chunk +:+ t))%nat.
Proof.
  induction q as [|a q IH]; intros c Hc; [exact (overwrite_length chunk t c Hc)|].
  change (String.length (String a q +:+ chunk +:+ t)) with (S (String.length (q +:+ chunk +:+ t))) in *.
  cbn [String.length splice]. destruct c as [|b c]; cbn [String.length]; apply le_n_S, IH; simpl in *; lia.
Qed.

(** Writing the right bytes anywhere. *)
Lemma agree_overwrite chunk t : forall k c, agree k c (chunk +:+ t) -> agree k (overwrite chunk c) (chunk +:+ t).
Proof.
  induction chunk as [|a chunk IH]; intros k c Hc; [done|].
  destruct k as [|k]; [exact (overwrite_length (String a chunk) t c Hc)|].
  destruct c as [|b c]; [done|]. destruct Hc as [-> Hc]. split; [done|]. by apply IH.
Qed.

Lemma agree_splice q chunk t : forall k c,
  agree k c (q +:+ chunk +:+ t) -> agree k (splice (String.length q) chunk c) (q +:+ chunk +:+ t).
Proof.
  induction q as [|a q IH]; intros k c Hc; [exact (agree_overwrite chunk t k c Hc)|].
  destruct k as [|k]; [exact (splice_length (String a q) chunk t c Hc)|].
  destruct c as [|b c]; [done|]. destruct Hc as [-> Hc]. split; [done|]. by apply IH.
Qed.

(** Writing the next bytes. *)
Lemma agree_write_first chunk t : forall c,
  (String.length c <= String.length (chunk +:+ t))%nat -> agree (String.length chunk) (overwrite chunk c) (chunk +:+ t).
Proof.
  induction chunk as [|a chunk IH]; intros c Hc; [done|]. split; [done|]. apply IH.
  change (String.length (String a chunk +:+ t)) with (S (String.length (chunk +:+ t))) in Hc. destruct c; simpl in *; lia.
Qed.

Lemma agree_write q chunk t : forall c,
  agree (String.length q) c (q +:+ chunk +:+ t) ->
  agree (String.length q + String.length chunk) (splice (String.length q) chunk c) (q +:+ chunk +:+ t).
Proof.
  induction q as [|a q IH]; intros c Hc; [exact (agree_write_first chunk t c Hc)|].
  destruct c as [|b c]; [done|]. destruct Hc as [-> Hc]. split; [done|]. by apply IH.
Qed.
