(* ===== verification/MrFineInv.v ===== *)
(** * MapReduce: invariants of the job in pieces

    The directory of [MrFine] differs from one of [MrSystem] only in files
    whose last creator has not written them completely.  The invariant is that
    of [MrSystem] for a directory in which these files are complete
    ([finv]). *)

From S2P Require Import Prelude MrUtil MrApps MrJson MrGroup MrFiles MrWorker MrJob MrActions MrMaster MrMasterInv.
From S2P Require Import MrSystem MrSystemInv MrFine.

(** ** What is left of a task *)

(** The report at the end of a task. *)
Definition fin (t : MRTask) : Act unit := ACall (mkArgs (TaskID t) TaskStateFinish) (ARet (Returns ())).

(** The files [rem] are to be created and written. *)
Fixpoint g_files (t : MRTask) (rem : list (string * string)) (a : Act unit) : Prop :=
  match rem with
  | [] => a = fin t
  | (name, c) :: rem => exists k k', a = ACreate name k /\ k true = AWrite name 0 c k' /\ g_files t rem (k' true)
  end.

(** The lines [ls] are to be written from position [off] on. *)
Fixpoint g_lines (t : MRTask) (name : string) (off : nat) (ls : list string) (a : Act unit) : Prop :=
  match ls with
  | [] => a = fin t
  | l :: ls => exists k, a = AWrite name off l k /\ g_lines t name (off + String.length l) ls (k true)
  end.

Section Forms.
Context `{GoSort} `{JsonCodec}.

(** The files are to be read, and then [lines] to be printed, provided that
    the pairs read are [all] in some order. *)
Fixpoint g_reads (t : MRTask) (name : string) (all : list KeyValue) (ls : list string)
    (files : list string) (acc : list KeyValue) (a : Act unit) : Prop :=
  match files with
  | [] => exists k, a = ACreate name k /\ (acc ≡ₚ all -> g_lines t name 0 ls (k true))
  | x :: files => exists k, a = ARead x k /\
      forall c kvs, json_decode c = Some kvs -> g_reads t name all ls files (acc ++ kvs) (k (Some c))
  end.

Lemma files_writing t rem a : g_files t rem a -> writing a = None.
Proof. destruct rem as [|[name c] rem]; [by intros ->|]. by intros (k & k' & -> & _). Qed.

Lemma lines_writing t name off ls a :
  g_lines t name off ls a -> writing a = match ls with [] => None | _ => Some name end.
Proof. destruct ls as [|l ls]; [by intros ->|]. by intros (k & -> & _). Qed.

Lemma reads_writing t name all ls files acc a : g_reads t name all ls files acc a -> writing a = None.
Proof. destruct files as [|x files]; by intros (k & -> & _). Qed.

(** *** The tasks have these forms *)

Variable mapf : string -> string -> GoRun (list KeyValue).
Variable reducef : string -> list string -> GoRun string.

Definition report_end (t : MRTask) (err : bool) : Act unit :=
  if err then ACall (mkArgs (TaskID t) TaskStateErr) (ARet Exits)
  else ACall (mkArgs (TaskID t) TaskStateFinish) (mret ()).

Lemma write_act_form t (g : Z -> list KeyValue) (z : list string * bool) (k : nat) : forall idx names,
  g_files t ((fun i => (mid_name (TaskID t) i, json_encode (g i))) <$> seqZ idx (Z.of_nat k))
    ('(_, err) ← act_recovering (mkArgs (TaskID t) TaskStateErr) z
                   (write_act (TaskID t) idx (g <$> seqZ idx (Z.of_nat k)) names); report_end t err).
Proof.
  induction k as [|k IH]; intros idx names; [done|].
  rewrite seqZ_cons by lia. replace (Z.pred (Z.of_nat (S k))) with (Z.of_nat k) by lia.
  cbn [fmap list_fmap g_files write_act]. do 2 eexists. split; [reflexivity|]. split; [reflexivity|].
  rewrite <-Z.add_1_r. apply IH.
Qed.

Lemma map_act_form t content kvs :
  Phase t = MapPhase -> 0 < NReduce t -> mapf (Filename t) content = Returns kvs ->
  exists k, task_act mapf reducef t = ARead (Filename t) k /\ g_files t (map_files t kvs) (k (Some content)).
Proof.
  intros Hp Hn Hm. unfold task_act, doMap_act. rewrite Hp, (proj2 (Z.ltb_ge _ _)) by lia.
  eexists. split; [reflexivity|]. cbn. rewrite Hm. cbn. unfold act_opt. rewrite partition_loop_all by done.
  pose proof (write_act_form t (fun i => bucket (NReduce t) i (sort_ByKey kvs)) ([], false) (Z.to_nat (NReduce t)) 0 []) as Hw.
  rewrite Z2Nat.id in Hw by lia. exact Hw.
Qed.

Variable f : string -> list string -> string.
Hypothesis Hr : forall k vs, reducef k vs = Returns (f k vs).
Hypothesis Hf : forall k vs vs', vs ≡ₚ vs' -> f k vs = f k vs'.

Lemma emit_form t name z g : forall off,
  g_lines t name off (map (fun kvs => line kvs.1 (f kvs.1 kvs.2)) g)
    (err ← act_recovering (mkArgs (TaskID t) TaskStateErr) z (_ ← emit_act reducef g true name off; mret false);
     report_end t err).
Proof.
  induction g as [|[k vs] g IH]; intros off; [done|]. cbn [map g_lines emit_act fst snd]. rewrite Hr.
  eexists. split; [reflexivity|]. apply IH.
Qed.

(** The lines of any sorted arrangement of the pairs. *)
Lemma groups_lines l all :
  StronglySorted key_le l -> l ≡ₚ all -> map (fun kvs => line kvs.1 (f kvs.1 kvs.2)) (groups l) = lines f all.
Proof.
  intros Hs Hp. rewrite groups_sorted by done. rewrite map_map. unfold lines. rewrite (keys_of_perm _ _ Hp).
  apply map_ext. intros k. simpl. by rewrite (Hf _ _ _ (values_of_perm k _ _ Hp)).
Qed.

Lemma read_form t name z all files : forall acc,
  g_reads t name all (lines f all) files acc
    (err ← act_recovering (mkArgs (TaskID t) TaskStateErr) z
       ('(intermediate, err) ← read_act (TaskID t) files acc;
        if (err : bool) then mret true
        else
          let intermediate := sort_ByKey intermediate in
          ACreate name (fun opened =>
            _ ← reduce_act (S (length intermediate)) reducef intermediate opened name 0 0; mret false));
     report_end t err).
Proof.
  induction files as [|x files IH]; intros acc.
  - eexists. split; [reflexivity|]. intros Hp. cbn beta iota. rewrite reduce_act_spec.
    rewrite <-(groups_lines (sort_ByKey acc) all); [apply emit_form|apply sort_ByKey_le|by rewrite sort_ByKey_perm].
  - eexists. split; [reflexivity|]. intros c kvs Hc. cbn. rewrite Hc. apply IH.
Qed.

Lemma reduce_act_form t i :
  Phase t = ReducePhase -> 0 <= i -> Filename t = reduce_pattern i ->
  exists k, task_act mapf reducef t = AGlob (reduce_pattern i) k /\
    forall files all, g_reads t (out_name (Itoa i)) all (lines f all) files [] (k files).
Proof.
  intros Hp Hi Ht. unfold task_act, doReduce_act. rewrite Hp, Ht, last_field_pattern by done.
  eexists. split; [reflexivity|]. intros files all. apply read_form.
Qed.
End Forms.

(** ** Steps outside tasks *)

Section Base.
Context `{GoSort} `{JsonCodec}.
Variable mapf : string -> string -> GoRun (list KeyValue).
Variable reducef : string -> list string -> GoRun string.

Lemma reply_dir p o d s : deliver_reply p o (set_dir d s) = set_dir d (deliver_reply p o s).
Proof. unfold deliver_reply. simpl. destruct (procs s !! p) as [pr|]; [|done]. by destruct (p_pc pr). Qed.

(** They do not look at the directory, *)
Lemma base_dir ev d s :
  base_event ev = true ->
  wstep disk_fine mapf reducef ev (set_dir d s) = set_dir d <$> wstep disk_fine mapf reducef ev s.
Proof.
  assert (Hproc : forall p (F G : Proc -> option MRSystem),
    (forall pr, F pr = set_dir d <$> G pr) -> procs s !! p ≫= F = set_dir d <$> (procs s !! p ≫= G)).
  { intros p F G HFG. destruct (procs s !! p) as [pr|]; [apply HFG|done]. }
  assert (Hm : forall ev' (F G : System -> option MRSystem),
    (forall S', F S' = set_dir d <$> G S') -> mstep ev' (sys s) ≫= F = set_dir d <$> (mstep ev' (sys s) ≫= G)).
  { intros ev' F G HFG. destruct (mstep ev' (sys s)) as [S'|]; [apply HFG|done]. }
  intros Hb. destruct ev as [|p lost|p ks|k|k|k now|p|p|p|p|p|k|p lost now|p|p k|p| |k now|k|k now]; try done; cbn [wstep];
    try (apply Hproc; intros pr).
  - destruct (p_pc pr); try done. by apply Hm.
  - destruct (p_pc pr); try done. apply Hm. intros S'. simpl. by destruct (find_retry _ _ _).
  - apply Hm. intros S'. simpl. destruct (waitp s !! k) as [q|]; [|done]. simpl. destruct (sending _); [done|].
    exact (f_equal Some (reply_dir q None d (set_queues (delete k (waitp s)) (gotp s) (set_sys _ s)))).
  - by apply Hm.
  - unfold step_create. simpl. destruct (got (sys s) !! k) as [g|]; [|done]. cbn [mbind option_bind].
    destruct (g_phase g); [|done]. cbn [mbind option_bind].
    apply Hm. intros S'. simpl. destruct (gotp s !! k) as [q|]; [|done].
    exact (f_equal Some (reply_dir q _ d (set_queues (waitp s) (delete k (gotp s)) (set_sys _ s)))).
  - by destruct (p_pc pr).
  - by destruct (p_pc pr).
  - by destruct (p_pc pr) as [| | | | |[|? ?] ?| |].
  - by destruct (p_pc pr) as [| | | | |[|? ?] ?| |].
  - unfold step_deliver. simpl. destruct (reports s !! k); [|done]. by apply Hm.
  - case_guard; [|done]. simpl. destruct (p_task pr); [|done]. by apply Hm.
  - destruct (p_pc pr); try done. by apply Hm.
  - change (sys (set_dir d s)) with (sys s). by destruct (guard (exited (sys s) = true)).
  - by apply Hm.
  - by apply Hm.
  - by apply Hm.
  - unfold step_store. simpl. destruct (stores (sys s) !! k) as [st|]; [|done]. cbn [mbind option_bind].
    apply Hm. intros S'. simpl. destruct (storep s !! k) as [[q|]|]; [|done..].
    exact (f_equal Some (reply_dir q _ d (set_storep (delete k (storep s)) (set_sys _ s)))).
Qed.

Lemma base_same_dir ev s s' :
  base_event ev = true -> wstep disk_fine mapf reducef ev s = Some s' -> dir s' = dir s.
Proof.
  intros Hb Hst. pose proof (base_dir ev (dir s) s Hb) as He. rewrite Hst in He.
  assert (Hs : set_dir (dir s) s = s) by (by destruct s). rewrite Hs, Hst in He. simpl in He.
  injection He as He. by rewrite He.
Qed.

(** and leave a process alone that is running a task, unless they end it. *)
Definition stays (p : nat) (pr : Proc) (s : MRSystem) : Prop :=
  exists pr', procs s !! p = Some pr' /\ (p_pc pr' = p_pc pr \/ p_pc pr' = PGone).

Lemma stays_set p pr s q prq prq' x :
  procs s !! p = Some pr -> procs s !! q = Some prq -> procs x = procs s ->
  (q = p -> p_pc prq' = p_pc pr \/ p_pc prq' = PGone) -> stays p pr (set_proc q prq' x).
Proof.
  intros Hp Hq Hx Hpq. unfold stays. simpl. rewrite Hx. destruct (decide (q = p)) as [->|Hne].
  - exists prq'. rewrite list_lookup_insert_eq by (by eapply lookup_lt_Some). auto.
  - exists pr. rewrite list_lookup_insert_ne by done. auto.
Qed.

Lemma stays_reply p pr s q o x :
  procs s !! p = Some pr -> (exists t, p_pc pr = PWork t) \/ p_pc pr = PGone -> procs x = procs s ->
  stays p pr (deliver_reply q o x).
Proof.
  intros Hp Hpc Hx. assert (Hsame : stays p pr x) by (exists pr; rewrite Hx; auto). unfold deliver_reply.
  destruct (procs x !! q) as [prq|] eqn:Eq; [|done]. destruct (p_pc prq) eqn:Epc; try done. rewrite Hx in Eq.
  eapply stays_set; [exact Hp|exact Eq|done|]. intros ->. rewrite Hp in Eq. injection Eq as ->.
  exfalso. rewrite Epc in Hpc. naive_solver.
Qed.

Lemma base_proc ev s s' p pr :
  base_event ev = true -> wstep disk_fine mapf reducef ev s = Some s' -> procs s !! p = Some pr ->
  (exists t, p_pc pr = PWork t) \/ p_pc pr = PGone -> stays p pr s'.
Proof.
  intros Hb Hst Hp Hpc. assert (Hsame : forall x, procs x = procs s -> stays p pr x) by (intros x Hx; exists pr; rewrite Hx; auto).
  pose proof (stays_set p pr s) as Hset. specialize (fun q prq prq' x => Hset q prq prq' x Hp).
  pose proof (fun q o x => stays_reply p pr s q o x Hp Hpc) as Hreply.
  assert (Hno : forall q prq, procs s !! q = Some prq -> q = p -> prq = pr) by (intros q prq Hq ->; congruence).
  destruct ev as [|q lost|q ks|k|k|k now|q|q|q|q|q|k|q lost now|q|q k|q| |k now|k|k now]; try done; cbn [wstep] in Hst;
    unfold step_register, step_get, step_recv, step_create, step_timeout, step_running, step_report, step_next,
      step_deliver, step_beat, step_close, step_dial, step_store in Hst;
    try (destruct (procs s !! q) as [prq|] eqn:Eq; [|done]; simpl in Hst; specialize (Hno q prq Eq)).
  - injection Hst as <-. exists pr. split; [|auto]. by apply lookup_app_l_Some.
  - destruct (p_pc prq) eqn:Epc; try done. destruct (mstep _ _); [|done]. injection Hst as <-.
    eapply Hset; [done|done|]. intros ->%Hno. rewrite Epc in Hpc. naive_solver.
  - destruct (p_pc prq) eqn:Epc; try done. destruct (mstep _ _); [|done]. simpl in Hst.
    destruct (find_retry _ _ _); injection Hst as <-; (eapply (Hset q prq (set_ppc PAsked prq)); [done|done|]);
      intros ->%Hno; rewrite Epc in Hpc; naive_solver.
  - destruct (mstep _ _); [|done]. simpl in Hst. destruct (waitp s !! k); [|done]. simpl in Hst.
    destruct (sending _); injection Hst as <-; [by apply Hsame|by apply Hreply].
  - destruct (mstep _ _); [|done]. injection Hst as <-. by apply Hsame.
  - destruct (got (sys s) !! k) as [g|]; [|done]. cbn [mbind option_bind] in Hst.
    destruct (g_phase g); [|done]. cbn [mbind option_bind] in Hst.
    destruct (mstep _ _); [|done]. cbn [mbind option_bind] in Hst. destruct (gotp s !! k); [|done].
    apply (inj Some) in Hst as <-. by apply Hreply.
  - destruct (p_pc prq) eqn:Epc; try done. injection Hst as <-. eapply Hset; [done|done|]. by right.
  - destruct (p_pc prq) eqn:Epc; try done. injection Hst as <-. eapply Hset; [done|done|].
    intros ->%Hno. rewrite Epc in Hpc. naive_solver.
  - destruct (p_pc prq) as [| | | | |[|? ?] ?| |] eqn:Epc; try done. injection Hst as <-. eapply Hset; [done|done|].
    intros ->%Hno. rewrite Epc in Hpc. naive_solver.
  - destruct (p_pc prq) as [| | | | |[|? ?] ?| |] eqn:Epc; try done. injection Hst as <-. eapply Hset; [done|done|].
    intros ->%Hno. rewrite Epc in Hpc. naive_solver.
  - destruct (reports s !! k); [|done]. simpl in Hst. destruct (mstep _ _); [|done]. injection Hst as <-. by apply Hsame.
  - case_guard; [|done]. simpl in Hst. destruct (p_task prq); [|done]. simpl in Hst. destruct (mstep _ _); [|done].
    injection Hst as <-. eapply Hset; [done|done|]. intros ->%Hno. unfold beaten. destruct (call _ _); auto.
  - destruct (p_pc prq) eqn:Epc; try done. destruct (mstep _ _); [|done]. injection Hst as <-.
    eapply Hset; [done|done|]. by right.
  - case_guard; [|done]. injection Hst as <-. eapply Hset; [done|done|]. by right.
  - destruct (mstep _ _); [|done]. injection Hst as <-. by apply Hsame.
  - destruct (mstep _ _); [|done]. injection Hst as <-. by apply Hsame.
  - destruct (mstep _ _); [|done]. injection Hst as <-. by apply Hsame.
  - destruct (stores (sys s) !! k) as [st|]; [|done]. cbn [mbind option_bind] in Hst.
    destruct (mstep _ _); [|done]. cbn [mbind option_bind] in Hst. destruct (storep s !! k) as [who|]; [|done].
    apply (inj Some) in Hst as <-. destruct who; [by apply Hreply|by apply Hsame].
Qed.
End Base.

(** ** Files being written *)

(** How much of [name], which is to hold [c], the process that created it last
    has written. *)
Definition written (o : option (Act unit)) (name c : string) : nat :=
  match o with
  | Some (AWrite name' off _ _) => if bool_decide (name' = name) then off else String.length c
  | _ => String.length c
  end.

(** The file [name] of a fine system against its content in [d]. *)
Definition file_rel (s : FineSystem) (d : FS) (name : string) : Prop :=
  match dir (fbase s) !! name, d !! name with
  | Some c, Some c' =>
      match fowner s !! name with
      | Some p => agree (written (facts s !! p) name c') c c'
      | None => c = c'
      end
  | None, None => True
  | _, _ => False
  end.

Definition files_rel (s : FineSystem) (d : FS) : Prop := forall name, file_rel s d name.

Lemma written_idle o name c : (o ≫= writing) <> Some name -> written o name c = String.length c.
Proof.
  destruct o as [[| | | | |name' off ch k]|]; try done. simpl. intros Hne. rewrite bool_decide_eq_false_2; [done|]. by intros ->.
Qed.

Lemma files_rel_Some s d name : files_rel s d -> is_Some (dir (fbase s) !! name) <-> is_Some (d !! name).
Proof.
  intros Hr. specialize (Hr name). unfold file_rel in Hr.
  destruct (dir (fbase s) !! name), (d !! name); try done; split; intros [? ?]; done.
Qed.

(** A file that is whole has its content. *)
Lemma whole_same s d name : files_rel s d -> whole s name = true -> dir (fbase s) !! name = d !! name.
Proof.
  intros Hr Hw. specialize (Hr name). unfold file_rel in Hr. unfold whole in Hw.
  destruct (dir (fbase s) !! name) as [c|], (d !! name) as [c'|]; try done.
  destruct (fowner s !! name) as [p|]; [|by subst]. simpl in Hw. rewrite written_idle in Hr; [by rewrite (agree_all _ _ Hr)|].
  destruct (facts s !! p) as [a|]; [|done]. by apply bool_decide_eq_true in Hw.
Qed.

(** The actions of a process may change as long as it is not writing. *)
Lemma files_rel_facts s d facts' b :
  files_rel s d -> dir b = dir (fbase s) ->
  (forall p, facts' !! p = facts s !! p \/ ((facts s !! p ≫= writing) = None /\ (facts' !! p ≫= writing) = None)) ->
  files_rel (mkFine b facts' (fowner s)) d.
Proof.
  intros Hr Hb Hf name. specialize (Hr name). unfold file_rel in *. cbn [fbase facts fowner]. rewrite Hb.
  destruct (dir (fbase s) !! name) as [c|], (d !! name) as [c'|]; try done. destruct (fowner s !! name) as [p|]; [|done].
  destruct (Hf p) as [->|[H1 H2]]; [done|]. rewrite written_idle in Hr |- * by congruence. done.
Qed.

Lemma files_rel_act s d p a a' b :
  files_rel s d -> dir b = dir (fbase s) -> facts s !! p = Some a -> writing a = None -> writing a' = None ->
  files_rel (mkFine b (<[p := a']> (facts s)) (fowner s)) d.
Proof.
  intros Hr Hb Ha Hw Hw'. apply files_rel_facts; [done|done|]. intros q. destruct (decide (p = q)) as [<-|Hne].
  - right. rewrite Ha, lookup_insert_eq. done.
  - left. by rewrite lookup_insert_ne.
Qed.

(** Creating a file that is to hold [c]. *)
Lemma files_rel_create s d p a' name c :
  files_rel s d -> (facts s !! p ≫= writing) = None -> written (Some a') name c = 0%nat ->
  (forall x, writing a' = Some x -> x = name) ->
  files_rel (mkFine (set_dir (<[name := ""]> (dir (fbase s))) (fbase s)) (<[p := a']> (facts s))
    (<[name := p]> (fowner s))) (<[name := c]> d).
Proof.
  intros Hr Ha Hw Hx x. specialize (Hr x). unfold file_rel in *. cbn [fbase facts fowner set_dir dir].
  destruct (decide (name = x)) as [<-|Hne].
  - rewrite !lookup_insert_eq, Hw. simpl. lia.
  - rewrite !(lookup_insert_ne _ name) by done.
    destruct (dir (fbase s) !! x) as [cx|], (d !! x) as [cx'|]; try done. destruct (fowner s !! x) as [q|]; [|done].
    destruct (decide (p = q)) as [<-|Hpq]; [|by rewrite lookup_insert_ne].
    rewrite lookup_insert_eq. rewrite written_idle in Hr by congruence. rewrite written_idle; [done|].
    simpl. intros Hwx. by apply Hx in Hwx.
Qed.

(** Writing the right bytes at the right place. *)
Lemma files_rel_write s d p k a' name q chunk rest :
  files_rel s d -> facts s !! p = Some (AWrite name (String.length q) chunk k) ->
  d !! name = Some (q +:+ chunk +:+ rest) ->
  written (Some a') name (q +:+ chunk +:+ rest) = (String.length q + String.length chunk)%nat ->
  (forall x, writing a' = Some x -> x = name) ->
  files_rel (mkFine (set_dir (<[name := splice (String.length q) chunk (default "" (dir (fbase s) !! name))]>
    (dir (fbase s))) (fbase s)) (<[p := a']> (facts s)) (fowner s)) d.
Proof.
  intros Hr Ha Hd Hw Hx x. specialize (Hr x). unfold file_rel in *. cbn [fbase facts fowner set_dir dir].
  destruct (decide (name = x)) as [<-|Hne].
  - rewrite Hd in *. rewrite lookup_insert_eq. destruct (dir (fbase s) !! name) as [c|]; [|done]. cbn [default].
    destruct (fowner s !! name) as [o|].
    + destruct (decide (p = o)) as [<-|Hpo].
      * rewrite lookup_insert_eq, Hw. rewrite Ha in Hr. simpl in Hr. rewrite bool_decide_eq_true_2 in Hr by done.
        by apply agree_write.
      * rewrite lookup_insert_ne by done. by apply agree_splice.
    + subst c. apply agree_all, agree_splice, agree_refl.
  - rewrite lookup_insert_ne by done.
    destruct (dir (fbase s) !! x) as [cx|], (d !! x) as [cx'|]; try done. destruct (fowner s !! x) as [o|]; [|done].
    destruct (decide (p = o)) as [<-|Hpo]; [|by rewrite lookup_insert_ne].
    rewrite lookup_insert_eq. rewrite Ha in Hr. rewrite written_idle in Hr by (simpl; congruence).
    rewrite written_idle; [done|]. simpl. intros Hwx. by apply Hx in Hwx.
Qed.

(** ** The invariant *)

Section Inv.
Context `{GoSort} `{JsonCodec}.
Variable fs : list string.
Variable n : Z.
Variable m : string -> string -> list KeyValue.
Variable mapf : string -> string -> GoRun (list KeyValue).
Variable reducef : string -> list string -> GoRun string.
Variable f : string -> list string -> string.
Variable fs0 : FS.

(** The files of a map task. *)
Definition files_of (t : MRTask) : list (string * string) :=
  map_files t (m (Filename t) (default "" (fs0 !! Filename t))).

(** The pairs and the lines of reduce task [i], with the map tasks [ts]. *)
Definition in_pairs (ts : list MRTask) (i : Z) : list KeyValue := bucket n i (all_pairs m fs0 ts).
Definition out_lines (ts : list MRTask) (i : Z) : list string := lines f (in_pairs ts i).

(** What is left of task [t], where [d] has all files as they are to be. *)
Inductive act_ok (ts : list MRTask) (d : FS) (t : MRTask) : Act unit -> Prop :=
  | ok_map_start k :
      Phase t = MapPhase -> g_files t (files_of t) (k (fs0 !! Filename t)) -> act_ok ts d t (ARead (Filename t) k)
  | ok_map_files pre rem a :
      Phase t = MapPhase -> files_of t = pre ++ rem -> (forall w, w ∈ pre -> is_Some (d !! w.1)) ->
      g_files t rem a -> act_ok ts d t a
  | ok_map_write pre name c rem k :
      Phase t = MapPhase -> files_of t = pre ++ (name, c) :: rem ->
      (forall w, w ∈ pre ++ [(name, c)] -> is_Some (d !! w.1)) ->
      g_files t rem (k true) -> act_ok ts d t (AWrite name 0 c k)
  | ok_reduce_start i k :
      Phase t = ReducePhase -> 0 <= i < n -> Filename t = reduce_pattern i ->
      (forall files, g_reads t (out_name (Itoa i)) (in_pairs ts i) (out_lines ts i) files [] (k files)) ->
      act_ok ts d t (AGlob (reduce_pattern i) k)
  | ok_reduce_reads i us vs acc a :
      Phase t = ReducePhase -> 0 <= i < n -> Filename t = reduce_pattern i ->
      us ++ vs ≡ₚ ts -> acc ≡ₚ concat ((fun u => bucket n i (pairs m fs0 u)) <$> us) ->
      g_reads t (out_name (Itoa i)) (in_pairs ts i) (out_lines ts i) ((fun u => mid_name (TaskID u) i) <$> vs) acc a ->
      act_ok ts d t a
  | ok_reduce_lines i ls rest a :
      Phase t = ReducePhase -> 0 <= i < n -> Filename t = reduce_pattern i ->
      is_Some (d !! out_name (Itoa i)) -> out_lines ts i = ls ++ rest ->
      g_lines t (out_name (Itoa i)) (String.length (text ls)) rest a -> act_ok ts d t a
  | ok_end : act_ok ts d t (ARet (Returns ())).

Lemma act_ok_mono ts ts' d d' t a :
  (Phase t = ReducePhase -> ts' = ts) -> grows d d' -> act_ok ts d t a -> act_ok ts' d' t a.
Proof.
  intros Hts Hg. destruct 1 as [k ? ?|pre rem a ? ? ? ?|pre name c rem k ? ? ? ?|i k Hp ? ? ?|i us vs acc a Hp ? ? ? ? ?
    |i ls rest a Hp ? ? ? ? ?|]; try (rewrite (Hts Hp)).
  - by apply ok_map_start.
  - eapply ok_map_files; eauto.
  - eapply ok_map_write; eauto.
  - by eapply ok_reduce_start.
  - by eapply ok_reduce_reads.
  - eapply ok_reduce_lines; eauto.
  - apply ok_end.
Qed.

(** The intermediate files hold exactly what the tasks write. *)
Definition exact (M : Master) (d : FS) : Prop :=
  forall name c, d !! name = Some c ->
    fs0 !! name = Some c \/ (exists t, known M t /\ Phase t = MapPhase /\ (name, c) ∈ files_of t) \/
    (exists i, 0 <= i < n /\ name = out_name (Itoa i)).

Definition proc_at (s : MRSystem) (p : nat) (t : MRTask) : Prop :=
  exists pr, procs s !! p = Some pr /\ (p_pc pr = PWork t \/ p_pc pr = PGone).

Record finv_at (s : FineSystem) (d : FS) : Prop := {
  fi_w : winv fs n m f fs0 (set_dir d (fbase s));
  fi_exact : exact (master (sys (fbase s))) d;
  fi_rel : files_rel s d;
  fi_acts : forall p a, facts s !! p = Some a -> exists t,
    proc_at (fbase s) p t /\ known (master (sys (fbase s))) t /\
    act_ok (map_tasks (master (sys (fbase s)))) d t a;
}.

(** The invariant. *)
Definition finv (s : FineSystem) : Prop := exists d, finv_at s d.

Hypothesis Happ : app_ok fs n m mapf reducef f fs0.

Lemma known_reduce S d t :
  sys_inv fs n m f fs0 S d -> exited S = false -> known (master S) t -> Phase t = ReducePhase ->
  map_side (pc S) = false /\ exists i, 0 <= i < n /\ Filename t = reduce_pattern i.
Proof.
  intros Hi Hex (t0 & Ht0 & Hc) Hp. destruct (sys_facts _ _ _ _ _ _ _ Happ S (si_pre _ _ _ _ _ _ _ Hi) Hex) as (Hs & Hev & _).
  injection Hc as E1 E2 E3 E4. split; [eapply (si_phase _ _ _ _ _ _ _ Hi); [exact Ht0|congruence]|].
  destruct (task_planned fs n S _ t0 Hev Ht0) as [[? _]|[_ (i & Hi0 & Hfile)]]; [congruence|]. exists i. by rewrite <-E4.
Qed.

(** Everything that is not part of a task. *)
Lemma finv_base ev s s' :
  finv s -> wpunctual ev (fbase s) -> base_event ev = true ->
  wstep disk_fine mapf reducef ev (fbase s) = Some s' -> exited (sys s') = false ->
  finv (mkFine s' (facts s) (fowner s)).
Proof.
  intros [d Hi] Hpu Hb Hst Hex. exists d. pose proof Hi as [Hw He Hr Ha].
  assert (Hst' : wstep disk_fine mapf reducef ev (set_dir d (fbase s)) = Some (set_dir d s'))
    by (by rewrite base_dir, Hst).
  assert (Hex0 : exited (sys (fbase s)) = false).
  { destruct (wstep_sys _ _ _ _ _ Hst) as [E|[ev' E]]; [by rewrite <-E|by eapply exited_before]. }
  pose proof (wi_sys _ _ _ _ _ _ Hw) as Hsys.
  destruct (sys_facts _ _ _ _ _ _ _ Happ _ (si_pre _ _ _ _ _ _ _ Hsys) Hex0) as (Hok & _ & _ & Hread).
  assert (Htasks : ext (master (sys (fbase s))) (master (sys s')) /\
    (map_side (pc (sys (fbase s))) = false -> map_tasks (master (sys s')) = map_tasks (master (sys (fbase s))))).
  { destruct (wstep_sys _ _ _ _ _ Hst) as [E|[ev' E]]; [rewrite E|by eapply mstep_tasks].
    split; [reflexivity|done]. }
  destruct Htasks as [Hext Hmt]. split; cbn [fbase facts fowner].
  - by eapply (winv_step fs n m mapf reducef f fs0 Happ ev).
  - intros name c Hc. destruct (He name c Hc) as [?|[(t & Hk & ? & ?)|?]]; [by left| |by right; right].
    right. left. exists t. split_and!; [by eapply known_mono|done..].
  - apply files_rel_facts; [done|by eapply base_same_dir|by left].
  - intros p a Hp. destruct (Ha p a Hp) as (t & (pr & Hpr & Hpc) & Hk & Hact). exists t. split_and!.
    + destruct (base_proc mapf reducef ev (fbase s) s' p pr Hb Hst Hpr) as (pr' & Hpr' & Hpc'); [naive_solver|].
      exists pr'. split; [done|]. destruct Hpc' as [->|]; auto.
    + by eapply known_mono.
    + eapply act_ok_mono; [|apply grows_refl|exact Hact]. intros Hp0.
      destruct (known_reduce _ _ t Hsys Hex0 Hk Hp0) as [Hms _]. by apply Hmt.
Qed.

(** *** Tasks *)

(** An action that changes no file. *)
Lemma finv_upd s d p t a' b :
  finv_at s d -> winv fs n m f fs0 (set_dir d b) -> dir b = dir (fbase s) -> sys b = sys (fbase s) ->
  procs b = procs (fbase s) -> (facts s !! p ≫= writing) = None -> writing a' = None -> proc_at (fbase s) p t ->
  known (master (sys (fbase s))) t -> act_ok (map_tasks (master (sys (fbase s)))) d t a' ->
  finv_at (mkFine b (<[p := a']> (facts s)) (fowner s)) d.
Proof.
  intros [Hw He Hr Ha] Hw' Hd Hs Hp Hwr Hwr' Hpa Hk Hact. split; cbn [fbase facts fowner]; rewrite ?Hs; try done.
  - apply files_rel_facts; [done|done|]. intros q. destruct (decide (p = q)) as [<-|Hne].
    + right. by rewrite lookup_insert_eq.
    + left. by rewrite lookup_insert_ne.
  - intros q a. unfold proc_at. rewrite Hp. intros [[<- <-]|[_ Hq]]%lookup_insert_Some; [by exists t|by apply Ha].
Qed.

(** The creation of a file that is to hold [c]. *)
Lemma finv_create s d p t a' name c :
  finv_at s d -> sys_inv fs n m f fs0 (sys (fbase s)) (<[name := c]> d) ->
  exact (master (sys (fbase s))) (<[name := c]> d) -> (facts s !! p ≫= writing) = None ->
  written (Some a') name c = 0%nat -> (forall x, writing a' = Some x -> x = name) -> proc_at (fbase s) p t ->
  known (master (sys (fbase s))) t -> act_ok (map_tasks (master (sys (fbase s)))) (<[name := c]> d) t a' ->
  finv_at (mkFine (set_dir (<[name := ""]> (dir (fbase s))) (fbase s)) (<[p := a']> (facts s)) (<[name := p]> (fowner s)))
    (<[name := c]> d).
Proof.
  intros [Hw He Hr Ha] Hs' He' Hwr Hwr' Hx Hpa Hk Hact.
  assert (Hg : grows d (<[name := c]> d)).
  { intros x Hxs. destruct (decide (name = x)) as [<-|Hne]; [rewrite lookup_insert_eq; eauto|by rewrite lookup_insert_ne]. }
  split; cbn [fbase facts fowner].
  - exact (winv_dir fs n m f fs0 _ (set_dir d (fbase s)) Hw Hs' Hg).
  - done.
  - by apply files_rel_create.
  - intros q a [[<- <-]|[_ Hq]]%lookup_insert_Some; [by exists t|]. destruct (Ha q a Hq) as (u & Hu & Hku & Hau).
    exists u. split_and!; [done|done|]. by eapply act_ok_mono.
Qed.

(** A write to a file that is to hold what is written. *)
Lemma finv_write s d p t k name q chunk rest :
  finv_at s d -> facts s !! p = Some (AWrite name (String.length q) chunk k) ->
  d !! name = Some (q +:+ chunk +:+ rest) ->
  written (Some (k true)) name (q +:+ chunk +:+ rest) = (String.length q + String.length chunk)%nat ->
  (forall x, writing (k true) = Some x -> x = name) -> proc_at (fbase s) p t ->
  known (master (sys (fbase s))) t -> act_ok (map_tasks (master (sys (fbase s)))) d t (k true) ->
  finv_at (mkFine (set_dir (<[name := splice (String.length q) chunk (default "" (dir (fbase s) !! name))]>
    (dir (fbase s))) (fbase s)) (<[p := k true]> (facts s)) (fowner s)) d.
Proof.
  intros [Hw He Hr Ha] Hp Hd Hwr Hx Hpa Hk Hact. split; cbn [fbase facts fowner]; [done|done|by eapply files_rel_write|].
  intros x a [[<- <-]|[_ Hq]]%lookup_insert_Some; [by exists t|by apply Ha].
Qed.

(** The report at the end. *)
Lemma finv_fin s d p t :
  finv_at s d -> facts s !! p = Some (fin t) -> proc_at (fbase s) p t -> known (master (sys (fbase s))) t ->
  completed n d t ->
  finv_at (mkFine (set_reports (reports (fbase s) ++ [mkArgs (TaskID t) TaskStateFinish]) (fbase s))
    (<[p := ARet (Returns ())]> (facts s)) (fowner s)) d.
Proof.
  intros Hi Hp Hpa Hk Hc. apply (finv_upd s d p t); try done; [|by rewrite Hp|apply ok_end].
  apply (winv_reports fs n m f fs0 _ (set_dir d (fbase s))); [by apply fi_w|].
  intros a [Ha|Ha%list_elem_of_singleton]%elem_of_app; [by left|right]. subst a. intros _.
  destruct Hk as (t0 & Ht0 & Hc0). exists t0. split; [done|]. by apply (completed_mono n d d t t0).
Qed.

(** What a known map task writes is what its file is to hold. *)
Lemma exact_file S d t name c :
  exact (master S) d -> sys_inv fs n m f fs0 S d -> exited S = false -> known (master S) t -> Phase t = MapPhase ->
  (name, c) ∈ files_of t -> is_Some (d !! name) -> d !! name = Some c.
Proof.
  intros He Hsys Hex Hk Hp Hin [c' Hc']. rewrite Hc'. f_equal.
  destruct (known_map _ _ _ _ _ _ _ Happ S t (si_pre _ _ _ _ _ _ _ Hsys) Hex Hk Hp) as (_ & Hn & _ & Hid).
  apply elem_of_map_files in Hin as (i & Hi & -> & ->).
  destruct (He _ _ Hc') as [Hc0|[(u & Hku & Hpu & Hin)|(j & Hj & Heq)]].
  - by rewrite (ap_dir _ _ _ _ _ _ _ Happ _ : fs0 !! mid_name (TaskID t) i = None) in Hc0.
  - destruct (known_map _ _ _ _ _ _ _ Happ S u (si_pre _ _ _ _ _ _ _ Hsys) Hex Hku Hpu) as (_ & Hnu & _ & Hidu).
    apply elem_of_map_files in Hin as (j & Hj & Heq & ->). apply mid_name_inj in Heq as [Heq ->]; [|lia..].
    destruct Hk as (t0 & Ht0 & Hc), Hku as (u0 & Hu0 & Hcu). rewrite <-Heq, Ht0 in Hu0. injection Hu0 as <-.
    rewrite Hcu in Hc. unfold core in Hc. injection Hc as _ E2 _ E4. by rewrite E2, E4.
  - symmetry in Heq. apply out_mid_ne in Heq; [done|lia].
Qed.

Lemma exact_insert M d name c :
  exact M d -> (exists t, known M t /\ Phase t = MapPhase /\ (name, c) ∈ files_of t) \/
    (exists i, 0 <= i < n /\ name = out_name (Itoa i)) -> exact M (<[name := c]> d).
Proof. intros He Hn x cx [[<- <-]|[_ Hx]]%lookup_insert_Some; [by right|by apply He]. Qed.

(** The next action of a map task. *)
Lemma finv_map_act s d p pr t a :
  finv_at s d -> exited (sys (fbase s)) = false -> facts s !! p = Some a -> proc_at (fbase s) p t ->
  known (master (sys (fbase s))) t -> Phase t = MapPhase -> a <> ARet (Returns ()) ->
  act_ok (map_tasks (master (sys (fbase s)))) d t a ->
  match a with ARead name _ => whole s name = true | _ => True end ->
  finv (act_step p pr true a s).
Proof.
  intros Hi Hex Hp Hpa Hk Hph Hend Hact Hclean. pose proof Hi as [Hw He Hr Ha].
  pose proof (wi_sys _ _ _ _ _ _ Hw : sys_inv fs n m f fs0 (sys (fbase s)) d) as Hsys.
  destruct (known_map _ _ _ _ _ _ _ Happ _ t (si_pre _ _ _ _ _ _ _ Hsys) Hex Hk Hph) as (_ & Hn & Hf & Hid).
  assert (Hc : forall pre, files_of t = pre -> (forall w, w ∈ pre -> is_Some (d !! w.1)) -> completed n d t).
  { intros pre Hpre Hall. unfold completed. rewrite Hph. intros i Hi0.
    apply (Hall (mid_name (TaskID t) i, json_encode (bucket (NReduce t) i (sort_ByKey (m (Filename t) (default "" (fs0 !! Filename t))))))).
    rewrite <-Hpre. apply elem_of_map_files. exists i. by rewrite Hn. }
  inversion Hact as [k _ Hk0|pre rem a0 _ Hpre Hall Hg|pre name c rem k _ Hpre Hall Hg|? ? Hc0|? ? ? ? ? Hc0|? ? ? ? Hc0|]; subst;
    try congruence.
  - exists d. cbn [act_step]. rewrite (whole_same s d _ Hr Hclean), (si_input _ _ _ _ _ _ _ Hsys _ Hf).
    apply (finv_upd s d p t _ (fbase s)); try done; [by rewrite Hp|by eapply files_writing|].
    eapply (ok_map_files _ _ _ [] (files_of t)); try done. intros w Hw0. by apply not_elem_of_nil in Hw0.
  - destruct rem as [|[name c] rem]; cbn [g_files] in Hg.
    + subst a. exists d. cbn [act_step fin]. apply finv_fin; try done. rewrite app_nil_r in Hpre. by eapply Hc.
    + destruct Hg as (k & k' & -> & Hk1 & Hg). exists (<[name := c]> d). cbn [act_step].
      assert (Hin : (name, c) ∈ files_of t) by (rewrite Hpre; apply elem_of_app; right; by left).
      apply (finv_create s d p t); try done; rewrite ?Hk1.
      * apply (inv_map_writes fs n m mapf reducef f fs0 Happ _ d t [(name, c)]); try done.
        by intros w ->%list_elem_of_singleton.
      * apply exact_insert; [done|]. left. by exists t.
      * by rewrite Hp.
      * simpl. by rewrite bool_decide_eq_true_2.
      * by intros x [= <-].
      * eapply ok_map_write; [done|exact Hpre| |exact Hg]. intros w Hw0. destruct (decide (w.1 = name)) as [->|Hne].
        -- rewrite lookup_insert_eq. eauto.
        -- rewrite lookup_insert_ne by done. apply elem_of_app in Hw0 as [?|Hw0%list_elem_of_singleton]; [auto|by subst].
  - exists d. cbn [act_step].
    assert (Hin : (name, c) ∈ files_of t) by (rewrite Hpre; apply elem_of_app; right; by left).
    assert (Hdc : d !! name = Some c).
    { eapply exact_file; try done. apply (Hall (name, c)). apply elem_of_app. right. by left. }
    assert (Hcc : "" +:+ c +:+ "" = c) by (apply append_nil).
    pose proof (files_writing _ _ _ Hg) as Hwr.
    apply (finv_write s d p t k name "" c ""); try done; rewrite ?Hcc; try done.
    + rewrite written_idle by (simpl; congruence). done.
    + intros x. by rewrite Hwr.
    + eapply ok_map_files; [done|by rewrite Hpre, cons_middle, app_assoc|exact Hall|exact Hg].
Qed.

Lemma in_pairs_all ts us i :
  us ≡ₚ ts -> concat ((fun u => bucket n i (pairs m fs0 u)) <$> us) ≡ₚ in_pairs ts i.
Proof. intros Hus. unfold in_pairs, all_pairs. rewrite bucket_concat, <-list_fmap_compose, Hus. done. Qed.

Lemma text_app ls ls' : text (ls ++ ls') = text ls +:+ text ls'.
Proof.
  induction ls as [|l ls IH]; [done|]. change (text ((l :: ls) ++ ls')) with (l +:+ text (ls ++ ls')).
  rewrite IH. symmetry. apply append_assoc.
Qed.

(** A reduce task writes what its output is to hold. *)
Lemma inv_out S d i :
  sys_inv fs n m f fs0 S d -> exited S = false -> map_side (pc S) = false -> 0 <= i < n ->
  sys_inv fs n m f fs0 S (<[out_name (Itoa i) := text (out_lines (map_tasks (master S)) i)]> d).
Proof.
  intros Hsys Hex Hms Hi. pose proof (job_ok_sys _ _ _ _ _ _ _ Happ S (si_pre _ _ _ _ _ _ _ Hsys) Hex) as Hjob.
  apply (inv_dir fs n m f fs0 S d); [done| | | | |congruence].
  - intros x Hx. destruct (decide (out_name (Itoa i) = x)) as [<-|Hne]; [rewrite lookup_insert_eq; eauto|by rewrite lookup_insert_ne].
  - eapply reduce_write_ok; [exact Hjob|apply (si_dir _ _ _ _ _ _ _ Hsys)|done].
  - intros file Hf. apply lookup_insert_ne. intros Heq. symmetry in Heq.
    by apply (input_not_used _ _ _ _ _ _ _ Happ file ("out." +:+ Itoa i) Hf) in Heq.
  - intros j c Hj [[Heq <-]|[_ Hc]]%lookup_insert_Some; [by apply out_name_inj in Heq as ->|].
    by apply (si_outs _ _ _ _ _ _ _ Hsys).
Qed.

(** The files a reduce task finds. *)
Lemma reduce_files s d i :
  files_rel s d -> sys_inv fs n m f fs0 (sys (fbase s)) d -> exited (sys (fbase s)) = false ->
  map_side (pc (sys (fbase s))) = false -> 0 <= i < n ->
  exists vs, Glob (reduce_pattern i) (dir (fbase s)) = (fun u => mid_name (TaskID u) i) <$> vs /\
    vs ≡ₚ map_tasks (master (sys (fbase s))).
Proof.
  intros Hr Hsys Hex Hms Hi. pose proof (job_ok_sys _ _ _ _ _ _ _ Happ _ (si_pre _ _ _ _ _ _ _ Hsys) Hex) as Hjob.
  pose proof (si_full _ _ _ _ _ _ _ Hsys (or_introl Hms)) as Hfull.
  pose proof (job_Glob _ _ _ _ _ _ Hjob d i (si_dir _ _ _ _ _ _ _ Hsys) Hfull Hi) as Hg.
  assert (Hsame : Glob (reduce_pattern i) (dir (fbase s)) ≡ₚ Glob (reduce_pattern i) d).
  { apply NoDup_Permutation; [apply NoDup_Glob..|]. intros x. by rewrite !elem_of_Glob, (files_rel_Some s d x Hr). }
  rewrite Hg in Hsame. destruct (Permutation_map_inv _ _ Hsame) as (vs & Hvs & Hp). by exists vs.
Qed.

(** The next action of a reduce task. *)
Lemma finv_reduce_act s d p pr t a :
  finv_at s d -> exited (sys (fbase s)) = false -> facts s !! p = Some a -> proc_at (fbase s) p t ->
  known (master (sys (fbase s))) t -> Phase t = ReducePhase -> a <> ARet (Returns ()) ->
  act_ok (map_tasks (master (sys (fbase s)))) d t a ->
  match a with ARead name _ => whole s name = true | _ => True end ->
  finv (act_step p pr true a s).
Proof.
  intros Hi Hex Hp Hpa Hk Hph Hend Hact Hclean. pose proof Hi as [Hw He Hr Ha].
  pose proof (wi_sys _ _ _ _ _ _ Hw : sys_inv fs n m f fs0 (sys (fbase s)) d) as Hsys.
  destruct (known_reduce _ d t Hsys Hex Hk Hph) as [Hms _].
  pose proof (job_ok_sys _ _ _ _ _ _ _ Happ _ (si_pre _ _ _ _ _ _ _ Hsys) Hex) as Hjob.
  pose proof (si_full _ _ _ _ _ _ _ Hsys (or_introl Hms)) as Hfull.
  set (ts := map_tasks (master (sys (fbase s)))) in *.
  inversion Hact as [? Hc0|? ? ? Hc0|? ? ? ? ? Hc0|i k _ Hi0 Hfn Hg|i us vs acc a0 _ Hi0 Hfn Hus Hacc Hg
    |i ls rest a0 _ Hi0 Hfn Hout Hls Hg|]; subst; try congruence.
  - destruct (reduce_files s d i Hr Hsys Hex Hms Hi0) as (vs & Hvs & Hperm). exists d. cbn [act_step]. rewrite Hvs.
    apply (finv_upd s d p t _ (fbase s)); try done; [by rewrite Hp|by eapply reads_writing|].
    eapply (ok_reduce_reads _ _ _ i [] vs []); try done.
  - destruct vs as [|u vs]; cbn [fmap list_fmap g_reads] in Hg.
    + destruct Hg as (k & -> & Hg). rewrite app_nil_r in Hus. exists (<[out_name (Itoa i) := text (out_lines ts i)]> d).
      cbn [act_step]. assert (Hl : g_lines t (out_name (Itoa i)) 0 (out_lines ts i) (k true))
        by (apply Hg; rewrite Hacc; by apply in_pairs_all).
      apply (finv_create s d p t); try done.
      * by apply inv_out.
      * apply exact_insert; [done|]. right. eauto.
      * by rewrite Hp.
      * destruct (out_lines ts i) as [|l ls]; [by rewrite Hl|]. destruct Hl as (k' & -> & _). simpl.
        by rewrite bool_decide_eq_true_2.
      * intros x Hx. rewrite (lines_writing _ _ _ _ _ Hl) in Hx. by destruct (out_lines ts i); [|injection Hx].
      * eapply (ok_reduce_lines _ _ _ i [] (out_lines ts i)); try done. rewrite lookup_insert_eq. eauto.
    + destruct Hg as (k & -> & Hg). exists d. cbn [act_step]. rewrite (whole_same s d _ Hr Hclean).
      assert (Hu : u ∈ ts) by (rewrite <-Hus; apply elem_of_app; right; by left).
      destruct (job_decoded _ _ _ _ _ _ Hjob d u i (si_dir _ _ _ _ _ _ _ Hsys) Hfull Hu Hi0) as [(c & Hc & Hdc) Hb].
      rewrite Hc. specialize (Hg c _ Hdc).
      apply (finv_upd s d p t _ (fbase s)); try done; [by rewrite Hp|by eapply reads_writing|].
      eapply (ok_reduce_reads _ _ _ i (us ++ [u]) vs (acc ++ decoded d (mid_name (TaskID u) i))); try done; [by rewrite <-app_assoc|].
      rewrite fmap_app, concat_app. simpl. by rewrite app_nil_r, Hb, Hacc.
  - destruct rest as [|l rest]; cbn [g_lines] in Hg.
    + subst a. exists d. cbn [act_step fin]. apply finv_fin; try done. unfold completed. rewrite Hph.
      intros j Hj Hpat. destruct (decide (i = j)) as [<-|Hne]; [done|].
      exfalso. apply Hne. rewrite Hfn in Hpat. injection Hpat as Hpat. by apply Itoa_inj.
    + destruct Hg as (k & -> & Hg). exists d. cbn [act_step]. destruct Hout as [c Hc].
      pose proof (si_outs _ _ _ _ _ _ _ Hsys i c Hi0 Hc) as Hcc. fold ts in Hcc. change (c = text (out_lines ts i)) in Hcc.
      rewrite Hls, text_app in Hcc. change (text (l :: rest)) with (l +:+ text rest) in Hcc. subst c.
      apply (finv_write s d p t k (out_name (Itoa i)) (text ls) l (text rest)); try done.
      * destruct rest as [|l' rest]; cbn [g_lines] in Hg.
        -- rewrite Hg. cbn [fin written]. change (text []) with "". by rewrite append_nil, length_append.
        -- destruct Hg as (k' & -> & _). simpl. by rewrite bool_decide_eq_true_2.
      * intros x Hx. rewrite (lines_writing _ _ _ _ _ Hg) in Hx. by destruct rest; [|injection Hx].
      * assert (Hls' : out_lines ts i = (ls ++ [l]) ++ rest) by (by rewrite <-app_assoc).
        apply (ok_reduce_lines _ _ _ i (ls ++ [l]) rest _ Hph Hi0 Hfn (ex_intro _ _ Hc) Hls').
        rewrite text_app. change (text [l]) with (l +:+ ""). by rewrite append_nil, length_append.
Qed.

(** *** Steps *)

Lemma finv_begin s d p pr t :
  finv_at s d -> exited (sys (fbase s)) = false -> procs (fbase s) !! p = Some pr -> p_pc pr = PWork t ->
  facts s !! p = None -> finv_at (set_fact p (task_act mapf reducef t) s) d.
Proof.
  intros Hi Hex Hpr Hpc Hno. pose proof Hi as [Hw He Hr Ha].
  pose proof (wi_sys _ _ _ _ _ _ Hw : sys_inv fs n m f fs0 (sys (fbase s)) d) as Hsys.
  pose proof (winv_lookup fs n m f fs0 _ p pr Hw Hpr) as Hk. unfold proc_ok in Hk. rewrite Hpc in Hk.
  change (known (master (sys (fbase s))) t) in Hk.
  assert (Hact : writing (task_act mapf reducef t) = None /\
    act_ok (map_tasks (master (sys (fbase s)))) d t (task_act mapf reducef t)).
  { destruct (Phase t) eqn:Hph.
    - destruct (known_map _ _ _ _ _ _ _ Happ _ t (si_pre _ _ _ _ _ _ _ Hsys) Hex Hk Hph) as (_ & Hn & Hf & _).
      destruct (ap_files _ _ _ _ _ _ _ Happ _ Hf) as [c Hc]. pose proof (ap_map _ _ _ _ _ _ _ Happ _ Hf) as Hm.
      rewrite Hc in Hm. simpl in Hm.
      destruct (map_act_form mapf reducef t c (m (Filename t) c) Hph) as (k & -> & Hg); [rewrite Hn; apply Happ|done|].
      split; [done|]. apply ok_map_start; [done|]. unfold files_of. by rewrite Hc.
    - destruct (known_reduce _ d t Hsys Hex Hk Hph) as (_ & i & Hi0 & Hfn).
      pose proof (job_ok_sys _ _ _ _ _ _ _ Happ _ (si_pre _ _ _ _ _ _ _ Hsys) Hex) as Hjob.
      destruct (reduce_act_form mapf reducef f (ap_reduce _ _ _ _ _ _ _ Happ) (f_order _ _ _ _ _ _ Hjob) t i Hph) as (k & -> & Hg);
        [lia|done|]. split; [done|]. apply ok_reduce_start; try done. }
  destruct Hact as [Hwr Hact]. apply (finv_upd s d p t _ (fbase s)); try done; [by rewrite Hno|]. exists pr. auto.
Qed.

(** The end of a task. *)
Lemma finv_end s d p pr :
  finv_at s d -> procs (fbase s) !! p = Some pr -> facts s !! p = Some (ARet (Returns ())) ->
  finv_at (act_step p pr true (ARet (Returns ())) s) d.
Proof.
  intros [Hw He Hr Ha] Hpr Hp. cbn [act_step]. split; cbn [fbase facts fowner].
  - apply (winv_proc fs n m f fs0 p _ (set_dir d (fbase s))); [done|]. constructor.
  - done.
  - apply files_rel_facts; [done|done|]. intros q. destruct (decide (p = q)) as [<-|Hne].
    + right. by rewrite Hp, lookup_delete_eq.
    + left. by rewrite lookup_delete_ne.
  - intros q a [Hne Hq]%lookup_delete_Some. destruct (Ha q a Hq) as (t & (prq & Hprq & Hpc) & Hk & Hact).
    exists t. split_and!; [|done|done]. exists prq. simpl. by rewrite list_lookup_insert_ne.
Qed.

(** The death of a process. *)
Lemma finv_crash s d p pr :
  finv_at s d -> procs (fbase s) !! p = Some pr ->
  finv_at (mkFine (set_proc p (set_ppc PGone pr) (fbase s)) (facts s) (fowner s)) d.
Proof.
  intros [Hw He Hr Ha] Hpr. split; cbn [fbase facts fowner]; [|done|by apply files_rel_facts; auto|].
  - by apply (winv_proc fs n m f fs0 p _ (set_dir d (fbase s))).
  - intros q a Hq. destruct (Ha q a Hq) as (t & (prq & Hprq & Hpc) & Hk & Hact). exists t. split_and!; [|done|done].
    unfold proc_at. simpl. destruct (decide (p = q)) as [<-|Hne].
    + rewrite list_lookup_insert_eq by (by eapply lookup_lt_Some). eauto.
    + rewrite list_lookup_insert_ne by done. eauto.
Qed.

Definition fpunctual (ev : FEvent) (s : FineSystem) : Prop := ev = FBase WSched -> in_time (sys (fbase s)).

(** Every step keeps the invariant, until the master exits. *)
Lemma finv_step ev s s' :
  finv s -> fpunctual ev s -> fclean ev s = true -> fstep mapf reducef ev s = Some s' ->
  exited (sys (fbase s')) = false -> finv s'.
Proof.
  intros Hi Hpu Hcl Hst Hex. destruct ev as [ev|p|p ok|p]; cbn [fstep] in Hst.
  - case_guard as Hb; [|done]. cbn [mbind option_bind] in Hst.
    destruct (wstep disk_fine mapf reducef ev (fbase s)) as [b|] eqn:E; [|done]. injection Hst as <-.
    eapply finv_base; try done. intros ->. by apply Hpu.
  - destruct (procs (fbase s) !! p) as [pr|] eqn:Hpr; [|done]. cbn [mbind option_bind] in Hst.
    destruct (p_pc pr) eqn:Hpc; try done. destruct (facts s !! p) eqn:Hno; [done|]. injection Hst as <-.
    destruct Hi as [d Hi]. exists d. by eapply finv_begin.
  - destruct (procs (fbase s) !! p) as [pr|] eqn:Hpr; [|done]. cbn [mbind option_bind] in Hst.
    destruct (p_pc pr) eqn:Hpc; try done. destruct (facts s !! p) as [a|] eqn:Ha; [|done]. injection Hst as <-.
    destruct Hi as [d Hi]. destruct (fi_acts _ _ Hi p a Ha) as (u & Hpa & Hk & Hact).
    cbn [fclean] in Hcl. rewrite Ha in Hcl. apply andb_true_iff in Hcl as [-> Hcl].
    assert (Hex0 : exited (sys (fbase s)) = false) by (by destruct a; cbn in Hex).
    assert (Hcl' : match a with ARead name _ => whole s name = true | _ => True end) by (by destruct a).
    assert (Hend : a = ARet (Returns ()) \/ a <> ARet (Returns ())).
    { destruct a as [[[]| |]| | | | |]; try (by right). by left. }
    destruct Hend as [->|Hend]; [exists d; by apply finv_end|].
    destruct (Phase u) eqn:Hph; [by eapply finv_map_act|by eapply finv_reduce_act].
  - destruct (procs (fbase s) !! p) as [pr|] eqn:Hpr; [|done]. injection Hst as <-.
    destruct Hi as [d Hi]. exists d. by apply finv_crash.
Qed.

(** ** Reachable states *)

Inductive freachable : FineSystem -> Prop :=
  | freach_init M : MakeMaster fs n = Some M -> freachable (start_fine M fs0)
  | freach_step s ev s' : freachable s -> fpunctual ev s -> fclean ev s = true ->
      fstep mapf reducef ev s = Some s' -> freachable s'.

Lemma finv_start M : MakeMaster fs n = Some M -> finv (start_fine M fs0).
Proof.
  intros HM. exists fs0. split; cbn [start_fine fbase facts fowner].
  - by apply (winv_start fs n m mapf reducef f fs0 Happ).
  - intros name c Hc. by left.
  - intros name. unfold file_rel. cbn [start_fine fbase start_job dir fowner]. by destruct (fs0 !! name).
  - intros p a Hp. by rewrite lookup_empty in Hp.
Qed.

Lemma fstep_sys ev s s' :
  fstep mapf reducef ev s = Some s' ->
  sys (fbase s') = sys (fbase s) \/ exists ev', mstep ev' (sys (fbase s)) = Some (sys (fbase s')).
Proof.
  destruct ev as [ev|p|p ok|p]; cbn [fstep]; intros Hst.
  - case_guard as Hb; [|done]. cbn [mbind option_bind] in Hst.
    destruct (wstep disk_fine mapf reducef ev (fbase s)) as [b|] eqn:E; [|done]. injection Hst as <-. by eapply wstep_sys.
  - destruct (procs (fbase s) !! p) as [pr|]; [|done]. cbn [mbind option_bind] in Hst.
    destruct (p_pc pr); try done. destruct (facts s !! p); [done|]. injection Hst as <-. by left.
  - destruct (procs (fbase s) !! p) as [pr|]; [|done]. cbn [mbind option_bind] in Hst.
    destruct (p_pc pr); try done. destruct (facts s !! p) as [a|]; [|done]. injection Hst as <-. left.
    by destruct a, ok.
  - destruct (procs (fbase s) !! p) as [pr|]; [|done]. injection Hst as <-. by left.
Qed.

Lemma freachable_inv s :
  freachable s -> (exited (sys (fbase s)) = false -> finv s) /\
  (mdone (master (sys (fbase s))) = true -> fs = [] \/ pc (sys (fbase s)) = SEnd).
Proof.
  induction 1 as [M HM|s ev s' Hr [IH1 IH2] Hp Hc Hst].
  { pose proof (winv_start fs n m mapf reducef f fs0 Happ M HM) as Hi. split; [intros _; by apply finv_start|].
    apply (si_mdone _ _ _ _ _ _ _ (wi_sys _ _ _ _ _ _ Hi)). }
  assert (Hex : exited (sys (fbase s')) = false -> exited (sys (fbase s)) = false).
  { intros Hex. destruct (fstep_sys ev s s' Hst) as [He|[ev' He]]; [by rewrite <-He|by apply exited_before in He]. }
  assert (Hi : exited (sys (fbase s')) = false -> finv s') by (intros He; eapply finv_step; eauto).
  split; [done|]. intros Hm. destruct (exited (sys (fbase s'))) eqn:Ex.
  - destruct (fstep_sys ev s s' Hst) as [He|[ev' He]]; [rewrite He in *; by apply IH2|].
    destruct (exit_step ev' _ _ He Ex) as [HM Hne]. rewrite HM in Hm. destruct (IH2 Hm); [by left|done].
  - destruct (Hi eq_refl) as [d [Hw _ _ _]]. by apply (si_mdone _ _ _ _ _ _ _ (wi_sys _ _ _ _ _ _ Hw)).
Qed.

(** The result of the job. *)
Lemma fine_result s :
  freachable s -> fs <> [] -> Done (master (sys (fbase s))) = true ->
  exists ts l, job_ok m reducef f n fs0 ts /\ l ≡ₚ ts /\ Filename <$> l = fs /\
    (forall t, t ∈ ts -> mapf (Filename t) (default "" (fs0 !! Filename t)) = Returns (pairs m fs0 t)) /\
    forall i, 0 <= i < n -> is_Some (dir (fbase s) !! out_name (Itoa i)) /\
      (whole s (out_name (Itoa i)) = true ->
       dir (fbase s) !! out_name (Itoa i) = Some (text (lines f (bucket n i (all_pairs m fs0 ts))))).
Proof.
  intros Hr Hne Hd. destruct (freachable_inv s Hr) as [Hi Hm].
  assert (Hpc : pc (sys (fbase s)) = SEnd) by (by destruct (Hm Hd)).
  destruct Hi as [d [Hw He Hrel Ha]]; [unfold exited; by rewrite Hpc|].
  destruct (job_result_inv fs n m mapf reducef f fs0 Happ (set_dir d (fbase s)) Hw Hpc) as (ts & l & Hjob & Hl & Hfs & Hmap & Hout).
  exists ts, l. split_and!; try done. intros i Hi0. specialize (Hout i Hi0). simpl in Hout. split.
  - apply (files_rel_Some s d _ Hrel). by eexists.
  - intros Hwh. by rewrite (whole_same s d _ Hrel Hwh).
Qed.
End Inv.
