(* ===== verification/MrMain.v ===== *)
(** * MapReduce: the programs

    [main/mrmaster.go], [main/mrworker.go] and [main/mrsequential.go] around
    the parts they call: their arguments, the plugin with the application, and
    the loop in which [mrmaster] polls [Done].  And how the master becomes
    reachable for the workers: [server] in [mr/master.go] registers its methods
    with [net/rpc].

    The plugin loader is a parameter ([plugin_Open]); a plugin is a table of
    symbols.  [log.Fatalf] and [os.Exit] are [Exits]. *)

From S2P Require Import Prelude MrUtil MrApps MrJson MrGroup MrFiles MrWorker MrJob MrMaster MrSystem MrActions MrFine.

(** ** Plugins *)

Notation MapF := (string -> string -> GoRun (list KeyValue)).
Notation ReduceF := (string -> list string -> GoRun string).

(** A symbol with its type: one of the two function types of an application,
    or anything else. *)
Inductive Symbol :=
  | SymMap (f : MapF)
  | SymReduce (f : ReduceF)
  | SymOther.

Definition Plugin : Type := string -> option Symbol.

Section Mains.
Context `{GoSort}.
Variable plugin_Open : string -> option Plugin.

(** A type assertion that fails panics. *)
Definition loadPlugin (filename : string) : GoRun (MapF * ReduceF) :=
  match plugin_Open filename with
  | None => Exits
  | Some p =>
      match p "Map" with
      | None => Exits
      | Some (SymMap mapf) =>
          match p "Reduce" with
          | None => Exits
          | Some (SymReduce reducef) => Returns (mapf, reducef)
          | Some _ => Panics
          end
      | Some _ => Panics
      end
  end.

(** [mrsequential.go] has a copy of it. *)
Definition mrsequential_loadPlugin := loadPlugin.

(** [os.Args[k]]. *)
Definition arg (k : Z) (args : list string) : GoRun string :=
  match zidx args k with Some s => Returns s | None => Panics end.

(** ** mrworker.go *)

(** The application it hands to [mr.Worker]: the process then is one of
    [MrFine]. *)
Definition mrworker_main (args : list string) : GoRun (MapF * ReduceF) :=
  if negb (zlen args =? 2) then Exits else name ← arg 1 args; loadPlugin name.

(** ** mrsequential.go *)

Definition mrsequential_main (disk : string -> Disk) (args : list string) : Prog unit :=
  if zlen args <? 3 then lift Exits
  else
    name ← lift (arg 1 args);
    '(mapf, reducef) ← lift (mrsequential_loadPlugin name);
    mrsequential disk mapf reducef (drop 2 args).

(** ** mrmaster.go *)

(** [for m.Done() == false]: [polls] are the states its calls find, a second
    apart; the state in which the loop ends. *)
Fixpoint wait_done (polls : list FineSystem) : option FineSystem :=
  match polls with
  | [] => None
  | s :: polls => if Done (master (sys (fbase s))) then Some s else wait_done polls
  end.

(** The job it starts. *)
Definition mrmaster_job (args : list string) : GoRun (list string * Z) :=
  if zlen args <? 2 then Exits else Returns (drop 1 args, 3).

(** [Done] dereferences what [MakeMaster] returned. *)
Definition mrmaster_main (args : list string) (polls : list FineSystem) : GoRun (option FineSystem) :=
  '(files, nReduce) ← mrmaster_job args;
  match MakeMaster files nReduce with
  | Some _ => Returns (wait_done polls)
  | None => Panics
  end.

End Mains.

(** ** The master's service *)

(** What [net/rpc] looks at: whether names are exported, the number of
    parameters (receiver included) and results, and the parameter types;
    pointers are followed except for the requirement that the reply is one. *)
Record RpcMethod := mkRpcMethod {
  rm_name : string; rm_exported : bool; rm_numIn : nat;
  rm_arg : string; rm_argExported : bool;
  rm_reply : string; rm_replyPtr : bool; rm_replyExported : bool;
  rm_numOut : nat; rm_returnsError : bool;
}.

(** [suitableMethods] of [net/rpc]. *)
Definition suitable (m : RpcMethod) : bool :=
  rm_exported m && Nat.eqb (rm_numIn m) 3 && rm_argExported m && rm_replyPtr m && rm_replyExported m &&
  Nat.eqb (rm_numOut m) 1 && rm_returnsError m.

(** The methods of [*Master]. *)
Definition handler (name arg reply : string) : RpcMethod := mkRpcMethod name true 3 arg true reply true true 1 true.
Definition internal (name : string) (ins outs : nat) : RpcMethod :=
  mkRpcMethod name false ins "" false "" false false outs false.

Definition master_methods : list RpcMethod :=
  [ internal "server" 1 0; mkRpcMethod "Done" true 1 "" false "" false false 1 false; internal "genTaskID" 1 1;
    internal "isTasksDone" 1 1; internal "schedule" 1 0; internal "getWorkerID" 1 2; internal "putWorkerID" 2 2;
    internal "handleHeartbeat" 1 0; handler "WorkerHeartBeat" "MRTask" "bool"; handler "RegWorker" "EmptyArgs" "uint32";
    handler "DeRegWorker" "uint32" "uint32"; handler "AddReduceTask" "[]string" "bool";
    handler "GetTask" "MRArgs" "MRReply"; handler "SetTaskState" "MRArgs" "bool" ].

(** The listening sockets, with the methods served there. *)
Notation Sockets := (gmap string (list (string * string * string))).

(** [server]: an old socket is removed; [ok]: the socket can be opened. *)
Definition server (uid : Z) (ok : bool) (ss : Sockets) : GoRun Sockets :=
  let methods := (fun m => ("Master." +:+ rm_name m, rm_arg m, rm_reply m)) <$> List.filter suitable master_methods in
  let sockname := masterSock uid in
  let ss := delete sockname ss in
  if ok then Returns (<[sockname := methods]> ss) else Exits.

(** The calls of [mr/worker.go], with the types of their arguments. *)
Definition worker_calls : list (string * string * string) :=
  [ ("Master.AddReduceTask", "[]string", "bool"); ("Master.WorkerHeartBeat", "MRTask", "bool");
    ("Master.RegWorker", "EmptyArgs", "uint32"); ("Master.DeRegWorker", "uint32", "uint32");
    ("Master.GetTask", "MRArgs", "MRReply"); ("Master.SetTaskState", "MRArgs", "bool") ].

(** Every call of a worker finds its method, and these are all there are. *)
Lemma worker_calls_served uid ss :
  exists ss' methods, server uid true ss = Returns ss' /\ ss' !! masterSock uid = Some methods /\
    methods ≡ₚ worker_calls /\ forall name, name <> masterSock uid -> ss' !! name = ss !! name.
Proof.
  do 2 eexists. split; [reflexivity|]. split; [apply lookup_insert_eq|]. split.
  - apply (bool_decide_unpack _). by vm_compute.
  - intros name Hne. by rewrite lookup_insert_ne, lookup_delete_ne.
Qed.

(** ** What the programs print *)

Section MainLemmas.
Context `{GoSort}.
Variable plugin_Open : string -> option Plugin.

Lemma wait_done_spec polls s : wait_done polls = Some s -> s ∈ polls /\ Done (master (sys (fbase s))) = true.
Proof.
  induction polls as [|x polls IH]; [done|]. cbn [wait_done]. destruct (Done (master (sys (fbase x)))) eqn:E.
  - intros [= ->]. split; [by left|done].
  - intros Hs. destruct (IH Hs). split; [by right|done].
Qed.

Lemma mrmaster_returns args polls s :
  mrmaster_main args polls = Returns (Some s) ->
  exists prog files, args = prog :: files /\ files <> [] /\ s ∈ polls /\ Done (master (sys (fbase s))) = true.
Proof.
  unfold mrmaster_main, mrmaster_job. destruct (Z.ltb_spec (zlen args) 2) as [|Hl]; [done|]. simpl.
  intros [= Hw]. apply wait_done_spec in Hw as [Hin Hd].
  destruct args as [|prog [|f files]]; unfold zlen in Hl; simpl in Hl; [lia|lia|]. by exists prog, (f :: files).
Qed.

Lemma mrmaster_job_spec args files n : mrmaster_job args = Returns (files, n) -> files = drop 1 args /\ n = 3.
Proof. unfold mrmaster_job. destruct (zlen args <? 2); [done|]. by intros [= <- <-]. Qed.

Lemma mrsequential_main_ok disk prog prog' so files mapf reducef fs :
  files <> [] -> mrworker_main plugin_Open [prog; so] = Returns (mapf, reducef) ->
  mrsequential_main plugin_Open disk (prog' :: so :: files) fs = mrsequential disk mapf reducef files fs.
Proof.
  intros Hne Hw. change (mrsequential_loadPlugin plugin_Open so = Returns (mapf, reducef)) in Hw. unfold mrsequential_main.
  destruct files as [|f files]; [done|]. rewrite (proj2 (Z.ltb_ge _ _)) by (unfold zlen; simpl; lia).
  change (arg 1 (prog' :: so :: f :: files)) with (Returns so). unfold mbind at 1, Prog_bind at 1, lift at 1.
  unfold mbind at 1, Prog_bind at 1, lift at 1. rewrite Hw. change (drop 2 (prog' :: so :: f :: files)) with (f :: files).
  by destruct (mrsequential disk mapf reducef (f :: files) fs) as [[fs' calls] r].
Qed.
End MainLemmas.
