(* ===== verification/MrProps.v ===== *)
(** * Properties of the MapReduce system

    The master hands every input file and every reduce index to exactly one
    task; the workers, crashing and repeating as they may, produce the lines
    of the sequential program; and the places where the code falls short. *)

From S2P Require Import Prelude Utf8 MrUtil MrApps MrJson MrGroup MrFiles MrWorker MrJob MrMaster MrMasterInv.
From S2P Require Import MrSystem MrSystemInv.

(** ** The worker IDs *)

Lemma pool_DeReg id m : NoDup (workerIDs m) -> NoDup (workerIDs (DeRegWorker id m).1).
Proof.
  intros Hn. unfold DeRegWorker, putWorkerID. rewrite inRangeUint32_spec. case_bool_decide as Hin; [done|].
  cbn [fst set_workerIDs workerIDs]. apply NoDup_app. split_and!; [done| |apply NoDup_singleton].
  intros x Hx Hx'. apply list_elem_of_singleton in Hx' as ->. done.
Qed.

Lemma pool_SetTaskState args now r m : workerIDs (SetTaskState args now r m).1 = workerIDs m.
Proof. unfold SetTaskState. by destruct (tasks m !! a_ID args). Qed.

Lemma pool_load_state args d s :
  NoDup (workerIDs (master s)) -> NoDup (workerIDs (master (load_state args d s))).
Proof.
  intros Hn. unfold load_state. destruct (tasks (master s) !! a_ID args); [done|]. destruct d; [|done]. by apply pool_DeReg.
Qed.

Lemma pool_step ev s s' :
  NoDup (workerIDs (master s)) -> mstep ev s = Some s' -> NoDup (workerIDs (master s')).
Proof.
  intros Hn Hst. unfold mstep in Hst. destruct (exited s); [done|].
  destruct ev as [|id|args now|args|l|w ks|k|k|k now| |k now|k|k now]; cbn [handle] in Hst.
  - injection Hst as <-. simpl. unfold RegWorker, getWorkerID. destruct (workerIDs (master s)) eqn:E; [simpl; rewrite E; done|].
    by apply NoDup_cons in Hn as [_ Hn].
  - injection Hst as <-. by apply pool_DeReg.
  - injection Hst as <-. unfold load_beat. destruct (_ =? _); [done|]. by destruct (tasks (master s) !! _).
  - injection Hst as <-. by apply pool_load_state.
  - by injection Hst as <-.
  - destruct (find_retry w ks s); by injection Hst as <-.
  - destruct (waiting s !! k); [|done]. simpl in Hst.
    destruct (sending s) as [[file p]|]; [|destruct (closed s); [|done]]; by injection Hst as <-.
  - destruct (got s !! k) as [g|]; [|done]. simpl in Hst. destruct (g_phase g); [done|]. by injection Hst as <-.
  - destruct (got s !! k) as [g|]; [|done]. simpl in Hst. destruct (g_phase g); [|done]. by injection Hst as <-.
  - unfold schedule in Hst. destruct (pc s) as [|[|f rest]|i| |i|i| | |]; try done;
      repeat case_match; try done; by injection Hst as <-.
  - injection Hst as <-. unfold sweep_task. destruct (tasks (master s) !! k); [|done]. destruct (_ <? _); [|done].
    case_bool_decide; [by apply pool_DeReg|done].
  - destruct (errs s !! k) as [[id w]|]; [|done]. simpl in Hst. injection Hst as <-. by apply pool_load_state.
  - destruct (stores s !! k) as [st|]; [|done]. simpl in Hst. injection Hst as <-. simpl. unfold do_store.
    destruct (st_dereg st); [by apply pool_DeReg|done].
Qed.

Lemma pool_reachable fs n s : mreachable fs n s -> NoDup (workerIDs (master s)).
Proof.
  induction 1 as [m Hm|s ev s' Hr IH Hst]; [|by eapply pool_step].
  unfold MakeMaster in Hm. destruct (_ <=? _); [done|]. rewrite makeRange_10 in Hm. injection Hm as <-.
  apply (NoDup_seqZ 1 10).
Qed.

(** ** The master *)

Section MasterProps.
Variable fs : list string.
Variable n : Z.

(** C8. Nothing is lost and nothing is handed out twice: at every moment of
    every execution, with workers failing, retrying and being swept as they
    may and the handlers interleaving between [Load] and [Store], the file names of the tasks, of the [GetTask] calls about to create
    one and those still to be sent are together the input files and the
    reduce patterns, each exactly once; tasks are stored under their own ID
    and IDs never wrap around. *)
Theorem no_task_lost (s : System) :
  0 < n -> Z.of_nat (length fs) + n < 2 ^ 32 -> mreachable fs n s -> exited s = false ->
  (Filename <$> (map_to_list (tasks (master s))).*2) ++ (g_file <$> got s) ++ (to_send fs n (pc s)).*2
    ≡ₚ fs ++ (reduce_pattern <$> seqZ 0 n) /\
  forall k t, tasks (master s) !! k = Some t ->
    TaskID t = k /\ 1 <= k <= Z.of_nat (size (tasks (master s))) /\ NReduce t = n.
Proof.
  intros Hn Hsm Hr Hex. pose proof (mreachable_ok fs n Hn Hsm s Hr Hex) as Hs. split.
  - pose proof (so_names _ _ _ Hs) as Hnm. unfold everything, planned, pats in Hnm.
    rewrite !fmap_app, !tag_snd, received_snd, Z.sub_0_r in Hnm. rewrite <-Hnm.
    unfold work, cores. rewrite map_to_list_fmap, <-!list_fmap_compose. done.
  - intros k t Ht. destruct (so_ids _ _ _ Hs k t Ht) as [? ?]. pose proof (so_seq _ _ _ Hs).
    split_and!; [done|lia|lia|by apply (so_nReduce _ _ _ Hs k)].
Qed.

(** C14. Map before reduce.  Take an execution in which [schedule]'s sleep is
    long enough: it never sees all map tasks done while a [GetTask] holds a
    name without a task.  When it sees all tasks done at the end of the map
    phase, and no [GetTask] holds a name, every input file has exactly one
    task, that task is a map task, and it is finished; and at every moment of
    the execution each task has the phase its file name asks for. *)
Theorem map_before_reduce (s : System) :
  0 < n -> Z.of_nat (length fs) + n < 2 ^ 32 -> preachable fs n s -> exited s = false ->
  (forall i, pc s = SWait i -> isTasksDone (master s) = true -> got s = [] ->
     work (master s) ≡ₚ tag MapPhase fs /\
     forall k t, tasks (master s) !! k = Some t -> State t = TaskStateFinish /\ Phase t = MapPhase) /\
  (forall k t, tasks (master s) !! k = Some t ->
     (Phase t = MapPhase /\ Filename t ∈ fs) \/
     (Phase t = ReducePhase /\ exists i, 0 <= i < n /\ Filename t = reduce_pattern i)).
Proof.
  intros Hn Hsm Hr Hex. destruct (preachable_ok fs n Hn Hsm s Hr Hex) as (Hs & He & _).
  split.
  - intros i Hpc Hd Hg.
    assert (Hw : work (master s) ≡ₚ tag MapPhase fs).
    { unfold everything, planned in He. rewrite Hpc, Hg in He. simpl in He.
      by apply (Permutation_app_inv_r (tag ReducePhase (pats n 0))) in He. }
    split; [done|]. intros k t Ht. split.
    + unfold isTasksDone in Hd. apply bool_decide_eq_true in Hd. by apply (Hd k).
    + pose proof (elem_of_work _ k t Ht) as Hi. rewrite Hw in Hi. apply list_elem_of_fmap in Hi as (f & [= ? ?] & _). done.
  - intros k t Ht. by apply (task_planned fs n s k).
Qed.

(** When [schedule] sees all tasks finished at the end of such an
    execution and no [GetTask] is under way, every input file has exactly one
    finished map task and every reduce index exactly one finished reduce
    task, and there are no others. *)
Theorem job_complete (s : System) (i : Z) :
  0 < n -> Z.of_nat (length fs) + n < 2 ^ 32 -> preachable fs n s -> pc s = SWaitReduce i ->
  isTasksDone (master s) = true -> got s = [] ->
  work (master s) ≡ₚ tag MapPhase fs ++ tag ReducePhase (reduce_pattern <$> seqZ 0 n) /\
  map_Forall (fun _ t => State t = TaskStateFinish) (tasks (master s)).
Proof.
  intros Hn Hsm Hr Hpc Hd Hg. destruct (preachable_ok fs n Hn Hsm s Hr) as (Hs & He & _).
  { unfold exited. by rewrite Hpc. }
  split; [|by apply bool_decide_eq_true in Hd]. unfold everything, planned, pats in He.
  rewrite Hpc, Hg, Z.sub_0_r in He. simpl in He. by rewrite app_nil_r in He.
Qed.

(** The pool of worker IDs never holds an ID twice, so an ID that
    [RegWorker] hands out is not in the pool afterwards. *)
Theorem worker_pool (s : System) :
  mreachable fs n s ->
  NoDup (workerIDs (master s)) /\
  (forall m' id, RegWorker (master s) = (m', (id, false)) -> id ∉ workerIDs m') /\
  (workerIDs (master s) = [] <-> (RegWorker (master s)).2 = (0, true)).
Proof.
  intros Hr. pose proof (pool_reachable fs n s Hr) as Hp. split; [done|]. unfold RegWorker, getWorkerID. split.
  - intros m' id Hreg. destruct (workerIDs (master s)) as [|x ids]; [done|]. injection Hreg as <- <-.
    by apply NoDup_cons in Hp as [? _].
  - by destruct (workerIDs (master s)).
Qed.

End MasterProps.

(** ** Retrying *)

(** The tasks in error. *)
Definition errors (m : Master) : nat := size (filter (fun kt => State kt.2 = TaskStateErr) (tasks m)).

(** Calls of [GetTask] one after the other: worker, order of the visit, time;
    with the replies. *)
Fixpoint get_tasks (calls : list (Z * list Z * Z)) (m : Master) : list (Z * MRReply) :=
  match calls with
  | [] => []
  | (worker, ks, now) :: calls =>
      let '(m, reply) := GetTask worker ks None now m in (worker, reply) :: get_tasks calls m
  end.

Lemma find_err_finds ks ts k t :
  k ∈ ks -> ts !! k = Some t -> State t = TaskStateErr -> is_Some (find_err ks ts).
Proof.
  intros Hin Ht Hs. induction ks as [|j ks IH]; [by apply not_elem_of_nil in Hin|]. simpl.
  apply elem_of_cons in Hin as [<-|Hin].
  - rewrite Ht, bool_decide_true by done. by eexists.
  - destruct (ts !! j); [|by apply IH]. case_bool_decide; [by eexists|by apply IH].
Qed.

(** One call hands out one task in error. *)
Lemma retry_one worker ks now m k t :
  keyed m -> k ∈ ks -> tasks m !! k = Some t -> State t = TaskStateErr ->
  exists k0 t0 m', tasks m !! k0 = Some t0 /\ State t0 = TaskStateErr /\
    GetTask worker ks None now m = (m', mkReply (Some (reassigned worker now t0))) /\
    keyed m' /\ tasks m' = <[k0 := reassigned worker now t0]> (tasks m) /\ errors m = S (errors m').
Proof.
  intros Hk Hin Ht Hs. destruct (find_err_finds ks (tasks m) k t Hin Ht Hs) as [t0 Hf].
  destruct (find_err_Some _ _ _ Hf) as (Hs0 & k0 & _ & Hk0). pose proof (Hk _ _ Hk0) as Hid.
  exists k0, t0. eexists. unfold GetTask, GetTask_retry. rewrite Hf. simpl. split_and!; try done.
  - intros j u Hj. simpl in Hj. apply lookup_insert_Some in Hj as [[<- <-]|[_ Hj]]; [done|by apply Hk].
  - simpl. by rewrite Hid.
  - unfold errors. simpl. rewrite Hid, map_filter_insert_False by done.
    rewrite map_filter_delete, map_size_delete, (proj2 (map_lookup_filter_Some _ _ _ _)) by done.
    assert (size (filter (fun kt => State kt.2 = TaskStateErr) (tasks m)) <> 0%nat); [|lia].
    intros Hz%map_size_empty_inv. by apply (map_filter_empty_not_lookup _ _ k0 t0) in Hz.
Qed.

(** A task in error is handed out again after as many calls as there are. *)
Lemma retry_all calls : forall m k t,
  keyed m -> tasks m !! k = Some t -> State t = TaskStateErr ->
  (forall w ks now, (w, ks, now) ∈ calls -> forall j, is_Some (tasks m !! j) -> j ∈ ks) ->
  (errors m <= length calls)%nat ->
  exists w ks now, (w, ks, now) ∈ calls /\ (w, mkReply (Some (reassigned w now t))) ∈ get_tasks calls m.
Proof.
  induction calls as [|[[w ks] now] calls IH]; intros m k t Hk Ht Hs Hcov Hlen.
  { exfalso. simpl in Hlen. assert (Hz : errors m = 0%nat) by lia. unfold errors in Hz.
    apply map_size_empty_inv in Hz. by apply (map_filter_empty_not_lookup _ _ k t) in Hz. }
  destruct (retry_one w ks now m k t Hk) as (k0 & t0 & m' & Hk0 & Hs0 & Hg & Hk' & Hts & Herr);
    [eapply Hcov; [by left|by eexists]|done|done|]. simpl. rewrite Hg.
  destruct (decide (k0 = k)) as [->|Hne].
  { rewrite Ht in Hk0. injection Hk0 as <-. exists w, ks, now. split; by left. }
  destruct (IH m' k t) as (w' & ks' & now' & Hin & Hrep); try done.
  - by rewrite Hts, lookup_insert_ne.
  - intros w' ks' now' Hin j Hj. eapply Hcov; [by right|]. rewrite Hts in Hj.
    destruct (decide (k0 = j)) as [<-|?]; [by exists t0|by rewrite lookup_insert_ne in Hj].
  - simpl in Hlen. lia.
  - exists w', ks', now'. split; by right.
Qed.

(** A visit of the sweep to another task changes only that task; the pool of
    worker IDs only grows. *)
Lemma heartbeat_task_other now m j k : keyed m -> j <> k -> tasks (heartbeat_task now m j) !! k = tasks m !! k.
Proof.
  intros Hk Hne. unfold heartbeat_task. destruct (tasks m !! j) as [v|] eqn:Hj; [|done]. destruct (_ <? _); [|done].
  pose proof (Hk _ _ Hj) as Hid. unfold DeRegWorker, putWorkerID.
  case_bool_decide; destruct (inRangeUint32 _ _); cbn [fst set_workerIDs tasks]; try done;
    unfold SetTaskState; simpl; rewrite Hid, Hj; simpl; by rewrite lookup_insert_ne.
Qed.

Lemma sweep_keyed now ks m : keyed m -> keyed (handleHeartbeat ks now m).
Proof.
  intros Hk i u Hi. destruct (same_job_task m _ i u (same_job_heartbeat now ks m) Hi) as (t & Ht & Hc).
  injection Hc as -> _ _ _. by apply Hk.
Qed.

Lemma heartbeat_task_keyed now m j : keyed m -> keyed (heartbeat_task now m j).
Proof. exact (sweep_keyed now [j] m). Qed.

Lemma heartbeat_task_pool now m j id : id ∈ workerIDs m -> id ∈ workerIDs (heartbeat_task now m j).
Proof.
  intros Hid. unfold heartbeat_task. destruct (tasks m !! j) as [v|]; [|done]. destruct (_ <? _); [|done].
  unfold DeRegWorker, putWorkerID. case_bool_decide; rewrite ?pool_SetTaskState; destruct (inRangeUint32 _ _);
    cbn [fst set_workerIDs workerIDs]; rewrite ?pool_SetTaskState; rewrite ?elem_of_app; auto.
Qed.

Lemma sweep_fresh now ks : forall m k t,
  keyed m -> tasks m !! k = Some t -> BeatTime t = now -> tasks (handleHeartbeat ks now m) !! k = Some t.
Proof.
  induction ks as [|j ks IH]; intros m k t Hk Ht Hb; [done|]. simpl.
  apply IH; [by apply heartbeat_task_keyed| |done]. destruct (decide (j = k)) as [->|Hne].
  - unfold heartbeat_task. by rewrite Ht, Hb, (proj2 (Z.ltb_ge _ _)) by lia.
  - by rewrite heartbeat_task_other.
Qed.

Lemma sweep_pool now ks : forall m id, id ∈ workerIDs m -> id ∈ workerIDs (handleHeartbeat ks now m).
Proof. induction ks as [|j ks IH]; intros m id Hid; [done|]. simpl. apply IH. by apply heartbeat_task_pool. Qed.

(** A round of the sweep that visits a silent task, among others. *)
Lemma sweep_silent now ks : forall m k t,
  keyed m -> tasks m !! k = Some t -> State t <> TaskStateFinish -> 10 < now - BeatTime t -> k ∈ ks ->
  keyed (handleHeartbeat ks now m) /\
  tasks (handleHeartbeat ks now m) !! k = Some (with_state TaskStateErr now t) /\
  WorkerID t ∈ workerIDs (handleHeartbeat ks now m).
Proof.
  induction ks as [|j ks IH]; intros m k t Hk Ht Hs Hb Hin; [by apply not_elem_of_nil in Hin|]. simpl.
  pose proof (heartbeat_task_keyed now m j Hk) as Hk'.
  destruct (decide (j = k)) as [->|Hne].
  2:{ apply IH; try done; [by rewrite heartbeat_task_other|]. by apply elem_of_cons in Hin as [->|?]. }
  assert (Hj : tasks (heartbeat_task now m k) !! k = Some (with_state TaskStateErr now t) /\
    WorkerID t ∈ workerIDs (heartbeat_task now m k)).
  { pose proof (Hk _ _ Ht) as Hid. unfold heartbeat_task. rewrite Ht, (proj2 (Z.ltb_lt _ _)), bool_decide_false by (lia || done).
    unfold DeRegWorker, putWorkerID, SetTaskState. simpl. rewrite Hid, Ht. simpl. rewrite inRangeUint32_spec.
    case_bool_decide as Hw; cbn [fst set_workerIDs set_tasks tasks workerIDs]; rewrite lookup_insert_eq; (split; [done|]); [done|].
    apply elem_of_app. right. by left. }
  destruct Hj as [Hj Hw]. split_and!; [by apply (sweep_keyed now ks)|by apply sweep_fresh|by apply sweep_pool].
Qed.

(** C34. Fault tolerance, when no other handler runs meanwhile
    ([steps_of_sweep], [steps_of_retry]).  A round of [handleHeartbeat] that visits, in any
    order and among any other tasks, an unfinished task whose worker has been
    silent for more than ten seconds puts it in error and returns the worker's
    ID to the pool.  From then on, of the next calls of [GetTask] that find
    tasks in error, each visiting all tasks in an order of its own, one hands
    the task, with the same file, phase and ID, to the worker that asks: at
    the latest the one whose number is the number of tasks in error. *)
Theorem silent_task_retried (m : Master) (k : Z) (t : MRTask) (now : Z) (ks : list Z)
    (calls : list (Z * list Z * Z)) :
  keyed m -> tasks m !! k = Some t -> State t <> TaskStateFinish -> 10 < now - BeatTime t -> k ∈ ks ->
  tasks (handleHeartbeat ks now m) !! k = Some (with_state TaskStateErr now t) /\
  WorkerID t ∈ workerIDs (handleHeartbeat ks now m) /\
  ((forall worker ks' now', (worker, ks', now') ∈ calls -> forall j, is_Some (tasks m !! j) -> j ∈ ks') ->
   (errors (handleHeartbeat ks now m) <= length calls)%nat ->
   exists worker ks' now', (worker, ks', now') ∈ calls /\
     (worker, mkReply (Some (mkTask worker k (NReduce t) (Phase t) (Filename t) TaskStateSending now')))
       ∈ get_tasks calls (handleHeartbeat ks now m)).
Proof.
  intros Hk Ht Hs Hb Hin. destruct (sweep_silent now ks m k t Hk Ht Hs Hb Hin) as (Hk' & Ht' & Hw).
  split_and!; [done|done|]. intros Hcov Hlen.
  destruct (retry_all calls _ k _ Hk' Ht' eq_refl) as (w & ks' & now' & Hc & Hr); [|done|].
  - intros w ks' now' Hc j [u Hj]. eapply Hcov; [exact Hc|].
    destruct (same_job_task m (handleHeartbeat ks now m) j u) as (v & Hv & _); [apply same_job_heartbeat|done|by eexists].
  - exists w, ks', now'. split; [done|]. unfold reassigned in Hr. simpl in Hr. by rewrite (Hk _ _ Ht) in Hr.
Qed.

(** ** The workers *)

Section WorkerProps.
Context `{GoSort} `{JsonCodec}.

(** Distributed equals sequential.  Take a directory without names
    starting with [mr-], map tasks with distinct IDs, a [Reduce] that does
    not depend on the order of its values, and any run in which first every
    map task is completed at least once, among attempts that die after any
    number of files, and then every reduce task is run at least once, among
    repetitions and late map attempts.  The lines of the output files, taken
    together, are the lines [mrsequential] prints for the same input. *)
Theorem mapreduce_matches_sequential
    (m : string -> string -> list KeyValue) (reducef : string -> list string -> GoRun string)
    (f : string -> list string -> string) (n : Z) (fs0 : FS) (ts l : list MRTask)
    (mapf : string -> string -> GoRun (list KeyValue)) (evs1 evs2 : list JobEvent) :
  job_ok m reducef f n fs0 ts -> l ≡ₚ ts ->
  (forall t, t ∈ ts -> mapf (Filename t) (default "" (fs0 !! Filename t)) = Returns (pairs m fs0 t)) ->
  Forall (event_ok m n fs0 ts) (evs1 ++ evs2) -> Forall (fun ev => is_map ev = true) evs1 ->
  (forall t, t ∈ ts -> exists mapf, JMap mapf t ∈ evs1) ->
  (forall i, 0 <= i < n -> exists t, Filename t = reduce_pattern i /\ JReduce t ∈ evs2) ->
  exists (out : Z -> list string) (ls : list string),
    mrsequential disk_fine mapf reducef (Filename <$> l) fs0 = (<["mr-out-0" := text ls]> fs0, [], Returns ()) /\
    (forall i, 0 <= i < n ->
       run_job reducef (evs1 ++ evs2) fs0 !! out_name (Itoa i) = Some (text (out i))) /\
    concat (out <$> seqZ 0 n) ≡ₚ ls.
Proof.
  intros Hjob Hl Hm Hev Hmaps Hall Hred. apply Forall_app in Hev as [He1 He2].
  exists (fun i => lines f (bucket n i (all_pairs m fs0 ts))), (lines f (all_pairs m fs0 ts)). split_and!.
  - by eapply sequential_ok.
  - intros i Hi. eapply run_job_outs; eauto.
  - by eapply job_lines.
Qed.

(** The whole job is correct.  Take an application that returns and whose
    [Reduce] does not depend on the order of its values, a directory without
    names starting with [mr-] that holds the input files, and any execution of
    the master and any number of workers: workers start and die at any time,
    also in the middle of a map task, calls time out, reports are late and out
    of order, silent tasks are handed out again.  If the sleeps of [schedule]
    are long enough for the [GetTask] calls under way, then as soon as [Done]
    returns true (and there was a file to process) all output files are there,
    and their lines, taken together, are the lines [mrsequential] prints. *)
Theorem job_correct (fs : list string) (n : Z) (m : string -> string -> list KeyValue)
    (mapf : string -> string -> GoRun (list KeyValue)) (reducef : string -> list string -> GoRun string)
    (f : string -> list string -> string) (fs0 : FS) (s : MRSystem) :
  app_ok fs n m mapf reducef f fs0 -> wreachable fs n mapf reducef fs0 s ->
  fs <> [] -> Done (master (sys s)) = true ->
  exists (out : Z -> list string) (ls : list string),
    mrsequential disk_fine mapf reducef fs fs0 = (<["mr-out-0" := text ls]> fs0, [], Returns ()) /\
    (forall i, 0 <= i < n -> dir s !! out_name (Itoa i) = Some (text (out i))) /\
    concat (out <$> seqZ 0 n) ≡ₚ ls.
Proof.
  intros Happ Hr Hne Hd.
  destruct (job_result fs n m mapf reducef f fs0 Happ s Hr Hne Hd) as (ts & l & Hjob & Hl & <- & Hm & Hout).
  exists (fun i => lines f (bucket n i (all_pairs m fs0 ts))), (lines f (all_pairs m fs0 ts)).
  split_and!; [by eapply sequential_ok|done|by eapply job_lines].
Qed.

(** C26. A map task with a readable file writes one file per reduce task and
    nothing else, reports no error, and distributes the pairs: bucket [i]
    holds the pairs whose key hashes to [i], in key order, and the buckets
    together are exactly the pairs the application produced. *)
Theorem do_map_correct (mapf : string -> string -> GoRun (list KeyValue)) (t : MRTask) (fs : FS)
    (content : string) (kvs : list KeyValue) :
  0 < NReduce t -> fs !! Filename t = Some content -> mapf (Filename t) content = Returns kvs ->
  exists fs', doMap disk_fine mapf t fs =
      (fs', [], Returns (mid_name (TaskID t) <$> seqZ 0 (NReduce t), false)) /\
    (forall i, 0 <= i < NReduce t ->
       fs' !! mid_name (TaskID t) i = Some (json_encode (bucket (NReduce t) i (sort_ByKey kvs)))) /\
    (forall name, (forall i, 0 <= i < NReduce t -> name <> mid_name (TaskID t) i) -> fs' !! name = fs !! name) /\
    concat ((fun i => bucket (NReduce t) i (sort_ByKey kvs)) <$> seqZ 0 (NReduce t)) ≡ₚ kvs.
Proof.
  intros Hn Hf Hm. exists (write_all (map_files t kvs) fs). split_and!.
  - by eapply doMap_ok.
  - intros i Hi. destruct (write_all_has (map_files t kvs) fs (mid_name (TaskID t) i)) as [c Hc].
    { apply list_elem_of_fmap. exists (mid_name (TaskID t) i, json_encode (bucket (NReduce t) i (sort_ByKey kvs))).
      split; [done|]. apply elem_of_map_files. eauto. }
    rewrite Hc. apply write_all_in in Hc as [Hc|[Hc _]].
    + apply elem_of_map_files in Hc as (j & Hj & Heq & ->). by apply mid_name_inj in Heq as [_ ->]; [|lia..].
    + exfalso. apply Hc, list_elem_of_fmap.
      exists (mid_name (TaskID t) i, json_encode (bucket (NReduce t) i (sort_ByKey kvs))).
      split; [done|]. apply elem_of_map_files. eauto.
  - intros name Hname. apply write_all_other. intros Hin. apply list_elem_of_fmap in Hin as ([x c] & -> & Hw).
    apply elem_of_map_files in Hw as (i & Hi & -> & _). by apply (Hname i Hi).
  - etrans; [|apply sort_ByKey_perm].
    pose proof (concat_buckets (fun kv => bucket_of (NReduce t) (Key kv)) (Z.to_nat (NReduce t)) (sort_ByKey kvs)) as Hb.
    rewrite Z2Nat.id in Hb by lia. apply Hb. apply Forall_forall. intros kv _. by apply ihash_bucket.
Qed.

(** C27. The grouping loop of [doReduce] and [mrsequential] terminates on
    every list, and on sorted pairs it prints exactly one line per distinct
    key, in ascending order, computed from all the values of that key. *)
Theorem reduce_loop_correct (reducef : string -> list string -> GoRun string)
    (f : string -> list string -> string) (kvs : list KeyValue) :
  (forall k vs, reducef k vs = Returns (f k vs)) ->
  reduce_all reducef (sort_ByKey kvs) =
    Some (text (map (fun k => line k (f k (values_of k (sort_ByKey kvs)))) (keys_of kvs)), Returns ()) /\
  StronglySorted String.le (keys_of kvs) /\ NoDup (keys_of kvs) /\
  (forall k, k ∈ keys_of kvs <-> k ∈ Key <$> kvs).
Proof.
  intros Hr. split_and!.
  - rewrite reduce_all_spec, (emit_text _ f _ _ Hr), (groups_sorted _ (sort_ByKey_le kvs)), map_map.
    by rewrite (keys_of_perm _ _ (sort_ByKey_perm kvs)).
  - apply StronglySorted_merge_sort; apply _.
  - apply NoDup_keys_of.
  - intros k. apply elem_of_keys_of.
Qed.

(** A map task whose application panics is reported as finished: the
    worker recovers, reports an error, then reports success and goes on,
    while no intermediate file has been written. *)
Theorem panic_reported_finished (disk : string -> Disk) (mapf : string -> string -> GoRun (list KeyValue))
    (reducef : string -> list string -> GoRun string) (t : MRTask) (fs : FS) (content : string) :
  Phase t = MapPhase -> 0 <= NReduce t -> fs !! Filename t = Some content -> mapf (Filename t) content = Panics ->
  run_task disk mapf reducef t fs =
    (fs, [mkArgs (TaskID t) TaskStateRunning; mkArgs (TaskID t) TaskStateErr; mkArgs (TaskID t) TaskStateFinish],
     Returns ()).
Proof.
  intros Hp Hn Hf Hm. unfold run_task, task_body, doMap, recovering, setTaskState, lift_opt, lift, get_fs, mbind, Prog_bind.
  rewrite Hp, (proj2 (Z.ltb_ge _ _)), Hf, Hm by lia. done.
Qed.

(** A reduce task that meets a file it cannot decode stops reading and
    still succeeds: the pairs of that file and of all later ones are missing
    from its output, and no error is reported. *)
Theorem undecodable_file_dropped (reducef : string -> list string -> GoRun string)
    (f : string -> list string -> string) (t : MRTask) (i : Z) (fs : FS)
    (g : string -> list KeyValue) (before after : list string) (bad c : string) :
  (forall k vs, reducef k vs = Returns (f k vs)) -> 0 <= i -> Filename t = reduce_pattern i ->
  Glob (reduce_pattern i) fs = before ++ bad :: after ->
  (forall name, name ∈ before -> exists c, fs !! name = Some c /\ json_decode c = Some (g name)) ->
  fs !! bad = Some c -> json_decode c = None ->
  exists out, doReduce disk_fine reducef t fs = (<[out_name (Itoa i) := out]> fs, [], Returns false) /\
    reduce_all reducef (sort_ByKey (concat (g <$> before))) = Some (out, Returns ()).
Proof.
  intros Hr Hi Ht Hg Hb Hbad Hd.
  destruct (reduce_loop_total reducef f (sort_ByKey (concat (g <$> before))) Hr) as [out Hout].
  exists out. split; [|done]. unfold doReduce, recovering, lift_opt, lift, get_fs, mbind, Prog_bind.
  rewrite Ht, last_field_pattern, Hg, (read_loop_break _ _ _ bad c g) by done. simpl.
  by rewrite Hout.
Qed.

(** C36. Word count counts words: on readable files, [mrsequential] with the
    application of [wc.go] prints one line per distinct word, in ascending
    order, with the number of its occurrences in all files. *)
Theorem wc_counts `{Unicode} (fs : FS) (names : list string) :
  (forall name, name ∈ names -> is_Some (fs !! name)) ->
  let ws := concat ((fun name => words (default "" (fs !! name))) <$> names) in
  mrsequential disk_fine wc_Map wc_Reduce names fs =
    (<["mr-out-0" := text (map (fun w => line w (Itoa (zlen (filter (fun v => v = w) ws))))
         (sort_Strings (remove_dups ws)))]> fs, [], Returns ()).
Proof.
  intros Hn ws. set (kvs := concat ((fun name => map (fun w => mkKV w "1") (words (default "" (fs !! name)))) <$> names)).
  assert (Hkvs : kvs = (fun w => mkKV w "1") <$> ws).
  { unfold kvs, ws. clear Hn kvs ws. induction names as [|x l IH]; [done|].
    rewrite !fmap_cons. cbn [concat]. by rewrite IH, fmap_app. }
  assert (Hkeys : Key <$> kvs = ws) by (rewrite Hkvs, <-list_fmap_compose; apply list_fmap_id).
  assert (Hvals : forall w, zlen (values_of w kvs) = zlen (filter (fun v => v = w) ws)).
  { intros w. rewrite Hkvs. unfold zlen, values_of. f_equal. rewrite length_fmap. clear.
    induction ws as [|v ws IH]; [done|]. cbn [fmap list_fmap]. rewrite !filter_cons. simpl.
    destruct (decide (v = w)); simpl; by rewrite IH. }
  unfold mrsequential, mbind, Prog_bind, lift_opt, lift.
  rewrite (seq_map_total _ (fun _ c => map (fun w => mkKV w "1") (words c)) (fun name => default "" (fs !! name))).
  2:{ intros name Hin. destruct (Hn name Hin) as [c Hc]. by rewrite Hc. }
  simpl. change (concat _) with kvs.
  rewrite (reduce_all_lines wc_Reduce (fun _ vs => Itoa (zlen vs)) _ kvs); [|done| |apply sort_ByKey_le|apply sort_ByKey_perm].
  2:{ intros k vs vs' Hp. unfold zlen. by rewrite Hp. }
  unfold write_output, disk_fine, write. simpl. do 4 f_equal. unfold lines, keys_of. rewrite Hkeys.
  apply map_ext. intros w. by rewrite Hvals.
Qed.

End WorkerProps.

(** Reduce task [i] reads the bucket-[i] files of all map tasks and no
    others: its pattern matches the file of task [x] and bucket [y] exactly
    when [y] is [i]; no output file matches any pattern, and the index it
    derives from its pattern is [i]. *)
Theorem reduce_reads_own_bucket (i x y : Z) :
  0 <= i -> 0 <= x -> 0 <= y ->
  (glob_match (reduce_pattern i) (mid_name x y) = true <-> y = i) /\
  glob_match (reduce_pattern i) (out_name (Itoa y)) = false /\
  last_field (reduce_pattern i) = Some (Itoa i).
Proof.
  intros Hi Hx Hy. split_and!; [by apply glob_mid_name|by apply out_not_matched|by apply last_field_pattern].
Qed.

(** The words that [wc] and [indexer] extract are the maximal runs of
    letters: the text cut at every rune that is not a letter, without the
    empty pieces; together they are the bytes of all letters, in order, so no
    byte of a word is lost, invalid UTF-8 around them included. *)
Theorem words_correct `{Unicode} (contents : string) :
  words contents =
    map String.string_of_list_ascii (pieces (cut_runes (fun r => negb (IsLetter r)) (runes contents))) /\
  concat (map String.list_ascii_of_string (words contents)) =
    concat (snd <$> List.filter (fun x => IsLetter x.1) (runes contents)) /\
  concat (snd <$> runes contents) = String.list_ascii_of_string contents.
Proof.
  split_and!; [apply FieldsFunc_cut| |apply runes_concat]. unfold words. rewrite FieldsFunc_concat.
  do 2 f_equal. apply List.filter_ext. intros x. apply negb_involutive.
Qed.

(** ** What the master can be brought to do *)

Definition master_of (fs : list string) (n : Z) : System :=
  match MakeMaster fs n with
  | Some m => start_system m
  | None => start_system (mkMaster MapPhase false [] 0 ∅ fs [] n 300)
  end.

Definition state_after (fs : list string) (n : Z) (evs : list MEvent) : System :=
  default (master_of fs n) (mexec evs (master_of fs n)).

(** The call of a worker receives the only file, and is overtaken by
    [schedule], which finds no unfinished task and starts the reduce phase. *)
Definition overtaken : list MEvent :=
  [MSched; MGetTask 1 []; MRecv 0; MSched; MSched; MSched; MPhase 0; MCreate 0 6].

(** If a [GetTask] is slower than the five seconds [schedule] sleeps, an
    input file is handed out as a reduce task and never mapped. *)
Theorem late_file_reduced :
  exists s t, mexec overtaken (master_of ["a"] 1) = Some s /\
    tasks (master s) !! 1 = Some t /\ Filename t = "a" /\ Phase t = ReducePhase.
Proof. eexists _, _. split_and!; [by vm_compute|by vm_compute|done|done]. Qed.

(** Worker 1 finishes a task and goes on; twelve seconds later the sweep
    meets the finished task. *)
Definition id_returned : list MEvent :=
  [MRegWorker; MSched; MGetTask 1 []; MRecv 0; MPhase 0; MCreate 0 0; MSetState (mkArgs 1 TaskStateFinish); MStore 0 1;
   MGetTask 1 []; MSweep 1 12] ++ replicate 9 MRegWorker.

(** The heartbeat sweep gives the ID of a live worker back as soon as one
    of its finished tasks is old: no worker has left, yet an ID that was
    handed out before is handed out again. *)
Theorem worker_id_reused :
  exists s, mexec id_returned (master_of ["a"] 1) = Some s /\
    (RegWorker (master (master_of ["a"] 1))).2 = (1, false) /\ (RegWorker (master s)).2 = (1, false) /\
    Forall (fun ev => match ev with MDeRegWorker _ => False | _ => True end) id_returned.
Proof. eexists. split_and!; [by vm_compute|done|by vm_compute|by repeat constructor]. Qed.

(** The sweep finds task 1 silent and has loaded it when the worker reports it
    finished; both store, the sweep last. *)
Definition overwritten : list MEvent :=
  [MSched; MGetTask 1 []; MRecv 0; MPhase 0; MCreate 0 0; MSweep 1 12; MErr 0;
   MSetState (mkArgs 1 TaskStateFinish); MStore 1 13; MStore 0 13].

(** Nothing protects the tasks between [Load] and [Store], so the report of a
    finished task can be lost: the task is in error and is handed out again. *)
Theorem finish_overwritten :
  exists s t, mexec overwritten (master_of ["a"] 1) = Some s /\ tasks (master s) !! 1 = Some t /\
    State t = TaskStateErr /\ stores s = [] /\ find_retry 2 [1] s = Some (reassigned 2 13 t).
Proof. eexists _, _. split_and!; by vm_compute. Qed.

Lemma make_master_eq fs n :
  0 < n -> MakeMaster fs n = Some (mkMaster MapPhase false (seqZ 1 10) 0 ∅ fs [] n 300).
Proof. intros Hn. unfold MakeMaster. by rewrite (proj2 (Z.leb_gt _ _)), makeRange_10 by lia. Qed.

(** ** Instances *)

Definition punctual_b (ev : MEvent) (s : System) : bool :=
  match ev, pc s with
  | MSched, SWait _ => negb (isTasksDone (master s)) || match got s with [] => true | _ => false end
  | _, _ => true
  end.

Fixpoint punctual_run (evs : list MEvent) (s : System) : bool :=
  match evs with
  | [] => true
  | ev :: evs => punctual_b ev s && match mstep ev s with Some s' => punctual_run evs s' | None => true end
  end.

Lemma punctual_b_spec ev s : punctual_b ev s = true -> punctual ev s.
Proof.
  intros Hb Hev Hm Hd i Hpc. unfold punctual_b in Hb. rewrite Hev, Hpc, Hd in Hb. simpl in Hb. by destruct (got s).
Qed.

Lemma mexec_preachable fs n evs s s' :
  preachable fs n s -> punctual_run evs s = true -> mexec evs s = Some s' -> preachable fs n s'.
Proof.
  revert s. induction evs as [|ev evs IH]; intros s Hr Hp He; simpl in *; [by injection He as <-|].
  apply andb_true_iff in Hp as [Hp Hrest]. destruct (mstep ev s) as [s1|] eqn:Hst; [|done]. simpl in He.
  eapply IH; [|done|done]. eapply preach_step; [done|by apply punctual_b_spec|done].
Qed.

Lemma master_preachable fs n : 0 < n -> preachable fs n (master_of fs n).
Proof.
  intros Hn. unfold master_of. destruct (MakeMaster fs n) as [m|] eqn:E; [by constructor|].
  rewrite make_master_eq in E by done. done.
Qed.

Lemma state_preachable fs n evs :
  0 < n -> punctual_run evs (master_of fs n) = true -> bool_decide (is_Some (mexec evs (master_of fs n))) = true ->
  preachable fs n (state_after fs n evs).
Proof.
  intros Hn Hp Hs. apply bool_decide_eq_true in Hs as [s Hs]. unfold state_after. rewrite Hs. simpl.
  eapply mexec_preachable; [by apply master_preachable|done|done].
Qed.

(** One input file, one reduce task: up to the end of the map phase, and to
    the end of the job. *)
Definition map_done : list MEvent :=
  [MRegWorker; MSched; MGetTask 1 []; MRecv 0; MPhase 0; MCreate 0 0; MSetState (mkArgs 1 TaskStateFinish); MStore 0 1; MSched].
Definition job_done : list MEvent :=
  map_done ++ [MSched; MSched; MGetTask 1 [1]; MRecv 0; MPhase 0; MCreate 0 2;
               MSetState (mkArgs 2 TaskStateFinish); MStore 0 3; MSched].

Lemma no_task_lost_witness :
  (Filename <$> (map_to_list (tasks (master (state_after ["a"] 1 map_done)))).*2) ++
    (g_file <$> got (state_after ["a"] 1 map_done)) ++ (to_send ["a"] 1 (pc (state_after ["a"] 1 map_done))).*2
    ≡ₚ ["a"; "mr-*-0"].
Proof.
  refine (proj1 (no_task_lost ["a"] 1 (state_after ["a"] 1 map_done) _ _ (preachable_mreachable _ _ _ (state_preachable _ _ _ _ _ _)) _));
    by vm_compute.
Defined.

Lemma map_before_reduce_witness :
  pc (state_after ["a"] 1 map_done) = SWait 0 /\
  work (master (state_after ["a"] 1 map_done)) ≡ₚ [(MapPhase, "a")].
Proof.
  split; [by vm_compute|].
  refine (proj1 (proj1 (map_before_reduce ["a"] 1 (state_after ["a"] 1 map_done) _ _ (state_preachable _ _ _ _ _ _) _) 0 _ _ _));
    by vm_compute.
Defined.

Lemma job_complete_witness :
  work (master (state_after ["a"] 1 job_done)) ≡ₚ [(MapPhase, "a"); (ReducePhase, "mr-*-0")].
Proof.
  refine (proj1 (job_complete ["a"] 1 (state_after ["a"] 1 job_done) 0 _ _ (state_preachable _ _ _ _ _ _) _ _ _));
    by vm_compute.
Defined.

Lemma worker_pool_witness : NoDup (workerIDs (master (state_after ["a"] 1 job_done))).
Proof.
  refine (proj1 (worker_pool ["a"] 1 (state_after ["a"] 1 job_done) (preachable_mreachable _ _ _ (state_preachable _ _ _ _ _ _))));
    by vm_compute.
Defined.

(** Two tasks last heard of at time 0; the sweep meets both, and two workers
    ask for work. *)
Definition silent (k : Z) : MRTask := mkTask k k 1 MapPhase "a" TaskStateRunning 0.
Definition silent_master : Master := mkMaster MapPhase false [3; 4] 2 {[1 := silent 1; 2 := silent 2]} ["a"; "b"] [] 1 300.

Lemma silent_task_retried_witness :
  exists worker ks now, (worker, ks, now) ∈ [(3, [2; 1], 21); (4, [1; 2], 22)] /\
    (worker, mkReply (Some (mkTask worker 1 1 MapPhase "a" TaskStateSending now)))
      ∈ get_tasks [(3, [2; 1], 21); (4, [1; 2], 22)] (handleHeartbeat [2; 1] 20 silent_master).
Proof.
  assert (Hl : forall j u, tasks silent_master !! j = Some u -> (j = 1 \/ j = 2) /\ TaskID u = j).
  { intros j u Hj. unfold silent_master in Hj. cbn [tasks] in Hj.
    apply lookup_insert_Some in Hj as [[<- <-]|[_ Hj]]; [by auto|].
    apply lookup_singleton_Some in Hj as [<- <-]. by auto. }
  refine (proj2 (proj2 (silent_task_retried silent_master 1 (silent 1) 20 [2; 1] [(3, [2; 1], 21); (4, [1; 2], 22)]
    _ _ _ _ _)) _ _).
  - intros k t Hk. by apply (Hl k t Hk).
  - done.
  - done.
  - by vm_compute.
  - right. by left.
  - intros w ks now Hin j [u Hj]. apply Hl in Hj as [Hj _].
    repeat (apply elem_of_cons in Hin as [Hin|Hin]; [injection Hin as -> -> ->; set_solver|]). by apply not_elem_of_nil in Hin.
  - apply Nat.leb_le. by vm_compute.
Defined.

(** Two input files, counted by two reduce tasks. *)
Definition wc_dir : FS := {["a" := "x y x"; "b" := "y z"]}.
Definition task_a : MRTask := mkTask 1 1 2 MapPhase "a" TaskStateRunning 0.
Definition task_b : MRTask := mkTask 2 2 2 MapPhase "b" TaskStateRunning 0.
Definition task_r (i : Z) : MRTask := mkTask 1 (3 + i) 2 ReducePhase (reduce_pattern i) TaskStateRunning 0.
Definition wc_pairs (filename contents : string) : list KeyValue := map (fun w => mkKV w "1") (words contents).

Lemma wc_job_ok :
  job_ok wc_pairs wc_Reduce (fun _ vs => Itoa (zlen vs)) 2 wc_dir [task_a; task_b].
Proof.
  constructor.
  - done.
  - apply _.
  - done.
  - intros s. unfold wc_dir. by rewrite !lookup_insert_ne.
  - by repeat constructor; set_solver.
  - intros t Ht. by repeat (apply elem_of_cons in Ht as [->|Ht]); [..|apply not_elem_of_nil in Ht].
  - intros t Ht. by repeat (apply elem_of_cons in Ht as [->|Ht]); [..|apply not_elem_of_nil in Ht].
  - intros t Ht. repeat (apply elem_of_cons in Ht as [->|Ht]); [by eexists..|by apply not_elem_of_nil in Ht].
  - intros t Ht. repeat (apply elem_of_cons in Ht as [->|Ht]); [by repeat constructor..|by apply not_elem_of_nil in Ht].
Qed.

(** Task a dies after one file and is repeated; a late attempt at it runs
    between two attempts at reduce task 0. *)
Definition maps : list JobEvent :=
  [JMapCrash (wc_pairs "a" "x y x") task_a 1; JMap wc_Map task_b; JMap wc_Map task_a].
Definition reduces : list JobEvent := [JReduce (task_r 0); JMap wc_Map task_a; JReduce (task_r 1); JReduce (task_r 0)].

Lemma mapreduce_matches_sequential_witness :
  exists (out : Z -> list string) (ls : list string),
    mrsequential disk_fine wc_Map wc_Reduce ["b"; "a"] wc_dir = (<["mr-out-0" := text ls]> wc_dir, [], Returns ()) /\
    (forall i, 0 <= i < 2 -> run_job wc_Reduce (maps ++ reduces) wc_dir !! out_name (Itoa i) = Some (text (out i))) /\
    concat (out <$> seqZ 0 2) ≡ₚ ls.
Proof.
  apply (mapreduce_matches_sequential wc_pairs wc_Reduce (fun _ vs => Itoa (zlen vs)) 2 wc_dir
    [task_a; task_b] [task_b; task_a] wc_Map maps reduces).
  - apply wc_job_ok.
  - apply perm_swap.
  - intros t Ht. by repeat (apply elem_of_cons in Ht as [->|Ht]); [..|apply not_elem_of_nil in Ht].
  - assert (Ha : task_a ∈ [task_a; task_b]) by set_solver. assert (Hb : task_b ∈ [task_a; task_b]) by set_solver.
    apply Forall_app. split; repeat (apply Forall_cons; split); try apply Forall_nil; try done;
      try (by exists 0); try (by exists 1); split; try done; eexists; split; reflexivity.
  - by repeat constructor.
  - intros t Ht. exists wc_Map. unfold maps. repeat (apply elem_of_cons in Ht as [->|Ht]); [set_solver..|by apply not_elem_of_nil in Ht].
  - intros i Hi. assert (i = 0 \/ i = 1) as [-> | ->] by lia; [exists (task_r 0)|exists (task_r 1)];
      (split; [done|unfold reduces; set_solver]).
Defined.

(** Worker 1 dies after one file of the task for [b]; the sweep gives the task
    to worker 0, which also runs the rest of the job. *)
Definition one_task (p : nat) (now : Z) : list WEvent :=
  [WRunning p; WDeliver 0; WStore 0 now; WExec p; WReport p; WDeliver 0; WStore 0 now; WNext p].
Definition wc_run : list WEvent :=
  [WSched; WSpawn; WRegister 0 false; WGet 0 []; WRecv 0; WPhase 0; WCreate 0 0;
   WSpawn; WRegister 1 false; WGet 1 [1]; WRecv 0; WPhase 0; WCreate 0 0; WRunning 1; WDeliver 0; WStore 0 1; WCrash 1 1] ++
  one_task 0 2 ++ [WBeat 0 false 3; WStore 0 3; WSweep 1 20; WSweep 2 20; WErr 0; WStore 0 20; WGet 0 [1; 2]; WStore 0 20] ++ one_task 0 21 ++
  [WSched; WSched; WSched; WGet 0 [2; 1]; WRecv 0; WPhase 0; WCreate 0 22] ++ one_task 0 23 ++
  [WGet 0 []; WRecv 0; WPhase 0; WCreate 0 24] ++ one_task 0 25 ++
  [WGet 0 []; WSched; WRecv 0; WClose 0; WSched; WSched].

Definition in_time_b (S : System) : bool :=
  negb (isTasksDone (master S)) ||
  match pc S with SWait _ | SWaitReduce _ => bool_decide (got S = []) | _ => true end.

Lemma in_time_b_spec S : in_time_b S = true -> in_time S.
Proof.
  unfold in_time_b, in_time. intros Hb Hd i Hp. rewrite Hd in Hb. simpl in Hb.
  destruct Hp as [Hp|Hp]; rewrite Hp in Hb; by apply bool_decide_eq_true in Hb.
Qed.

Section Runs.
Variable mapf : string -> string -> GoRun (list KeyValue).
Variable reducef : string -> list string -> GoRun string.

(** Runs the events if [schedule] is always in time. *)
Fixpoint wrun (evs : list WEvent) (s : MRSystem) : option MRSystem :=
  match evs with
  | [] => Some s
  | ev :: evs =>
      guard (in_time_b (sys s) = true);;
      s ← wstep disk_fine mapf reducef ev s; wrun evs s
  end.

Lemma wrun_reachable fs n fs0 evs : forall s s',
  wreachable fs n mapf reducef fs0 s -> wrun evs s = Some s' -> wreachable fs n mapf reducef fs0 s'.
Proof.
  induction evs as [|ev evs IH]; intros s s' Hr Hw; simpl in Hw; [by injection Hw as <-|].
  case_guard as Hb; [|done]. simpl in Hw. destruct (wstep _ _ _ ev s) as [s1|] eqn:E; [|done]. simpl in Hw.
  eapply IH; [|exact Hw]. eapply wreach_step; [exact Hr| |exact E]. intros _. by apply in_time_b_spec.
Qed.
End Runs.

Definition wc_start : MRSystem :=
  match MakeMaster ["a"; "b"] 2 with Some M => start_job M wc_dir | None => start_job (mkMaster MapPhase false [] 0 ∅ [] [] 0 0) ∅ end.
Definition wc_end : MRSystem := default wc_start (wrun wc_Map wc_Reduce wc_run wc_start).

Lemma wc_ran : wrun wc_Map wc_Reduce wc_run wc_start = Some wc_end.
Proof.
  assert (Hs : bool_decide (is_Some (wrun wc_Map wc_Reduce wc_run wc_start)) = true) by (by vm_compute).
  apply bool_decide_eq_true in Hs as [s Hs]. unfold wc_end. by rewrite Hs.
Qed.

Lemma wc_reached : wreachable ["a"; "b"] 2 wc_Map wc_Reduce wc_dir wc_end.
Proof.
  eapply wrun_reachable; [|exact wc_ran]. unfold wc_start.
  destruct (MakeMaster ["a"; "b"] 2) as [M|] eqn:E; [by constructor|]. by vm_compute in E.
Qed.

Lemma wc_app_ok : app_ok ["a"; "b"] 2 wc_pairs wc_Map wc_Reduce (fun _ vs => Itoa (zlen vs)) wc_dir.
Proof.
  constructor.
  - done.
  - done.
  - done.
  - apply _.
  - intros s. unfold wc_dir. by rewrite !lookup_insert_ne.
  - intros x Hx. repeat (apply elem_of_cons in Hx as [->|Hx]); [by eexists..|by apply not_elem_of_nil in Hx].
  - intros x Hx. by repeat (apply elem_of_cons in Hx as [->|Hx]); [..|apply not_elem_of_nil in Hx].
  - intros x Hx. repeat (apply elem_of_cons in Hx as [->|Hx]); [by repeat constructor..|by apply not_elem_of_nil in Hx].
Qed.

Lemma job_correct_witness :
  Done (master (sys wc_end)) = true /\
  exists (out : Z -> list string) (ls : list string),
    mrsequential disk_fine wc_Map wc_Reduce ["a"; "b"] wc_dir = (<["mr-out-0" := text ls]> wc_dir, [], Returns ()) /\
    (forall i, 0 <= i < 2 -> dir wc_end !! out_name (Itoa i) = Some (text (out i))) /\
    concat (out <$> seqZ 0 2) ≡ₚ ls.
Proof.
  assert (Hd : Done (master (sys wc_end)) = true) by (by vm_compute). split; [exact Hd|].
  exact (job_correct ["a"; "b"] 2 wc_pairs wc_Map wc_Reduce (fun _ vs => Itoa (zlen vs)) wc_dir wc_end
    wc_app_ok wc_reached (not_eq_sym (nil_cons (x := "a") (l := ["b"]))) Hd).
Defined.

Lemma do_map_correct_witness :
  exists fs', doMap disk_fine wc_Map task_a wc_dir = (fs', [], Returns (["mr-1-0"; "mr-1-1"], false)) /\
    fs' !! "b" = Some "y z".
Proof.
  destruct (do_map_correct wc_Map task_a wc_dir "x y x" (wc_pairs "a" "x y x")) as (fs' & Hd & _ & Ho & _);
    [done|done|done|].
  exists fs'. split; [exact Hd|]. rewrite Ho; [done|]. intros i Hi Heq. by injection Heq.
Defined.

Lemma reduce_loop_correct_witness :
  reduce_all wc_Reduce (sort_ByKey (wc_pairs "a" "x y x")) = Some (text [line "x" "2"; line "y" "1"], Returns ()).
Proof.
  rewrite (proj1 (reduce_loop_correct wc_Reduce (fun _ vs => Itoa (zlen vs)) (wc_pairs "a" "x y x") (fun _ _ => eq_refl))).
  by vm_compute.
Defined.

Lemma panic_reported_finished_witness :
  run_task disk_fine (fun _ _ => Panics) wc_Reduce task_a wc_dir =
    (wc_dir, [mkArgs 1 TaskStateRunning; mkArgs 1 TaskStateErr; mkArgs 1 TaskStateFinish], Returns ()).
Proof. by apply (panic_reported_finished disk_fine (fun _ _ => Panics) wc_Reduce task_a wc_dir "x y x"). Defined.

(** The first intermediate file of bucket 0 is damaged. *)
Definition damaged_dir : FS :=
  {["mr-1-0" := "["; "mr-2-0" := json_encode [mkKV "y" "1"]]}.

Lemma undecodable_file_dropped_witness :
  exists out, doReduce disk_fine wc_Reduce (task_r 0) damaged_dir = (<[out_name (Itoa 0) := out]> damaged_dir, [], Returns false) /\
    reduce_all wc_Reduce (sort_ByKey []) = Some (out, Returns ()).
Proof.
  apply (undecodable_file_dropped wc_Reduce (fun _ vs => Itoa (zlen vs)) (task_r 0) 0 damaged_dir (fun _ => []) [] ["mr-2-0"] "mr-1-0" "[");
    [done|done|done|by vm_compute| |done|done]. intros name Hn. by apply not_elem_of_nil in Hn.
Defined.

Lemma wc_counts_witness :
  mrsequential disk_fine wc_Map wc_Reduce ["a"; "b"] wc_dir =
    (<["mr-out-0" := text [line "x" "2"; line "y" "2"; line "z" "1"]]> wc_dir, [], Returns ()).
Proof.
  etransitivity; [refine (wc_counts wc_dir ["a"; "b"] _)|by vm_compute].
  intros name Hn. repeat (apply elem_of_cons in Hn as [->|Hn]); [by eexists..|by apply not_elem_of_nil in Hn].
Defined.

Lemma reduce_reads_own_bucket_witness :
  glob_match (reduce_pattern 1) (mid_name 12 11) = true <-> 11 = 1.
Proof. by apply (reduce_reads_own_bucket 1 12 11). Defined.
