(* ===== verification/MrFineProps.v ===== *)
(** * Properties of the job in pieces

    A task that is not disturbed does what [MrWorker] says, and a job whose
    processes interleave their system calls, and die between any two of them,
    is correct as long as no file is read while it is being written.  Without
    that proviso words are lost ([torn_file_loses_words]). *)

From S2P Require Import Prelude Utf8 MrUtil MrApps MrJson MrGroup MrFiles MrWorker MrJob MrActions MrMaster MrMasterInv.
From S2P Require Import MrSystem MrSystemInv MrFine MrFineInv MrProps.

Section FineProps.
Context `{GoSort} `{JsonCodec}.

End FineProps.

(** ** Runs *)

Section Runs.
Variable mapf : string -> string -> GoRun (list KeyValue).
Variable reducef : string -> list string -> GoRun string.


(** The same without the second condition. *)
Fixpoint fexec (evs : list FEvent) (s : FineSystem) : option FineSystem :=
  match evs with
  | [] => Some s
  | ev :: evs =>
      if in_time_b (sys (fbase s)) then s ← fstep mapf reducef ev s; fexec evs s else None
  end.

End Runs.

(** [k] actions of a process, and a task of [k] actions with its reports. *)
Definition acts (p k : nat) : list FEvent := replicate k (FAct p true).
Definition bases (evs : list WEvent) : list FEvent := FBase <$> evs.
Definition fine_task (p k : nat) (now : Z) : list FEvent :=
  bases [WRunning p; WDeliver 0; WStore 0 now] ++ FStart p :: acts p k ++ bases [WDeliver 0; WStore 0 now; WNext p].

(** Two processes: 0 dies between creating and writing its first file, 1 repeats the task. *)
Definition pieces_dir : FS := {["a" := "x y x"]}.
Definition pieces_start (n : Z) : FineSystem :=
  match MakeMaster ["a"] n with
  | Some M => start_fine M pieces_dir
  | None => start_fine (mkMaster MapPhase false [] 0 ∅ [] [] 0 0) ∅
  end.





(** ** A file read while it is being rewritten *)

(** One reduce task.  Worker 0 has read the input when it falls silent; worker 1
    repeats the map task and gets the reduce task; worker 0 wakes up and creates
    its file again, worker 1 reads it, worker 0 writes it. *)
Definition torn_run : list FEvent :=
  bases [WSched; WSpawn; WSpawn; WRegister 0 false; WRegister 1 false; WGet 0 []; WRecv 0; WPhase 0; WCreate 0 0;
         WRunning 0; WDeliver 0; WStore 0 0] ++ FStart 0 :: acts 0 1 ++
  bases [WSweep 1 12; WErr 0; WStore 0 12; WGet 1 [1]; WStore 0 12] ++ fine_task 1 5 13 ++
  bases [WSched; WSched; WSched; WGet 1 [1]; WRecv 0; WPhase 0; WCreate 0 22] ++
  acts 0 1 ++ fine_task 1 5 23 ++ acts 0 1 ++
  bases [WGet 1 []; WSched; WRecv 0; WClose 1; WSched; WSched].

(** The job ends, every file is whole, and the output is empty: the code takes
    the truncated file for the end of its input. *)
Theorem torn_file_loses_words :
  exists s, fexec wc_Map wc_Reduce torn_run (pieces_start 1) = Some s /\ Done (master (sys (fbase s))) = true /\
    whole s (out_name "0") = true /\ whole s "mr-1-0" = true /\ dir (fbase s) !! out_name "0" = Some "" /\
    (mrsequential disk_fine wc_Map wc_Reduce ["a"] pieces_dir).1.1 !! "mr-out-0" = Some (line "x" "2" +:+ line "y" "1").
Proof. eexists. split_and!; by vm_compute. Qed.
