(* ===== verification/MrMainProps.v ===== *)
(** * Properties of the MapReduce programs

    What [mrmaster], [mrworker] and [mrsequential] print when they are run as
    programs, and what the timing applications count. *)

From S2P Require Import Prelude Utf8 MrUtil MrApps MrJson MrGroup MrFiles MrTiming MrWorker MrJob MrMaster MrMasterInv.
From S2P Require Import MrSystem MrSystemInv MrActions MrFine MrFineInv MrMain MrProps MrFineProps.

Section MainProps.
Context `{GoSort} `{JsonCodec}.
Variable plugin_Open : string -> option Plugin.

End MainProps.

(** C35. [nparallel] counts the workers that run at the same time.  Whatever the
    other processes do (start, call [nparallel], write files, die and leave
    their markers behind), when a call lists the directory, every process with
    a call that has left its marker and not removed it, the caller included, is
    counted if it stays alive until the call returns; and nothing is counted but
    listed markers of processes that are alive at some time during the call. *)
Theorem nparallel_counts (phase : string) (s s1 s2 : Workers) (p : Z) (dir : list string) (Q : list Z)
    (A : gset Z) (evs : list TEvent) (ret : Z) :
  chars is_ascii phase = true -> treachable phase s -> w_calls s !! p = Some NWritten -> zlen dir <= 1000000 ->
  tstep phase (TStep p true dir) s = Some s1 ->
  NoDup Q -> p ∈ Q -> Forall (fun q => 0 <= q < 2 ^ 63) Q ->
  (forall q, q ∈ Q -> exists pc, w_calls s !! q = Some pc /\ marked pc = true) ->
  m_procs (w_machine s) ⊆ A -> forallb (keeps Q A p) evs = true -> texec phase evs s1 = Some s2 ->
  w_calls s2 !! p = Some (NDone ret) -> zlen Q <= ret <= zlen (List.filter (marks phase A) dir).
Proof. intros Ha. by apply nparallel_count. Qed.

(** ** Instances *)







(** Workers 7 and 8 run; 9 died and left its marker. *)
Definition timing_run : list TEvent :=
  [TSpawn 9; TCall 9; TStep 9 true []; TKill 9; TSpawn 7; TSpawn 8; TCall 7; TCall 8; TStep 7 true [];
   TWrite "mr-1-0" "[]"; TStep 8 true []].
Definition timing_start : Workers := mkWorkers (mkMachine ∅ ∅) ∅.
Definition timing_state (evs : list TEvent) : Workers := default timing_start (texec "map" evs timing_start).
Definition listing : list string := ["mr-worker-map-8"; "mr-1-0"; "mr-worker-map-9"; "mr-worker-map-7"].
Definition scan_rest : list TEvent := TStep 8 true listing :: replicate 6 (TStep 7 true []).

Lemma texec_reachable phase evs : forall s s', treachable phase s -> texec phase evs s = Some s' -> treachable phase s'.
Proof.
  induction evs as [|ev evs IH]; intros s s' Hr He; simpl in He; [by injection He as <-|].
  destruct (tstep phase ev s) as [s1|] eqn:Hs; [|done]. eapply IH; [|exact He]. by eapply treach_step.
Qed.

Lemma texec_app phase evs evs' s : texec phase (evs ++ evs') s = (s1 ← texec phase evs s; texec phase evs' s1).
Proof. revert s. induction evs as [|ev evs IH]; intros s; [done|]. simpl. destruct (tstep phase ev s); [apply IH|done]. Qed.

Definition timing_runs (evs : list TEvent) : bool := bool_decide (is_Some (texec "map" evs timing_start)).

Lemma timing_ran evs : timing_runs evs = true -> texec "map" evs timing_start = Some (timing_state evs).
Proof. intros [s Hs]%bool_decide_eq_true. unfold timing_state. by rewrite Hs. Qed.

Lemma timing_reached evs : timing_runs evs = true -> treachable "map" (timing_state evs).
Proof. intros Hr%timing_ran. eapply texec_reachable; [|exact Hr]. apply treach_init. Qed.

Lemma timing_then evs evs' :
  timing_runs evs = true -> timing_runs (evs ++ evs') = true ->
  texec "map" evs' (timing_state evs) = Some (timing_state (evs ++ evs')).
Proof. intros H1%timing_ran H2%timing_ran. rewrite texec_app, H1 in H2. exact H2. Qed.

Lemma texec_single phase ev s s' : texec phase [ev] s = Some s' -> tstep phase ev s = Some s'.
Proof. simpl. by destruct (tstep phase ev s). Qed.

Lemma both_pids q : q ∈ [7; 8] -> q = 7 \/ q = 8.
Proof. set_solver. Qed.

Lemma nparallel_counts_witness :
  w_calls (timing_state ((timing_run ++ [TStep 7 true listing]) ++ scan_rest)) !! 7 = Some (NDone 2) /\
  zlen [7; 8] <= 2 <= zlen (List.filter (marks "map" {[7; 8]}) listing).
Proof.
  split; [by vm_compute|].
  eapply (nparallel_counts "map" (timing_state timing_run) (timing_state (timing_run ++ [TStep 7 true listing]))
    (timing_state ((timing_run ++ [TStep 7 true listing]) ++ scan_rest)) 7 listing [7; 8] {[7; 8]} scan_rest 2).
  - reflexivity.
  - apply timing_reached. by vm_compute.
  - by vm_compute.
  - by vm_compute.
  - apply texec_single, timing_then; by vm_compute.
  - apply (bool_decide_unpack _). by vm_compute.
  - apply list_elem_of_here.
  - apply (bool_decide_unpack _). by vm_compute.
  - intros q Hq. destruct (both_pids q Hq) as [-> | ->].
    + exists NWritten. by vm_compute.
    + exists NWritten. by vm_compute.
  - apply (bool_decide_unpack _). by vm_compute.
  - by vm_compute.
  - apply timing_then; by vm_compute.
  - by vm_compute.
Defined.
